(* ===== verification/_CoqProject ===== *)
-Q . S2P
Prelude.v
Value.v
K8s.v
K8sInst.v
Apply.v
ObjectMap.v
Discovery.v
Types.v
World.v
ClientSet.v
FakeCluster.v
Finalizer.v
ControllerRef.v
ManageChildren.v
Status.v
RollingUpdate.v
Sha1.v
Worker.v
ParentController.v
Revisions.v
CompositeController.v
DecoratorController.v
Informer.v
Resync.v
Endpoint.v
Webhook.v
Customize.v
Metrics.v
Lifecycle.v
Goroutines.v
GeneratedClients.v
Server.v
Main.v
