(* ===== verification/Prelude.v ===== *)
(** * Metacontroller: a verification library

    Metacontroller runs controllers that are written as webhooks.  Its user
    creates a CompositeController (objects of one kind own children) or a
    DecoratorController (objects of any kind get attachments, labels,
    annotations and a status).  For each of them the process runs a controller:
    it watches the parents and the children, asks the webhook which children a
    parent should have, and makes the cluster agree.  The library models the Go
    packages under [src/pkg] and proves what makes them correct, or how they
    are not.

    ** How the parts interact

    - [Main], [Server]: the process starts, with the clients of
      [GeneratedClients]; two metacontrollers watch the objects that the
      configured labels select; at a signal the process ends.
    - [Lifecycle]: for an event about such an object the metacontroller starts,
      restarts or stops the controller of the object.  The controllers share
      the informers of [Informer], which count their subscribers, and whose
      handlers and timers run as [Resync] has them.
    - [Goroutines]: a controller that was started waits for its caches, runs its
      workers, and is stopped while all of this goes on.
    - [CompositeController] and [DecoratorController]: events put parents on a
      work queue, workers ([Worker]) take them off and sync them: the finalizer
      ([Finalizer]), the claims on children ([ControllerRef]), the related
      objects ([Customize]), the webhook ([ParentController], [Webhook],
      [Endpoint], [Metrics]), the children ([ManageChildren], [Apply]) and the
      status ([Status]).
    - [Revisions] and [RollingUpdate]: when the children of a composite are
      rolled out one at a time, each ControllerRevision of the parent asks the
      webhook for its children, and claims move between the revisions.

    ** Which file models what

    - [Prelude]: Go errors, panics and loops, the state and error monad, its
      Hoare triples, strings and time.
    - [Value], [K8s], [K8sInst]: unstructured objects; the interface to the
      Kubernetes libraries with its documented laws, and one implementation on
      which every theorem is tried.
    - [Apply]: [dynamic/apply/apply.go].
    - [ObjectMap]: [controller/common/api].
    - [Discovery]: [dynamic/discovery].
    - [Types]: [apis/metacontroller/v1alpha1/types.go].
    - [World], [FakeCluster]: the API server as an arbitrary transition per
      request with a log of the requests, and one implementation.
    - [ClientSet]: [dynamic/clientset].
    - [Finalizer]: [controller/common/finalizer].
    - [ControllerRef]: [dynamic/controllerref] and [third_party/kubernetes].
    - [ManageChildren]: [controller/common/manage_children.go].
    - [Status]: [dynamic/object/status.go] and helpers of [common.go].
    - [RollingUpdate], [Revisions], [Sha1]: [composite/rolling_update.go] and
      [composite/controller_revision.go].
    - [Worker], [ParentController], [CompositeController]: [controller/composite].
    - [DecoratorController]: [controller/decorator].
    - [Informer]: [dynamic/informer], one call after the other; [Resync]: the
      mutex, the notifications and the timers of [informer.go], interleaved.
    - [Endpoint], [Webhook]: [pkg/hooks].
    - [Customize]: [controller/common/customize] and the typed [sync.Map].
    - [Metrics]: [pkg/metrics/http.go] and [pkg/cache].
    - [Lifecycle]: construction, [Start] and [Stop] of both kinds of
      controllers, and both [metacontroller.go].
    - [Goroutines]: [Start], [Stop] and [worker] of both controllers,
      interleaved.
    - [GeneratedClients]: [client/generated], the clientset and the factory of
      the informers.
    - [Server]: [pkg/server/server.go] and [NewControllerContext].
    - [Main]: [cmd/metacontroller/main.go], [pkg/profile] and [pkg/events].

    Definitions have the names of the functions, methods and types they
    translate, with the type in front where two would clash.  A Go error is the
    [Err] of a result, a panic its [Panic]; a method that changes its receiver
    or the cluster is a computation [M W A], which keeps the changes made before
    an error.  Maps are finite maps; a loop over one runs in the order that the
    class [GoRuntime] picks, so that a theorem holds for every order.

    ** What the theorems show

    - Merge: the three-way merge terminates without error, decides each field
      and each item of a keyed list, and applying it twice changes nothing.
    - Writes: every request that a sync, a claim, a finalizer, a revision or a
      child update sends is one of those the code means to send, to the object
      and UID it was decided for; read-only fields and statuses are never
      overwritten by an update of a child.
    - Rollouts: a sync moves at most one child to the latest revision, and only
      when those moved before are healthy.
    - Related objects: handing objects to the hook and waking parents on events
      agree, and concurrent syncs share one informer per kind.
    - Webhooks: what a call returns, which credentials it carries, retries, the
      cache of tagged responses, and that metrics cannot be noticed.
    - Life cycle: in every reachable state exactly the controllers that objects
      describe run, watch what they need and hold what they release on [Stop];
      the factory refines a count of subscriptions.
    - Concurrency: no key is synced twice at a time, [Stop] returns and is
      final, a handler that was removed is never called again, adding and
      removing handlers cannot deadlock, an informer is run once, and the
      process ends in order.  The models are step relations, of the code and of
      its environment; termination is by a measure that every step of the code
      decreases ([own_sn], [own_sn_lex], [run_bound] below).
    - Findings: for the places where the code does not do what it means to, a
      theorem with the behaviour it has.

    ** Bounds

    [Apply.merge] recurses in the desired value: [merge_fuel] shows that a fuel
    above its depth is enough, and [Merge] passes that depth and one more.
    [Sha1.blocks] consumes sixteen words per step with the number of words as
    fuel.  The six attempts of [Server.k8sCommunicationCheck] are the code's.
    All else is structural.  Integers of the code that can overflow (durations,
    delays, resync periods) wrap or saturate as in Go, in [Z].

    ** What is not modelled

    - The interleaving of what is not synchronized by design: inside one sync,
      and between the syncs of different parents, computations run one after
      the other, except where it matters (the related informers of concurrent
      syncs, two calls through one response cache), where it is an explicit
      sequence of steps.  In [Goroutines] a sync is a step with a begin and an
      end, in [Resync] a call of a handler is one step.  The ticker of the
      discovery is a sequence of its firings.  A run that panics ends the
      histories.
    - Logging, which decides nothing; the parsing of the command line; events
      of a controller are entries of the log.
    - Code that is not in the repository: the API server, client-go,
      controller-runtime, Prometheus, zcache and the parts of Go's library that
      do input and output are parameters, with laws where a theorem needs them.
    - Generated deep copies: values of the models share nothing. *)
From Stdlib Require Export Ascii.
From stdpp Require Export base gmap strings list fin_maps sorting pretty.
From stdpp Require Import options.
From Hammer Require Export Tactics.

(** ** Notations *)
Declare Scope go_scope.
Delimit Scope go_scope with go.

(** Go's [==] on comparable values. *)
Notation "a == b" := (bool_decide (a = b)) (at level 70, no associativity) : go_scope.
Notation "a != b" := (negb (bool_decide (a = b))) (at level 70, no associativity) : go_scope.
#[global] Open Scope go_scope.

(** ** Go errors

    [fmt.Errorf("msg")], [fmt.Errorf("msg: %w", cause)], the API server's
    status errors, the two sentinel errors the controllers look for, and
    [utilerrors.Aggregate]. *)
Inductive error :=
  | ErrorString (msg : string)
  | WrapError (msg : string) (cause : error)
  | StatusError (reason : string) (msg : string)
  | TooManyRequestError (AfterSecond : Z)
  | ErrRelatedInformerNotSynced
  | AggregateError (errs : list error).

(** [errors.As(err, &tooManyRequestError)] and
    [errors.Is(err, customize.ErrRelatedInformerNotSynced)]: both follow the
    wrapped causes; an aggregate is only searched by [errors.Is]. *)
Fixpoint errors_As_TooManyRequest (e : error) : option Z :=
  match e with
  | TooManyRequestError after => Some after
  | WrapError _ cause => errors_As_TooManyRequest cause
  | _ => None
  end.

Fixpoint errors_Is_NotSynced (e : error) : bool :=
  match e with
  | ErrRelatedInformerNotSynced => true
  | WrapError _ cause => errors_Is_NotSynced cause
  | AggregateError errs => existsb errors_Is_NotSynced errs
  | _ => false
  end.

(** ** Integers and durations

    [int64] arithmetic wraps around; a [time.Duration] counts nanoseconds. *)
Definition int64 (z : Z) : Z := ((z + 2 ^ 63) mod 2 ^ 64 - 2 ^ 63)%Z.
Definition time_Second : Z := 1000000000.
(** [time.Duration(n) * time.Second] *)
Definition seconds (n : Z) : Z := int64 (n * time_Second).

(** A Go call that returns a value and an error has one of the two; a nil
    dereference or a failed type assertion panics instead. *)
Inductive res (A : Type) :=
  | Ok (a : A)
  | Err (e : error)
  | Panic (why : string).
Arguments Ok {A} _.
Arguments Err {A} _.
Arguments Panic {A} _.

#[global] Instance res_ret : MRet res := λ A a, Ok a.
#[global] Instance res_bind : MBind res := λ A B f r,
  match r with Ok a => f a | Err e => Err e | Panic s => Panic s end.
#[global] Instance res_fmap : FMap res := λ A B f r,
  match r with Ok a => Ok (f a) | Err e => Err e | Panic s => Panic s end.

Definition is_Ok {A} (r : res A) : bool :=
  match r with Ok _ => true | _ => false end.

(** [return nil, fmt.Errorf("msg: %w", err)] *)
Definition wrap_err {A} (msg : string) (r : res A) : res A :=
  match r with Err e => Err (WrapError msg e) | _ => r end.

(** A pointer is dereferenced: nil panics. *)
Definition deref {A} (p : option A) : res A :=
  match p with Some a => Ok a | None => Panic "nil pointer dereference" end.

(** [utilerrors.NewAggregate]: no error for an empty list. *)
Definition NewAggregate (errs : list error) : res unit :=
  match errs with [] => Ok () | _ => Err (AggregateError errs) end.

(** ** Effects: explicit state passing

    The state is kept when a computation fails: a request sent before an error
    stays sent. *)
Definition M (W A : Type) : Type := W → res A * W.

#[global] Instance M_ret {W} : MRet (M W) := λ A a w, (Ok a, w).
#[global] Instance M_bind {W} : MBind (M W) := λ A B f m w,
  match m w with
  | (Ok a, w') => f a w'
  | (Err e, w') => (Err e, w')
  | (Panic s, w') => (Panic s, w')
  end.

#[global] Instance M_fmap {W} : FMap (M W) := λ A B f m, m ≫= λ a, mret (f a).

Definition lift {W A} (r : res A) : M W A := λ w, (r, w).
Definition throw {W A} (e : error) : M W A := λ w, (Err e, w).
Definition get_state {W} : M W W := λ w, (Ok w, w).
Definition modify {W} (f : W → W) : M W unit := λ w, (Ok (), f w).
Definition wrap_errM {W A} (msg : string) (m : M W A) : M W A :=
  λ w, let '(r, w') := m w in (wrap_err msg r, w').

(** [x, err := m()]: the error is looked at, a panic still unwinds. *)
Definition try {W A} (m : M W A) : M W (A + error) := λ w,
  match m w with
  | (Ok a, w') => (Ok (inl a), w')
  | (Err e, w') => (Ok (inr e), w')
  | (Panic s, w') => (Panic s, w')
  end.

(** A computation on a part of the state. *)
Record lens (S P : Type) := { view : S → P; put : P → S → S }.
#[global] Arguments view {S P}.
#[global] Arguments put {S P}.
Definition zoom {S P A} (l : lens S P) (m : M P A) : M S A := λ s,
  let '(r, p) := m (view l s) in (r, put l p s).

Fixpoint foldlM {F A B} `{MRet F, MBind F} (f : A → B → F A) (a : A) (l : list B) : F A :=
  match l with
  | [] => mret a
  | x :: l => a' ← f a x; foldlM f a' l
  end.

(** The error loops: run every item, collect the errors ([errs = append(errs, err)]). *)
Definition collect {W A} (f : A → M W unit) (l : list A) : M W (list error) :=
  foldlM (λ errs x, r ← try (f x); mret (match r with inl _ => errs | inr e => errs ++ [e] end)) [] l.

(** A triple with a postcondition for errors; nothing is said of a panic. *)
Definition hoare {W A} (P : W → Prop) (m : M W A) (Q : A → W → Prop) (E : W → Prop) : Prop :=
  ∀ w, P w → match m w with
             | (Ok a, w') => Q a w'
             | (Err _, w') => E w'
             | (Panic _, _) => True
             end.

(** A condition that a computation preserves, whether it fails or not. *)
Definition preserves {W A} (P : W → Prop) (m : M W A) : Prop := hoare P m (λ _, P) P.

(** A computation that cannot fail from here, and does not panic. *)
Definition total {W A} (P : W → Prop) (m : M W A) (Q : A → W → Prop) : Prop :=
  ∀ w, P w → ∃ a w', m w = (Ok a, w') ∧ Q a w'.

(** ** The Go runtime

    Iteration over a map visits every entry once, in an order the language
    leaves open: [range] is any enumeration of the entries. Goroutines that
    are all waited for run in an order the scheduler chooses: [schedule].
    [fmt_float64] is [fmt.Sprintf("%v", f)] on the float with the given
    IEEE-754 bits, and [float64_seconds] is
    [time.Duration(f * float64(time.Second))]. *)
Class GoRuntime := {
  range : ∀ {K V} `{Countable K}, gmap K V → list (K * V);
  range_perm : ∀ {K V} `{Countable K} (m : gmap K V), range m ≡ₚ map_to_list m;
  schedule : ∀ {A}, list A → list A;
  schedule_perm : ∀ {A} (l : list A), schedule l ≡ₚ l;
  fmt_float64 : Z → string;
  float64_seconds : Z → Z;
}.

(** A runtime that enumerates in [map_to_list]'s order, for examples. *)
Definition listRuntime : GoRuntime := {|
  range := λ K V _ _ m, map_to_list m;
  range_perm := λ K V _ _ m, Permutation_refl _;
  schedule := λ A l, l;
  schedule_perm := λ A l, Permutation_refl l;
  fmt_float64 := λ bits, pretty bits;
  float64_seconds := λ bits, bits;
|}.

(** ** Strings *)
Fixpoint strings_Cut (sep : Ascii.ascii) (s : string) : option (string * string) :=
  match s with
  | EmptyString => None
  | String c s' =>
    if c == sep then Some ("", s')
    else '(a, b) ← strings_Cut sep s'; Some (String c a, b)
  end.

(** [strings.SplitN(s, sep, n)] for a one-byte separator and [n > 0]. *)
Fixpoint strings_SplitN (s : string) (sep : Ascii.ascii) (n : nat) : list string :=
  match n with
  | 0 => []
  | 1 => [s]
  | S n =>
    match strings_Cut sep s with
    | None => [s]
    | Some (a, b) => a :: strings_SplitN b sep n
    end
  end.

(** [strings.Split(s, sep)] for a one-byte separator. *)
Fixpoint strings_Split (s : string) (sep : Ascii.ascii) : list string :=
  match s with
  | EmptyString => [""]
  | String c s' =>
    if c == sep then "" :: strings_Split s' sep
    else match strings_Split s' sep with
         | [] => [String c ""]
         | p :: ps => String c p :: ps
         end
  end.

Fixpoint strings_Contains (s : string) (c : Ascii.ascii) : bool :=
  match s with
  | EmptyString => false
  | String d s' => (d == c) || strings_Contains s' c
  end.

Fixpoint strings_Join (l : list string) (sep : string) : string :=
  match l with
  | [] => ""
  | [s] => s
  | s :: l => s +:+ sep +:+ strings_Join l sep
  end.

(** [strings.ReplaceAll(s, old, new)] for a one-byte [old]. *)
Fixpoint strings_ReplaceAll (s : string) (old : Ascii.ascii) (new : string) : string :=
  match s with
  | EmptyString => EmptyString
  | String c s' =>
    (if c == old then new else String c "") +:+ strings_ReplaceAll s' old new
  end.

(** [strings.EqualFold] and [strings.TrimSpace] on ASCII text. *)
Definition ascii_lower (c : Ascii.ascii) : Ascii.ascii :=
  let n := Ascii.nat_of_ascii c in
  if (65 <=? n)%nat && (n <=? 90)%nat then Ascii.ascii_of_nat (n + 32) else c.

Fixpoint strings_ToLower (s : string) : string :=
  match s with
  | EmptyString => EmptyString
  | String c s' => String (ascii_lower c) (strings_ToLower s')
  end.

Definition strings_EqualFold (a b : string) : bool :=
  strings_ToLower a == strings_ToLower b.

Definition is_ascii_space (c : Ascii.ascii) : bool :=
  let n := Ascii.nat_of_ascii c in
  ((9 <=? n)%nat && (n <=? 13)%nat) || (n =? 32)%nat.

Fixpoint trim_left (s : string) : string :=
  match s with
  | EmptyString => EmptyString
  | String c s' => if is_ascii_space c then trim_left s' else s
  end.

Definition strings_TrimSpace (s : string) : string :=
  String.rev (trim_left (String.rev (trim_left s))).

(** [%q]: a double-quoted Go string literal; bytes above 127 are taken to be
    printable UTF-8. *)
Definition dquote : Ascii.ascii := Ascii.ascii_of_nat 34.

Definition hex_digit (n : nat) : Ascii.ascii :=
  if (n <? 10)%nat then Ascii.ascii_of_nat (48 + n) else Ascii.ascii_of_nat (87 + n).

Definition quote_char (c : Ascii.ascii) : string :=
  let n := Ascii.nat_of_ascii c in
  let esc d := String (Ascii.ascii_of_nat 92) (String d "") in
  if (n =? 34)%nat || (n =? 92)%nat then esc c
  else if (n =? 7)%nat then esc "a"%char
  else if (n =? 8)%nat then esc "b"%char
  else if (n =? 12)%nat then esc "f"%char
  else if (n =? 10)%nat then esc "n"%char
  else if (n =? 13)%nat then esc "r"%char
  else if (n =? 9)%nat then esc "t"%char
  else if (n =? 11)%nat then esc "v"%char
  else if (n <? 32)%nat || (n =? 127)%nat then
    String (Ascii.ascii_of_nat 92)
      (String "x"%char (String (hex_digit (n / 16)) (String (hex_digit (n mod 16)) "")))
  else String c "".

Fixpoint quote_body (s : string) : string :=
  match s with
  | EmptyString => EmptyString
  | String c s' => quote_char c +:+ quote_body s'
  end.

Definition quote (s : string) : string :=
  String dquote (quote_body s +:+ String dquote "").

(** ** Tactics *)

(** Case on every [match] and [decide] in sight, cleaning up. *)
Ltac go_cases :=
  repeat (case_match || case_decide || case_bool_decide); simplify_eq/=.

(** Turn the boolean tests of the code into the propositions they decide. *)
Ltac go_bools :=
  repeat match goal with
  | H : bool_decide _ = true |- _ => apply bool_decide_eq_true in H
  | H : bool_decide _ = false |- _ => apply bool_decide_eq_false in H
  | H : negb _ = true |- _ => apply negb_true_iff in H
  | H : negb _ = false |- _ => apply negb_false_iff in H
  | H : _ && _ = true |- _ => apply andb_true_iff in H as [??]
  | H : _ || _ = false |- _ => apply orb_false_iff in H as [??]
  | H : andb _ _ = true |- _ => apply andb_true_iff in H as [??]
  | H : orb _ _ = false |- _ => apply orb_false_iff in H as [??]
  end.

(** [simpl] that keeps the type-class operations on lists and options folded. *)
Tactic Notation "lsimpl" := try (progress simpl; fold_classes).

Create HintDb go discriminated.

(** ** Lemmas: strings *)
Lemma strings_Cut_app sep a b :
  strings_Contains a sep = false →
  strings_Cut sep (a +:+ String sep b) = Some (a, b).
Proof.
  induction a as [|c a IH]; simpl; [by rewrite bool_decide_true|].
  intros [Hc Ha]%orb_false_iff. rewrite Hc. by rewrite IH.
Qed.

Lemma strings_Cut_None sep s :
  strings_Contains s sep = false → strings_Cut sep s = None.
Proof.
  induction s as [|c s IH]; simpl; [done|].
  intros [Hc Ha]%orb_false_iff. rewrite Hc. by rewrite IH.
Qed.

Lemma strings_Cut_Some sep s a b :
  strings_Cut sep s = Some (a, b) →
  s = a +:+ String sep b ∧ strings_Contains a sep = false.
Proof.
  revert a b. induction s as [|c s IH]; simpl; [done|]. intros a b.
  case_bool_decide as Hc; [intros [= <- <-]; by subst|].
  destruct (strings_Cut sep s) as [[a' b']|] eqn:E; simpl; [|done].
  intros [= <- <-]. destruct (IH _ _ eq_refl) as [-> Ha]. simpl.
  by rewrite Ha, bool_decide_false.
Qed.

Lemma strings_Contains_app a b c :
  strings_Contains (a +:+ b) c = strings_Contains a c || strings_Contains b c.
Proof. induction a as [|d a IH]; simpl; [done|]. by rewrite IH, orb_assoc. Qed.

Lemma strings_Contains_rev s c : strings_Contains (String.rev s) c = strings_Contains s c.
Proof.
  unfold String.rev. enough (∀ acc, strings_Contains (String.rev_app s acc) c = strings_Contains s c || strings_Contains acc c)
    as -> by apply orb_false_r.
  induction s as [|d s IH]; intros acc; simpl; [done|]. rewrite IH. simpl.
  destruct (bool_decide (d = c)), (strings_Contains s c); done.
Qed.

Lemma strings_Contains_TrimSpace s c : strings_Contains s c = false → strings_Contains (strings_TrimSpace s) c = false.
Proof.
  assert (∀ s, strings_Contains s c = false → strings_Contains (trim_left s) c = false) as Hleft.
  { clear s. intros s. induction s as [|d s IH]; simpl; [done|].
    intros [Hd Hs]%orb_false_iff. destruct (is_ascii_space d); [by apply IH|]. simpl. by rewrite Hd. }
  intros Hs. unfold strings_TrimSpace. rewrite strings_Contains_rev. apply Hleft.
  rewrite strings_Contains_rev. by apply Hleft.
Qed.

Lemma strings_Split_no_sep s sep :
  strings_Contains s sep = false → strings_Split s sep = [s].
Proof.
  induction s as [|c s IH]; simpl; [done|].
  intros [Hc Hs]%orb_false_iff. by rewrite Hc, (IH Hs).
Qed.

Lemma strings_Join_Split s sep :
  strings_Join (strings_Split s sep) (String sep "") = s.
Proof.
  induction s as [|c s IH]; simpl; [done|].
  assert (∃ p ps, strings_Split s sep = p :: ps) as (p & ps & E).
  { destruct s as [|d s]; simpl; [by eauto|]. destruct (d == sep); [by eauto|].
    destruct (strings_Split s sep); eauto. }
  case_bool_decide as Hc.
  - subst. rewrite E in *. destruct ps; simpl in *; by rewrite <-IH.
  - rewrite E in *. destruct ps; simpl in *; by rewrite <-IH.
Qed.

Lemma string_length_app (a b : string) :
  String.length (a +:+ b) = String.length a + String.length b.
Proof. induction a as [|c a IH]; simpl; [done|]. by rewrite IH. Qed.

Lemma string_app_inj_r (a b c : string) : a +:+ c = b +:+ c → a = b.
Proof.
  revert b. induction a as [|x a IH]; intros [|y b]; simpl; try done.
  - intros H%(f_equal String.length). rewrite !string_length_app in H. simpl in H. lia.
  - intros H%(f_equal String.length). rewrite !string_length_app in H. simpl in H. lia.
  - intros [= -> H]. f_equal. by apply IH.
Qed.

(** ** Lemmas: integers *)
Lemma int64_small z : (- 2 ^ 63 ≤ z < 2 ^ 63)%Z → int64 z = z.
Proof. intros Hz. unfold int64. rewrite Z.mod_small; lia. Qed.

Lemma int64_range z : (- 2 ^ 63 ≤ int64 z < 2 ^ 63)%Z.
Proof. unfold int64. pose proof (Z.mod_pos_bound (z + 2 ^ 63) (2 ^ 64)). lia. Qed.

Lemma seconds_small n : (- 9223372036 ≤ n ≤ 9223372036)%Z → seconds n = (n * time_Second)%Z.
Proof. intros Hn. apply int64_small. unfold time_Second. lia. Qed.

(** ** Lemmas: lists *)
Lemma list_filter_ext {A} (P Q : A → Prop) `{∀ x, Decision (P x), ∀ x, Decision (Q x)} (l : list A) :
  Forall (λ x, P x ↔ Q x) l → filter P l = filter Q l.
Proof.
  induction 1 as [|x l Hx _ IH]; [done|]. rewrite !filter_cons, IH.
  repeat case_decide; naive_solver.
Qed.

Lemma list_filter_true {A} (P : A → Prop) `{∀ x, Decision (P x)} (l : list A) :
  (∀ x, x ∈ l → P x) → filter P l = l.
Proof.
  induction l as [|x l IH]; intros Hl; [done|].
  rewrite filter_cons, decide_True, IH by set_solver. done.
Qed.

Lemma list_filter_nil_inv {A} (P : A → Prop) `{∀ x, Decision (P x)} (l : list A) x :
  filter P l = [] → x ∈ l → ¬ P x.
Proof.
  intros Hl Hx HP. assert (Hin : x ∈ filter P l) by (by apply list_elem_of_filter).
  rewrite Hl in Hin. by apply not_elem_of_nil in Hin.
Qed.

(** ** Lemmas: computations *)
Lemma bind_res_Ok {A B} (r : res A) (f : A → res B) b :
  (r ≫= f) = Ok b → ∃ a, r = Ok a ∧ f a = Ok b.
Proof. destruct r; simpl; [eauto|done..]. Qed.

Lemma foldlM_snoc {A B} (f : A → B → res A) a l x b :
  foldlM f a (l ++ [x]) = Ok b → ∃ a', foldlM f a l = Ok a' ∧ f a' x = Ok b.
Proof.
  revert a. induction l as [|y l IH]; intros a H; simpl in *.
  - apply bind_res_Ok in H as (b' & H & [= <-]). by exists a.
  - apply bind_res_Ok in H as (a1 & H1 & H). apply IH in H as (a' & H' & H). exists a'. by rewrite H1.
Qed.

Lemma bind_Ok {W A B} (m : M W A) (f : A → M W B) w b w' :
  (m ≫= f) w = (Ok b, w') → ∃ a w1, m w = (Ok a, w1) ∧ f a w1 = (Ok b, w').
Proof. unfold mbind, M_bind. destruct (m w) as [[a|e|p] w1]; [eauto|done..]. Qed.

Lemma mret_Ok {W A} (a b : A) (w w' : W) :
  (mret a : M W A) w = (Ok b, w') → a = b ∧ w = w'.
Proof. unfold mret, M_ret. intros H. by simplify_eq. Qed.

Lemma lift_Ok {W A} (r : res A) (w w' : W) b :
  (lift r : M W A) w = (Ok b, w') → r = Ok b ∧ w = w'.
Proof. unfold lift. intros H. by simplify_eq. Qed.

Lemma wrap_errM_Ok {W A} msg (m : M W A) w a w' : wrap_errM msg m w = (Ok a, w') → m w = (Ok a, w').
Proof. unfold wrap_errM. by destruct (m w) as [[?|?|?] ?]. Qed.

Lemma try_Ok {W A} (m : M W A) w r w' :
  try m w = (Ok r, w') →
  m w = (match r with inl a => Ok a | inr e => Err e end, w').
Proof. unfold try. destruct (m w) as [[a|e|p] w1]; intros H; by simplify_eq. Qed.

Lemma NewAggregate_Ok errs : NewAggregate errs = Ok () → errs = [].
Proof. by destruct errs. Qed.

(** Run a computation that succeeds backwards: [H : m w = (Ok a, w')]. *)
Ltac run_inv H :=
  lazymatch type of H with
  | (mbind _ _) _ = (Ok _, _) =>
    let a := fresh "a" in let w := fresh "w" in let H1 := fresh "H" in
    apply bind_Ok in H as (a & w & H1 & H)
  | (mret _) _ = (Ok _, _) => apply mret_Ok in H as [H ?]; subst
  | (lift _) _ = (Ok _, _) => apply lift_Ok in H as [H ?]; subst
  | (try _) _ = (Ok _, _) => apply try_Ok in H
  end.

(** ** Lemmas: filters *)
Lemma filter_or {A} (P Q R : A → Prop) `{∀ a, Decision (P a)} `{∀ a, Decision (Q a)} `{∀ a, Decision (R a)} (l : list A) :
  (∀ a, R a ↔ P a ∨ Q a) → (∀ a, P a → Q a → False) → filter P l ++ filter Q l ≡ₚ filter R l.
Proof.
  intros HR HPQ. induction l as [|a l IH]; [done|]. rewrite !filter_cons.
  destruct (decide (P a)) as [HP|HP]; destruct (decide (Q a)) as [HQ|HQ]; try (by destruct (HPQ a)).
  - rewrite decide_True by (apply HR; by left). simpl. by rewrite IH.
  - rewrite decide_True by (apply HR; by right). by rewrite <-IH, Permutation_middle.
  - rewrite decide_False by (rewrite HR; by intros [?|?]). done.
Qed.

Lemma filter_comm {A} (P Q : A → Prop) `{∀ a, Decision (P a)} `{∀ a, Decision (Q a)} (l : list A) :
  filter P (filter Q l) = filter Q (filter P l).
Proof.
  induction l as [|a l IH]; [done|]. rewrite !filter_cons.
  destruct (decide (P a)) eqn:HP; destruct (decide (Q a)) eqn:HQ; rewrite ?filter_cons, ?HP, ?HQ; by rewrite IH.
Qed.

Lemma filter_complement {A} (P : A → Prop) `{∀ a, Decision (P a)} (l : list A) :
  filter P (filter (λ a, ¬ P a) l) = [].
Proof.
  induction l as [|a l IH]; [done|]. rewrite filter_cons. case_decide as Ha; [|done].
  by rewrite filter_cons, decide_False.
Qed.

(** ** Lemmas: map iteration *)
Section range.
Context `{!GoRuntime} {K V : Type} `{Countable K}.
Implicit Types m : gmap K V.

Lemma elem_of_range m k v : (k, v) ∈ range m ↔ m !! k = Some v.
Proof. rewrite range_perm. apply elem_of_map_to_list. Qed.

Lemma NoDup_range_keys m : NoDup (range m).*1.
Proof. rewrite range_perm. apply NoDup_fst_map_to_list. Qed.

Lemma range_empty : range (∅ : gmap K V) = [].
Proof. apply Permutation_nil_r. rewrite range_perm. by rewrite map_to_list_empty. Qed.

Lemma length_range m : length (range m) = size m.
Proof. rewrite range_perm. by rewrite length_map_to_list. Qed.
End range.

(** ** Lemmas: what a computation leaves alone *)
Section keeps.
Context {W X : Type} (f : W → X).

(** [m] does not change what [f] sees of the state. *)
Definition keeps {A} (m : M W A) : Prop := ∀ w, f (m w).2 = f w.

Lemma keeps_ret {A} (a : A) : keeps (mret a).
Proof. done. Qed.
Lemma keeps_lift {A} (r : res A) : keeps (lift r).
Proof. done. Qed.
Lemma keeps_throw {A} e : keeps (throw (A:=A) e).
Proof. done. Qed.
Lemma keeps_get : keeps get_state.
Proof. done. Qed.
Lemma keeps_modify g : (∀ w, f (g w) = f w) → keeps (modify g).
Proof. intros Hg w. apply Hg. Qed.

Lemma keeps_bind {A B} (m : M W A) (k : A → M W B) :
  keeps m → (∀ a, keeps (k a)) → keeps (m ≫= k).
Proof.
  intros Hm Hk w. specialize (Hm w). unfold mbind, M_bind.
  destruct (m w) as [[a|e|s] w']; simpl in *; [|done..]. by rewrite (Hk a w').
Qed.

Lemma keeps_try {A} (m : M W A) : keeps m → keeps (try m).
Proof. intros Hm w. specialize (Hm w). unfold try. by destruct (m w) as [[a|e|s] w']. Qed.

Lemma keeps_wrap {A} msg (m : M W A) : keeps m → keeps (wrap_errM msg m).
Proof. intros Hm w. specialize (Hm w). unfold wrap_errM. by destruct (m w). Qed.

Lemma keeps_foldlM {A B} (g : A → B → M W A) a l :
  (∀ a b, b ∈ l → keeps (g a b)) → keeps (foldlM g a l).
Proof.
  revert a. induction l as [|b l IH]; intros a Hg; simpl; [apply keeps_ret|].
  apply keeps_bind; [apply Hg; set_solver|]. intros a'. apply IH. set_solver.
Qed.
End keeps.

Ltac keeps_step :=
  match goal with
  | |- keeps _ (mbind _ _) => apply keeps_bind; [|intros ?]
  | |- keeps _ (mret _) => apply keeps_ret
  | |- keeps _ (lift _) => apply keeps_lift
  | |- keeps _ (throw _) => apply keeps_throw
  | |- keeps _ get_state => apply keeps_get
  | |- keeps _ (try _) => apply keeps_try
  | |- keeps _ (wrap_errM _ _) => apply keeps_wrap
  | |- keeps _ (foldlM _ _ _) => apply keeps_foldlM; intros ???
  | |- keeps _ (let '(_, _) := ?p in _) => destruct p
  | |- keeps _ ((match ?p with (_, _) => _ end) _) => destruct p
  | |- keeps _ (match ?x with _ => _ end) => destruct x eqn:?
  end.
Ltac keeps_auto := repeat (keeps_step; cbn beta iota zeta).

(** An invariant of a loop over a list. *)
Lemma foldlM_Ok_inv {W A B} (I : A → W → Prop) (g : A → B → M W A) a l w a' w' :
  I a w →
  (∀ a b w a' w', b ∈ l → I a w → g a b w = (Ok a', w') → I a' w') →
  foldlM g a l w = (Ok a', w') → I a' w'.
Proof.
  revert a w. induction l as [|b l IH]; intros a w Ha Hg; simpl.
  - intros [<- <-]%mret_Ok. done.
  - intros (a1 & w1 & H1 & H)%bind_Ok. apply (IH a1 w1); [| |done].
    + by apply (Hg a b w); [left|..].
    + intros a2 b2 w2 a2' w2' Hb. apply Hg. by right.
Qed.

(** A loop whose step does nothing for some elements may as well not see them. *)
Lemma foldlM_filter {W A B} (P : B → Prop) `{∀ b, Decision (P b)} (g : A → B → M W A) a l w :
  (∀ a b w, ¬ P b → g a b w = (Ok a, w)) → foldlM g a (filter P l) w = foldlM g a l w.
Proof.
  intros Hg. revert a w. induction l as [|b l IH]; intros a w; [done|]. rewrite filter_cons.
  case_decide as Hb; cbn [foldlM]; unfold mbind, M_bind.
  - destruct (g a b w) as [[a'|e|s] w']; [apply IH|done..].
  - rewrite (Hg a b w Hb). apply IH.
Qed.

(** A loop over a list that succeeds does so at every element. *)
Lemma foldlM_each {W A B} (I : W → Prop) (P : B → Prop) (g : A → B → M W A) a l w a' w' :
  I w →
  (∀ a b w a' w', b ∈ l → I w → g a b w = (Ok a', w') → I w' ∧ P b) →
  foldlM g a l w = (Ok a', w') → I w' ∧ Forall P l.
Proof.
  revert a w. induction l as [|b l IH]; intros a w Hw Hg; simpl.
  - intros [_ <-]%mret_Ok. by split.
  - intros (a1 & w1 & H1 & H)%bind_Ok.
    destruct (Hg a b w a1 w1) as [Hw1 Hb]; [by left|done..|].
    destruct (IH a1 w1) as [Hw' Hl]; [done| |done|by split; [|constructor]].
    intros a2 b2 w2 a2' w2' Hin. apply Hg. by right.
Qed.

(** ** Lemmas: triples *)
Section hoare.
Context {W : Type}.
Implicit Types P E : W → Prop.

Lemma hoare_ret {A} (a : A) P E : hoare P (mret a) (λ _, P) E.
Proof. by intros w. Qed.
Lemma hoare_lift {A} (r : res A) P E : (∀ w, P w → E w) → hoare P (lift r) (λ a w, r = Ok a ∧ P w) E.
Proof. intros HE w HP. unfold lift. destruct r; auto. Qed.
Lemma hoare_throw {A} e P E (Q : A → W → Prop) : (∀ w, P w → E w) → hoare P (throw e) Q E.
Proof. intros HE w HP. by apply HE. Qed.
Lemma hoare_weaken {A} P P' (m : M W A) Q Q' E E' :
  hoare P' m Q' E' → (∀ w, P w → P' w) → (∀ a w, Q' a w → Q a w) → (∀ w, E' w → E w) → hoare P m Q E.
Proof. intros Hm HP HQ HE w Hw. specialize (Hm w (HP w Hw)). destruct (m w) as [[] ?]; auto. Qed.
Lemma hoare_bind {A B} P (m : M W A) (k : A → M W B) Q R E :
  hoare P m Q E → (∀ a, hoare (Q a) (k a) R E) → hoare P (m ≫= k) R E.
Proof.
  intros Hm Hk w Hw. specialize (Hm w Hw). unfold mbind, M_bind. destruct (m w) as [[a|e|s] w1]; [|done..].
  by apply Hk.
Qed.
Lemma hoare_wrap {A} msg P (m : M W A) Q E : hoare P m Q E → hoare P (wrap_errM msg m) Q E.
Proof. intros Hm w Hw. specialize (Hm w Hw). unfold wrap_errM. by destruct (m w) as [[a|e|s] w1]. Qed.
Lemma hoare_try {A} P (m : M W A) Q E E' :
  hoare P m Q E' → hoare P (try m) (λ r w, match r with inl a => Q a w | inr _ => E' w end) E.
Proof. intros Hm w Hw. specialize (Hm w Hw). unfold try. by destruct (m w) as [[a|e|s] w1]. Qed.
Lemma hoare_zoom {S A} (l : lens S W) (P : S → Prop) (PW : W → Prop) (m : M W A)
    (Q : A → S → Prop) (QW : A → W → Prop) (E : S → Prop) (EW : W → Prop) :
  hoare PW m QW EW → (∀ s, P s → PW (view l s)) →
  (∀ s a w, P s → QW a w → Q a (put l w s)) → (∀ s w, P s → EW w → E (put l w s)) →
  hoare P (zoom l m) Q E.
Proof.
  intros Hm HP HQ HE s Hs. specialize (Hm _ (HP s Hs)). unfold zoom. destruct (m (view l s)) as [[a|e|p] w]; auto.
Qed.
Lemma hoare_conseq_pre {A} P P' (m : M W A) Q E : (∀ w, P w → P' w) → hoare P' m Q E → hoare P m Q E.
Proof. intros HP Hm w Hw. by apply Hm, HP. Qed.
Lemma hoare_weaken_err {A} P (m : M W A) Q E E' : hoare P m Q E' → (∀ w, E' w → E w) → hoare P m Q E.
Proof. intros Hm HE. by eapply hoare_weaken. Qed.
Lemma hoare_run {A} P (m : M W A) Q E w r w' :
  hoare P m Q E → P w → m w = (r, w') →
  match r with Ok a => Q a w' | Err _ => E w' | Panic _ => True end.
Proof. intros Hm Hw H. specialize (Hm w Hw). rewrite H in Hm. by destruct r. Qed.
(** A fact that does not depend on the state may be assumed. *)
Lemma hoare_pure {A} (φ : Prop) P (m : M W A) Q E : (φ → hoare P m Q E) → hoare (λ w, φ ∧ P w) m Q E.
Proof. intros H w [Hφ Hw]. by apply H. Qed.
Lemma hoare_exists {A X} (P : X → W → Prop) (m : M W A) Q (E : W → Prop) : (∀ x : X, hoare (P x) m Q E) → hoare (λ w, ∃ x, P x w) m Q E.
Proof. intros H w [x Hw]. by apply (H x). Qed.

Lemma preserves_ret {A} (a : A) P : preserves P (mret a).
Proof. apply hoare_ret. Qed.
Lemma preserves_lift {A} (r : res A) P : preserves P (lift r).
Proof. intros w Hw. unfold lift. by destruct r. Qed.
Lemma preserves_throw {A} e P : preserves P (throw e : M W A).
Proof. by apply hoare_throw. Qed.
Lemma preserves_get_state P : preserves P get_state.
Proof. by intros w. Qed.
Lemma preserves_bind {A B} P (m : M W A) (k : A → M W B) : preserves P m → (∀ a, preserves P (k a)) → preserves P (m ≫= k).
Proof. intros Hm Hk. by eapply hoare_bind. Qed.
Lemma preserves_fmap {A B} P (f : A → B) (m : M W A) : preserves P m → preserves P (f <$> m).
Proof. intros Hm. apply preserves_bind; [done|]. intros a. apply preserves_ret. Qed.
Lemma preserves_wrap {A} msg P (m : M W A) : preserves P m → preserves P (wrap_errM msg m).
Proof. apply hoare_wrap. Qed.
Lemma preserves_try {A} P (m : M W A) : preserves P m → preserves P (try m).
Proof.
  intros Hm. eapply hoare_weaken; [by apply hoare_try, Hm|done| |done]. by intros [a|e] w.
Qed.
Lemma preserves_foldlM {A B} P (f : A → B → M W A) a l : (∀ a x, x ∈ l → preserves P (f a x)) → preserves P (foldlM f a l).
Proof.
  revert a. induction l as [|x l IH]; intros a Hf; simpl; [apply preserves_ret|].
  apply preserves_bind; [apply Hf; by left|]. intros a'. apply IH. intros a'' y Hy. apply Hf. by right.
Qed.
(** The rest of the state is kept. *)
Lemma preserves_zoom {S A} (l : lens S W) (P : S → Prop) (m : M W A) : (∀ s w, P s → P (put l w s)) → preserves P (zoom l m).
Proof. intros HP s Hs. unfold zoom. destruct (m (view l s)) as [[a|e|p] w]; auto. Qed.

Lemma total_ret {A} (a : A) P : total P (mret a) (λ _, P).
Proof. intros w Hw. by exists a, w. Qed.
Lemma total_bind {A B} P (m : M W A) (k : A → M W B) Q R :
  total P m Q → (∀ a, total (Q a) (k a) R) → total P (m ≫= k) R.
Proof.
  intros Hm Hk w Hw. destruct (Hm w Hw) as (a & w1 & E & HQ). destruct (Hk a w1 HQ) as (b & w2 & E2 & HR).
  exists b, w2. unfold mbind, M_bind. by rewrite E, E2.
Qed.
Lemma total_weaken {A} P (m : M W A) Q Q' : total P m Q → (∀ a w, Q a w → Q' a w) → total P m Q'.
Proof. intros Hm HQ w Hw. destruct (Hm w Hw) as (a & w1 & E & H). exists a, w1. auto. Qed.
(** A loop that uses up a list. *)
Lemma total_each {B} (f : B → M W unit) (P : list B → W → Prop) :
  (∀ b l, total (P (b :: l)) (f b) (λ _, P l)) → ∀ l, total (P l) (foldlM (λ _ b, f b) () l) (λ _, P []).
Proof.
  intros Hf l. induction l as [|b l IH]; simpl; [apply total_ret|]. eapply total_bind; [apply Hf|]. by intros [].
Qed.
Lemma total_conseq_pre {A} P P' (m : M W A) Q : (∀ w, P w → P' w) → total P' m Q → total P m Q.
Proof. intros HP Hm w Hw. by apply Hm, HP. Qed.
Lemma total_hoare {A} P (m : M W A) Q E : total P m Q → hoare P m Q E.
Proof. intros Hm w Hw. destruct (Hm w Hw) as (a & w1 & -> & HQ). done. Qed.
Lemma total_zoom {S A} (l : lens S W) (P : S → Prop) (PW : W → Prop) (m : M W A) (Q : A → S → Prop) (QW : A → W → Prop) :
  total PW m QW → (∀ s, P s → PW (view l s)) → (∀ s a w, P s → QW a w → Q a (put l w s)) → total P (zoom l m) Q.
Proof.
  intros Hm HP HQ s Hs. destruct (Hm _ (HP s Hs)) as (a & w & E & H). exists a, (put l w s). unfold zoom. rewrite E. auto.
Qed.
End hoare.

(** Preservation by the structure of the program: what it does not settle is
    left to the caller. *)
Create HintDb preserves discriminated.
#[export] Hint Resolve preserves_ret preserves_lift preserves_throw preserves_get_state : preserves.
Ltac preserves_step :=
  match goal with
  | |- preserves _ (mret _) => apply preserves_ret
  | |- preserves _ (lift _) => apply preserves_lift
  | |- preserves _ (throw _) => apply preserves_throw
  | |- preserves _ get_state => apply preserves_get_state
  | |- preserves _ (wrap_errM _ _) => apply preserves_wrap
  | |- preserves _ (try _) => apply preserves_try
  | |- preserves _ (_ <$> _) => apply preserves_fmap
  | |- preserves _ (_ ≫= _) => apply preserves_bind; [|intros ?]
  | |- preserves _ (foldlM _ _ _) => apply preserves_foldlM; intros
  | |- preserves _ (match ?x with _ => _ end) => destruct x
  | |- preserves _ _ => solve [eauto with preserves]
  end.
Ltac preserves_auto := repeat preserves_step.

(** ** Concurrent steps

    A system with steps of its own and steps of its environment: an invariant
    and a measure bound what it does on its own. *)
Section runs.
Context {S : Type} (own env : relation S).

(** A run with [n] steps of its own. *)
Inductive run : nat → relation S :=
  | run_refl s : run 0 s s
  | run_own n s1 s2 s3 : own s1 s2 → run n s2 s3 → run (1 + n) s1 s3
  | run_env n s1 s2 s3 : env s1 s2 → run n s2 s3 → run n s1 s3.

Definition any : relation S := λ s s', own s s' ∨ env s s'.
Lemma run_any n s s' : run n s s' → rtc any s s'.
Proof.
  induction 1 as [s|n s1 s2 s3 H _ IH|n s1 s2 s3 H _ IH]; [constructor|eapply rtc_l; [by left|done]|eapply rtc_l; [by right|done]].
Qed.
Lemma any_run s s' : rtc any s s' → ∃ n, run n s s'.
Proof.
  induction 1 as [s|s1 s2 s3 [H|H] _ [n IH]]; [by exists 0; constructor|exists (1 + n)|exists n]; by econstructor.
Qed.

Lemma rtc_invariant (I : S → Prop) s s' : (∀ s s', I s → any s s' → I s') → rtc any s s' → I s → I s'.
Proof. intros HI. induction 1; eauto. Qed.

Context (I : S → Prop) (m : S → nat).
Hypothesis I_any : ∀ s s', I s → any s s' → I s'.
Hypothesis m_own : ∀ s s', I s → own s s' → m s' < m s.

(** Left alone, it comes to rest. *)
Lemma own_sn s : I s → sn own s.
Proof using All.
  remember (m s) as n eqn:Hn. revert s Hn. induction n as [n IH] using lt_wf_ind. intros s -> Hs.
  constructor. intros s' Hstep. eapply IH; [by apply m_own|done|]. eapply I_any; [exact Hs|by left].
Qed.

(** If the environment adds nothing, the steps are counted. *)
Lemma run_bound n s s' : (∀ s s', I s → env s s' → m s' ≤ m s) → I s → run n s s' → n ≤ m s.
Proof using All.
  intros Henv HI Hrun. induction Hrun as [s|n s1 s2 s3 H _ IH|n s1 s2 s3 H _ IH]; [lia| |].
  - pose proof (m_own _ _ HI H). specialize (IH ltac:(eapply I_any; [exact HI|by left])). lia.
  - pose proof (Henv _ _ HI H). specialize (IH ltac:(eapply I_any; [exact HI|by right])). lia.
Qed.

(** The same with a first component that decides. *)
Lemma own_sn_lex (a b : S → nat) s :
  (∀ s s', I s → own s s' → a s' < a s ∨ a s' ≤ a s ∧ b s' < b s) → I s → sn own s.
Proof using I_any.
  intros Hlex. remember (a s) as n eqn:Hn. remember (b s) as k eqn:Hk. revert k s Hn Hk.
  induction n as [n IHn] using lt_wf_ind. intros k. induction k as [k IHk] using lt_wf_ind. intros s -> -> Hs.
  constructor. intros s' Hstep. pose proof (I_any _ _ Hs (or_introl Hstep)) as Hs'.
  destruct (Hlex _ _ Hs Hstep) as [Ha|[Ha Hb]]; [by eapply IHn|].
  destruct (decide (a s' = a s)); [by eapply IHk|eapply IHn; [|done..]; lia].
Qed.
End runs.

(** ** Sums over a map *)
Section map_sum.
Context {K A : Type} `{Countable K} (f : A → nat).
Definition map_sum (m : gmap K A) : nat := sum_list_with f (map_to_list m).*2.

Lemma sum_list_with_perm (l l' : list A) : l ≡ₚ l' → sum_list_with f l = sum_list_with f l'.
Proof. induction 1; simpl; lia. Qed.
Lemma map_sum_delete m k a : m !! k = Some a → map_sum m = f a + map_sum (delete k m).
Proof.
  intros Hk. unfold map_sum. rewrite (sum_list_with_perm _ (a :: (map_to_list (delete k m)).*2)); [done|].
  by rewrite <- (map_to_list_delete m k a Hk).
Qed.
Lemma map_sum_delete_le m k : map_sum (delete k m) ≤ map_sum m.
Proof.
  destruct (m !! k) as [a|] eqn:Hk; [rewrite (map_sum_delete m k a Hk); lia|by rewrite delete_id].
Qed.
Lemma map_sum_insert_new m k a : m !! k = None → map_sum (<[k := a]> m) = f a + map_sum m.
Proof. intros Hk. rewrite (map_sum_delete _ k a) by apply lookup_insert_eq. by rewrite delete_insert_id. Qed.
Lemma map_sum_insert m k a b : m !! k = Some a → map_sum (<[k := b]> m) + f a = map_sum m + f b.
Proof.
  intros Hk. rewrite (map_sum_delete m k a Hk), (map_sum_delete _ k b) by apply lookup_insert_eq.
  rewrite delete_insert_eq. lia.
Qed.
End map_sum.
