(* ===== verification/Value.v ===== *)
(** * JSON-like values

    The [interface{}] trees that [unstructured.Unstructured] holds: nil,
    [bool], [int64], [float64] (by its IEEE-754 bits), [string],
    [[]interface{}] and [map[string]interface{}].  [VNilList] is a typed nil
    slice, which Go keeps apart from an empty one.  The file gives the
    induction principle over nested maps, the depth that bounds recursion,
    [reflect.DeepEqual] and [fmt.Sprintf("%v")]. *)
From S2P Require Import Prelude.
From stdpp Require Import options.

Inductive value :=
  | VNull
  | VBool (b : bool)
  | VInt (z : Z)
  | VFloat (bits : Z)
  | VString (s : string)
  | VList (l : list value)
  | VNilList
  | VMap (m : gmap string value).

(** [map[string]interface{}], the content of an [Unstructured]. *)
Abbreviation object := (gmap string value).

(** ** Depth and induction *)
Fixpoint vdepth (v : value) : nat :=
  match v with
  | VList l => S (foldr (λ x n, vdepth x `max` n) 0 l)
  | VMap m => S (map_fold (λ _ x n, vdepth x `max` n) 0 m)
  | _ => 0
  end.

Lemma vdepth_elem l x : x ∈ l → vdepth x < vdepth (VList l).
Proof. simpl. induction 1; simpl in *; lia. Qed.

Lemma vdepth_lookup m k x : m !! k = Some x → vdepth x < vdepth (VMap m).
Proof.
  simpl. revert k x. induction m as [|i y m Hi Hfold IH] using fin_maps.map_fold_ind; intros k x Hx.
  - by rewrite lookup_empty in Hx.
  - rewrite Hfold. apply lookup_insert_Some in Hx as [[-> ->]|[_ Hx]]; [lia|].
    specialize (IH _ _ Hx). lia.
Qed.

Lemma vdepth_VMap_le m n :
  (∀ k x, m !! k = Some x → vdepth x ≤ n) → vdepth (VMap m) ≤ S n.
Proof.
  intros Hm. simpl. apply le_n_S. revert Hm.
  induction m as [|i y m Hi Hfold IH] using fin_maps.map_fold_ind; intros Hm; [apply Nat.le_0_l|].
  rewrite Hfold. apply Nat.max_lub.
  - apply (Hm i). by simplify_map_eq.
  - apply IH. intros k x Hx. apply (Hm k).
    rewrite lookup_insert_ne; [done|]. intros ->. by rewrite Hi in Hx.
Qed.

Section value_ind.
Variable P : value → Prop.
Hypothesis Hnull : P VNull.
Hypothesis Hbool : ∀ b, P (VBool b).
Hypothesis Hint : ∀ z, P (VInt z).
Hypothesis Hfloat : ∀ z, P (VFloat z).
Hypothesis Hstring : ∀ s, P (VString s).
Hypothesis Hlist : ∀ l, Forall P l → P (VList l).
Hypothesis Hnil : P VNilList.
Hypothesis Hmap : ∀ m, map_Forall (λ _, P) m → P (VMap m).

Lemma value_deep_ind : ∀ v, P v.
Proof using All.
  intros v. induction v as [v IH] using (well_founded_ind (well_founded_ltof _ vdepth)).
  unfold ltof in IH. destruct v; auto.
  - apply Hlist, Forall_forall. intros x Hx. apply IH. by apply vdepth_elem.
  - apply Hmap. intros k x Hx. apply IH. by eapply vdepth_lookup.
Qed.
End value_ind.

(** ** [reflect.DeepEqual] *)

(** Equality up to the comparison of floats. *)
Fixpoint value_eq_with (feq : Z → Z → bool) (x y : value) : bool :=
  match x, y with
  | VNull, VNull => true
  | VBool a, VBool b => eqb a b
  | VInt a, VInt b => (a =? b)%Z
  | VFloat a, VFloat b => feq a b
  | VString a, VString b => a == b
  | VList l, VList k =>
    (fix go l k :=
       match l, k with
       | [], [] => true
       | a :: l, b :: k => value_eq_with feq a b && go l k
       | _, _ => false
       end) l k
  | VNilList, VNilList => true
  | VMap m, VMap n =>
    map_fold (λ i a acc,
      match n !! i with Some b => value_eq_with feq a b | None => false end && acc)
      (size m =? size n)%nat m
  | _, _ => false
  end.

(** IEEE-754 double precision: NaN is unequal to itself, the two zeros are
    equal, every other number has one bit pattern. *)
Definition float64_is_nan (bits : Z) : bool :=
  (Z.land (Z.shiftr bits 52) 2047 =? 2047)%Z && negb (Z.land bits (2 ^ 52 - 1) =? 0)%Z.

Definition float64_is_zero (bits : Z) : bool :=
  (bits =? 0)%Z || (bits =? 2 ^ 63)%Z.

Definition float64_eq (a b : Z) : bool :=
  negb (float64_is_nan a) && ((a =? b)%Z || (float64_is_zero a && float64_is_zero b)).

(** [a < b]: the bits of a float order as its sign and magnitude do. *)
Definition float64_rank (bits : Z) : Z := if (bits <? 2 ^ 63)%Z then bits else (2 ^ 63 - bits)%Z.
Definition float64_lt (a b : Z) : bool :=
  negb (float64_is_nan a) && negb (float64_is_nan b) && (float64_rank a <? float64_rank b)%Z.

Definition DeepEqual (left right : value) : bool := value_eq_with float64_eq left right.

(** Values whose floats are numbers other than negative zero. *)
Definition canonical_bits (bits : Z) : bool :=
  negb (float64_is_nan bits) && negb (bits =? 2 ^ 63)%Z.

Fixpoint canonical (v : value) : bool :=
  match v with
  | VFloat b => canonical_bits b
  | VList l => forallb canonical l
  | VMap m => map_fold (λ _ x acc, canonical x && acc) true m
  | _ => true
  end.

(** A boolean conjunction over the entries of a map. *)
Lemma map_fold_andb {A} (f : string → A → bool) (b : bool) (m : gmap string A) :
  map_fold (λ i a acc, f i a && acc) b m = true ↔
  b = true ∧ map_Forall (λ i a, f i a = true) m.
Proof.
  induction m as [|i x m Hi Hfold IH] using fin_maps.map_fold_ind.
  - rewrite map_fold_empty. split; [|tauto]. intros ->. split; [done|apply map_Forall_empty].
  - rewrite Hfold, andb_true_iff, IH, map_Forall_insert by done. tauto.
Qed.

Lemma VMap_eq_with feq m n :
  value_eq_with feq (VMap m) (VMap n) = true ↔
  size m = size n ∧
  map_Forall (λ i a, ∃ b, n !! i = Some b ∧ value_eq_with feq a b = true) m.
Proof.
  simpl. rewrite (map_fold_andb (λ i a,
    match n !! i with Some b => value_eq_with feq a b | None => false end)).
  rewrite Nat.eqb_eq. apply and_iff_compat_l.
  split; intros Hm i a Hi; specialize (Hm i a Hi); simpl in *.
  - destruct (n !! i) as [b|]; [by eauto|done].
  - destruct Hm as (b & -> & Hb). done.
Qed.

(** Two maps of one size are equal when the first is included in the second. *)
Lemma map_eq_of_size {A} (m n : gmap string A) :
  size m = size n → map_Forall (λ i a, n !! i = Some a) m → m = n.
Proof.
  intros Hs Hm. apply map_subseteq_size_eq; [|lia].
  apply map_subseteq_spec. intros i x Hi. by apply Hm.
Qed.

Lemma value_eq_with_eq feq x y :
  (∀ a b, feq a b = true → a = b) → value_eq_with feq x y = true → x = y.
Proof.
  intros Hfeq. revert y.
  induction x as [|a|a|a|s|l IH| |m IH] using value_deep_ind; intros [];
    simpl; intros Heq; try done.
  - f_equal. by apply eqb_prop.
  - f_equal. lia.
  - f_equal. auto.
  - f_equal. by go_bools.
  - f_equal. revert l0 Heq. induction IH as [|x l Hx _ IHl]; intros [|y k]; try done.
    intros [Hxy Hl]%andb_true_iff. f_equal; auto.
  - f_equal. apply VMap_eq_with in Heq as [Hs Hm]. apply map_eq_of_size; [done|].
    intros i a Hi. destruct (Hm i a Hi) as (b & Hb & Hab).
    rewrite Hb. f_equal. symmetry. by apply (IH i a Hi).
Qed.

#[global] Instance value_eq_dec : EqDecision value.
Proof.
  intros x y. destruct (value_eq_with Z.eqb x y) eqn:E.
  - left. apply (value_eq_with_eq Z.eqb); [intros; lia|done].
  - right. intros <-. revert E. apply not_false_iff_true.
    induction x as [|a|a|a|s|l IH| |m IH] using value_deep_ind; simpl; try done.
    + by destruct a.
    + lia.
    + lia.
    + by apply bool_decide_true.
    + induction IH as [|x l Hx _ IHl]; [done|]. by rewrite Hx, IHl.
    + apply VMap_eq_with. split; [done|]. intros i a Hi. exists a. split; [done|].
      by apply (IH i a Hi).
Defined.

Lemma float64_eq_canonical a b :
  canonical_bits a = true → canonical_bits b = true → float64_eq a b = true ↔ a = b.
Proof.
  unfold canonical_bits, float64_eq, float64_is_zero. intros Ha Hb. split.
  - intros H. apply andb_true_iff in H as [_ H]. apply orb_true_iff in H as [H|H]; lia.
  - intros ->. rewrite Z.eqb_refl. apply andb_true_iff in Ha as [-> _]. done.
Qed.

Lemma canonical_VMap m :
  canonical (VMap m) = true ↔ map_Forall (λ _ x, canonical x = true) m.
Proof. simpl. rewrite (map_fold_andb (λ _ x, canonical x)). tauto. Qed.

(** On canonical values [reflect.DeepEqual] is equality. *)
Lemma DeepEqual_spec x y :
  canonical x = true → canonical y = true → DeepEqual x y = true ↔ x = y.
Proof.
  unfold DeepEqual. revert y.
  induction x as [|a|a|a|s|l IH| |m IH] using value_deep_ind; intros [];
    simpl; intros Hx Hy; try (split; done).
  - rewrite eqb_true_iff. split; congruence.
  - rewrite Z.eqb_eq. split; congruence.
  - rewrite float64_eq_canonical by done. split; congruence.
  - rewrite bool_decide_eq_true. split; congruence.
  - assert (Hk : ∀ k : list value, VList l = VList k ↔ l = k) by (split; congruence).
    rewrite Hk. clear Hk. revert l0 Hy.
    induction IH as [|x l Hxl _ IHl]; intros [|y k]; simpl; intros Hy; try (split; done).
    apply andb_true_iff in Hx as [Hx1 Hx2], Hy as [Hy1 Hy2].
    rewrite andb_true_iff, Hxl, IHl by done. split; [intros [-> ->]; done|by intros [= -> ->]].
  - fold (canonical (VMap m)) in Hx. fold (canonical (VMap m0)) in Hy.
    apply canonical_VMap in Hx, Hy.
    change (value_eq_with float64_eq (VMap m) (VMap m0) = true ↔ VMap m = VMap m0).
    rewrite VMap_eq_with. split.
    + intros [Hs Hm]. f_equal. apply map_eq_of_size; [done|]. intros i a Hi.
      destruct (Hm i a Hi) as (b & Hb & Hab). rewrite Hb. f_equal. symmetry.
      apply (IH i a Hi); [by eapply Hx|by eapply Hy|done].
    + intros [= <-]. split; [done|]. intros i a Hi. exists a. split; [done|].
      apply (IH i a Hi); [by eapply Hx..|done].
Qed.

Lemma DeepEqual_refl x : canonical x = true → DeepEqual x x = true.
Proof. intros Hx. by apply DeepEqual_spec. Qed.

(** ** [fmt.Sprintf("%v")] and [fmt.Sprintf("%T")] *)
Fixpoint fmt_v `{!GoRuntime} (v : value) : string :=
  match v with
  | VNull => "<nil>"
  | VBool true => "true"
  | VBool false => "false"
  | VInt z => pretty z
  | VFloat bits => fmt_float64 bits
  | VString s => s
  | VList l => "[" +:+ strings_Join (map fmt_v l) " " +:+ "]"
  | VNilList => "[]"
  | VMap m =>
    let entries := map_fold (λ k x acc, (k, k +:+ ":" +:+ fmt_v x) :: acc) [] m in
    let sorted := merge_sort (λ a b, String.le a.1 b.1) entries in
    "map[" +:+ strings_Join sorted.*2 " " +:+ "]"
  end.

Definition fmt_T (v : value) : string :=
  match v with
  | VNull => "<nil>"
  | VBool _ => "bool"
  | VInt _ => "int64"
  | VFloat _ => "float64"
  | VString _ => "string"
  | VList _ | VNilList => "[]interface {}"
  | VMap _ => "map[string]interface {}"
  end.
