(* ===== verification/K8s.v ===== *)
(** * Kubernetes libraries

    What the source takes from [k8s.io/apimachinery], [k8s.io/client-go] and
    controller-runtime. Their data types are records; their functions are the
    fields of the class [Apimachinery], so every model is parametric in them.
    The law classes state the documented behaviour some theorems rely on. *)
From S2P Require Import Prelude Value.
From stdpp Require Import options.

(** ** Data *)
Record GroupVersion := { gv_Group : string; gv_Version : string }.
Record GroupKind := { gk_Group : string; gk_Kind : string }.
Record GroupVersionKind := { gvk_Group : string; gvk_Version : string; gvk_Kind : string }.
Record GroupVersionResource :=
  { gvr_Group : string; gvr_Version : string; gvr_Resource : string }.

#[global] Instance GroupKind_eq_dec : EqDecision GroupKind.
Proof. solve_decision. Defined.
#[global] Instance GroupVersionKind_eq_dec : EqDecision GroupVersionKind.
Proof. solve_decision. Defined.
#[global] Instance GroupVersionResource_eq_dec : EqDecision GroupVersionResource.
Proof. solve_decision. Defined.

#[global] Instance GroupKind_countable : Countable GroupKind.
Proof.
  refine (inj_countable' (λ g, (gk_Group g, gk_Kind g))
    (λ p, {| gk_Group := p.1; gk_Kind := p.2 |}) _). by intros [].
Defined.
#[global] Instance GroupVersionKind_countable : Countable GroupVersionKind.
Proof.
  refine (inj_countable' (λ g, (gvk_Group g, gvk_Version g, gvk_Kind g))
    (λ p, {| gvk_Group := p.1.1; gvk_Version := p.1.2; gvk_Kind := p.2 |}) _). by intros [].
Defined.
#[global] Instance GroupVersionResource_countable : Countable GroupVersionResource.
Proof.
  refine (inj_countable' (λ g, (gvr_Group g, gvr_Version g, gvr_Resource g))
    (λ p, {| gvr_Group := p.1.1; gvr_Version := p.1.2; gvr_Resource := p.2 |}) _). by intros [].
Defined.

(** [gvk.GroupKind()], [gvk.GroupVersion()], [gv.WithKind], [gv.WithResource]:
    field selections. *)
Definition gvk_GroupKind (g : GroupVersionKind) : GroupKind :=
  {| gk_Group := gvk_Group g; gk_Kind := gvk_Kind g |}.
Definition gvk_GroupVersion (g : GroupVersionKind) : GroupVersion :=
  {| gv_Group := gvk_Group g; gv_Version := gvk_Version g |}.
Definition gv_WithKind (g : GroupVersion) (kind : string) : GroupVersionKind :=
  {| gvk_Group := gv_Group g; gvk_Version := gv_Version g; gvk_Kind := kind |}.
Definition gv_WithResource (g : GroupVersion) (resource : string) : GroupVersionResource :=
  {| gvr_Group := gv_Group g; gvr_Version := gv_Version g; gvr_Resource := resource |}.

Record OwnerReference := {
  or_APIVersion : string;
  or_Kind : string;
  or_Name : string;
  or_UID : string;
  or_Controller : option bool;
  or_BlockOwnerDeletion : option bool;
}.
#[global] Instance OwnerReference_eq_dec : EqDecision OwnerReference.
Proof. solve_decision. Defined.

(** [ref.Controller != nil && *ref.Controller] *)
Definition is_controller_ref (r : OwnerReference) : bool :=
  match or_Controller r with Some b => b | None => false end.

Record LabelSelectorRequirement := {
  lsr_Key : string;
  lsr_Operator : string;
  lsr_Values : list string;
}.
Record LabelSelector := {
  MatchLabels : gmap string string;
  MatchExpressions : list LabelSelectorRequirement;
}.
Definition emptyLabelSelector : LabelSelector :=
  {| MatchLabels := ∅; MatchExpressions := [] |}.

(** ** Operations *)
Class Apimachinery := {
  (** accessors of [unstructured.Unstructured] *)
  GetAPIVersion : object → string;
  GetKind : object → string;
  GetName : object → string;
  GetNamespace : object → string;
  GetUID : object → string;
  GetResourceVersion : object → string;
  GetGeneration : object → Z;
  GetDeletionTimestamp : object → option string;
  GetLabels : object → option (gmap string string);
  GetAnnotations : object → option (gmap string string);
  GetOwnerReferences : object → list OwnerReference;
  GetFinalizers : object → list string;
  SetNamespace : string → object → object;
  SetResourceVersion : string → object → object;
  SetLabels : gmap string string → object → object;
  SetAnnotations : gmap string string → object → object;
  SetOwnerReferences : list OwnerReference → object → object;
  obj_GroupVersionKind : object → GroupVersionKind;
  (** the nested-field helpers of package [unstructured]; [Ok None] is "not found" *)
  NestedFieldNoCopy : object → list string → res (option value);
  NestedSlice : object → list string → res (option (list value));
  NestedMap : object → list string → res (option object);
  NestedStringMap : object → list string → res (option (gmap string string));
  NestedInt64 : object → list string → res (option Z);
  SetNestedField : object → value → list string → res object;
  RemoveNestedField : object → list string → object;
  (** [metav1.GetControllerOf], on the object's owner references *)
  GetControllerOf : list OwnerReference → option OwnerReference;
  (** controller-runtime's [controllerutil] *)
  ContainsFinalizer : object → string → bool;
  AddFinalizer : object → string → object;
  RemoveFinalizer : object → string → object;
  (** JSON *)
  json_Marshal : value → res string;
  json_Unmarshal : string → res object;
  json_Unmarshal_LabelSelector : string → res LabelSelector;
  (** package [schema] *)
  ParseGroupVersion : string → res GroupVersion;
  GroupVersion_String : GroupVersion → string;
  (** package [labels] *)
  Selector : Type;
  Matches : Selector → gmap string string → bool;
  Everything : Selector;
  Selector_Empty : Selector → bool;
  LabelSelectorAsSelector : LabelSelector → res Selector;
  AddLabelToSelector : LabelSelector → string → string → LabelSelector;
  (** package [api/errors] *)
  IsNotFound : error → bool;
  IsConflict : error → bool;
  IsAlreadyExists : error → bool;
  IsGone : error → bool;
  IsBadRequest : error → bool;
  IsForbidden : error → bool;
  NewNotFound : string → string → error;
  NewGone : string → error;
  (** [err.Error()] *)
  error_Error : error → string;
  (** [cache.SplitMetaNamespaceKey] and [cache.MetaNamespaceKeyFunc] *)
  SplitMetaNamespaceKey : string → res (string * string);
  MetaNamespaceKeyFunc : object → res string;
}.

Section accessors.
Context {API : Apimachinery}.

(** [labels.Set(obj.GetLabels())], [obj.GetAnnotations()[key]]: a nil map
    reads as an empty one. *)
Definition labels_of (o : object) : gmap string string := default ∅ (GetLabels o).
Definition annotations_of (o : object) : gmap string string := default ∅ (GetAnnotations o).
Definition annotation (o : object) (key : string) : string := default "" (annotations_of o !! key).
Definition being_deleted (o : object) : bool :=
  match GetDeletionTimestamp o with Some _ => true | None => false end.

(** [groupVersion, _ := schema.ParseGroupVersion(...)] *)
Definition ParseGroupVersion_or_zero (apiVersion : string) : res GroupVersion :=
  match ParseGroupVersion apiVersion with
  | Ok gv => mret gv
  | Err _ => mret {| gv_Group := ""; gv_Version := "" |}
  | Panic s => Panic s
  end.
End accessors.

(** ** Documented behaviour *)

(** Neither path leads through the other. *)
Definition disjoint_paths (p q : list string) : Prop :=
  ¬ p `prefix_of` q ∧ ¬ q `prefix_of` p.

Class NestedFieldLaws `{!Apimachinery} : Prop := {
  (** "NestedFieldNoCopy returns a reference to a nested field" *)
  NestedField_field o k : NestedFieldNoCopy o [k] = Ok (o !! k);
  NestedField_under o k m q :
    o !! k = Some (VMap m) → q ≠ [] → NestedFieldNoCopy o (k :: q) = NestedFieldNoCopy m q;
  NestedField_absent o k q : o !! k = None → NestedFieldNoCopy o (k :: q) = Ok None;
  (** "SetNestedField sets the value of a nested field to a deep copy of the
      value provided" *)
  NestedField_Set o v p o' :
    p ≠ [] → SetNestedField o v p = Ok o' → NestedFieldNoCopy o' p = Ok (Some v);
  NestedField_Set_disjoint o v p o' q :
    SetNestedField o v p = Ok o' → disjoint_paths p q →
    NestedFieldNoCopy o' q = NestedFieldNoCopy o q;
  (** "RemoveNestedField removes the nested field from the obj" *)
  NestedField_Remove o p :
    p ≠ [] → ∀ r, NestedFieldNoCopy o p = Ok r →
    NestedFieldNoCopy (RemoveNestedField o p) p = Ok None;
  NestedField_Remove_disjoint o p q :
    disjoint_paths p q →
    NestedFieldNoCopy (RemoveNestedField o p) q = NestedFieldNoCopy o q;
}.

Class NestedTypeLaws `{!Apimachinery} : Prop := {
  (** "NestedSlice returns a deep copy of []interface{} value of a nested
      field.  Returns false if value is not found and an error if not a
      []interface{}." *)
  NestedSlice_absent o p : NestedFieldNoCopy o p = Ok None → NestedSlice o p = Ok None;
  NestedSlice_list o p l :
    NestedFieldNoCopy o p = Ok (Some (VList l)) → NestedSlice o p = Ok (Some l);
  (** a level that is there for the last field is a map, which takes it *)
  SetNestedField_field o v k : SetNestedField o v [k] = Ok (<[k := v]> o);
  (** "NestedInt64 returns the int64 value of a nested field.  Returns false if
      value is not found and an error if not an int64." *)
  NestedInt64_absent o p : NestedFieldNoCopy o p = Ok None → NestedInt64 o p = Ok None;
  NestedInt64_int o p z :
    NestedFieldNoCopy o p = Ok (Some (VInt z)) → NestedInt64 o p = Ok (Some z);
  (** "NestedMap returns a deep copy of map[string]interface{} value of a nested
      field.  Returns false if value is not found and an error if not a
      map[string]interface{}." *)
  NestedMap_absent o p : NestedFieldNoCopy o p = Ok None → NestedMap o p = Ok None;
  NestedMap_map o p m :
    NestedFieldNoCopy o p = Ok (Some (VMap m)) → NestedMap o p = Ok (Some m);
  NestedMap_Some o p m :
    NestedMap o p = Ok (Some m) → NestedFieldNoCopy o p = Ok (Some (VMap m));
}.

(** The object's metadata is a JSON object, or absent, so that the metadata
    setters can write to it. *)
Definition metadata_ok `{!Apimachinery} (o : object) : Prop :=
  NestedFieldNoCopy o ["metadata"] = Ok None ∨
  ∃ m, NestedFieldNoCopy o ["metadata"] = Ok (Some (VMap m)).

Class AnnotationLaws `{!Apimachinery} : Prop := {
  (** annotations are read from a metadata object *)
  GetAnnotations_metadata a o : GetAnnotations o = Some a → metadata_ok o;
  GetAnnotations_Set a o : metadata_ok o → GetAnnotations (SetAnnotations a o) = Some a;
  GetAnnotations_field o o' :
    NestedFieldNoCopy o ["metadata"; "annotations"] = NestedFieldNoCopy o' ["metadata"; "annotations"] →
    GetAnnotations o = GetAnnotations o';
  NestedField_SetAnnotations a o q :
    disjoint_paths ["metadata"; "annotations"] q →
    NestedFieldNoCopy (SetAnnotations a o) q = NestedFieldNoCopy o q;
}.

Class LabelLaws `{!Apimachinery} : Prop := {
  (** labels are read from their nested field *)
  GetLabels_field o o' :
    NestedFieldNoCopy o ["metadata"; "labels"] = NestedFieldNoCopy o' ["metadata"; "labels"] →
    GetLabels o = GetLabels o';
  GetLabels_Set l o : metadata_ok o → GetLabels (SetLabels l o) = Some l;
  NestedField_SetLabels l o q :
    disjoint_paths ["metadata"; "labels"] q →
    NestedFieldNoCopy (SetLabels l o) q = NestedFieldNoCopy o q;
  SetLabels_metadata_ok l o : metadata_ok o → metadata_ok (SetLabels l o);
  NestedStringMap_SetLabels l o :
    metadata_ok o → NestedStringMap (SetLabels l o) ["metadata"; "labels"] = Ok (Some l);
}.

Class OwnerReferenceLaws `{!Apimachinery} : Prop := {
  (** "GetControllerOf returns a pointer to a copy of the controllerRef if
      controllee has a controller" *)
  GetControllerOf_Some refs r :
    GetControllerOf refs = Some r → r ∈ refs ∧ is_controller_ref r = true;
  GetControllerOf_None refs :
    GetControllerOf refs = None → Forall (λ r, is_controller_ref r = false) refs;
  GetOwnerReferences_Set refs o :
    metadata_ok o → GetOwnerReferences (SetOwnerReferences refs o) = refs;
}.

Class FinalizerLaws `{!Apimachinery} : Prop := {
  ContainsFinalizer_spec o f : ContainsFinalizer o f = true ↔ f ∈ GetFinalizers o;
  ContainsFinalizer_Add o f : metadata_ok o → ContainsFinalizer (AddFinalizer o f) f = true;
  ContainsFinalizer_Remove o f : ContainsFinalizer (RemoveFinalizer o f) f = false;
}.

(** "AddLabelToSelector returns a label selector that contains the given label
    key and value"; "the result of matchLabels and matchExpressions are ANDed". *)
Class SelectorLaws `{!Apimachinery} : Prop := {
  MatchLabels_Add s k v :
    k ≠ "" → MatchLabels (AddLabelToSelector s k v) = <[k := v]> (MatchLabels s);
  MatchExpressions_Add s k v :
    k ≠ "" → MatchExpressions (AddLabelToSelector s k v) = MatchExpressions s;
  Matches_labels s sel l :
    MatchExpressions s = [] → LabelSelectorAsSelector s = Ok sel →
    Matches sel l = true ↔ MatchLabels s ⊆ l;
  (** "Everything returns a selector that matches all labels" *)
  Matches_Everything l : Matches Everything l = true;
}.

(** "ParseGroupVersion turns "group/version" string into a GroupVersion struct",
    and a bare version belongs to the core group. *)
Class GroupVersionLaws `{!Apimachinery} : Prop := {
  ParseGroupVersion_group g v :
    g ≠ "" → strings_Contains g "/" = false → strings_Contains v "/" = false →
    ParseGroupVersion (g +:+ "/" +:+ v) = Ok {| gv_Group := g; gv_Version := v |};
  ParseGroupVersion_core v :
    v ≠ "" → strings_Contains v "/" = false →
    ParseGroupVersion v = Ok {| gv_Group := ""; gv_Version := v |};
}.

(** "SplitMetaNamespaceKey returns the namespace and name that
    MetaNamespaceKeyFunc encoded into key." *)
Class NamespaceKeyLaws `{!Apimachinery} : Prop := {
  SplitMetaNamespaceKey_namespaced ns name :
    strings_Contains ns "/" = false → strings_Contains name "/" = false →
    SplitMetaNamespaceKey (ns +:+ "/" +:+ name) = Ok (ns, name);
  SplitMetaNamespaceKey_name name :
    strings_Contains name "/" = false → SplitMetaNamespaceKey name = Ok ("", name);
}.
