(* ===== verification/K8sInst.v ===== *)
(** * A concrete [Apimachinery]

    The helpers of package [unstructured] written out on the trees of
    [Value.v], with the laws of [K8s.v] proved for them, so that the theorems
    that rely on those laws can be applied to concrete objects.  JSON text is
    replaced by an invertible encoding of trees. *)
From S2P Require Import Prelude Value K8s.
From stdpp Require Import options.

(** ** Nested fields *)
Fixpoint tree_get (v : value) (p : list string) : res (option value) :=
  match p with
  | [] => Ok (Some v)
  | k :: p =>
    match v with
    | VNull => Ok None
    | VMap m => match m !! k with Some x => tree_get x p | None => Ok None end
    | _ => Err (ErrorString "accessor error")
    end
  end.

Fixpoint tree_set (m : object) (v : value) (p : list string) : res object :=
  match p with
  | [] => Ok m
  | [k] => Ok (<[k := v]> m)
  | k :: p =>
    match m !! k with
    | Some (VMap m') => m'' ← tree_set m' v p; Ok (<[k := VMap m'']> m)
    | Some _ => Err (ErrorString "value cannot be set")
    | None => m'' ← tree_set ∅ v p; Ok (<[k := VMap m'']> m)
    end
  end.

Fixpoint tree_remove (m : object) (p : list string) : object :=
  match p with
  | [] => m
  | [k] => delete k m
  | k :: p =>
    match m !! k with
    | Some (VMap m') => <[k := VMap (tree_remove m' p)]> m
    | _ => m
    end
  end.

Lemma tree_get_set m v p m' :
  p ≠ [] → tree_set m v p = Ok m' → tree_get (VMap m') p = Ok (Some v).
Proof.
  revert m m'. induction p as [|k p IH]; intros m m' Hp Hset; [done|].
  destruct p as [|k' p].
  { simpl in Hset. injection Hset as <-. simpl. by rewrite lookup_insert_eq. }
  assert (Hm : ∃ m1 m2, tree_set m1 v (k' :: p) = Ok m2 ∧ m' = <[k := VMap m2]> m).
  { cbn [tree_set] in Hset. fold (tree_set) in Hset.
    destruct (m !! k) as [[| | | | | | |m1]|]; try done.
    - change (tree_set m1 v (k' :: p) ≫= (λ m'', Ok (<[k := VMap m'']> m)) = Ok m') in Hset.
      destruct (tree_set m1 v (k' :: p)) as [m2| |] eqn:E; simplify_eq/=. eauto.
    - change (tree_set ∅ v (k' :: p) ≫= (λ m'', Ok (<[k := VMap m'']> m)) = Ok m') in Hset.
      destruct (tree_set ∅ v (k' :: p)) as [m2| |] eqn:E; simplify_eq/=. eauto. }
  destruct Hm as (m1 & m2 & H2 & ->). cbn [tree_get]. rewrite lookup_insert_eq. by eapply IH.
Qed.

(** The equation of [tree_set] below the last field. *)
Lemma tree_set_cons m v k p :
  p ≠ [] →
  tree_set m v (k :: p) =
    match m !! k with
    | Some (VMap m') => m'' ← tree_set m' v p; Ok (<[k := VMap m'']> m)
    | Some _ => Err (ErrorString "value cannot be set")
    | None => m'' ← tree_set ∅ v p; Ok (<[k := VMap m'']> m)
    end.
Proof. by destruct p. Qed.

Lemma tree_remove_cons m k p :
  p ≠ [] →
  tree_remove m (k :: p) =
    match m !! k with
    | Some (VMap m') => <[k := VMap (tree_remove m' p)]> m
    | _ => m
    end.
Proof. by destruct p. Qed.

Lemma disjoint_paths_cons k p j q :
  disjoint_paths (k :: p) (j :: q) → k ≠ j ∨ k = j ∧ disjoint_paths p q.
Proof.
  intros [H1 H2]. destruct (decide (k = j)) as [->|]; [|by left]. right. split; [done|].
  split; intros H; [apply H1|apply H2]; by apply prefix_cons.
Qed.

Lemma disjoint_paths_nil_l q : ¬ disjoint_paths [] q.
Proof. intros [H _]. apply H, prefix_nil. Qed.
Lemma disjoint_paths_nil_r p : ¬ disjoint_paths p [].
Proof. intros [_ H]. apply H, prefix_nil. Qed.

Lemma tree_get_empty q : q ≠ [] → tree_get (VMap ∅) q = Ok None.
Proof. by destruct q. Qed.

Lemma tree_get_insert_ne m k x j q :
  k ≠ j → tree_get (VMap (<[k := x]> m)) (j :: q) = tree_get (VMap m) (j :: q).
Proof. intros Hk. simpl. by rewrite lookup_insert_ne. Qed.

Lemma tree_get_set_disjoint m v p m' q :
  tree_set m v p = Ok m' → disjoint_paths p q → tree_get (VMap m') q = tree_get (VMap m) q.
Proof.
  revert m m' q. induction p as [|k p IH]; intros m m' q Hset Hd; [by apply disjoint_paths_nil_l in Hd|].
  destruct q as [|j q]; [by apply disjoint_paths_nil_r in Hd|].
  destruct (decide (p = [])) as [->|Hp].
  { simpl in Hset. injection Hset as <-. apply tree_get_insert_ne.
    apply disjoint_paths_cons in Hd as [?|[_ Hd]]; [done|by apply disjoint_paths_nil_l in Hd]. }
  rewrite tree_set_cons in Hset by done.
  apply disjoint_paths_cons in Hd as [Hk|[<- Hd]].
  - destruct (m !! k) as [[| | | | | | |m1]|]; try done.
    + destruct (tree_set m1 v p); simplify_eq/=. by rewrite lookup_insert_ne.
    + destruct (tree_set ∅ v p); simplify_eq/=. by rewrite lookup_insert_ne.
  - destruct (m !! k) as [[| | | | | | |m1]|] eqn:Hm; try done.
    + destruct (tree_set m1 v p) as [m2| |] eqn:E; simplify_eq/=.
      rewrite lookup_insert_eq, Hm. by apply IH.
    + destruct (tree_set ∅ v p) as [m2| |] eqn:E; simplify_eq/=.
      rewrite lookup_insert_eq, Hm. rewrite (IH _ _ q E Hd).
      apply tree_get_empty. intros ->. by apply disjoint_paths_nil_r in Hd.
Qed.

Lemma tree_get_remove m p r :
  p ≠ [] → tree_get (VMap m) p = Ok r → tree_get (VMap (tree_remove m p)) p = Ok None.
Proof.
  revert m. induction p as [|k p IH]; intros m Hp Hget; [done|].
  destruct (decide (p = [])) as [->|Hp'].
  { simpl. by rewrite lookup_delete_eq. }
  rewrite tree_remove_cons by done. cbn [tree_get] in *.
  destruct (m !! k) as [x|] eqn:Hm; [|by rewrite Hm].
  destruct x; try (rewrite Hm; by destruct p).
  rewrite lookup_insert_eq. by apply IH.
Qed.

Lemma tree_get_remove_disjoint m p q :
  disjoint_paths p q → tree_get (VMap (tree_remove m p)) q = tree_get (VMap m) q.
Proof.
  revert m q. induction p as [|k p IH]; intros m q Hd; [by apply disjoint_paths_nil_l in Hd|].
  destruct q as [|j q]; [by apply disjoint_paths_nil_r in Hd|].
  destruct (decide (p = [])) as [->|Hp].
  { apply disjoint_paths_cons in Hd as [Hk|[_ Hd]]; [|by apply disjoint_paths_nil_l in Hd].
    simpl. by rewrite lookup_delete_ne. }
  rewrite tree_remove_cons by done. apply disjoint_paths_cons in Hd as [Hk|[<- Hd]].
  - destruct (m !! k) as [[]|]; try done. by apply tree_get_insert_ne.
  - destruct (m !! k) as [x|] eqn:Hm; [|done]. destruct x; try done.
    cbn [tree_get]. rewrite lookup_insert_eq, Hm. by apply IH.
Qed.

(** ** The instance *)
Section concrete.
Local Abbreviation get o := (tree_get (VMap o)).

Definition get_string (o : object) (p : list string) : string :=
  match get o p with Ok (Some (VString s)) => s | _ => "" end.

Definition as_string (v : value) : option string :=
  match v with VString s => Some s | _ => None end.

(** [NestedStringMap]: an entry that is not a string is an error. *)
Definition string_map (m : object) : res (gmap string string) :=
  if decide (map_Forall (λ _ v, is_Some (as_string v)) m) then Ok (omap as_string m)
  else Err (ErrorString "contains non-string value in the map").

Definition nested_string_map (o : object) (p : list string) : res (option (gmap string string)) :=
  v ← get o p;
  match v with
  | None => Ok None
  | Some (VMap m) => Some <$> string_map m
  | Some _ => Err (ErrorString "accessor error")
  end.

(** The setters of the metadata ignore the error of [SetNestedField]. *)
Definition set_or_keep (p : list string) (v : value) (o : object) : object :=
  match tree_set o v p with Ok o' => o' | _ => o end.

Definition opt_string_map (o : object) (p : list string) : option (gmap string string) :=
  match nested_string_map o p with Ok r => r | _ => None end.

Definition opt_bool (v : option value) : option bool :=
  match v with Some (VBool b) => Some b | _ => None end.

Definition ref_of_map (m : object) : OwnerReference := {|
  or_APIVersion := get_string m ["apiVersion"];
  or_Kind := get_string m ["kind"];
  or_Name := get_string m ["name"];
  or_UID := get_string m ["uid"];
  or_Controller := opt_bool (m !! "controller");
  or_BlockOwnerDeletion := opt_bool (m !! "blockOwnerDeletion");
|}.

Definition insert_opt_bool (k : string) (b : option bool) (m : object) : object :=
  match b with Some b => <[k := VBool b]> m | None => m end.

Definition map_of_ref (r : OwnerReference) : object :=
  insert_opt_bool "blockOwnerDeletion" (or_BlockOwnerDeletion r)
  (insert_opt_bool "controller" (or_Controller r)
  (<["apiVersion" := VString (or_APIVersion r)]>
  (<["kind" := VString (or_Kind r)]>
  (<["name" := VString (or_Name r)]>
  (<["uid" := VString (or_UID r)]> ∅))))).

Definition owner_references (o : object) : list OwnerReference :=
  match get o ["metadata"; "ownerReferences"] with
  | Ok (Some (VList l)) => omap (λ v, match v with VMap m => Some (ref_of_map m) | _ => None end) l
  | _ => []
  end.

Definition string_list (o : object) (p : list string) : list string :=
  match get o p with
  | Ok (Some (VList l)) => if forallb (λ v, bool_decide (is_Some (as_string v))) l then omap as_string l else []
  | _ => []
  end.

Definition set_finalizers (fs : list string) : object → object :=
  set_or_keep ["metadata"; "finalizers"] (VList (VString <$> fs)).

Definition parse_group_version (gv : string) : res GroupVersion :=
  if (gv == "") || (gv == "/") then Ok {| gv_Group := ""; gv_Version := "" |}
  else match strings_Split gv "/" with
       | [v] => Ok {| gv_Group := ""; gv_Version := v |}
       | [g; v] => Ok {| gv_Group := g; gv_Version := v |}
       | _ => Err (ErrorString ("unexpected GroupVersion string: " +:+ gv))
       end.

Definition group_version_string (gv : GroupVersion) : string :=
  if gv_Group gv != "" then gv_Group gv +:+ "/" +:+ gv_Version gv else gv_Version gv.

Definition split_key (key : string) : res (string * string) :=
  match strings_Split key "/" with
  | [name] => Ok ("", name)
  | [ns; name] => Ok (ns, name)
  | _ => Err (ErrorString ("unexpected key format: " +:+ quote key))
  end.

(** A label selector as the list of its requirements. *)
Definition requirement_matches (labels : gmap string string) (r : LabelSelectorRequirement) : bool :=
  let v := labels !! lsr_Key r in
  let inn := match v with Some v => bool_decide (v ∈ lsr_Values r) | None => false end in
  if lsr_Operator r == "In" then inn
  else if lsr_Operator r == "NotIn" then negb inn
  else if lsr_Operator r == "Exists" then bool_decide (is_Some v)
  else negb (bool_decide (is_Some v)).

Definition requirements (s : LabelSelector) : res (list LabelSelectorRequirement) :=
  if forallb (λ r, bool_decide (lsr_Operator r ∈ ["In"; "NotIn"; "Exists"; "DoesNotExist"]))
       (MatchExpressions s)
  then Ok (((λ '(k, v), {| lsr_Key := k; lsr_Operator := "In"; lsr_Values := [v] |}) <$>
             map_to_list (MatchLabels s)) ++ MatchExpressions s)
  else Err (ErrorString "is not a valid label selector operator").

(** Text that stands for JSON: the code of a tree, in binary. *)
Fixpoint bits_of (p : positive) : string :=
  match p with
  | xH => "1"
  | xO p => String "0" (bits_of p)
  | xI p => String "1" (bits_of p)
  end.
Fixpoint of_bits (s : string) : option positive :=
  match s with
  | EmptyString => None
  | String c s =>
    match s with
    | EmptyString => Some xH
    | _ => (if c == "0"%char then xO else xI) <$> of_bits s
    end
  end.

(** Values as trees of leaves, which [stdpp] can encode. *)
Abbreviation leaf := (string + (Z + bool))%type.

Fixpoint tree_of (v : value) : gen_tree leaf :=
  match v with
  | VNull => GenNode 0 []
  | VBool b => GenLeaf (inr (inr b))
  | VInt z => GenLeaf (inr (inl z))
  | VFloat z => GenNode 1 [GenLeaf (inr (inl z))]
  | VString s => GenLeaf (inl s)
  | VList l => GenNode 2 (tree_of <$> l)
  | VNilList => GenNode 3 []
  | VMap m => GenNode 4 (map_fold (λ k x acc, GenLeaf (inl k) :: tree_of x :: acc) [] m)
  end.

Fixpoint of_tree (t : gen_tree leaf) : option value :=
  match t with
  | GenLeaf (inl s) => Some (VString s)
  | GenLeaf (inr (inl z)) => Some (VInt z)
  | GenLeaf (inr (inr b)) => Some (VBool b)
  | GenNode 0 _ => Some VNull
  | GenNode 1 [GenLeaf (inr (inl z))] => Some (VFloat z)
  | GenNode 2 l =>
    VList <$> (fix go l := match l with
                           | [] => Some []
                           | t :: l => v ← of_tree t; vs ← go l; Some (v :: vs)
                           end) l
  | GenNode 3 _ => Some VNilList
  | GenNode 4 l =>
    VMap <$> (fix go l := match l with
                          | [] => Some ∅
                          | GenLeaf (inl k) :: t :: l => v ← of_tree t; m ← go l; Some (<[k := v]> m)
                          | _ => None
                          end) l
  | _ => None
  end.

Definition marshal (v : value) : res string := Ok (bits_of (encode (tree_of v))).
Definition unmarshal (s : string) : res object :=
  match p ← of_bits s; t ← decode p; of_tree t with
  | Some (VMap m) => Ok m
  | _ => Err (ErrorString "cannot unmarshal")
  end.

(** [errors.As] looks through wrapped errors. *)
Fixpoint reason_is (reason : string) (e : error) : bool :=
  match e with
  | StatusError r _ => r == reason
  | WrapError _ cause => reason_is reason cause
  | _ => false
  end.
End concrete.

Fixpoint error_text (e : error) : string :=
  match e with
  | ErrorString msg => msg
  | WrapError msg cause => msg +:+ ": " +:+ error_text cause
  | StatusError _ msg => msg
  | TooManyRequestError after => "Too many request, it will be resync after: " +:+ pretty after
  | ErrRelatedInformerNotSynced => "related informer not synced"
  | AggregateError errs => "[" +:+ strings_Join (error_text <$> errs) ", " +:+ "]"
  end.

#[local] Instance treeAPI : Apimachinery := {|
  GetAPIVersion := λ o, get_string o ["apiVersion"];
  GetKind := λ o, get_string o ["kind"];
  GetName := λ o, get_string o ["metadata"; "name"];
  GetNamespace := λ o, get_string o ["metadata"; "namespace"];
  GetUID := λ o, get_string o ["metadata"; "uid"];
  GetResourceVersion := λ o, get_string o ["metadata"; "resourceVersion"];
  GetGeneration := λ o,
    match tree_get (VMap o) ["metadata"; "generation"] with Ok (Some (VInt z)) => z | _ => 0%Z end;
  GetDeletionTimestamp := λ o,
    let s := get_string o ["metadata"; "deletionTimestamp"] in
    if s == "" then None else Some s;
  GetLabels := λ o, opt_string_map o ["metadata"; "labels"];
  GetAnnotations := λ o, opt_string_map o ["metadata"; "annotations"];
  GetOwnerReferences := owner_references;
  GetFinalizers := λ o, string_list o ["metadata"; "finalizers"];
  SetNamespace := λ ns, set_or_keep ["metadata"; "namespace"] (VString ns);
  SetResourceVersion := λ rv, set_or_keep ["metadata"; "resourceVersion"] (VString rv);
  SetLabels := λ l, set_or_keep ["metadata"; "labels"] (VMap (VString <$> l));
  SetAnnotations := λ a, set_or_keep ["metadata"; "annotations"] (VMap (VString <$> a));
  SetOwnerReferences := λ refs,
    set_or_keep ["metadata"; "ownerReferences"] (VList ((VMap ∘ map_of_ref) <$> refs));
  obj_GroupVersionKind := λ o,
    match parse_group_version (get_string o ["apiVersion"]) with
    | Ok gv => gv_WithKind gv (get_string o ["kind"])
    | _ => {| gvk_Group := ""; gvk_Version := ""; gvk_Kind := "" |}
    end;
  NestedFieldNoCopy := λ o p, tree_get (VMap o) p;
  NestedSlice := λ o p,
    v ← tree_get (VMap o) p;
    match v with
    | None => Ok None
    | Some (VList l) => Ok (Some l)
    | Some VNilList => Ok (Some [])
    | Some _ => Err (ErrorString "accessor error")
    end;
  NestedMap := λ o p,
    v ← tree_get (VMap o) p;
    match v with
    | None => Ok None
    | Some (VMap m) => Ok (Some m)
    | Some _ => Err (ErrorString "accessor error")
    end;
  NestedStringMap := nested_string_map;
  NestedInt64 := λ o p,
    v ← tree_get (VMap o) p;
    match v with
    | None => Ok None
    | Some (VInt z) => Ok (Some z)
    | Some _ => Err (ErrorString "accessor error")
    end;
  SetNestedField := tree_set;
  RemoveNestedField := tree_remove;
  GetControllerOf := λ refs, head (filter (λ r, is_controller_ref r = true) refs);
  ContainsFinalizer := λ o f, bool_decide (f ∈ string_list o ["metadata"; "finalizers"]);
  AddFinalizer := λ o f,
    let fs := string_list o ["metadata"; "finalizers"] in
    if bool_decide (f ∈ fs) then o else set_finalizers (fs ++ [f]) o;
  RemoveFinalizer := λ o f,
    let fs := string_list o ["metadata"; "finalizers"] in
    if bool_decide (f ∈ fs) then set_finalizers (filter (λ g, g ≠ f) fs) o else o;
  json_Marshal := marshal;
  json_Unmarshal := unmarshal;
  json_Unmarshal_LabelSelector := λ s,
    if s == "" then Err (ErrorString "unexpected end of JSON input") else Ok emptyLabelSelector;
  ParseGroupVersion := parse_group_version;
  GroupVersion_String := group_version_string;
  Selector := list LabelSelectorRequirement;
  Matches := λ s labels, forallb (requirement_matches labels) s;
  Everything := [];
  Selector_Empty := λ s, match s with [] => true | _ => false end;
  LabelSelectorAsSelector := requirements;
  AddLabelToSelector := λ s k v,
    {| MatchLabels := <[k := v]> (MatchLabels s); MatchExpressions := MatchExpressions s |};
  IsNotFound := reason_is "NotFound";
  IsConflict := reason_is "Conflict";
  IsAlreadyExists := reason_is "AlreadyExists";
  IsGone := reason_is "Gone";
  IsBadRequest := reason_is "BadRequest";
  IsForbidden := reason_is "Forbidden";
  NewNotFound := λ resource name, StatusError "NotFound" (resource +:+ " " +:+ quote name +:+ " not found");
  NewGone := λ msg, StatusError "Gone" msg;
  error_Error := error_text;
  SplitMetaNamespaceKey := split_key;
  MetaNamespaceKeyFunc := λ o,
    let ns := get_string o ["metadata"; "namespace"] in
    let name := get_string o ["metadata"; "name"] in
    Ok (if ns != "" then ns +:+ "/" +:+ name else name);
|}.

(** ** The laws hold *)
#[export] Instance tree_nested_laws : NestedFieldLaws.
Proof.
  split; simpl.
  - intros o k. by destruct (o !! k).
  - intros o k m q Ho _. by rewrite Ho.
  - intros o k q Ho. by rewrite Ho.
  - intros o v p o' Hp Hset. by eapply tree_get_set.
  - intros o v p o' q Hset Hd. by eapply tree_get_set_disjoint.
  - intros o p Hp r Hr. by eapply tree_get_remove.
  - intros o p q Hd. by apply tree_get_remove_disjoint.
Qed.

#[export] Instance tree_nested_type_laws : NestedTypeLaws.
Proof.
  split; simpl; intros o p; try (intros v Hv); try (intros Hv); try rewrite Hv; try done.
  revert Hv. destruct (tree_get (VMap o) p) as [[[]|]|e|s]; simpl; by intros [= ->].
Qed.

Lemma set_metadata_ok (o : object) k v :
  metadata_ok o → ∃ o', tree_set o v ["metadata"; k] = Ok o' ∧
    tree_get (VMap o') ["metadata"; k] = Ok (Some v).
Proof.
  intros Hok.
  assert (∃ o', tree_set o v ["metadata"; k] = Ok o') as [o' Ho'].
  { unfold metadata_ok in Hok. simpl in *.
    destruct (o !! "metadata") as [x|]; [|by eauto].
    destruct Hok as [?|[m ?]]; simplify_eq. eauto. }
  exists o'. split; [done|]. by eapply tree_get_set.
Qed.

Lemma set_or_keep_get (o : object) k v :
  metadata_ok o → tree_get (VMap (set_or_keep ["metadata"; k] v o)) ["metadata"; k] = Ok (Some v).
Proof. intros (o' & Ho' & Hget)%(set_metadata_ok o k v). unfold set_or_keep. by rewrite Ho'. Qed.

Lemma set_or_keep_disjoint (o : object) p v q :
  disjoint_paths p q → tree_get (VMap (set_or_keep p v o)) q = tree_get (VMap o) q.
Proof.
  intros Hd. unfold set_or_keep. destruct (tree_set o v p) eqn:E; [|done..].
  by eapply tree_get_set_disjoint.
Qed.

Lemma string_map_VString (m : gmap string string) : string_map (VString <$> m) = Ok m.
Proof.
  unfold string_map. rewrite decide_True.
  - f_equal. apply map_eq. intros k. rewrite lookup_omap, lookup_fmap. by destruct (m !! k).
  - intros k v. rewrite lookup_fmap_Some. intros (s & <- & _). by eexists.
Qed.

Lemma opt_string_map_field (o o' : object) p :
  tree_get (VMap o) p = tree_get (VMap o') p → opt_string_map o p = opt_string_map o' p.
Proof. unfold opt_string_map, nested_string_map. by intros ->. Qed.

#[export] Instance tree_annotation_laws : AnnotationLaws.
Proof.
  split; simpl.
  - intros a o. unfold opt_string_map, nested_string_map, metadata_ok. simpl.
    destruct (o !! "metadata") as [v|]; [|done]. destruct v; try done. intros _. right. by eexists.
  - intros a o Hok. unfold opt_string_map, nested_string_map.
    rewrite set_or_keep_get by done. simpl. by rewrite string_map_VString.
  - intros o o'. exact (opt_string_map_field o o' ["metadata"; "annotations"]).
  - intros a o q Hd. by apply set_or_keep_disjoint.
Qed.

Lemma set_or_keep_metadata_ok (o : object) k v :
  metadata_ok o → metadata_ok (set_or_keep ["metadata"; k] v o).
Proof.
  intros (o' & Ho' & Hget)%(set_metadata_ok o k v). unfold set_or_keep. rewrite Ho'.
  right. simpl in *. destruct (o' !! "metadata") as [x|]; [|done]. destruct x; try done. by eexists.
Qed.

Lemma ref_of_map_of_ref r : ref_of_map (map_of_ref r) = r.
Proof.
  destruct r as [a k n u c b]. unfold ref_of_map, map_of_ref, get_string.
  destruct c as [c|], b as [b|]; simpl; by simplify_map_eq/=.
Qed.

#[export] Instance tree_owner_laws : OwnerReferenceLaws.
Proof.
  split; simpl.
  - intros refs r H. induction refs as [|x refs IH]; [done|]. rewrite filter_cons in H.
    case_decide; [|set_solver]. simplify_eq/=. split; [set_solver|done].
  - intros refs H. induction refs as [|x refs IH]; [by constructor|]. rewrite filter_cons in H.
    case_decide as Hx; [done|]. constructor; [|by apply IH]. by apply not_true_is_false.
  - intros refs o Hok. unfold owner_references. rewrite set_or_keep_get by done.
    induction refs as [|r refs IH]; [done|]. lsimpl. by rewrite ref_of_map_of_ref, IH.
Qed.

#[export] Instance tree_label_laws : LabelLaws.
Proof.
  split; simpl.
  - intros o o'. exact (opt_string_map_field o o' ["metadata"; "labels"]).
  - intros l o Hok. unfold opt_string_map, nested_string_map.
    rewrite set_or_keep_get by done. simpl. by rewrite string_map_VString.
  - intros l o q Hd. by apply set_or_keep_disjoint.
  - intros l o Hok. by apply set_or_keep_metadata_ok.
  - intros l o Hok. unfold nested_string_map.
    rewrite set_or_keep_get by done. simpl. by rewrite string_map_VString.
Qed.

#[export] Instance tree_selector_laws : SelectorLaws.
Proof.
  split; [done|done| |done]. simpl. intros s sel l He. unfold requirements. rewrite He. simpl.
  intros [= <-]. rewrite app_nil_r, map_subseteq_spec, forallb_forall.
  assert (Hreq : ∀ k v, requirement_matches l {| lsr_Key := k; lsr_Operator := "In"; lsr_Values := [v] |} = true ↔
    l !! k = Some v).
  { intros k v. unfold requirement_matches. simpl. destruct (l !! k) as [v'|]; [|done].
    rewrite bool_decide_eq_true, list_elem_of_singleton. naive_solver. }
  split.
  - intros H k v Hkv. apply Hreq, H, list_elem_of_In, list_elem_of_fmap. exists (k, v).
    split; [done|]. by apply elem_of_map_to_list.
  - intros H r Hr. apply list_elem_of_In, list_elem_of_fmap in Hr as ([k v] & -> & Hkv).
    apply Hreq, H. by apply elem_of_map_to_list.
Qed.

Lemma string_list_set (o : object) k fs :
  metadata_ok o →
  string_list (set_or_keep ["metadata"; k] (VList (VString <$> fs)) o) ["metadata"; k] = fs.
Proof.
  intros Hok. unfold string_list. rewrite set_or_keep_get by done.
  assert (Hall : forallb (λ v, bool_decide (is_Some (as_string v))) (VString <$> fs) = true).
  { clear. induction fs as [|f fs IH]; [done|]. lsimpl. by rewrite IH. }
  rewrite Hall. clear. induction fs as [|f fs IH]; [done|]. lsimpl. by rewrite IH.
Qed.

Lemma string_list_metadata_ok (o : object) k f : f ∈ string_list o ["metadata"; k] → metadata_ok o.
Proof.
  unfold string_list, metadata_ok. cbn. intros Hf.
  destruct (o !! "metadata") as [x|] eqn:E; [|left; reflexivity].
  destruct x; simpl in Hf; try (by apply not_elem_of_nil in Hf). right. by eexists.
Qed.

#[export] Instance tree_finalizer_laws : FinalizerLaws.
Proof.
  split; cbn [ContainsFinalizer AddFinalizer RemoveFinalizer GetFinalizers treeAPI].
  - intros o f. by rewrite bool_decide_eq_true.
  - intros o f Hok. apply bool_decide_true. case_bool_decide as Hf; [done|].
    unfold set_finalizers. rewrite string_list_set by done. set_solver.
  - intros o f. apply bool_decide_false. case_bool_decide as Hf; [|done].
    unfold set_finalizers. rewrite string_list_set by (by eapply string_list_metadata_ok).
    by intros [? _]%list_elem_of_filter.
Qed.

(** The text that stands for JSON reads back. *)
Lemma of_bits_of p : of_bits (bits_of p) = Some p.
Proof.
  assert (Hne : ∀ q, bits_of q ≠ "") by (by intros []).
  induction p as [p IH|p IH|]; [| |done].
  - simpl. destruct (bits_of p) eqn:E; [by apply Hne in E|]. by rewrite IH.
  - simpl. destruct (bits_of p) eqn:E; [by apply Hne in E|]. by rewrite IH.
Qed.

Lemma of_tree_of v : of_tree (tree_of v) = Some v.
Proof.
  induction v as [|b|z|z|str|l IH| |m IH] using value_deep_ind; try done.
  - cbn [tree_of of_tree].
    match goal with |- VList <$> ?go (tree_of <$> l) = _ =>
      assert (Hgo : go (tree_of <$> l) = Some l); [|by rewrite Hgo] end.
    induction IH as [|x l Hx _ IHl]; [done|]. rewrite fmap_cons. rewrite Hx. simpl. by rewrite IHl.
  - cbn [tree_of of_tree].
    match goal with |- VMap <$> ?go ?l = _ => assert (Hgo : go l = Some m); [|by rewrite Hgo] end.
    revert IH. induction m as [|k x m Hk Hfold IHm] using fin_maps.map_fold_ind; intros IH; [done|].
    rewrite Hfold. apply map_Forall_insert in IH as [Hx IH]; [|done].
    rewrite Hx. simpl. by rewrite IHm.
Qed.

Lemma marshal_unmarshal m s : marshal (VMap m) = Ok s → s ≠ "" ∧ unmarshal s = Ok m.
Proof.
  unfold marshal. intros [= <-]. split; [by destruct (encode _)|].
  unfold unmarshal. rewrite of_bits_of. simpl. rewrite decode_encode. simpl.
  pose proof (of_tree_of (VMap m)) as H. simpl in H. by rewrite H.
Qed.

Lemma strings_Split_two a b sep :
  strings_Contains a sep = false → strings_Contains b sep = false →
  strings_Split (a +:+ String sep "" +:+ b) sep = [a; b].
Proof.
  intros Ha Hb. change (String sep "" +:+ b) with (String sep b). induction a as [|c a IH]; simpl.
  - by rewrite bool_decide_true, strings_Split_no_sep.
  - simpl in Ha. apply orb_false_iff in Ha as [Hc Ha]. by rewrite Hc, IH.
Qed.

#[export] Instance tree_group_version_laws : GroupVersionLaws.
Proof.
  split; simpl; unfold parse_group_version.
  - intros g v Hg Hgs Hvs. rewrite strings_Split_two by done.
    destruct g as [|c g]; [done|]. simpl in Hgs. apply orb_false_iff in Hgs as [Hc _].
    apply bool_decide_eq_false in Hc.
    assert (∀ s, String c g +:+ s = String c (g +:+ s)) as Happ by done.
    rewrite Happ, !bool_decide_false; [done|congruence..].
  - intros v Hv Hs. rewrite strings_Split_no_sep by done.
    rewrite !bool_decide_false; [done| |done]. by intros ->.
Qed.

#[export] Instance tree_namespace_key_laws : NamespaceKeyLaws.
Proof.
  split; simpl; unfold split_key.
  - intros ns name Hns Hname. by rewrite strings_Split_two.
  - intros name Hname. by rewrite strings_Split_no_sep.
Qed.
