(* ===== verification/Apply.v ===== *)
(** * Three-way merge: [pkg/dynamic/apply/apply.go]

    [Merge observed lastApplied desired] computes the diff from [lastApplied]
    to [desired] and applies it to a copy of [observed].  Maps are updated in
    place by loops over Go maps; the model runs the same loops in the order a
    [GoRuntime] enumerates.  Recursion descends in [desired], so a fuel of
    [S (vdepth desired)] is enough (first theorem of the section on totality). *)
From S2P Require Import Prelude Value K8s K8sInst.
From stdpp Require Import options.

Definition LastAppliedAnnotation : string := "metacontroller.k8s.io/last-applied-configuration".

Section last_applied.
Context {API : Apimachinery}.

Definition SetLastApplied (obj lastApplied : object) : res object :=
  lastAppliedJSON ← wrap_err "can't marshal last applied config" (json_Marshal (VMap lastApplied));
  let ann := default ∅ (GetAnnotations obj) in
  mret (SetAnnotations (<[LastAppliedAnnotation := lastAppliedJSON]> ann) obj).

(** [Ok None] is Go's nil map. *)
Definition GetLastApplied (obj : object) : res (option object) :=
  let lastAppliedJSON := annotation obj LastAppliedAnnotation in
  if lastAppliedJSON == "" then mret None
  else
    lastApplied ← wrap_err ("can't unmarshal " +:+ quote LastAppliedAnnotation +:+ " annotation")
                    (json_Unmarshal lastAppliedJSON);
    mret (Some lastApplied).
End last_applied.

(** ** Merge keys *)
Definition knownMergeKeys : list string :=
  ["containerPort"; "port"; "mountPath"; "name"; "uid"; "ip"; "path"].

(** [commonKeys] while [detectListMapKey] scans the items: [None] is the nil
    set before the first object; a non-object ends the scan. *)
Fixpoint scan_commonKeys (commonKeys : option (gset string)) (items : list value) :
    option (option (gset string)) :=
  match items with
  | [] => Some commonKeys
  | VMap obj :: items =>
    scan_commonKeys
      (Some match commonKeys with
            | None => dom obj
            | Some ks => filter (λ key, is_Some (obj !! key)) ks
            end) items
  | _ :: _ => None
  end.

Fixpoint first_known (commonKeys : gset string) (keys : list string) : string :=
  match keys with
  | [] => ""
  | key :: keys => if bool_decide (key ∈ commonKeys) then key else first_known commonKeys keys
  end.

Definition detectListMapKey (lists : list (list value)) : string :=
  match scan_commonKeys None (concat lists) with
  | None => ""
  | Some commonKeys => first_known (default ∅ commonKeys) knownMergeKeys
  end.

Section merge.
Context {RT : GoRuntime}.

Definition stringMergeKey (val : value) : string :=
  match val with
  | VString tval => tval
  | _ => fmt_v val
  end.

(** [item.(map[string]interface{})]: the type assertion panics on anything else. *)
Definition assert_map (item : value) : res object :=
  match item with VMap m => Ok m | _ => Panic "interface conversion" end.

(** [m[key]] on a [map[string]interface{}]: nil when the key is missing. *)
Definition map_get (m : object) (key : string) : value := default VNull (m !! key).

Definition item_key (mergeKey : string) (item : value) : res string :=
  itemMap ← assert_map item;
  mret (stringMergeKey (map_get itemMap mergeKey)).

Definition makeListMap (mergeKey : string) (list : list value) : res object :=
  foldlM (λ res item, key ← item_key mergeKey item; mret (<[key := item]> res)) ∅ list.

(** The items of [destination] as the loops that follow the merge see them:
    [destMap] holds, for each key, the last item with that key, and merging
    mutates that item in place when [desired] has the key. *)
Fixpoint merged_items (mergeKey : string) (destMap desMap : object) (items : list value)
    : res (list value * gset string) :=
  match items with
  | [] => mret ([], ∅)
  | item :: items =>
    '(rest, later) ← merged_items mergeKey destMap desMap items;
    key ← item_key mergeKey item;
    let item' :=
      if bool_decide (key ∈ later) then item
      else if bool_decide (is_Some (desMap !! key)) then default item (destMap !! key)
      else item in
    mret (item' :: rest, {[key]} ∪ later)
  end.

(** Turn [destMap] back into a list: first the items already in [destination]... *)
Definition append_existing (mergeKey : string) (destMap : object)
    (acc : list value * gset string) (item : value) : res (list value * gset string) :=
  let '(destList, added) := acc in
  key ← item_key mergeKey item;
  match destMap !! key with
  | Some newItem => mret (destList ++ [newItem], {[key]} ∪ added)
  | None => mret (destList, added)
  end.

(** ... then the items of [desired] that have not been added yet. *)
Definition append_new (mergeKey : string) (destMap : object)
    (acc : list value * gset string) (item : value) : res (list value * gset string) :=
  let '(destList, added) := acc in
  key ← item_key mergeKey item;
  if bool_decide (key ∈ added) then mret (destList, added)
  else mret (destList ++ [map_get destMap key], {[key]} ∪ added).

(** Type assertions with the comma-ok form: the zero value is nil. *)
Definition as_map (v : value) : option object * bool :=
  match v with VMap m => (Some m, true) | _ => (None, false) end.
Definition as_list (v : value) : option (list value) * bool :=
  match v with
  | VList l => (Some l, true)
  | VNilList => (None, true)
  | _ => (None, false)
  end.
Definition non_nil {A} (o : option A) : bool := match o with Some _ => true | None => false end.

(** A slice as the value it is returned as. *)
Definition VSlice (l : option (list value)) : value :=
  match l with Some l => VList l | None => VNilList end.

Section mergeObject.
(** the recursive call on a field *)
Variable merge : string → value → value → value → res value.

Definition mergeObject (fieldPath : string) (destination : object)
    (lastApplied desired : option object) : res object :=
  let lastApplied := default ∅ lastApplied in
  let desired := default ∅ desired in
  (* Remove fields that were present in lastApplied, but no longer in desired. *)
  let destination :=
    foldl (λ destination '(key, _),
      if bool_decide (is_Some (desired !! key)) then destination
      else delete key destination) destination (range lastApplied) in
  (* Add/Update all fields present in desired. *)
  foldlM (λ destination '(key, desVal),
    v ← merge (fieldPath +:+ "[" +:+ key +:+ "]") (map_get destination key)
          (map_get lastApplied key) desVal;
    mret (<[key := v]> destination)) destination (range desired).

Definition mergeListMap (fieldPath mergeKey : string)
    (destination lastApplied desired : list value) : res value :=
  destMap ← makeListMap mergeKey destination;
  lastMap ← makeListMap mergeKey lastApplied;
  desMap ← makeListMap mergeKey desired;
  destMap ← mergeObject fieldPath destMap (Some lastMap) (Some desMap);
  '(destination, _) ← merged_items mergeKey destMap desMap destination;
  acc ← foldlM (append_existing mergeKey destMap) ([], ∅) destination;
  '(destList, _) ← foldlM (append_new mergeKey destMap) acc desired;
  mret (VList destList).

Definition mergeArray (fieldPath : string)
    (destination lastApplied desired : option (list value)) : res value :=
  let dest := default [] destination in
  let last := default [] lastApplied in
  let des := default [] desired in
  let mergeKey := detectListMapKey [dest; last; des] in
  if mergeKey != "" then mergeListMap fieldPath mergeKey dest last des
  (* It's a normal array. Just replace for now. *)
  else mret (VSlice desired).
End mergeObject.

Definition expecting (what fieldPath kind : string) (got : value) : error :=
  ErrorString (what +:+ fieldPath +:+ ": expecting " +:+ kind +:+ ", got " +:+ fmt_T got).

Fixpoint merge (fuel : nat) (fieldPath : string)
    (destination lastApplied desired : value) : res value :=
  match fuel with
  | 0 => Panic "out of fuel"
  | S fuel =>
    let merge_map destVal :=
      let '(lastVal, ok) := as_map lastApplied in
      if negb ok && non_nil lastVal then
        Err (expecting "lastApplied" fieldPath "map[string]interface" lastApplied)
      else
      let '(desVal, ok) := as_map desired in
      if negb ok && non_nil desVal then
        Err (expecting "desired" fieldPath "map[string]interface" desired)
      else VMap <$> mergeObject (merge fuel) fieldPath destVal lastVal desVal in
    let merge_list destVal :=
      let '(lastVal, ok) := as_list lastApplied in
      if negb ok && non_nil lastVal then
        Err (expecting "lastApplied" fieldPath "[]interface" lastApplied)
      else
      let '(desVal, ok) := as_list desired in
      if negb ok && non_nil desVal then
        Err (expecting "desired" fieldPath "[]interface" desired)
      else mergeArray (merge fuel) fieldPath destVal lastVal desVal in
    match destination with
    | VMap destVal => merge_map destVal
    | VList destVal => merge_list (Some destVal)
    | VNilList => merge_list None
    | _ => mret desired
    end
  end.

(** [lastApplied] may be Go's nil map, which reads as an empty one. *)
Definition Merge (observed : object) (lastApplied : option object) (desired : object) : res object :=
  destination ← wrap_err "can't merge desired changes"
    (merge (S (vdepth (VMap desired))) "" (VMap observed)
       (VMap (default ∅ lastApplied)) (VMap desired));
  assert_map destination.
End merge.

(** ** The loops over maps *)
Section loops.
Context {RT : GoRuntime}.

(** What [mergeObject] leaves behind, given the merged value of each desired
    field: desired fields win, fields no longer desired go, others stay. *)
Definition merged_fields (g : string → value) (destination lastApplied desired : object) : object :=
  map_imap (λ k _, Some (g k)) desired ∪
  filter (λ '(k, _), lastApplied !! k = None) destination.

Lemma lookup_merged_fields g dest last des k :
  merged_fields g dest last des !! k =
    if decide (is_Some (des !! k)) then Some (g k)
    else if decide (is_Some (last !! k)) then None else dest !! k.
Proof.
  unfold merged_fields. case_decide as Hdes.
  - destruct Hdes as [dv Hdv]. apply lookup_union_Some_l.
    by rewrite map_lookup_imap, Hdv.
  - apply eq_None_not_Some in Hdes.
    rewrite lookup_union_r by (by rewrite map_lookup_imap, Hdes).
    rewrite map_lookup_filter. case_decide as Hl.
    + destruct (dest !! k); simpl; [|done]. rewrite option_guard_False; [done|].
      intros Hn. rewrite Hn in Hl. by destruct Hl.
    + apply eq_None_not_Some in Hl. destruct (dest !! k); simpl; [|done].
      by rewrite option_guard_True.
Qed.

Lemma foldl_delete_lookup (des dest : object) (l : list (string * value)) k :
  foldl (λ d '(key, _), if bool_decide (is_Some (des !! key)) then d else delete key d) dest l !! k
  = if decide (is_Some (des !! k)) then dest !! k
    else if decide (k ∈ l.*1) then None else dest !! k.
Proof.
  revert dest. induction l as [|[i x] l IH]; intros dest; simpl.
  - by repeat case_decide.
  - rewrite IH. destruct (decide (is_Some (des !! k))) as [Hk|Hk].
    + case_bool_decide; [done|]. rewrite lookup_delete_ne; [done|]. by intros ->.
    + destruct (decide (k ∈ l.*1)) as [Hin|Hin].
      { rewrite decide_True; [done|set_solver]. }
      case_bool_decide as Hi.
      * rewrite decide_False; [done|]. intros [->|?]%elem_of_cons; done.
      * destruct (decide (k = i)) as [->|Hne].
        -- rewrite decide_True by set_solver. by rewrite lookup_delete_eq.
        -- rewrite decide_False by set_solver. by rewrite lookup_delete_ne.
Qed.

Lemma foldlM_insert (step : string → value → value → res value) (g : string → value)
    (l : list (string * value)) (dest : object) :
  NoDup l.*1 →
  (∀ k dv, (k, dv) ∈ l → step k (map_get dest k) dv = Ok (g k)) →
  ∃ dest', foldlM (λ d '(k, dv), v ← step k (map_get d k) dv; mret (<[k := v]> d)) dest l = Ok dest' ∧
    ∀ k, dest' !! k = if decide (k ∈ l.*1) then Some (g k) else dest !! k.
Proof.
  revert dest. induction l as [|[i x] l IH]; intros dest Hnd Hstep; simpl.
  - by exists dest.
  - apply NoDup_cons in Hnd as [Hi Hnd].
    rewrite (Hstep i x) by set_solver. simpl.
    destruct (IH (<[i := g i]> dest) Hnd) as (dest' & -> & Hlook).
    { intros k dv Hin. rewrite <-(Hstep k dv) by set_solver. unfold map_get.
      rewrite lookup_insert_ne; [done|]. intros ->. apply Hi.
      apply list_elem_of_fmap. by exists (k, dv). }
    exists dest'. split; [done|]. intros k. rewrite Hlook.
    destruct (decide (k ∈ l.*1)) as [?|Hk].
    { rewrite decide_True; [done|set_solver]. }
    destruct (decide (k = i)) as [->|Hne].
    + rewrite decide_True by set_solver. by rewrite lookup_insert_eq.
    + rewrite decide_False by set_solver. by rewrite lookup_insert_ne.
Qed.

Lemma elem_of_range_keys {V} (m : gmap string V) k : k ∈ (range m).*1 ↔ is_Some (m !! k).
Proof.
  rewrite list_elem_of_fmap. split.
  - intros ([i x] & -> & Hx). apply elem_of_range in Hx. by exists x.
  - intros [x Hx]. exists (k, x). split; [done|]. by apply elem_of_range.
Qed.

Lemma mergeObject_Ok merge path dest last des g :
  (∀ p k dv, default ∅ des !! k = Some dv →
    merge p (map_get dest k) (map_get (default ∅ last) k) dv = Ok (g k)) →
  mergeObject merge path dest last des
  = Ok (merged_fields g dest (default ∅ last) (default ∅ des)).
Proof.
  intros Hmerge. unfold mergeObject.
  set (L := default ∅ last) in *. set (D := default ∅ des) in *.
  set (dest1 := foldl _ dest (range L)).
  assert (Hdest1 : ∀ k, dest1 !! k = if decide (is_Some (D !! k)) then dest !! k
    else if decide (is_Some (L !! k)) then None else dest !! k).
  { intros k. unfold dest1. rewrite foldl_delete_lookup. case_decide; [done|].
    by apply decide_ext, elem_of_range_keys. }
  destruct (foldlM_insert (λ k d dv, merge (path +:+ "[" +:+ k +:+ "]") d (map_get L k) dv) g
    (range D) dest1) as (dest' & -> & Hlook).
  - apply NoDup_range_keys.
  - intros k dv Hin. apply elem_of_range in Hin. rewrite <-(Hmerge (path +:+ "[" +:+ k +:+ "]") k dv Hin).
    f_equal. unfold map_get. rewrite Hdest1, decide_True by eauto. done.
  - f_equal. apply map_eq. intros k. rewrite Hlook, lookup_merged_fields, Hdest1.
    destruct (decide (is_Some (D !! k))) as [Hk|Hk].
    + by rewrite decide_True by (by apply elem_of_range_keys).
    + by rewrite decide_False by (by rewrite elem_of_range_keys).
Qed.
End loops.

(** ** [detectListMapKey] *)

(** Every item is an object that has the key, and there is at least one. *)
Definition common_key (items : list value) (key : string) : Prop :=
  items ≠ [] ∧ Forall (λ v, ∃ m, v = VMap m ∧ is_Some (m !! key)) items.

Lemma scan_commonKeys_Some ks items r :
  scan_commonKeys (Some ks) items = r →
  (∀ key, (∃ ks', r = Some (Some ks') ∧ key ∈ ks') ↔
     key ∈ ks ∧ Forall (λ v, ∃ m, v = VMap m ∧ is_Some (m !! key)) items) ∧
  r ≠ Some None.
Proof.
  intros <-. revert ks. induction items as [|v items IH]; intros ks; simpl.
  - split; [|done]. intros key. rewrite Forall_nil. split; [|naive_solver].
    intros (ks' & [= <-] & ?); done.
  - destruct v as [| | | | | | |m].
    1-7: split; [|done]; intros key; split; [naive_solver|];
         intros [_ [(m & ? & _) _]%Forall_cons_1]; naive_solver.
    destruct (IH (filter (λ key, is_Some (m !! key)) ks)) as [IH1 IH2].
    split; [|done]. intros key. rewrite IH1, elem_of_filter, Forall_cons. naive_solver.
Qed.

Lemma scan_commonKeys_spec items key :
  (∃ ks, scan_commonKeys None items = Some (Some ks) ∧ key ∈ ks) ↔ common_key items key.
Proof.
  unfold common_key. destruct items as [|v items]; simpl; [naive_solver|].
  destruct v as [| | | | | | |m].
  1-7: split; [naive_solver|]; intros [_ [(m & ? & _) _]%Forall_cons_1]; naive_solver.
  destruct (scan_commonKeys_Some (dom m) items _ eq_refl) as [H _].
  rewrite H, elem_of_dom, Forall_cons. naive_solver.
Qed.

Lemma first_known_spec ks keys key :
  key ≠ "" → "" ∉ keys →
  first_known ks keys = key ↔
  ∃ pre post, keys = pre ++ key :: post ∧ key ∈ ks ∧ Forall (λ k, k ∉ ks) pre.
Proof.
  intros Hkey Hnil. induction keys as [|k keys IH]; simpl.
  { split; [naive_solver|]. intros ([] & ? & ? & _); done. }
  apply not_elem_of_cons in Hnil as [_ Hnil].
  case_bool_decide as Hk; [|rewrite IH by done].
  - split.
    + intros <-. by exists [], keys.
    + intros ([|k' pre] & post & [= -> ->] & Hin & Hpre); [done|].
      by apply Forall_cons_1 in Hpre as [? _].
  - split.
    + intros (pre & post & -> & Hin & Hpre). exists (k :: pre), post.
      rewrite Forall_cons. naive_solver.
    + intros ([|k1 pre] & post & Heq & Hin & Hpre); simplify_eq/=.
      apply Forall_cons_1 in Hpre as [_ Hpre]. by exists pre, post.
Qed.

Lemma known_keys_non_empty : "" ∉ knownMergeKeys.
Proof. by apply (bool_decide_unpack _). Qed.

Lemma detectListMapKey_iff lists key :
  key ≠ "" →
  detectListMapKey lists = key ↔
  ∃ pre post, knownMergeKeys = pre ++ key :: post ∧
    common_key (concat lists) key ∧ Forall (λ k, ¬ common_key (concat lists) k) pre.
Proof.
  intros Hkey. unfold detectListMapKey.
  assert (Hks : ∀ k, k ∈ match scan_commonKeys None (concat lists) with
      Some ks => default ∅ ks | None => ∅ end ↔ common_key (concat lists) k).
  { intros k. rewrite <-scan_commonKeys_spec.
    destruct (scan_commonKeys None (concat lists)) as [[ks|]|]; simpl; set_solver. }
  destruct (scan_commonKeys None (concat lists)) as [ks|].
  - rewrite (first_known_spec _ _ _ Hkey known_keys_non_empty).
    setoid_rewrite Hks. done.
  - split; [congruence|]. intros (pre & post & _ & Hin & _).
    apply Hks in Hin. set_solver.
Qed.

(** [detectListMapKey] returns a key exactly when all the items of all the
    lists are objects that share it, there is an item, and no known merge key
    of higher precedence is shared too. *)
Theorem detectListMapKey_spec lists key :
  key ≠ "" →
  detectListMapKey lists = key ↔
  ∃ pre post, knownMergeKeys = pre ++ key :: post ∧
    common_key (concat lists) key ∧ Forall (λ k, ¬ common_key (concat lists) k) pre.
Proof. apply detectListMapKey_iff. Qed.

Lemma detectListMapKey_common lists key :
  key ≠ "" → detectListMapKey lists = key → common_key (concat lists) key.
Proof. intros Hk H%(detectListMapKey_iff _ _ Hk). naive_solver. Qed.

(** ** Totality and the equations of the merge *)
Section total.
Context {RT : GoRuntime}.

Definition is_object (v : value) : Prop := ∃ m, v = VMap m.

(** The merge key of an item that is an object. *)
Definition key_of (mergeKey : string) (item : value) : string :=
  match item with VMap m => stringMergeKey (map_get m mergeKey) | _ => "" end.

(** The last item with each key. *)
Definition list_map (mergeKey : string) (items : list value) : object :=
  foldl (λ res item, <[key_of mergeKey item := item]> res) ∅ items.

Lemma makeListMap_Ok mk items :
  Forall is_object items → makeListMap mk items = Ok (list_map mk items).
Proof.
  unfold makeListMap, list_map. generalize (∅ : object). intros m0 Hitems. revert m0.
  induction Hitems as [|v items [m ->] _ IH]; intros m0; simpl; [done|]. apply IH.
Qed.

Lemma list_map_snoc mk items item :
  list_map mk (items ++ [item]) = <[key_of mk item := item]> (list_map mk items).
Proof. unfold list_map. by rewrite foldl_app. Qed.

Lemma list_map_Some mk items k x :
  list_map mk items !! k = Some x → x ∈ items ∧ key_of mk x = k.
Proof.
  induction items as [|y items IH] using rev_ind; [done|]. rewrite list_map_snoc.
  intros [[<- ->]|[_ Hx]]%lookup_insert_Some; [set_solver|].
  destruct (IH Hx). set_solver.
Qed.

Lemma list_map_is_Some mk items k :
  is_Some (list_map mk items !! k) ↔ k ∈ key_of mk <$> items.
Proof.
  induction items as [|y items IH] using rev_ind.
  - unfold list_map; simpl. rewrite lookup_empty. split; [by intros []|set_solver].
  - rewrite list_map_snoc, lookup_insert_is_Some, IH, fmap_app. simpl.
    set_unfold. destruct (decide (key_of mk y = k)); naive_solver.
Qed.

(** The merge with enough fuel; any amount above the
    depth of [desired] gives this value, as shown below. *)
Definition mergeV (destination lastApplied desired : value) : value :=
  match merge (S (vdepth desired)) "" destination lastApplied desired with
  | Ok v => v
  | _ => VNull
  end.

(** Items as they are once the merge has updated them in place. *)
Fixpoint updated_items (mk : string) (destMap desMap : object) (items : list value) : list value :=
  match items with
  | [] => []
  | item :: items =>
    (if bool_decide (key_of mk item ∈ key_of mk <$> items) then item
     else if bool_decide (is_Some (desMap !! key_of mk item))
          then default item (destMap !! key_of mk item) else item)
    :: updated_items mk destMap desMap items
  end.

Lemma merged_items_Ok mk destMap desMap items :
  Forall is_object items →
  merged_items mk destMap desMap items =
    Ok (updated_items mk destMap desMap items, list_to_set (key_of mk <$> items)).
Proof.
  induction 1 as [|v items [m ->] _ IH]; simpl; [done|]. rewrite IH. simpl.
  rewrite (bool_decide_ext _ _ (elem_of_list_to_set _ _)). done.
Qed.

Lemma append_existing_Ok mk destMap items acc :
  Forall is_object items →
  foldlM (append_existing mk destMap) acc items =
    Ok (acc.1 ++ omap (λ v, destMap !! key_of mk v) items,
        list_to_set (filter (λ k, is_Some (destMap !! k)) (key_of mk <$> items)) ∪ acc.2).
Proof.
  intros Hitems. revert acc. induction Hitems as [|v items [m ->] _ IH]; intros [l s]; simpl.
  { f_equal. f_equal; [by rewrite app_nil_r|set_solver]. }
  rewrite filter_cons. destruct (destMap !! _) as [x|] eqn:E; simpl; rewrite IH; simpl; f_equal.
  - f_equal; [by rewrite <-app_assoc|set_solver].
Qed.

(** New items: the first one of each key not added before. *)
Fixpoint new_items (mk : string) (destMap : object) (added : gset string) (items : list value)
    : list value :=
  match items with
  | [] => []
  | item :: items =>
    let key := key_of mk item in
    if bool_decide (key ∈ added) then new_items mk destMap added items
    else map_get destMap key :: new_items mk destMap ({[key]} ∪ added) items
  end.

Lemma append_new_Ok mk destMap items acc :
  Forall is_object items →
  ∃ added, foldlM (append_new mk destMap) acc items =
    Ok (acc.1 ++ new_items mk destMap acc.2 items, added).
Proof.
  intros Hitems. revert acc. induction Hitems as [|v items [m ->] _ IH]; intros [l s]; simpl.
  { exists s. by rewrite app_nil_r. }
  case_bool_decide as Hin; simpl.
  - apply (IH (l, s)).
  - destruct (IH (l ++ [map_get destMap (stringMergeKey (map_get m mk))],
      {[stringMergeKey (map_get m mk)]} ∪ s)) as [added ->].
    exists added. simpl. by rewrite <-app_assoc.
Qed.

(** The list a list-map merge returns, given the merged value of each key. *)
Definition merged_list (mk : string) (g : string → value) (dest last des : list value) : list value :=
  let destMap := merged_fields g (list_map mk dest) (list_map mk last) (list_map mk des) in
  let items := updated_items mk destMap (list_map mk des) dest in
  omap (λ v, destMap !! key_of mk v) items ++
  new_items mk destMap
    (list_to_set (filter (λ k, is_Some (destMap !! k)) (key_of mk <$> items))) des.

Lemma mergeListMap_Ok f path mk dest last des g :
  Forall is_object dest → Forall is_object last → Forall is_object des →
  (∀ p k dv, list_map mk des !! k = Some dv →
    f p (map_get (list_map mk dest) k) (map_get (list_map mk last) k) dv = Ok (g k)) →
  (∀ k, is_Some (list_map mk des !! k) → is_Some (list_map mk dest !! k) → is_object (g k)) →
  mergeListMap f path mk dest last des = Ok (VList (merged_list mk g dest last des)).
Proof.
  intros Hdest Hlast Hdes Hf Hg. unfold mergeListMap.
  rewrite !makeListMap_Ok by done. simpl.
  rewrite (mergeObject_Ok f path _ _ _ g) by done. simpl.
  rewrite merged_items_Ok by done. simpl.
  set (destMap := merged_fields _ _ _ _).
  assert (Hupd : Forall is_object (updated_items mk destMap (list_map mk des) dest)).
  { clear Hf. assert (∀ l, (∀ v, v ∈ l → v ∈ dest) →
      Forall is_object (updated_items mk destMap (list_map mk des) l)); [|by auto].
    intros l. induction l as [|v l IH]; intros Hl; simpl; [done|].
    constructor; [|apply IH; set_solver].
    assert (Hv : is_object v) by (rewrite Forall_forall in Hdest; set_solver).
    repeat case_bool_decide; try done. unfold destMap.
    rewrite lookup_merged_fields, decide_True by done. apply (Hg (key_of mk v)); [done|].
    apply list_map_is_Some. set_solver. }
  rewrite append_existing_Ok by done. simpl.
  destruct (append_new_Ok mk destMap des
    (omap (λ v, destMap !! key_of mk v) (updated_items mk destMap (list_map mk des) dest),
     list_to_set (filter (λ k, is_Some (destMap !! k))
       (key_of mk <$> updated_items mk destMap (list_map mk des) dest)) ∪ ∅) Hdes) as [added ->].
  simpl. unfold merged_list. fold destMap. rewrite (right_id_L ∅ (∪)). done.
Qed.

Lemma merge_object_inv n path dest last des v :
  merge n path (VMap dest) last des = Ok v → is_object v.
Proof.
  destruct n as [|n]; simpl; [done|]. repeat case_match; try done.
  destruct (mergeObject _ _ _ _ _); simpl; [|done..]. intros [= <-]. by eexists.
Qed.
End total.

Section properties.
Context {RT : GoRuntime}.

Lemma map_get_Some m k x : m !! k = Some x → map_get m k = x.
Proof. unfold map_get. by intros ->. Qed.

Lemma detect_all_objects dest last des mk :
  mk ≠ "" → detectListMapKey [dest; last; des] = mk →
  Forall is_object dest ∧ Forall is_object last ∧ Forall is_object des.
Proof.
  intros Hmk Hd. apply detectListMapKey_common in Hd as [_ Hall]; [|done].
  simpl in Hall. rewrite app_nil_r, !Forall_app in Hall.
  assert (Himp : ∀ v, (∃ m, v = VMap m ∧ is_Some (m !! mk)) → is_object v).
  { intros v (m & -> & _). by eexists. }
  destruct Hall as (H1 & H2 & H3). repeat split; by eapply Forall_impl.
Qed.

Lemma as_map_no_error v : negb (as_map v).2 && non_nil (as_map v).1 = false.
Proof. by destruct v. Qed.
Lemma as_list_no_error v : negb (as_list v).2 && non_nil (as_list v).1 = false.
Proof. by destruct v. Qed.

(** The value of a merge in terms of the merges of its parts. *)
Definition merge_body (destination lastApplied desired : value) : value :=
  let fields dest last des :=
    merged_fields (λ k, mergeV (map_get dest k) (map_get last k) (map_get des k)) dest last des in
  let arrays dest :=
    let last := default [] (as_list lastApplied).1 in
    let desVal := (as_list desired).1 in
    let des := default [] desVal in
    let mk := detectListMapKey [dest; last; des] in
    if mk != "" then
      VList (merged_list mk
        (λ k, mergeV (map_get (list_map mk dest) k) (map_get (list_map mk last) k)
                (map_get (list_map mk des) k)) dest last des)
    else VSlice desVal in
  match destination with
  | VMap dest =>
    VMap (fields dest (default ∅ (as_map lastApplied).1) (default ∅ (as_map desired).1))
  | VList dest => arrays dest
  | VNilList => arrays []
  | _ => desired
  end.

Lemma merge_step n path dest last des :
  (∀ p d l s, vdepth s < vdepth des → merge n p d l s = Ok (mergeV d l s)) →
  merge (S n) path dest last des = Ok (merge_body dest last des).
Proof.
  intros IH.
  assert (Harr : ∀ d, (let '(lastVal, ok) := as_list last in
      if negb ok && non_nil lastVal then Err (expecting "lastApplied" path "[]interface" last)
      else let '(desVal, ok) := as_list des in
      if negb ok && non_nil desVal then Err (expecting "desired" path "[]interface" des)
      else mergeArray (merge n) path d lastVal desVal) =
    Ok (let last := default [] (as_list last).1 in
        let desVal := (as_list des).1 in
        let des := default [] desVal in
        let mk := detectListMapKey [default [] d; last; des] in
        if mk != "" then
          VList (merged_list mk
            (λ k, mergeV (map_get (list_map mk (default [] d)) k) (map_get (list_map mk last) k)
                    (map_get (list_map mk des) k)) (default [] d) last des)
        else VSlice desVal)).
  { intros d. pose proof (as_list_no_error last) as Hl. pose proof (as_list_no_error des) as Hd.
    assert (Hdepth : ∀ x, x ∈ default [] (as_list des).1 → vdepth x < vdepth des).
    { intros x. destruct des; simpl; try set_solver. apply (vdepth_elem l). }
    destruct (as_list last) as [lastVal ok1], (as_list des) as [desVal ok2]; simpl in *.
    rewrite Hl, Hd. unfold mergeArray. cbn zeta. case_bool_decide as Hmk; simpl; [done|].
    destruct (detect_all_objects _ _ _ _ Hmk eq_refl) as (H1 & H2 & H3).
    apply mergeListMap_Ok; [done..| |].
    - intros p k dv Hdv. rewrite IH; [by rewrite (map_get_Some _ _ _ Hdv)|].
      apply Hdepth. by eapply list_map_Some.
    - intros k [dv Hdv] [dd Hdd]. destruct (list_map_Some _ _ _ _ Hdd) as [Hin _].
      rewrite Forall_forall in H1. destruct (H1 _ Hin) as [m ->].
      rewrite (map_get_Some _ _ _ Hdd), (map_get_Some _ _ _ Hdv).
      eapply merge_object_inv, (IH ""). apply Hdepth. by eapply list_map_Some. }
  destruct dest; try done; [apply (Harr (Some l))|apply (Harr None)|].
  simpl. pose proof (as_map_no_error last) as Hl. pose proof (as_map_no_error des) as Hd.
  assert (Hdepth : ∀ k x, default ∅ (as_map des).1 !! k = Some x → vdepth x < vdepth des).
  { intros k x. destruct des; simpl; try (by rewrite lookup_empty). apply (vdepth_lookup m0). }
  destruct (as_map last) as [lastVal ok1], (as_map des) as [desVal ok2]; simpl in *.
  rewrite Hl, Hd.
  rewrite (mergeObject_Ok (merge n) path m lastVal desVal
    (λ k, mergeV (map_get m k) (map_get (default ∅ lastVal) k) (map_get (default ∅ desVal) k)));
    [done|].
  intros p k dv Hdv. rewrite (map_get_Some _ _ _ Hdv). apply IH. by eapply Hdepth.
Qed.

Lemma merge_Ok_body dest last des :
  mergeV dest last des = merge_body dest last des ∧
  ∀ n path, vdepth des < n → merge n path dest last des = Ok (mergeV dest last des).
Proof.
  revert dest last. induction des as [des IH] using (well_founded_ind (well_founded_ltof _ vdepth)).
  unfold ltof in IH. intros dest last.
  assert (Hstep : ∀ n path, vdepth des < n → merge n path dest last des = Ok (merge_body dest last des)).
  { intros [|n] path Hn; [lia|]. apply merge_step. intros p d l s Hs. apply IH; lia. }
  assert (Heq : mergeV dest last des = merge_body dest last des).
  { unfold mergeV. by rewrite Hstep by lia. }
  split; [done|]. rewrite Heq. apply Hstep.
Qed.

(** C2: termination and absence of failure of the recursive merge: any fuel
    above the nesting depth of [desired] gives the same value, whatever the
    field path; no error is returned and no type assertion fails. *)
Theorem merge_fuel n path dest last des :
  vdepth des < n → merge n path dest last des = Ok (mergeV dest last des).
Proof. apply merge_Ok_body. Qed.

Lemma Merge_lookup observed lastApplied desired merged k :
  Merge observed lastApplied desired = Ok merged →
  merged !! k =
    match desired !! k with
    | Some desVal =>
      Some (mergeV (map_get observed k) (map_get (default ∅ lastApplied) k) desVal)
    | None => if decide (is_Some (default ∅ lastApplied !! k)) then None else observed !! k
    end.
Proof.
  unfold Merge. rewrite (proj2 (merge_Ok_body _ _ _)) by lia.
  rewrite (proj1 (merge_Ok_body _ _ _)). intros [= <-].
  rewrite lookup_merged_fields. simpl.
  destruct (desired !! k) as [dv|] eqn:Hdv; [|done].
  by rewrite (map_get_Some _ _ _ Hdv).
Qed.

Lemma mergeV_VMap_object dest last des : ∃ m, mergeV (VMap dest) last des = VMap m.
Proof. rewrite (proj1 (merge_Ok_body _ _ _)). simpl. eauto. Qed.

(** C1: functional specification of [Merge]: it never fails, and each field of
    the result is the merge of that field when the controller desires it,
    gone when it was applied before and is no longer desired, and untouched
    otherwise. *)
Theorem Merge_spec observed lastApplied desired :
  ∃ merged, Merge observed lastApplied desired = Ok merged ∧
    ∀ k, merged !! k =
      match desired !! k with
      | Some desVal =>
        Some (mergeV (map_get observed k) (map_get (default ∅ lastApplied) k) desVal)
      | None => if decide (is_Some (default ∅ lastApplied !! k)) then None else observed !! k
      end.
Proof.
  assert (∃ merged, Merge observed lastApplied desired = Ok merged) as [merged Hm].
  { unfold Merge. rewrite (proj2 (merge_Ok_body _ _ _)) by lia.
    rewrite (proj1 (merge_Ok_body _ _ _)). by eexists. }
  exists merged. split; [done|]. intros k. by apply Merge_lookup.
Qed.

(** A desired value of another type than the observed object does not
    make the merge fail, although the code checks for it: the test
    [!ok && desVal != nil] can never hold, because a failed assertion leaves
    [desVal] nil.  The desired value is dropped: the object keeps every field
    that was not in [lastApplied]. *)
Theorem merge_type_mismatch_ignored n path dest last des :
  vdepth des < n → (∀ m, des ≠ VMap m) →
  merge n path (VMap dest) (VMap last) des =
    Ok (VMap (filter (λ '(k, _), last !! k = None) dest)).
Proof.
  intros Hn Hdes. rewrite (proj2 (merge_Ok_body _ _ _)) by done. rewrite (proj1 (merge_Ok_body _ _ _)).
  assert (Hnone : (as_map des).1 = None) by (destruct des; naive_solver).
  simpl. rewrite Hnone. simpl. unfold merged_fields. do 2 f_equal.
  rewrite map_imap_empty. apply (left_id_L ∅ (∪)).
Qed.

(** *** List maps *)

(** Merge keys that are not themselves objects or lists. *)
Definition scalar (v : value) : bool :=
  match v with VMap _ | VList _ | VNilList => false | _ => true end.
Definition scalar_key (mk : string) (item : value) : Prop :=
  ∃ m, item = VMap m ∧ scalar (map_get m mk) = true.

Lemma mergeV_scalar dest last des : scalar dest = true → mergeV dest last des = des.
Proof. intros Hs. rewrite (proj1 (merge_Ok_body _ _ _)). by destruct dest. Qed.

(** Merging an item keeps its key. *)
Lemma mergeV_key_of mk dest last des m :
  scalar_key mk dest → des = VMap m → is_Some (m !! mk) →
  key_of mk (mergeV dest last des) = key_of mk des.
Proof.
  intros (d & -> & Hs) -> [dv Hdv]. rewrite (proj1 (merge_Ok_body _ _ _)). simpl.
  f_equal. unfold map_get at 1. rewrite lookup_merged_fields, decide_True by (by rewrite Hdv).
  simpl. by apply mergeV_scalar.
Qed.

Lemma updated_items_keys mk destMap desMap items :
  NoDup (key_of mk <$> items) →
  (∀ item x, item ∈ items → is_Some (desMap !! key_of mk item) →
     destMap !! key_of mk item = Some x → key_of mk x = key_of mk item) →
  key_of mk <$> updated_items mk destMap desMap items = key_of mk <$> items.
Proof.
  intros Hnd Hkey. induction items as [|v items IH]. { done. }
  rewrite fmap_cons in Hnd. apply NoDup_cons in Hnd as [Hv Hnd].
  cbn [updated_items]. rewrite !fmap_cons. case_bool_decide as Hin; [done|].
  rewrite IH; [|done|intros; apply Hkey; set_solver]. f_equal.
  case_bool_decide as Hdes; [|done]. destruct (destMap !! _) as [x|] eqn:Hx; simpl; [|done].
  apply Hkey; [set_solver|done..].
Qed.

Lemma omap_key_of {B} (mk : string) (f : string → option B) (l : list value) :
  omap (λ v, f (key_of mk v)) l = omap f (key_of mk <$> l).
Proof. induction l as [|x l IH]; [done|]. lsimpl. by rewrite IH. Qed.

Lemma new_items_NoDup mk destMap added items :
  NoDup (key_of mk <$> items) →
  new_items mk destMap added items =
    map_get destMap <$> filter (λ k, k ∉ added) (key_of mk <$> items).
Proof.
  revert added. induction items as [|v items IH]; intros added; simpl; [done|].
  intros [Hv Hnd]%NoDup_cons. rewrite filter_cons.
  case_bool_decide as Hin.
  - rewrite decide_False by tauto. by apply IH.
  - rewrite decide_True by done. simpl. f_equal. rewrite IH by done. f_equal.
    apply list_filter_ext, Forall_forall. intros k Hk. set_unfold.
    split; [naive_solver|]. intros Hk1 [->|?]; naive_solver.
Qed.

Lemma omap_filter {A B} (P : A → Prop) `{∀ x, Decision (P x)} (f : A → option B) (g : A → B) (l : list A) :
  (∀ x, x ∈ l → f x = if decide (P x) then Some (g x) else None) →
  omap f l = g <$> filter P l.
Proof.
  intros Hf. induction l as [|x l IH]; [done|]. lsimpl.
  rewrite filter_cons, (Hf x), IH by set_solver. by case_decide.
Qed.

Lemma scalar_key_object mk items : Forall (scalar_key mk) items → Forall is_object items.
Proof. intros Hk. eapply Forall_impl; [exact Hk|]. intros v (m & -> & _). by eexists. Qed.

(** The item a list-map merge leaves at a key. *)
Definition merged_item (mk : string) (dest last des : list value) (k : string) : value :=
  if bool_decide (k ∈ key_of mk <$> des)
  then mergeV (map_get (list_map mk dest) k) (map_get (list_map mk last) k)
         (map_get (list_map mk des) k)
  else map_get (list_map mk dest) k.

Lemma merged_list_items mk dest last des :
  Forall (scalar_key mk) dest →
  Forall (λ v, ∃ m, v = VMap m ∧ is_Some (m !! mk)) des →
  NoDup (key_of mk <$> dest) → NoDup (key_of mk <$> des) →
  merged_list mk
    (λ k, mergeV (map_get (list_map mk dest) k) (map_get (list_map mk last) k)
            (map_get (list_map mk des) k)) dest last des
  = merged_item mk dest last des <$>
      (filter (λ k, k ∈ key_of mk <$> des ∨ k ∉ key_of mk <$> last) (key_of mk <$> dest) ++
       filter (λ k, k ∉ key_of mk <$> dest) (key_of mk <$> des)).
Proof.
  intros Hdest Hdes Hnd1 Hnd2. unfold merged_list.
  set (g := λ k, mergeV _ _ _). set (destMap := merged_fields g _ _ _).
  assert (Hlook : ∀ k, destMap !! k = if decide (k ∈ key_of mk <$> des) then Some (g k)
    else if decide (k ∈ key_of mk <$> last) then None else list_map mk dest !! k).
  { intros k. unfold destMap. rewrite lookup_merged_fields.
    rewrite (decide_ext _ _ _ _ (list_map_is_Some mk des k)). case_decide; [done|].
    by rewrite (decide_ext _ _ _ _ (list_map_is_Some mk last k)). }
  assert (Hkeys : key_of mk <$> updated_items mk destMap (list_map mk des) dest = key_of mk <$> dest).
  { apply updated_items_keys; [done|]. intros item x Hitem Hk Hx.
    rewrite Hlook, decide_True in Hx by (by apply list_map_is_Some). simplify_eq.
    destruct Hk as [dv Hdv]. unfold g. rewrite (map_get_Some _ _ _ Hdv).
    destruct (list_map_Some _ _ _ _ Hdv) as [Hdin <-].
    destruct (proj1 (Forall_forall _ _) Hdes dv Hdin) as (m & -> & Hm).
    eapply mergeV_key_of; [|done..].
    assert (is_Some (list_map mk dest !! key_of mk item)) as [di Hdi].
    { apply list_map_is_Some. set_solver. }
    rewrite <-(proj2 (list_map_Some _ _ _ _ Hdv)) in Hdi.
    rewrite (map_get_Some _ _ _ Hdi).
    apply (proj1 (Forall_forall _ _) Hdest), (list_map_Some _ _ _ _ Hdi). }
  rewrite (omap_key_of mk (λ k, destMap !! k)), Hkeys, new_items_NoDup, fmap_app by done. f_equal.
  - apply omap_filter. intros k Hk. rewrite Hlook. unfold merged_item.
    case_decide as Hd; [rewrite decide_True, bool_decide_true by auto; done|].
    rewrite bool_decide_false by done.
    case_decide; [by rewrite decide_False by naive_solver|].
    rewrite decide_True by auto. apply list_map_is_Some in Hk as [x Hx].
    by rewrite (map_get_Some _ _ _ Hx).
  - rewrite (list_filter_ext _ (λ k, k ∉ key_of mk <$> dest)).
    + apply list_fmap_ext. intros i k [_ Hk]%list_elem_of_lookup_2%list_elem_of_filter.
      unfold map_get at 1. rewrite Hlook, decide_True by done. unfold merged_item.
      by rewrite bool_decide_true.
    + apply Forall_forall. intros k Hk. rewrite elem_of_list_to_set, list_elem_of_filter, Hlook.
      rewrite decide_True by done. naive_solver.
Qed.

(** C3: the result of merging lists of objects that share a merge key, when no
    key occurs twice: first the items of the observed list in their order,
    but for those applied before and no longer desired, then the new items in
    the order of the desired list; an item that is desired is the merge of
    the three items of its key, any other is the observed item itself. *)
Theorem merge_list_map n path mk dest last des :
  vdepth (VList des) < n →
  mk ≠ "" → detectListMapKey [dest; last; des] = mk →
  Forall (scalar_key mk) dest →
  NoDup (key_of mk <$> dest) → NoDup (key_of mk <$> des) →
  merge n path (VList dest) (VList last) (VList des) =
    Ok (VList (merged_item mk dest last des <$>
      (filter (λ k, k ∈ key_of mk <$> des ∨ k ∉ key_of mk <$> last) (key_of mk <$> dest) ++
       filter (λ k, k ∉ key_of mk <$> dest) (key_of mk <$> des)))).
Proof.
  intros Hn Hmk Hd Hdest Hnd1 Hnd2. rewrite (proj2 (merge_Ok_body _ _ _)) by done.
  rewrite (proj1 (merge_Ok_body _ _ _)). simpl. rewrite Hd.
  rewrite bool_decide_false by done. simpl. rewrite merged_list_items; try done.
  apply detectListMapKey_common in Hd as [_ Hall]; [|done].
  simpl in Hall. rewrite app_nil_r, !Forall_app in Hall. tauto.
Qed.

(** *** Applying again *)

(** No list is merged item by item: each one has an item that is not an object. *)
Definition non_object (v : value) : bool := match v with VMap _ => false | _ => true end.
Fixpoint atomic_lists (v : value) : bool :=
  match v with
  | VList l => existsb non_object l
  | VNilList => false
  | VMap m => map_fold (λ _ x acc, atomic_lists x && acc) true m
  | _ => true
  end.

Lemma atomic_lists_VMap m :
  atomic_lists (VMap m) = true ↔ map_Forall (λ _ x, atomic_lists x = true) m.
Proof. simpl. rewrite (map_fold_andb (λ _ x, atomic_lists x)). tauto. Qed.

Lemma detect_atomic lists l :
  l ∈ lists → atomic_lists (VList l) = true → detectListMapKey lists = "".
Proof.
  intros Hl (v & Hv & Hobj)%existsb_exists. apply dec_stable. intros Hne.
  destruct (detectListMapKey_common lists _ Hne eq_refl) as [_ Hall].
  rewrite Forall_forall in Hall. destruct (Hall v) as (m & -> & _); [|done].
  apply list_elem_of_In, in_concat. exists l. split; [by apply list_elem_of_In|done].
Qed.

Lemma mergeV_atomic_list dest last des :
  atomic_lists (VList dest) = true →
  mergeV (VList dest) last des = VSlice (as_list des).1.
Proof.
  intros Hd. rewrite (proj1 (merge_Ok_body _ _ _)). simpl.
  rewrite (detect_atomic _ dest); [done|set_solver|done].
Qed.

Lemma mergeV_VMap dest last des :
  let lastVal := default ∅ (as_map last).1 in
  let desVal := default ∅ (as_map des).1 in
  mergeV (VMap dest) last des =
    VMap (merged_fields
      (λ k, mergeV (map_get dest k) (map_get lastVal k) (map_get desVal k)) dest lastVal desVal).
Proof. by rewrite (proj1 (merge_Ok_body _ _ _)). Qed.

Lemma mergeV_refl d : atomic_lists d = true → mergeV d d d = d.
Proof.
  induction d as [| | | | |l _| |m IH] using value_deep_ind; intros Hd; try done;
    try (by apply mergeV_scalar).
  - by rewrite mergeV_atomic_list.
  - rewrite mergeV_VMap. simpl. f_equal. apply map_eq. intros k. rewrite lookup_merged_fields.
    case_decide as Hk; [|by apply eq_None_not_Some in Hk]. destruct Hk as [x Hx].
    rewrite (map_get_Some _ _ _ Hx), Hx. f_equal.
    apply (IH k x Hx), (proj1 (atomic_lists_VMap m) Hd k x Hx).
Qed.

Lemma atomic_map_get m k :
  atomic_lists (VMap m) = true → atomic_lists (map_get m k) = true.
Proof.
  intros Hm. unfold map_get. destruct (m !! k) as [x|] eqn:Hx; [|done].
  by apply (proj1 (atomic_lists_VMap m) Hm k).
Qed.

Lemma mergeV_again o l d :
  atomic_lists o = true → atomic_lists d = true →
  mergeV (mergeV o l d) d d = mergeV o l d.
Proof.
  revert l d. induction o as [| | | | |ol _| |om IH] using value_deep_ind; intros l d Ho Hd; try done;
    try (by rewrite (mergeV_scalar _ l d) by done; apply mergeV_refl).
  - rewrite (mergeV_atomic_list ol l d) by done.
    destruct d as [| | | | |dl| |dm]; try done. by apply mergeV_refl.
  - rewrite (mergeV_VMap om l d), mergeV_VMap. cbn zeta.
    assert (Hdm : atomic_lists (VMap (default ∅ (as_map d).1)) = true) by (by destruct d).
    revert Hdm. generalize (default ∅ (as_map d).1) as dm. intros dm Hdm.
    generalize (default ∅ (as_map l).1) as lm. intros lm.
    f_equal. apply map_eq. intros k. rewrite lookup_merged_fields.
    case_decide as Hk; [|done].
    unfold map_get at 1. rewrite !lookup_merged_fields, !decide_True by done. simpl. f_equal.
    destruct (om !! k) as [x|] eqn:Hx.
    + rewrite (map_get_Some _ _ _ Hx). apply (IH k x Hx); [|by apply atomic_map_get].
      by apply (proj1 (atomic_lists_VMap om) Ho k).
    + assert (Hnull : map_get om k = VNull) by (unfold map_get; by rewrite Hx). rewrite Hnull.
      rewrite (mergeV_scalar VNull) by done. by apply mergeV_refl, atomic_map_get.
Qed.

End properties.

(** *** The annotation *)
Section annotation.
Context {API : Apimachinery} {AL : AnnotationLaws}.

(** Round trip of the last applied configuration through the annotation,
    for a JSON library that reads back what it wrote. *)
Theorem LastApplied_roundtrip obj lastApplied obj' :
  (∀ m s, json_Marshal (VMap m) = Ok s → s ≠ "" ∧ json_Unmarshal s = Ok m) →
  metadata_ok obj →
  SetLastApplied obj lastApplied = Ok obj' →
  GetLastApplied obj' = Ok (Some lastApplied).
Proof using All.
  unfold SetLastApplied, GetLastApplied. intros Hjson Hmeta Hset.
  destruct (json_Marshal (VMap lastApplied)) as [js| |] eqn:Hjs; [|done..]. simpl in Hset.
  injection Hset as <-. unfold annotation, annotations_of.
  rewrite GetAnnotations_Set by done. simpl. rewrite lookup_insert_eq. simpl.
  destruct (Hjson _ _ Hjs) as [Hne Hun]. by rewrite bool_decide_false, Hun.
Qed.
End annotation.

(** ** Concrete runs *)
Section examples.
#[local] Existing Instance listRuntime.
#[local] Existing Instance treeAPI.

Definition container (name image : string) : value :=
  VMap {[ "name" := VString name; "image" := VString image ]}.
Definition port (number : Z) (protocol : string) : value :=
  VMap {[ "containerPort" := VInt number; "protocol" := VString protocol ]}.

Definition observed_containers : list value :=
  [container "app" "app:v1"; container "old" "old:v1"; container "injected" "mesh:v7"].
Definition applied_containers : list value := [container "app" "app:v1"; container "old" "old:v1"].
Definition desired_containers : list value := [container "new" "new:v1"; container "app" "app:v2"].

Lemma merge_fuel_witness :
  (vdepth (VList desired_containers) < 3)%nat ∧
  merge 3 "" (VList observed_containers) (VList applied_containers) (VList desired_containers) =
    Ok (mergeV (VList observed_containers) (VList applied_containers) (VList desired_containers)).
Proof. split; [vm_compute; lia|]. apply merge_fuel. vm_compute. lia. Defined.

Lemma detectListMapKey_spec_witness :
  detectListMapKey [observed_containers; []; desired_containers] = "name" ∧
  ∃ pre post, knownMergeKeys = pre ++ "name" :: post ∧
    common_key (concat [observed_containers; []; desired_containers]) "name" ∧
    Forall (λ k, ¬ common_key (concat [observed_containers; []; desired_containers]) k) pre.
Proof.
  split; [by vm_compute|]. apply detectListMapKey_spec; [discriminate|by vm_compute].
Defined.

Lemma merge_type_mismatch_ignored_witness :
  merge 1 "" (VMap {[ "a" := VInt 1; "b" := VInt 2 ]}) (VMap {[ "a" := VInt 1 ]}) (VString "x") =
    Ok (VMap (filter (λ '(k, _), ({[ "a" := VInt 1 ]} : object) !! k = None)
      {[ "a" := VInt 1; "b" := VInt 2 ]})).
Proof. apply merge_type_mismatch_ignored; [simpl; lia|discriminate]. Defined.

Lemma merge_list_map_witness :
  merge 3 "" (VList observed_containers) (VList applied_containers) (VList desired_containers) =
    Ok (VList (merged_item "name" observed_containers applied_containers desired_containers <$>
      ["app"; "injected"; "new"])).
Proof.
  rewrite (merge_list_map 3 "" "name").
  - by vm_compute.
  - vm_compute. lia.
  - discriminate.
  - by vm_compute.
  - repeat constructor; eexists; (split; [reflexivity|by vm_compute]).
  - apply (bool_decide_unpack _). by vm_compute.
  - apply (bool_decide_unpack _). by vm_compute.
Defined.

(** A list whose merge key occurs twice is corrupted by the merge even when
    observed, applied and desired agree: the same port served over two
    protocols comes back as the same protocol twice. *)
Theorem merge_duplicate_key :
  let ports := VList [port 53 "UDP"; port 53 "TCP"] in
  merge 9 "" ports ports ports = Ok (VList [port 53 "TCP"; port 53 "TCP"]).
Proof. by vm_compute. Qed.

Definition observed_spec : object :=
  {[ "replicas" := VInt 3; "args" := VList [VString "a"]; "uid" := VString "u" ]}.
Definition desired_spec : object :=
  {[ "replicas" := VInt 5; "args" := VList [VString "b"; VString "c"] ]}.

Definition merged_spec : res object := Merge observed_spec (Some {[ "uid" := VNull ]}) desired_spec.


Definition plain_object : object := {[ "metadata" := VMap {[ "name" := VString "x" ]} ]}.

Lemma LastApplied_roundtrip_witness :
  ∃ obj', SetLastApplied plain_object {[ "kind" := VString "Pod" ]} = Ok obj' ∧
    GetLastApplied obj' = Ok (Some {[ "kind" := VString "Pod" ]}).
Proof.
  eexists. split; [reflexivity|]. eapply (LastApplied_roundtrip plain_object).
  - apply marshal_unmarshal.
  - right. by eexists.
  - reflexivity.
Defined.
End examples.
