(* ===== verification/ObjectMap.v ===== *)
(** * Object maps: [pkg/controller/common/api]

    The objects a controller watches and a webhook sees, grouped by kind.  The
    v1 API keys a group by the name relative to the parent
    ([RelativeObjectMap]), the v2 API by namespace and name
    ([UniformObjectMap]).  The class [ObjectMap] is the Go interface, with the
    behaviour it promises as laws; both maps implement it, and the theorems
    about the operations are proved once, against the class. *)
From S2P Require Import Prelude Value K8s K8sInst.
From stdpp Require Import options.

(** Both maps are maps of maps; a group that was never initialised is absent. *)
Abbreviation groups := (gmap GroupVersionKind (gmap string object)).

Record RelativeObjectMap := Relative { relative_groups : groups }.
Record UniformObjectMap := Uniform { uniform_groups : groups }.

(** ** Kinds as text *)
Section gvk_text.
Context {API : Apimachinery}.

Definition GVK_MarshalText (gvk : GroupVersionKind) : string :=
  if gvk_Group gvk == "" then gvk_Kind gvk +:+ "." +:+ gvk_Version gvk
  else gvk_Kind gvk +:+ "." +:+ gvk_Group gvk +:+ "/" +:+ gvk_Version gvk.

Definition GVK_UnmarshalText (text : string) : res GroupVersionKind :=
  match strings_SplitN text "." 2 with
  | kind :: rest :: _ =>
    groupVersion ← ParseGroupVersion rest;
    mret (gv_WithKind groupVersion kind)
  | _ => Err (ErrorString ("could not unmarshall [" +:+ text +:+
                           "], expected string in 'kind.group/version' format"))
  end.
End gvk_text.

(** ** The order of kinds *)

(** Go's [<] on strings. *)
Definition string_ltb (a b : string) : bool := negb (String.leb b a).

Definition gvk_less (i j : GroupVersionKind) : bool :=
  if gvk_Group i != gvk_Group j then string_ltb (gvk_Group i) (gvk_Group j)
  else if gvk_Version i != gvk_Version j then string_ltb (gvk_Version i) (gvk_Version j)
  else string_ltb (gvk_Kind i) (gvk_Kind j).

(** [sort.Slice] with [gvk_less] leaves [i] before [j] only if not [j] before [i]. *)
Definition gvk_le (i j : GroupVersionKind) : Prop := gvk_less j i = false.
#[global] Instance gvk_le_dec : RelDecision gvk_le.
Proof. intros i j. unfold gvk_le. apply _. Defined.

(** ** The v1 map *)
Section relative.
Context {RT : GoRuntime} {API : Apimachinery}.

Definition relativeName (parent obj : object) : string :=
  if (GetNamespace parent == "") && (GetNamespace obj != "")
  then GetNamespace obj +:+ "/" +:+ GetName obj
  else GetName obj.

Definition RelativeObjectMap_InitGroup (m : RelativeObjectMap) (gvk : GroupVersionKind)
    : RelativeObjectMap :=
  match relative_groups m !! gvk with
  | None => Relative (<[gvk := ∅]> (relative_groups m))
  | Some _ => m
  end.

Definition RelativeObjectMap_Insert (m : RelativeObjectMap) (parent obj : object) : RelativeObjectMap :=
  let gvk := obj_GroupVersionKind obj in
  let m := match relative_groups m !! gvk with
           | None => RelativeObjectMap_InitGroup m gvk
           | Some _ => m
           end in
  let name := relativeName parent obj in
  Relative (alter (<[name := obj]>) gvk (relative_groups m)).

Definition RelativeObjectMap_InsertAll (m : RelativeObjectMap) (parent : object) (objects : list object)
    : RelativeObjectMap :=
  foldl (λ m obj, RelativeObjectMap_Insert m parent obj) m objects.

(** The loops return the first match, in the order of the iteration. *)
Definition RelativeObjectMap_FindGroupKindName (m : RelativeObjectMap) (gk : GroupKind) (name : string)
    : option object :=
  head (omap (λ '(key, objects),
    if gvk_GroupKind key == gk
    then head (omap (λ '(n, obj), if n == name then Some obj else None) (range objects))
    else None) (range (relative_groups m))).

Definition RelativeObjectMap_ReplaceObjectIfExists (m : RelativeObjectMap) (parent obj : object)
    : RelativeObjectMap :=
  let gvk := obj_GroupVersionKind obj in
  match relative_groups m !! gvk with
  | None => m
  | Some objects =>
    let name := relativeName parent obj in
    if bool_decide (is_Some (objects !! name))
    then Relative (<[gvk := <[name := obj]> objects]> (relative_groups m)) else m
  end.

Definition RelativeObjectMap_List (m : RelativeObjectMap) : list object :=
  concat ((λ '(_, group), (range group).*2) <$> range (relative_groups m)).

Definition RelativeObjectMap_GetObjectsByGVK (m : RelativeObjectMap) (gvk : GroupVersionKind)
    : option (gmap string object) :=
  relative_groups m !! gvk.

Definition RelativeObjectMap_GetAllGVKs (m : RelativeObjectMap) : list GroupVersionKind :=
  if decide (size (relative_groups m) = 0) then []
  else merge_sort gvk_le (range (relative_groups m)).*1.

Definition MakeRelativeObjectMap (parent : object) (list : list object) : RelativeObjectMap :=
  RelativeObjectMap_InsertAll (Relative ∅) parent list.
End relative.

(** ** The v2 map *)
Section uniform.
Context {RT : GoRuntime} {API : Apimachinery}.

Definition qualifiedName (obj : object) : string :=
  if GetNamespace obj != "" then GetNamespace obj +:+ "/" +:+ GetName obj else GetName obj.

Definition UniformObjectMap_InitGroup (m : UniformObjectMap) (gvk : GroupVersionKind)
    : UniformObjectMap :=
  match uniform_groups m !! gvk with
  | None => Uniform (<[gvk := ∅]> (uniform_groups m))
  | Some _ => m
  end.

Definition UniformObjectMap_Insert (m : UniformObjectMap) (parent obj : object) : UniformObjectMap :=
  let gvk := obj_GroupVersionKind obj in
  let m := match uniform_groups m !! gvk with
           | None => UniformObjectMap_InitGroup m gvk
           | Some _ => m
           end in
  let name := qualifiedName obj in
  Uniform (alter (<[name := obj]>) gvk (uniform_groups m)).

Definition UniformObjectMap_InsertAll (m : UniformObjectMap) (parent : object) (objects : list object)
    : UniformObjectMap :=
  foldl (λ m obj, UniformObjectMap_Insert m parent obj) m objects.

Definition UniformObjectMap_FindGroupKindName (m : UniformObjectMap) (gk : GroupKind) (name : string)
    : option object :=
  head (omap (λ '(key, objects), if gvk_GroupKind key == gk then objects !! name else None)
          (range (uniform_groups m))).

Definition UniformObjectMap_ReplaceObjectIfExists (m : UniformObjectMap) (parent obj : object)
    : UniformObjectMap :=
  let gvk := obj_GroupVersionKind obj in
  match uniform_groups m !! gvk with
  | None => m
  | Some objects =>
    if decide (size objects = 0) then m
    else
      let name := qualifiedName obj in
      if bool_decide (is_Some (objects !! name))
      then Uniform (<[gvk := <[name := obj]> objects]> (uniform_groups m)) else m
  end.

Definition UniformObjectMap_List (m : UniformObjectMap) : list object :=
  concat ((λ '(_, group), (range group).*2) <$> range (uniform_groups m)).

Definition UniformObjectMap_GetObjectsByGVK (m : UniformObjectMap) (gvk : GroupVersionKind)
    : option (gmap string object) :=
  uniform_groups m !! gvk.

Definition UniformObjectMap_GetAllGVKs (m : UniformObjectMap) : list GroupVersionKind :=
  if decide (size (uniform_groups m) = 0) then []
  else merge_sort gvk_le (range (uniform_groups m)).*1.

Definition MakeUniformObjectMap (parent : object) (list : list object) : UniformObjectMap :=
  UniformObjectMap_InsertAll (Uniform ∅) parent list.

Definition UniformObjectMap_Convert (m : UniformObjectMap) (parent : object) : RelativeObjectMap :=
  let potentialChildren := UniformObjectMap_List m in
  let relativeObjects :=
    foldl (λ acc '(gvk, _), RelativeObjectMap_InitGroup acc gvk) (Relative ∅) (range (uniform_groups m)) in
  let parentIsClusterScope := GetNamespace parent == "" in
  if parentIsClusterScope then RelativeObjectMap_InsertAll relativeObjects parent potentialChildren
  else
    foldl (λ acc child,
      if GetNamespace parent == GetNamespace child
      then RelativeObjectMap_Insert acc parent child else acc) relativeObjects potentialChildren.
End uniform.

(** ** The interface *)

(** The object under a kind and a name. *)
Definition groups_lookup (g : groups) (gvk : GroupVersionKind) (name : string) : option object :=
  objects ← g !! gvk; objects !! name.

(** What the operations promise of the groups. *)
Definition groups_init (gvk : GroupVersionKind) (g : groups) : groups :=
  <[gvk := default ∅ (g !! gvk)]> g.
Definition groups_insert (gvk : GroupVersionKind) (name : string) (obj : object) (g : groups) : groups :=
  <[gvk := <[name := obj]> (default ∅ (g !! gvk))]> g.

Class ObjectMap `{!Apimachinery} (T : Type) := {
  om_groups : T → groups;
  om_empty : T;
  om_key : object → object → string;
  InitGroup : T → GroupVersionKind → T;
  Insert : T → object → object → T;
  InsertAll : T → object → list object → T;
  FindGroupKindName : T → GroupKind → string → option object;
  ReplaceObjectIfExists : T → object → object → T;
  List : T → list object;
  GetObjectsByGVK : T → GroupVersionKind → option (gmap string object);
  GetAllGVKs : T → list GroupVersionKind;
  groups_empty : om_groups om_empty = ∅;
  groups_InitGroup m gvk : om_groups (InitGroup m gvk) = groups_init gvk (om_groups m);
  groups_Insert m parent obj :
    om_groups (Insert m parent obj) =
      groups_insert (obj_GroupVersionKind obj) (om_key parent obj) obj (om_groups m);
  InsertAll_foldl m parent l : InsertAll m parent l = foldl (λ m o, Insert m parent o) m l;
  groups_Replace m parent obj :
    om_groups (ReplaceObjectIfExists m parent obj) =
      match groups_lookup (om_groups m) (obj_GroupVersionKind obj) (om_key parent obj) with
      | Some _ => groups_insert (obj_GroupVersionKind obj) (om_key parent obj) obj (om_groups m)
      | None => om_groups m
      end;
  FindGroupKindName_Some m gk name obj :
    FindGroupKindName m gk name = Some obj →
    ∃ gvk, gvk_GroupKind gvk = gk ∧ groups_lookup (om_groups m) gvk name = Some obj;
  FindGroupKindName_None m gk name gvk :
    FindGroupKindName m gk name = None → gvk_GroupKind gvk = gk →
    groups_lookup (om_groups m) gvk name = None;
  elem_of_List m obj :
    obj ∈ List m ↔ ∃ gvk name, groups_lookup (om_groups m) gvk name = Some obj;
  GetObjectsByGVK_lookup m gvk : GetObjectsByGVK m gvk = om_groups m !! gvk;
  GetAllGVKs_Sorted m : Sorted gvk_le (GetAllGVKs m);
  GetAllGVKs_Permutation m : GetAllGVKs m ≡ₚ (map_to_list (om_groups m)).*1;
}.

(** ** The interface is implemented *)

(** *** Loops that look for a match *)
Lemma head_omap_Some {A B} (f : A → option B) (l : list A) b :
  head (omap f l) = Some b → ∃ a, a ∈ l ∧ f a = Some b.
Proof.
  induction l as [|a l IH]; lsimpl; [done|]. destruct (f a) as [b'|] eqn:E; simpl.
  - intros [= <-]. exists a. set_solver.
  - intros H. destruct (IH H) as (a' & ? & ?). exists a'. set_solver.
Qed.

Lemma head_omap_None {A B} (f : A → option B) (l : list A) a :
  head (omap f l) = None → a ∈ l → f a = None.
Proof.
  induction l as [|x l IH]; lsimpl; [set_solver|]. destruct (f x) as [b'|] eqn:E; simpl; [done|].
  intros H [->|?]%elem_of_cons; auto.
Qed.

Section implementation.
Context {RT : GoRuntime} {API : Apimachinery}.

Lemma groups_init_match (g : groups) gvk :
  match g !! gvk with None => <[gvk := ∅]> g | Some _ => g end = groups_init gvk g.
Proof.
  unfold groups_init. destruct (g !! gvk) eqn:E; simpl; [|done]. by rewrite insert_id.
Qed.

Lemma groups_insert_alter (g : groups) gvk name obj :
  alter (<[name := obj]>) gvk (groups_init gvk g) = groups_insert gvk name obj g.
Proof. unfold groups_init, groups_insert. by rewrite alter_insert_eq. Qed.

Lemma elem_of_list_groups (g : groups) obj :
  obj ∈ concat ((λ '(_, group), (range group).*2) <$> range g) ↔
  ∃ gvk name, groups_lookup g gvk name = Some obj.
Proof.
  rewrite list_elem_of_In, in_concat. setoid_rewrite <-list_elem_of_In.
  unfold groups_lookup. split.
  - intros (l & Hl & Hobj). apply list_elem_of_fmap in Hl as ([gvk group] & -> & Hg).
    apply elem_of_range in Hg. apply list_elem_of_fmap in Hobj as ([name o] & -> & Ho).
    apply elem_of_range in Ho. exists gvk, name. by rewrite Hg.
  - intros (gvk & name & H). apply bind_Some in H as (group & Hg & Ho).
    exists (range group).*2. split; apply list_elem_of_fmap.
    + exists (gvk, group). by rewrite elem_of_range.
    + exists (name, obj). by rewrite elem_of_range.
Qed.

(** The order of kinds is total. *)
Lemma string_ltb_irrefl a : string_ltb a a = false.
Proof. unfold string_ltb. apply negb_false_iff. apply Is_true_true. by reflexivity. Qed.

Lemma string_ltb_asymm a b : string_ltb a b = true → string_ltb b a = false.
Proof.
  unfold string_ltb. rewrite negb_true_iff, negb_false_iff. intros H.
  destruct (String.leb_total a b) as [?|Hb]; [done|congruence].
Qed.

Lemma string_ltb_total a b : string_ltb a b = false → string_ltb b a = false → a = b.
Proof.
  unfold string_ltb. rewrite !negb_false_iff. intros H1 H2. by apply String.leb_antisym.
Qed.

Lemma string_ltb_trans a b c :
  string_ltb a b = false → string_ltb b c = false → string_ltb a c = false.
Proof.
  unfold string_ltb. rewrite !negb_false_iff. intros H1 H2.
  apply Is_true_true. apply Is_true_true in H1, H2. unfold string_ltb in *.
  by apply (transitivity (R:=String.le) H2 H1).
Qed.

(** Equal fields are skipped, the first pair of distinct ones decides. *)
Lemma gvk_less_eq_group g v1 k1 v2 k2 :
  gvk_less {| gvk_Group := g; gvk_Version := v1; gvk_Kind := k1 |}
           {| gvk_Group := g; gvk_Version := v2; gvk_Kind := k2 |} =
  if v1 != v2 then string_ltb v1 v2 else string_ltb k1 k2.
Proof. unfold gvk_less. simpl. by rewrite (bool_decide_true (g = g)). Qed.
Lemma gvk_less_ne_group g1 v1 k1 g2 v2 k2 :
  g1 ≠ g2 →
  gvk_less {| gvk_Group := g1; gvk_Version := v1; gvk_Kind := k1 |}
           {| gvk_Group := g2; gvk_Version := v2; gvk_Kind := k2 |} = string_ltb g1 g2.
Proof. intros Hg. unfold gvk_less. simpl. by rewrite bool_decide_false. Qed.

Lemma string_ltb_either a b : string_ltb a b = false ∨ string_ltb b a = false.
Proof. destruct (string_ltb a b) eqn:E; [right; by apply string_ltb_asymm|by left]. Qed.

#[global] Instance gvk_le_total : Total gvk_le.
Proof.
  intros [g1 v1 k1] [g2 v2 k2]. unfold gvk_le.
  destruct (decide (g1 = g2)) as [->|Hg].
  - rewrite !gvk_less_eq_group. destruct (decide (v1 = v2)) as [->|Hv].
    + rewrite !(bool_decide_true (v2 = v2)) by done. apply string_ltb_either.
    + rewrite (bool_decide_false (v1 = v2)), (bool_decide_false (v2 = v1)) by done.
      apply string_ltb_either.
  - rewrite !gvk_less_ne_group by done. apply string_ltb_either.
Qed.

#[global] Instance gvk_le_antisymm : AntiSymm (=) gvk_le.
Proof.
  intros [g1 v1 k1] [g2 v2 k2]. unfold gvk_le. intros H1 H2.
  destruct (decide (g1 = g2)) as [->|Hg].
  - rewrite gvk_less_eq_group in H1, H2. destruct (decide (v1 = v2)) as [->|Hv].
    + rewrite (bool_decide_true (v2 = v2)) in H1, H2 by done. f_equal. by apply string_ltb_total.
    + rewrite (bool_decide_false (v2 = v1)) in H1 by done.
      rewrite (bool_decide_false (v1 = v2)) in H2 by done.
      destruct Hv. by apply string_ltb_total.
  - rewrite gvk_less_ne_group in H1, H2 by done. destruct Hg. by apply string_ltb_total.
Qed.

#[global] Instance gvk_le_trans : Transitive gvk_le.
Proof.
  intros [g1 v1 k1] [g2 v2 k2] [g3 v3 k3]. unfold gvk_le, gvk_less. simpl. intros H1 H2.
  repeat case_bool_decide; simplify_eq/=; try congruence;
    try (by eapply string_ltb_trans);
    try (by destruct (string_ltb_total _ _ H1 H2)).
  all: exfalso; match goal with H : ?a ≠ ?b |- _ => apply H; by apply string_ltb_total end.
Qed.

Lemma GetAllGVKs_Sorted_groups (g : groups) :
  Sorted gvk_le (if decide (size g = 0) then [] else merge_sort gvk_le (range g).*1).
Proof. case_decide; [constructor|apply Sorted_merge_sort, _]. Qed.

Lemma GetAllGVKs_Permutation_groups (g : groups) :
  (if decide (size g = 0) then [] else merge_sort gvk_le (range g).*1) ≡ₚ (map_to_list g).*1.
Proof.
  case_decide as Hs.
  - apply map_size_empty_inv in Hs as ->. by rewrite map_to_list_empty.
  - by rewrite merge_sort_Permutation, range_perm.
Qed.

Lemma find_in_groups (f : GroupVersionKind → gmap string object → option object) (g : groups) gk name :
  (∀ gvk objects, f gvk objects =
     if gvk_GroupKind gvk == gk then objects !! name else None) →
  let found := head (omap (λ '(key, objects), f key objects) (range g)) in
  (∀ obj, found = Some obj →
     ∃ gvk, gvk_GroupKind gvk = gk ∧ groups_lookup g gvk name = Some obj) ∧
  (found = None → ∀ gvk, gvk_GroupKind gvk = gk → groups_lookup g gvk name = None).
Proof.
  intros Hf found. unfold groups_lookup. split.
  - intros obj ([gvk objects] & Hg & Hobj)%head_omap_Some. rewrite Hf in Hobj.
    apply elem_of_range in Hg. case_bool_decide; [|done]. exists gvk. by rewrite Hg.
  - intros Hnone gvk Hgk. destruct (g !! gvk) as [objects|] eqn:Hg; [|done]. simpl.
    apply elem_of_range in Hg. pose proof (head_omap_None _ _ _ Hnone Hg) as H.
    simpl in H. rewrite Hf in H. by rewrite bool_decide_true in H.
Qed.

Lemma find_by_name (objects : gmap string object) name :
  head (omap (λ '(n, obj), if n == name then Some obj else None) (range objects)) = objects !! name.
Proof.
  destruct (objects !! name) as [obj|] eqn:Ho; destruct (head _) as [o|] eqn:E; try done.
  - apply head_omap_Some in E as ([n o'] & Hn & Heq). apply elem_of_range in Hn.
    case_bool_decide; congruence.
  - apply elem_of_range in Ho. pose proof (head_omap_None _ _ _ E Ho) as H. simpl in H.
    by rewrite bool_decide_true in H.
  - apply head_omap_Some in E as ([n o'] & Hn & Heq). apply elem_of_range in Hn.
    case_bool_decide; congruence.
Qed.

#[global] Program Instance relative_ObjectMap : ObjectMap RelativeObjectMap := {|
  om_groups := relative_groups;
  om_empty := Relative ∅;
  om_key := relativeName;
  InitGroup := RelativeObjectMap_InitGroup;
  Insert := RelativeObjectMap_Insert;
  InsertAll := RelativeObjectMap_InsertAll;
  FindGroupKindName := RelativeObjectMap_FindGroupKindName;
  ReplaceObjectIfExists := RelativeObjectMap_ReplaceObjectIfExists;
  List := RelativeObjectMap_List;
  GetObjectsByGVK := RelativeObjectMap_GetObjectsByGVK;
  GetAllGVKs := RelativeObjectMap_GetAllGVKs;
|}.
Next Obligation. done. Qed.
Next Obligation.
  intros [g] gvk. rewrite <-groups_init_match. unfold RelativeObjectMap_InitGroup. simpl. by case_match.
Qed.
Next Obligation.
  intros [g] parent obj. rewrite <-groups_insert_alter, <-groups_init_match.
  unfold RelativeObjectMap_Insert, RelativeObjectMap_InitGroup. simpl. by case_match; simpl; simplify_eq/=.
Qed.
Next Obligation. done. Qed.
Next Obligation.
  intros [g] parent obj. unfold RelativeObjectMap_ReplaceObjectIfExists, groups_lookup, groups_insert.
  simpl. destruct (g !! _) as [objects|] eqn:Hg; simpl; [|done].
  destruct (objects !! _) eqn:Ho; [by rewrite bool_decide_true by eauto|].
  by rewrite bool_decide_false by (by intros []).
Qed.
Next Obligation.
  intros m gk name obj H. eapply find_in_groups; [|exact H]. intros gvk objects. simpl.
  by rewrite find_by_name.
Qed.
Next Obligation.
  intros m gk name gvk H Hgk. eapply find_in_groups; [|exact H|done]. intros gvk' objects. simpl.
  by rewrite find_by_name.
Qed.
Next Obligation. intros m obj. apply elem_of_list_groups. Qed.
Next Obligation. done. Qed.
Next Obligation. intros m. apply GetAllGVKs_Sorted_groups. Qed.
Next Obligation. intros m. apply GetAllGVKs_Permutation_groups. Qed.

#[global] Program Instance uniform_ObjectMap : ObjectMap UniformObjectMap := {|
  om_groups := uniform_groups;
  om_empty := Uniform ∅;
  om_key := λ _ obj, qualifiedName obj;
  InitGroup := UniformObjectMap_InitGroup;
  Insert := UniformObjectMap_Insert;
  InsertAll := UniformObjectMap_InsertAll;
  FindGroupKindName := UniformObjectMap_FindGroupKindName;
  ReplaceObjectIfExists := UniformObjectMap_ReplaceObjectIfExists;
  List := UniformObjectMap_List;
  GetObjectsByGVK := UniformObjectMap_GetObjectsByGVK;
  GetAllGVKs := UniformObjectMap_GetAllGVKs;
|}.
Next Obligation. done. Qed.
Next Obligation.
  intros [g] gvk. rewrite <-groups_init_match. unfold UniformObjectMap_InitGroup. simpl. by case_match.
Qed.
Next Obligation.
  intros [g] parent obj. rewrite <-groups_insert_alter, <-groups_init_match.
  unfold UniformObjectMap_Insert, UniformObjectMap_InitGroup. simpl. by case_match; simpl; simplify_eq/=.
Qed.
Next Obligation. done. Qed.
Next Obligation.
  intros [g] parent obj. unfold UniformObjectMap_ReplaceObjectIfExists, groups_lookup, groups_insert.
  simpl. destruct (g !! _) as [objects|] eqn:Hg; simpl; [|done].
  case_decide as Hs; [apply map_size_empty_inv in Hs as ->; by rewrite lookup_empty|].
  destruct (objects !! _) eqn:Ho; [by rewrite bool_decide_true by eauto|].
  by rewrite bool_decide_false by (by intros []).
Qed.
Next Obligation. intros m gk name obj H. by eapply find_in_groups; [|exact H]. Qed.
Next Obligation. intros m gk name gvk H Hgk. by eapply find_in_groups; [|exact H|]. Qed.
Next Obligation. intros m obj. apply elem_of_list_groups. Qed.
Next Obligation. done. Qed.
Next Obligation. intros m. apply GetAllGVKs_Sorted_groups. Qed.
Next Obligation. intros m. apply GetAllGVKs_Permutation_groups. Qed.
End implementation.

(** The groups of the uniform map, by the interface's laws. *)
Section uniform_groups.
Context {RT : GoRuntime} {API : Apimachinery}.
Implicit Types m : UniformObjectMap.

Lemma uniform_Insert m parent c :
  uniform_groups (UniformObjectMap_Insert m parent c) =
    groups_insert (obj_GroupVersionKind c) (qualifiedName c) c (uniform_groups m).
Proof using All. exact (groups_Insert (T:=UniformObjectMap) m parent c). Qed.
Lemma uniform_InitGroup m gvk : uniform_groups (UniformObjectMap_InitGroup m gvk) = groups_init gvk (uniform_groups m).
Proof using All. exact (groups_InitGroup (T:=UniformObjectMap) m gvk). Qed.
End uniform_groups.

(** ** Theorems against the interface *)
Section interface.
Context {API : Apimachinery} {T : Type} {OM : ObjectMap T}.
Implicit Types (m : T) (g : groups).

Lemma groups_lookup_insert g gvk name obj gvk' name' :
  groups_lookup (groups_insert gvk name obj g) gvk' name' =
    if decide (gvk = gvk' ∧ name = name') then Some obj else groups_lookup g gvk' name'.
Proof.
  unfold groups_lookup, groups_insert. destruct (decide (gvk = gvk')) as [->|Hg].
  - rewrite lookup_insert_eq. simpl. destruct (decide (name = name')) as [->|Hn].
    + by rewrite lookup_insert_eq, decide_True.
    + rewrite lookup_insert_ne by done. rewrite decide_False by naive_solver.
      by destruct (g !! gvk').
  - rewrite lookup_insert_ne by done. by rewrite decide_False by naive_solver.
Qed.

Lemma groups_lookup_init g gvk gvk' name :
  groups_lookup (groups_init gvk g) gvk' name = groups_lookup g gvk' name.
Proof.
  unfold groups_lookup, groups_init. destruct (decide (gvk = gvk')) as [->|Hg].
  - rewrite lookup_insert_eq. simpl. by destruct (g !! gvk').
  - by rewrite lookup_insert_ne.
Qed.

Lemma InsertAll_snoc m parent l obj :
  InsertAll m parent (l ++ [obj]) = Insert (InsertAll m parent l) parent obj.
Proof. by rewrite !InsertAll_foldl, foldl_app. Qed.

Lemma InsertAll_nil m parent : InsertAll m parent [] = m.
Proof. by rewrite InsertAll_foldl. Qed.

Lemma InsertAll_lookup_from m parent l gvk name :
  groups_lookup (om_groups (InsertAll m parent l)) gvk name =
    match last (filter (λ o, obj_GroupVersionKind o = gvk ∧ om_key parent o = name) l) with
    | Some obj => Some obj
    | None => groups_lookup (om_groups m) gvk name
    end.
Proof.
  induction l as [|o l IH] using rev_ind; [by rewrite InsertAll_nil|].
  rewrite InsertAll_snoc, groups_Insert, groups_lookup_insert, filter_app, IH.
  rewrite filter_cons, filter_nil. case_decide; [by rewrite last_snoc|by rewrite app_nil_r].
Qed.

Lemma InsertAll_filter (P : object → Prop) `{∀ o, Decision (P o)} m parent l :
  foldl (λ acc o, if bool_decide (P o) then Insert acc parent o else acc) m l =
    InsertAll m parent (filter P l).
Proof.
  induction l as [|o l IH] using rev_ind; [by rewrite InsertAll_nil|].
  rewrite foldl_app, filter_app, filter_cons, filter_nil, IH. simpl.
  destruct (decide (P o)); [by rewrite bool_decide_true, InsertAll_snoc|].
  by rewrite bool_decide_false, app_nil_r.
Qed.

(** An object map holds, under a kind and a key, the last object inserted
    with that kind and key, and nothing else. *)
Theorem InsertAll_lookup parent l gvk name :
  groups_lookup (om_groups (InsertAll om_empty parent l)) gvk name =
    last (filter (λ o, obj_GroupVersionKind o = gvk ∧ om_key parent o = name) l).
Proof. rewrite InsertAll_lookup_from, groups_empty. by destruct (last _). Qed.

(** Replacing an object never adds or removes a key; it changes the one
    entry with the object's kind and key, if there is one. *)
Theorem ReplaceObjectIfExists_lookup m parent obj gvk name :
  groups_lookup (om_groups (ReplaceObjectIfExists m parent obj)) gvk name =
    if decide (obj_GroupVersionKind obj = gvk ∧ om_key parent obj = name)
    then (λ _, obj) <$> groups_lookup (om_groups m) gvk name
    else groups_lookup (om_groups m) gvk name.
Proof.
  rewrite groups_Replace. destruct (groups_lookup (om_groups m) (obj_GroupVersionKind obj) _) eqn:E.
  - rewrite groups_lookup_insert. case_decide as H; [|done]. destruct H as [<- <-]. by rewrite E.
  - case_decide as H; [|done]. destruct H as [<- <-]. by rewrite E.
Qed.

(** Looking a child up by group, kind and name, ignoring the version, finds
    one exactly when some version has it, and then returns such an object. *)
Theorem FindGroupKindName_spec m gk name :
  match FindGroupKindName m gk name with
  | Some obj => ∃ gvk, gvk_GroupKind gvk = gk ∧ groups_lookup (om_groups m) gvk name = Some obj
  | None => ∀ gvk, gvk_GroupKind gvk = gk → groups_lookup (om_groups m) gvk name = None
  end.
Proof.
  destruct (FindGroupKindName m gk name) as [obj|] eqn:E.
  - by apply FindGroupKindName_Some.
  - intros gvk Hgk. by eapply FindGroupKindName_None.
Qed.
End interface.

(** The kinds are listed in an order that depends only on which kinds there
    are: two maps with the same groups, whatever the two runtimes' orders of
    iteration and whichever of the two map types, list them alike. *)
Theorem GetAllGVKs_deterministic {API : Apimachinery} {T1 T2 : Type}
    {OM1 : ObjectMap T1} {OM2 : ObjectMap T2} (m1 : T1) (m2 : T2) :
  dom (om_groups m1) = dom (om_groups m2) → GetAllGVKs m1 = GetAllGVKs m2.
Proof.
  intros Hdom. apply (Sorted_unique gvk_le); [apply GetAllGVKs_Sorted..|].
  rewrite !GetAllGVKs_Permutation. apply NoDup_Permutation; [apply NoDup_fst_map_to_list..|].
  intros gvk. rewrite <-!(elem_of_list_to_set (C:=gset GroupVersionKind)), <-!dom_alt.
  by rewrite Hdom.
Qed.

(** ** From the v2 map to the v1 map *)
Section convert.
Context {RT : GoRuntime} {API : Apimachinery}.
Implicit Types m : UniformObjectMap.

Lemma Contains_sep a (sep : ascii) b : strings_Contains (a +:+ String sep b) sep = true.
Proof.
  induction a as [|c a IH]; simpl; [by rewrite bool_decide_true|].
  rewrite IH. by rewrite orb_true_r.
Qed.

(** Every object sits under its own kind and name, as the map's operations
    leave it, and names are path segments, as the API server demands. *)
Definition well_keyed m : Prop :=
  ∀ gvk name obj, groups_lookup (uniform_groups m) gvk name = Some obj →
    gvk = obj_GroupVersionKind obj ∧ name = qualifiedName obj ∧
    strings_Contains (GetNamespace obj) "/" = false ∧ strings_Contains (GetName obj) "/" = false.

Lemma MakeUniformObjectMap_well_keyed parent l :
  (∀ obj, obj ∈ l → strings_Contains (GetNamespace obj) "/" = false ∧
                    strings_Contains (GetName obj) "/" = false) →
  well_keyed (MakeUniformObjectMap parent l).
Proof using All.
  intros Hl gvk name obj.
  pose proof (InsertAll_lookup_from (T:=UniformObjectMap) (Uniform ∅) parent l gvk name) as Hlook.
  simpl in Hlook. unfold MakeUniformObjectMap. rewrite Hlook.
  destruct (last _) as [o|] eqn:Ho; [|done]. intros [= ->].
  apply last_Some_elem_of, list_elem_of_filter in Ho as [[<- <-] Hin]. naive_solver.
Qed.

Lemma qualifiedName_inj ns name obj :
  ns ≠ "" → strings_Contains ns "/" = false →
  strings_Contains (GetNamespace obj) "/" = false → strings_Contains (GetName obj) "/" = false →
  qualifiedName obj = ns +:+ "/" +:+ name ↔ GetNamespace obj = ns ∧ GetName obj = name.
Proof.
  intros Hns Hs1 Hs2 Hs3. unfold qualifiedName. case_bool_decide as Ho; simpl.
  - split; [|naive_solver]. intros Heq. rewrite Heq in Hs3. exfalso.
    change ("/" +:+ name) with (String "/" name) in Hs3. by rewrite Contains_sep in Hs3.
  - split; [|by intros [-> ->]]. intros Heq.
    pose proof (strings_Cut_app "/" _ (GetName obj) Hs2) as H1.
    pose proof (strings_Cut_app "/" _ name Hs1) as H2.
    change ("/" +:+ GetName obj) with (String "/" (GetName obj)) in Heq.
    change ("/" +:+ name) with (String "/" name) in Heq. rewrite Heq, H2 in H1. by simplify_eq.
Qed.

(** The groups a conversion starts from are empty. *)
Lemma Convert_init_empty (l : list (GroupVersionKind * gmap string object)) r gvk name :
  groups_lookup (relative_groups r) gvk name = None →
  groups_lookup (relative_groups
    (foldl (λ acc '(gvk, _), RelativeObjectMap_InitGroup acc gvk) r l)) gvk name = None.
Proof using All.
  revert r. induction l as [|[k x] l IH]; intros r Hr; simpl; [done|]. apply IH.
  change (groups_lookup (om_groups (InitGroup r k)) gvk name = None).
  by rewrite groups_InitGroup, groups_lookup_init.
Qed.

Lemma Convert_InsertAll m parent :
  ∃ r, (∀ gvk name, groups_lookup (relative_groups r) gvk name = None) ∧
    UniformObjectMap_Convert m parent =
      InsertAll r parent
        (filter (λ child, GetNamespace parent = "" ∨ GetNamespace parent = GetNamespace child) (List m)).
Proof.
  exists (foldl (λ acc '(gvk, _), RelativeObjectMap_InitGroup acc gvk) (Relative ∅)
            (range (uniform_groups m))).
  split; [intros gvk name; by apply (Convert_init_empty _ (Relative ∅))|].
  unfold UniformObjectMap_Convert. case_bool_decide as Hp.
  - simpl. f_equal. rewrite list_filter_true; [done|]. auto.
  - set (r := foldl _ (Relative ∅) (range (uniform_groups m))).
    pose proof (InsertAll_filter (T:=RelativeObjectMap)
      (λ child, GetNamespace parent = GetNamespace child) r parent (List m)) as E.
    simpl in E. rewrite E. simpl. f_equal. apply list_filter_ext, Forall_forall. naive_solver.
Qed.

(** The key of an object in the v2 map, from its key in the v1 map. *)
Definition uniform_key (parent : object) (name : string) : string :=
  if GetNamespace parent == "" then name else GetNamespace parent +:+ "/" +:+ name.

(** Converting the v2 map to the v1 map for a parent keeps exactly the
    objects the parent may own and renames them relative to it: for a
    cluster-scoped parent all of them under the same keys, for a namespaced
    one those of its namespace, by name. *)
Theorem Convert_lookup m parent gvk name :
  well_keyed m → strings_Contains (GetNamespace parent) "/" = false →
  groups_lookup (relative_groups (UniformObjectMap_Convert m parent)) gvk name =
    groups_lookup (uniform_groups m) gvk (uniform_key parent name).
Proof.
  intros Hm Hns. pose proof (elem_of_List m) as Hel. destruct (Convert_InsertAll m parent) as (r & Hr & ->).
  pose proof (InsertAll_lookup_from (T:=RelativeObjectMap) r parent
    (filter (λ child, GetNamespace parent = "" ∨ GetNamespace parent = GetNamespace child) (List m))
    gvk name) as H. simpl in H. rewrite Hr in H. simpl. rewrite H. clear H.
  assert (Hkey : ∀ o, o ∈ List m →
    (GetNamespace parent = "" ∨ GetNamespace parent = GetNamespace o) ∧ relativeName parent o = name ↔
    qualifiedName o = uniform_key parent name).
  { intros o (gvk' & n & Ho)%Hel. destruct (Hm _ _ _ Ho) as (_ & _ & H1 & H2).
    unfold uniform_key. case_bool_decide as Hp.
    - unfold relativeName, qualifiedName. rewrite Hp. simpl. tauto.
    - rewrite qualifiedName_inj by done. unfold relativeName. rewrite bool_decide_false by done.
      simpl. naive_solver. }
  destruct (last _) as [o|] eqn:Ho.
  - apply last_Some_elem_of, list_elem_of_filter in Ho as [[<- Hn] Hin].
    apply list_elem_of_filter in Hin as [Hp Hin]. pose proof Hin as Hin'.
    apply Hel in Hin' as (gvk' & n & Hlook).
    destruct (Hm _ _ _ Hlook) as (-> & -> & _).
    rewrite <-(proj1 (Hkey o Hin)) by done. done.
  - symmetry. apply eq_None_not_Some. intros [o Hlook].
    apply last_None in Ho.
    destruct (Hm _ _ _ Hlook) as (Hg & Hn & _).
    assert (Hin : o ∈ List m) by (apply Hel; eauto).
    destruct (proj2 (Hkey o Hin) (eq_sym Hn)) as [Hp Hrel].
    apply (list_filter_nil_inv _ _ o Ho); [by apply list_elem_of_filter|done].
Qed.
End convert.

(** ** Kinds survive the trip through text *)
Section roundtrip.
Context {API : Apimachinery} {GL : GroupVersionLaws}.

(** A kind written as a JSON key of a webhook request reads back as itself,
    when the kind has no dot and the group and version have no slash, as in
    every Kubernetes API. *)
Theorem GVK_text_roundtrip gvk :
  strings_Contains (gvk_Kind gvk) "." = false →
  strings_Contains (gvk_Group gvk) "/" = false → strings_Contains (gvk_Version gvk) "/" = false →
  gvk_Version gvk ≠ "" →
  GVK_UnmarshalText (GVK_MarshalText gvk) = Ok gvk.
Proof using All.
  destruct gvk as [g v k]. simpl. intros Hk Hg Hv Hne.
  unfold GVK_UnmarshalText, GVK_MarshalText. cbn [gvk_Group gvk_Version gvk_Kind].
  assert (Hsplit : ∀ rest, strings_SplitN (k +:+ "." +:+ rest) "." 2 = [k; rest]).
  { intros rest. change ("." +:+ rest) with (String "." rest). simpl.
    by rewrite strings_Cut_app. }
  case_bool_decide as Hgrp; rewrite Hsplit.
  - rewrite ParseGroupVersion_core by done. by subst.
  - by rewrite ParseGroupVersion_group.
Qed.
End roundtrip.

(** ** Concrete runs *)
Section examples.
#[local] Existing Instance listRuntime.
#[local] Existing Instance treeAPI.

Definition example_object (ns name : string) : object :=
  {[ "apiVersion" := VString "apps/v1"; "kind" := VString "Deployment";
     "metadata" := VMap (if ns == "" then {[ "name" := VString name ]}
                         else {[ "name" := VString name; "namespace" := VString ns ]}) ]}.
Definition deployments : GroupVersionKind :=
  {| gvk_Group := "apps"; gvk_Version := "v1"; gvk_Kind := "Deployment" |}.

Lemma GetAllGVKs_deterministic_witness :
  let parent := example_object "" "p" in
  GetAllGVKs (MakeRelativeObjectMap parent [example_object "ns" "a"]) =
    GetAllGVKs (MakeUniformObjectMap parent [example_object "ns" "b"; example_object "" "c"]).
Proof. apply GetAllGVKs_deterministic, (bool_decide_unpack _). vm_compute. exact I. Defined.

Lemma Convert_lookup_witness :
  let parent := example_object "ns" "p" in
  let m := MakeUniformObjectMap parent [example_object "ns" "a"; example_object "other" "a"] in
  groups_lookup (relative_groups (UniformObjectMap_Convert m parent)) deployments "a" =
    groups_lookup (uniform_groups m) deployments "ns/a".
Proof.
  intros parent m. replace "ns/a" with (uniform_key parent "a") by (vm_compute; reflexivity).
  apply (Convert_lookup m parent deployments "a"); [|by vm_compute].
  apply MakeUniformObjectMap_well_keyed.
  intros obj [->|[->|?%not_elem_of_nil]%elem_of_cons]%elem_of_cons; [..|done]; by vm_compute.
Defined.

Lemma GVK_text_roundtrip_witness :
  GVK_MarshalText deployments = "Deployment.apps/v1" ∧
  GVK_UnmarshalText (GVK_MarshalText deployments) = Ok deployments.
Proof. split; [by vm_compute|]. by apply GVK_text_roundtrip; vm_compute. Defined.
End examples.
