(* ===== verification/Discovery.v ===== *)
(** * API discovery: [pkg/dynamic/discovery/discovery.go]

    The cache of API resources by group-version and resource name or kind.
    [refresh] builds it from the server's lists; the entries of one group share
    their [APIResource]s, and marking a subresource through one map shows
    through the other, so the model keeps the resources of a group in a list
    and lets the maps hold positions in it. *)
From S2P Require Import Prelude Value K8s K8sInst.
From stdpp Require Import options.

Record APIResource := {
  ar_Name : string;
  ar_Namespaced : bool;
  ar_Group : string;
  ar_Version : string;
  ar_Kind : string;
  ar_APIVersion : string;
  ar_subresourceMap : gset string;
}.

(** [metav1.APIResourceList], as the discovery client returns it. *)
Record APIResourceList := {
  arl_GroupVersion : string;
  arl_APIResources : list APIResource;
}.

Record groupVersionEntry := {
  gve_heap : list APIResource;
  gve_resources : gmap string nat;
  gve_kinds : gmap string nat;
  gve_subresources : gmap string nat;
}.

(** [None] is the nil map of a cache that never synced. *)
Record ResourceMap := { rm_groupVersions : option (gmap string groupVersionEntry) }.

Section discovery.
Context {RT : GoRuntime} {API : Apimachinery}.

Definition APIResource_GroupVersion (r : APIResource) : res GroupVersion :=
  match ParseGroupVersion (ar_APIVersion r) with
  | Ok gv => Ok gv
  | _ => Panic ("API discovery returned invalid group/version " +:+ quote (ar_APIVersion r))
  end.

Definition APIResource_GroupVersionKind (r : APIResource) : res GroupVersionKind :=
  gv ← APIResource_GroupVersion r; mret (gv_WithKind gv (ar_Kind r)).

Definition APIResource_GroupVersionResource (r : APIResource) : res GroupVersionResource :=
  gv ← APIResource_GroupVersion r; mret (gv_WithResource gv (ar_Name r)).

Definition HasSubresource (r : APIResource) (subresourceKey : string) : bool :=
  bool_decide (subresourceKey ∈ ar_subresourceMap r).

Definition deref_entry (e : groupVersionEntry) (p : option nat) : option APIResource :=
  p ← p; gve_heap e !! p.

Definition ResourceMap_Get (rm : ResourceMap) (apiVersion resource : string) : option APIResource :=
  gv ← default ∅ (rm_groupVersions rm) !! apiVersion;
  deref_entry gv (gve_resources gv !! resource).

Definition ResourceMap_GetKind (rm : ResourceMap) (apiVersion kind : string) : option APIResource :=
  gv ← default ∅ (rm_groupVersions rm) !! apiVersion;
  deref_entry gv (gve_kinds gv !! kind).

Definition ResourceMap_HasSynced (rm : ResourceMap) : bool :=
  bool_decide (is_Some (rm_groupVersions rm)).

(** An entry of the list, with the group's defaults filled in. *)
Definition materialize (groupVersion : string) (gv : GroupVersion) (r : APIResource) : APIResource := {|
  ar_Name := ar_Name r;
  ar_Namespaced := ar_Namespaced r;
  ar_Group := if ar_Group r == "" then gv_Group gv else ar_Group r;
  ar_Version := if ar_Version r == "" then gv_Version gv else ar_Version r;
  ar_Kind := ar_Kind r;
  ar_APIVersion := groupVersion;
  ar_subresourceMap := ∅;
|}.

(** One pass of the loop over a group's resources. *)
Definition add_resource (groupVersion : string) (gv : GroupVersion) (gve : groupVersionEntry)
    (r : APIResource) : groupVersionEntry :=
  let apiResource := materialize groupVersion gv r in
  let p := length (gve_heap gve) in
  let sub := strings_Contains (ar_Name apiResource) "/" in
  {| gve_heap := gve_heap gve ++ [apiResource];
     gve_resources := <[ar_Name apiResource := p]> (gve_resources gve);
     gve_kinds := if sub then gve_kinds gve else <[ar_Kind apiResource := p]> (gve_kinds gve);
     gve_subresources := if sub then <[ar_Name apiResource := p]> (gve_subresources gve)
                         else gve_subresources gve |}.

Definition mark_subresource (key : string) (r : APIResource) : APIResource := {|
  ar_Name := ar_Name r;
  ar_Namespaced := ar_Namespaced r;
  ar_Group := ar_Group r;
  ar_Version := ar_Version r;
  ar_Kind := ar_Kind r;
  ar_APIVersion := ar_APIVersion r;
  ar_subresourceMap := {[key]} ∪ ar_subresourceMap r;
|}.

(** Group the subresources under their resource; [arr[1]] is in range because
    a subresource's name has a slash. *)
Definition group_subresource (gve : groupVersionEntry) (apiSubresourceName : string) : groupVersionEntry :=
  match strings_Split apiSubresourceName "/" with
  | apiResourceName :: subresourceKey :: _ =>
    match gve_resources gve !! apiResourceName with
    | None => gve
    | Some p =>
      {| gve_heap := alter (mark_subresource subresourceKey) p (gve_heap gve);
         gve_resources := gve_resources gve;
         gve_kinds := gve_kinds gve;
         gve_subresources := gve_subresources gve |}
    end
  | _ => gve
  end.

Definition refresh_group (group : APIResourceList) : res groupVersionEntry :=
  gv ← match ParseGroupVersion (arl_GroupVersion group) with
       | Ok gv => Ok gv
       | _ => Panic "received invalid GroupVersion from server"
       end;
  let gve := {| gve_heap := []; gve_resources := ∅; gve_kinds := ∅; gve_subresources := ∅ |} in
  let gve := foldl (add_resource (arl_GroupVersion group) gv) gve (arl_APIResources group) in
  mret (foldl group_subresource gve (range (gve_subresources gve)).*1).

(** [ServerGroupsAndResources] returns what it could fetch with its error. *)
Definition refresh (rm : ResourceMap) (groups : list APIResourceList) (err : option error)
    : res ResourceMap :=
  match err, groups with
  | Some _, [] => mret rm
  | _, _ =>
    groupVersions ← foldlM (λ gvs group,
      gve ← refresh_group group; mret (<[arl_GroupVersion group := gve]> gvs)) ∅ groups;
    mret {| rm_groupVersions := Some groupVersions |}
  end.

(** [Start]: a refresh at once and one after each tick until the context is
    done, with what the server answers to each. *)
Definition ResourceMap_Start (rm : ResourceMap) (first : list APIResourceList * option error)
    (ticks : list (list APIResourceList * option error)) : res ResourceMap :=
  foldlM (λ rm '(groups, err), refresh rm groups err) rm (first :: ticks).

Definition NewResourceMap : ResourceMap := {| rm_groupVersions := None |}.
End discovery.

Section properties.
Context {RT : GoRuntime} {API : Apimachinery}.

Definition empty_entry : groupVersionEntry :=
  {| gve_heap := []; gve_resources := ∅; gve_kinds := ∅; gve_subresources := ∅ |}.

(** What the first loop builds from resources with distinct names. *)
Record entry_of (l : list APIResource) (e : groupVersionEntry) : Prop := {
  entry_heap : gve_heap e = l;
  entry_resources n p : gve_resources e !! n = Some p ↔ ∃ r, l !! p = Some r ∧ ar_Name r = n;
  entry_kinds k p : gve_kinds e !! k = Some p →
    ∃ r, l !! p = Some r ∧ ar_Kind r = k ∧ strings_Contains (ar_Name r) "/" = false;
  entry_subresources n : is_Some (gve_subresources e !! n) ↔
    strings_Contains n "/" = true ∧ n ∈ ar_Name <$> l;
}.

Lemma lookup_snoc_iff {A} (l : list A) x p (P : A → Prop) :
  (∃ r, (l ++ [x]) !! p = Some r ∧ P r) ↔
  (∃ r, l !! p = Some r ∧ P r) ∨ p = length l ∧ P x.
Proof.
  setoid_rewrite lookup_snoc_Some. split.
  - intros (r & [[_ ?]|[-> ->]] & ?); [left; eauto|by right].
  - intros [(r & ? & ?)|[-> ?]]; [|by exists x; auto].
    exists r. split; [|done]. left. split; [by eapply lookup_lt_Some|done].
Qed.

Lemma add_resource_entry gvs gv l e r :
  entry_of l e → ar_Name r ∉ ar_Name <$> l →
  entry_of (l ++ [materialize gvs gv r]) (add_resource gvs gv e r).
Proof.
  intros [Hheap Hres Hkind Hsub] Hnew. split; simpl.
  - by rewrite Hheap.
  - intros n p. rewrite Hheap, (lookup_snoc_iff _ _ _ (λ x, ar_Name x = n)), lookup_insert_Some, Hres.
    simpl. split; [naive_solver|]. intros [(x & Hx & Hn)|[-> <-]]; [|by left]. right.
    split; [|by eauto]. intros <-. apply Hnew, list_elem_of_fmap.
    exists x. split; [done|]. by eapply list_elem_of_lookup_2.
  - intros k p Hk. rewrite Hheap in Hk.
    rewrite (lookup_snoc_iff _ _ _ (λ x, ar_Kind x = k ∧ strings_Contains (ar_Name x) "/" = false)).
    simpl. destruct (strings_Contains (ar_Name r) "/"); [by left; apply Hkind|].
    apply lookup_insert_Some in Hk as [[<- <-]|[_ Hk]]; [by right|left; by apply Hkind].
  - intros n. rewrite fmap_app, elem_of_app. simpl. rewrite list_elem_of_singleton.
    destruct (strings_Contains (ar_Name r) "/") eqn:Hr.
    + rewrite lookup_insert_is_Some, Hsub. destruct (decide (ar_Name r = n)); naive_solver.
    + rewrite Hsub. split; [naive_solver|]. intros [Hn [?| ->]]; [done|congruence].
Qed.

Lemma add_resources_entry gvs gv rs :
  NoDup (ar_Name <$> rs) →
  entry_of (materialize gvs gv <$> rs) (foldl (add_resource gvs gv) empty_entry rs).
Proof.
  induction rs as [|r rs IH] using rev_ind; intros Hnd.
  { split; simpl; try done.
    - intros n p. rewrite lookup_empty. split; [done|]. intros (r & ? & _). by destruct p.
    - intros n. rewrite lookup_empty. split; [by intros []|]. intros [_ H]. by apply not_elem_of_nil in H. }
  rewrite fmap_app in Hnd. apply NoDup_app in Hnd as (Hnd & Hdis & _).
  rewrite foldl_app, fmap_app. simpl. apply add_resource_entry; [by apply IH|].
  intros Hin. rewrite <-list_fmap_compose in Hin. apply (Hdis (ar_Name r)); [|set_solver]. exact Hin.
Qed.

(** [sub] is the name of subresource [key] of resource [n]. *)
Definition subresource_of (n key sub : string) : Prop :=
  ∃ rest, strings_Split sub "/" = n :: key :: rest.

Lemma group_subresource_maps e subs :
  let e' := foldl group_subresource e subs in
  gve_resources e' = gve_resources e ∧ gve_kinds e' = gve_kinds e ∧
  length (gve_heap e') = length (gve_heap e).
Proof.
  revert e. induction subs as [|s subs IH]; intros e; simpl; [done|].
  destruct (IH (group_subresource e s)) as (-> & -> & ->). unfold group_subresource.
  repeat case_match; simpl; (try done); by rewrite length_alter.
Qed.

Lemma group_subresource_heap e subs p r :
  gve_heap e !! p = Some r → (∀ n, gve_resources e !! n = Some p → ar_Name r = n) →
  gve_resources e !! ar_Name r = Some p →
  ∃ r', gve_heap (foldl group_subresource e subs) !! p = Some r' ∧
    ar_Name r' = ar_Name r ∧ ar_Kind r' = ar_Kind r ∧
    ∀ key, key ∈ ar_subresourceMap r' ↔
      key ∈ ar_subresourceMap r ∨ ∃ s, s ∈ subs ∧ subresource_of (ar_Name r) key s.
Proof.
  revert e r. induction subs as [|s subs IH]; intros e r Hp Hname Hres; simpl.
  { exists r. set_solver. }
  assert (Hstep : ∃ r1, gve_heap (group_subresource e s) !! p = Some r1 ∧
    gve_resources (group_subresource e s) = gve_resources e ∧
    ar_Name r1 = ar_Name r ∧ ar_Kind r1 = ar_Kind r ∧
    ∀ key, key ∈ ar_subresourceMap r1 ↔
      key ∈ ar_subresourceMap r ∨ subresource_of (ar_Name r) key s).
  { unfold group_subresource, subresource_of.
    destruct (strings_Split s "/") as [|n [|key rest]] eqn:Es; [naive_solver..|].
    destruct (gve_resources e !! n) as [q|] eqn:Hn.
    - simpl. destruct (decide (q = p)) as [->|Hq].
      + rewrite list_lookup_alter_eq, Hp. simpl. eexists. split_and!; try done.
        intros key'. simpl. rewrite (Hname n Hn). set_unfold. naive_solver.
      + rewrite list_lookup_alter_ne by done. exists r. split_and!; try done.
        intros key'. split; [by left|]. intros [?|[rest' [= -> -> _]]]; [done|congruence].
    - exists r. split_and!; try done. intros key'. split; [by left|].
      intros [?|[rest' [= -> -> _]]]; [done|congruence]. }
  destruct Hstep as (r1 & Hp1 & Hr1 & Hn1 & Hk1 & Hs1).
  destruct (IH (group_subresource e s) r1) as (r' & Hp' & Hn' & Hk' & Hs');
    [done|by rewrite Hr1, Hn1|by rewrite Hr1, Hn1|].
  exists r'. split; [done|]. split; [congruence|]. split; [congruence|]. intros key.
  rewrite Hs', Hs1, Hn1. set_solver.
Qed.

Lemma refresh_group_entry group e :
  refresh_group group = Ok e → NoDup (ar_Name <$> arl_APIResources group) →
  ∃ gv, let rs := materialize (arl_GroupVersion group) gv <$> arl_APIResources group in
    ∃ e0 subs, entry_of rs e0 ∧ e = foldl group_subresource e0 subs ∧
      ∀ s, s ∈ subs ↔ strings_Contains s "/" = true ∧ s ∈ ar_Name <$> rs.
Proof.
  unfold refresh_group. intros He Hnd. destruct (ParseGroupVersion _) as [gv| |]; try done.
  simpl in He. injection He as <-. exists gv.
  eexists _, _. split; [by apply add_resources_entry|]. split; [done|]. intros s.
  rewrite <-(entry_subresources _ _ (add_resources_entry (arl_GroupVersion group) gv _ Hnd)).
  rewrite list_elem_of_fmap. split.
  - intros ([n p] & -> & Hp). apply elem_of_range in Hp. by exists p.
  - intros [p Hp]. exists (s, p). split; [done|]. by apply elem_of_range.
Qed.

(** After a refresh, the resource found by name is the one of that name, and
    it has a subresource exactly when the server lists a resource called
    name, slash, subresource; the resource found by kind is no subresource
    itself, has that kind, and is the one found by its name, so that the two
    ways to look a resource up agree on its subresources. *)
Theorem refresh_group_spec group e :
  refresh_group group = Ok e → NoDup (ar_Name <$> arl_APIResources group) →
  (∀ n r, deref_entry e (gve_resources e !! n) = Some r →
    ar_Name r = n ∧
    ∀ key, HasSubresource r key = true ↔
      ∃ s, s ∈ ar_Name <$> arl_APIResources group ∧ strings_Contains s "/" = true ∧
        subresource_of n key s) ∧
  (∀ k r, deref_entry e (gve_kinds e !! k) = Some r →
    ar_Kind r = k ∧ strings_Contains (ar_Name r) "/" = false ∧
    deref_entry e (gve_resources e !! ar_Name r) = Some r).
Proof.
  intros He Hnd. destruct (refresh_group_entry _ _ He Hnd) as (gv & e0 & subs & He0 & -> & Hsubs).
  destruct (group_subresource_maps e0 subs) as (HR & HK & _).
  unfold deref_entry. rewrite HR, HK. clear HR HK.
  assert (Hnames : ∀ p r0, gve_heap e0 !! p = Some r0 →
    (∀ n, gve_resources e0 !! n = Some p → ar_Name r0 = n) ∧ gve_resources e0 !! ar_Name r0 = Some p ∧
    ar_subresourceMap r0 = ∅).
  { intros p r0 Hp. rewrite (entry_heap _ _ He0) in Hp. repeat split.
    - intros n Hn. apply (entry_resources _ _ He0) in Hn. naive_solver.
    - apply (entry_resources _ _ He0). eauto.
    - apply list_lookup_fmap_Some in Hp as (x & -> & _). done. }
  split.
  - intros n r Hr. destruct (gve_resources e0 !! n) as [p|] eqn:Hp; [|done]. simpl in Hr.
    pose proof Hp as Hn. apply (entry_resources _ _ He0) in Hn as (r0 & Hr0 & <-).
    rewrite <-(entry_heap _ _ He0) in Hr0. destruct (Hnames _ _ Hr0) as (H1 & H2 & H3).
    destruct (group_subresource_heap e0 subs p r0 Hr0 H1 H2) as (r' & Hr' & Hn' & _ & Hs').
    simplify_eq. split; [done|]. intros key. unfold HasSubresource.
    rewrite bool_decide_eq_true, Hs', H3. setoid_rewrite Hsubs.
    rewrite <-list_fmap_compose. set_unfold. naive_solver.
  - intros k r Hr. destruct (gve_kinds e0 !! k) as [p|] eqn:Hp; [|done]. simpl in Hr.
    apply (entry_kinds _ _ He0) in Hp as (r0 & Hr0 & <- & Hslash).
    rewrite <-(entry_heap _ _ He0) in Hr0. destruct (Hnames _ _ Hr0) as (H1 & H2 & H3).
    destruct (group_subresource_heap e0 subs p r0 Hr0 H1 H2) as (r' & Hr' & Hn' & Hk' & _).
    simplify_eq. rewrite Hn', H2. split; [done|]. split; [done|]. simpl. done.
Qed.

(** An answer that replaces the cache: any but an error without groups. *)
Definition usable (answer : list APIResourceList * option error) : Prop := answer.2 = None ∨ answer.1 ≠ [].
#[local] Instance usable_dec answer : Decision (usable answer).
Proof. unfold usable. apply _. Defined.

Lemma refresh_unusable rm groups err : ¬ usable (groups, err) → refresh rm groups err = Ok rm.
Proof.
  intros H. destruct err as [e|]; [|by destruct H; left]. destruct groups; [done|]. destruct H. by right.
Qed.
Lemma refresh_usable rm rm0 groups err : usable (groups, err) → refresh rm groups err = refresh rm0 groups err.
Proof. intros [Herr|Hne]; simpl in *; subst; [by destruct groups|]. by destruct groups, err. Qed.
Lemma refresh_synced rm groups err rm' :
  usable (groups, err) → refresh rm groups err = Ok rm' → ResourceMap_HasSynced rm' = true.
Proof.
  intros Hu H.
  assert (∃ gvs, rm' = {| rm_groupVersions := Some gvs |}) as [gvs ->]; [|done].
  destruct Hu as [Herr|Hne]; simpl in *; [subst err|].
  - assert (Hr : refresh rm groups None = Ok rm') by done. unfold refresh in Hr.
    destruct groups; apply bind_res_Ok in Hr as (gvs & _ & Hr); injection Hr as <-; eauto.
  - unfold refresh in H. destruct err, groups; try done;
      apply bind_res_Ok in H as (gvs & _ & H); injection H as <-; eauto.
Qed.

(** However often it is refreshed, the cache is what the last usable answer of
    the server makes of an empty one: nothing older is left, and an error
    without groups loses nothing.  Before the first usable answer it is as it
    was, so a new cache has synced exactly when there was one. *)
Theorem Start_last_usable rm first ticks rm' :
  ResourceMap_Start rm first ticks = Ok rm' →
  match last (filter usable (first :: ticks)) with
  | None => rm' = rm
  | Some (groups, err) => refresh NewResourceMap groups err = Ok rm' ∧ ResourceMap_HasSynced rm' = true
  end.
Proof.
  unfold ResourceMap_Start. generalize (first :: ticks) as answers. intros answers. revert rm'.
  induction answers as [|[groups err] answers IH] using rev_ind; intros rm'; simpl; [by intros [= <-]|].
  intros (rm1 & H1 & H)%foldlM_snoc. rewrite filter_app, filter_cons, filter_nil.
  destruct (decide (usable (groups, err))) as [Hu|Hu].
  - rewrite last_snoc. split; [by rewrite <- (refresh_usable rm1)|by eapply refresh_synced].
  - rewrite app_nil_r. rewrite refresh_unusable in H by done. injection H as <-. by apply IH.
Qed.
End properties.

(** ** A concrete refresh *)
Section examples.
#[local] Existing Instance listRuntime.
#[local] Existing Instance treeAPI.

Definition listed (name kind : string) (namespaced : bool) : APIResource := {|
  ar_Name := name; ar_Namespaced := namespaced; ar_Group := ""; ar_Version := "";
  ar_Kind := kind; ar_APIVersion := ""; ar_subresourceMap := ∅ |}.
Definition core_group : APIResourceList := {|
  arl_GroupVersion := "v1";
  arl_APIResources :=
    [listed "pods/status" "Pod" true; listed "pods" "Pod" true; listed "nodes" "Node" false] |}.

Lemma refresh_group_spec_witness :
  match refresh_group core_group with
  | Ok e =>
    ∀ k r, deref_entry e (gve_kinds e !! k) = Some r →
      ar_Kind r = k ∧ strings_Contains (ar_Name r) "/" = false ∧
      deref_entry e (gve_resources e !! ar_Name r) = Some r
  | _ => False
  end.
Proof.
  assert (Hok : is_Ok (refresh_group core_group) = true) by (vm_compute; reflexivity).
  destruct (refresh_group core_group) as [e| |] eqn:He; [|discriminate..].
  apply (refresh_group_spec core_group e He), (bool_decide_unpack _). vm_compute. exact I.
Defined.
End examples.
