(* ===== verification/Types.v ===== *)
(** * The API types: [pkg/apis/metacontroller/v1alpha1/types.go]

    The resources that configure a controller, as records with the fields of
    the Go structs.  A pointer is an [option]; the object metadata of a
    controller resource is its name, and of a [ControllerRevision] the fields
    the code reads and writes. *)
From S2P Require Import Prelude Value K8s.
From stdpp Require Import options.

(** ** Update strategies *)
Definition ChildUpdateMethod : Type := string.
Definition ChildUpdateOnDelete : ChildUpdateMethod := "OnDelete".
Definition ChildUpdateRecreate : ChildUpdateMethod := "Recreate".
Definition ChildUpdateInPlace : ChildUpdateMethod := "InPlace".
Definition ChildUpdateRollingRecreate : ChildUpdateMethod := "RollingRecreate".
Definition ChildUpdateRollingInPlace : ChildUpdateMethod := "RollingInPlace".

Record StatusConditionCheck := {
  scc_Type : string;
  scc_Status : option string;
  scc_Reason : option string;
}.
Record ChildUpdateStatusChecks := { Conditions : list StatusConditionCheck }.
Record ChildUpdateStrategy := {
  cus_Method : ChildUpdateMethod;
  cus_StatusChecks : ChildUpdateStatusChecks;
}.

(** ** Resource rules *)
Record ResourceRule := { rr_APIVersion : string; rr_Resource : string }.
#[global] Instance ResourceRule_eq_dec : EqDecision ResourceRule.
Proof. solve_decision. Defined.

Record CompositeControllerChildResourceRule := {
  child_rule : ResourceRule;
  child_UpdateStrategy : option ChildUpdateStrategy;
}.

Record RelatedResourceRule := {
  related_rule : ResourceRule;
  related_LabelSelector : option LabelSelector;
  related_NamespaceSelector : option LabelSelector;
  related_Namespace : string;
  related_Names : list string;
}.

(** ** Webhooks *)
Definition HookVersion : Type := string.
Definition HookVersionV1 : HookVersion := "v1".
Definition HookVersionV2 : HookVersion := "v2".

Record ServiceReference := {
  svc_Name : string;
  svc_Namespace : string;
  svc_Port : option Z;
  svc_Protocol : option string;
}.
Record SecretRef := { sr_Name : string; sr_Namespace : string }.
Record SecretKeyRef := { skr_Name : string; skr_Namespace : string; skr_Key : string }.
Record Authorization := { auth_Type : string; auth_SecretRef : SecretKeyRef }.
Record BasicAuth := {
  basic_SecretRef : SecretRef;
  basic_UsernameKey : string;
  basic_PasswordKey : string;
}.
Record ClientTLS := {
  tls_SecretRef : SecretRef;
  tls_CertKey : string;
  tls_PrivateKeyKey : string;
}.
Record ResourceKeyRef := { rkr_Name : string; rkr_Namespace : string; rkr_Key : string }.
Record CABundle := {
  ca_Inline : option string;
  ca_SecretRef : option ResourceKeyRef;
  ca_ConfigMapRef : option ResourceKeyRef;
}.
Record EndpointConfig := {
  ec_Host : string;
  ec_CABundle : option CABundle;
  ec_ClientTLS : option ClientTLS;
  ec_Authorization : option Authorization;
  ec_BasicAuth : option BasicAuth;
}.
Record WebhookEtagConfig := {
  etag_Enabled : option bool;
  etag_CacheTimeoutSeconds : option Z;
  etag_CacheCleanupSeconds : option Z;
}.
Record Webhook := {
  wh_URL : option string;
  wh_Timeout : option Z;
  wh_Etag : option WebhookEtagConfig;
  wh_Path : option string;
  wh_Service : option ServiceReference;
  wh_ResponseUnmarshallMode : option string;
  wh_CABundle : option CABundle;
  wh_ClientTLS : option ClientTLS;
  wh_Authorization : option Authorization;
  wh_BasicAuth : option BasicAuth;
}.
Record Hook := { hook_Version : option HookVersion; hook_Webhook : option Webhook }.

(** A method on a possibly nil pointer. *)
Definition Hook_GetVersion (h : option Hook) : HookVersion :=
  match h with
  | None => HookVersionV1
  | Some h =>
    match hook_Version h with
    | None => HookVersionV1
    | Some v => if v == "" then HookVersionV1 else v
    end
  end.

(** ** [CompositeController] *)
Record CompositeControllerHooks := {
  cch_Customize : option Hook;
  cch_Sync : option Hook;
  cch_Finalize : option Hook;
  cch_PreUpdateChild : option Hook;
  cch_PostUpdateChild : option Hook;
}.
Record CompositeControllerParentResourceRule := {
  parent_rule : ResourceRule;
  (** [RevisionHistory.FieldPaths] *)
  parent_RevisionHistory : option (list string);
  parent_LabelSelector : option LabelSelector;
  parent_IgnoreStatusChanges : option bool;
}.
Record CompositeController := {
  cc_Name : string;
  cc_ParentResource : CompositeControllerParentResourceRule;
  cc_ChildResources : list CompositeControllerChildResourceRule;
  cc_Hooks : option CompositeControllerHooks;
  cc_EndpointConfigs : list EndpointConfig;
  cc_ResyncPeriodSeconds : option Z;
  cc_GenerateSelector : option bool;
}.

Definition CompositeController_GetCustomizeHook (cc : CompositeController) : option Hook :=
  hooks ← cc_Hooks cc; cch_Customize hooks.

(** ** [DecoratorController] *)
Record AnnotationSelector := {
  MatchAnnotations : gmap string string;
  ann_MatchExpressions : list LabelSelectorRequirement;
}.
Record DecoratorControllerResourceRule := {
  dc_rule : ResourceRule;
  dc_LabelSelector : option LabelSelector;
  dc_AnnotationSelector : option AnnotationSelector;
  dc_IgnoreStatusChanges : option bool;
}.
Record DecoratorControllerAttachmentRule := {
  attachment_rule : ResourceRule;
  (** [UpdateStrategy.Method] *)
  attachment_UpdateStrategy : option ChildUpdateMethod;
}.
Record DecoratorControllerHooks := {
  dch_Customize : option Hook;
  dch_Sync : option Hook;
  dch_Finalize : option Hook;
}.
Record DecoratorController := {
  dc_Name : string;
  dc_Resources : list DecoratorControllerResourceRule;
  dc_Attachments : list DecoratorControllerAttachmentRule;
  dc_Hooks : option DecoratorControllerHooks;
  dc_EndpointConfigs : list EndpointConfig;
  dc_ResyncPeriodSeconds : option Z;
}.

Definition DecoratorController_GetCustomizeHook (dc : DecoratorController) : option Hook :=
  hooks ← dc_Hooks dc; dch_Customize hooks.

(** ** [ControllerRevision] *)
Record ControllerRevisionChildren := {
  crc_APIGroup : string;
  crc_Kind : string;
  crc_Names : list string;
}.
#[global] Instance ControllerRevisionChildren_eq_dec : EqDecision ControllerRevisionChildren.
Proof. solve_decision. Defined.

Record ControllerRevision := {
  rev_Name : string;
  rev_Namespace : string;
  rev_UID : string;
  rev_ResourceVersion : string;
  rev_Labels : gmap string string;
  rev_OwnerReferences : list OwnerReference;
  rev_DeletionTimestamp : option string;
  (** [ParentPatch.Raw] *)
  rev_ParentPatch : string;
  rev_Children : list ControllerRevisionChildren;
}.
#[global] Instance ControllerRevision_eq_dec : EqDecision ControllerRevision.
Proof. solve_decision. Defined.

Definition set_rev_OwnerReferences (refs : list OwnerReference) (r : ControllerRevision) : ControllerRevision := {|
  rev_Name := rev_Name r;
  rev_Namespace := rev_Namespace r;
  rev_UID := rev_UID r;
  rev_ResourceVersion := rev_ResourceVersion r;
  rev_Labels := rev_Labels r;
  rev_OwnerReferences := refs;
  rev_DeletionTimestamp := rev_DeletionTimestamp r;
  rev_ParentPatch := rev_ParentPatch r;
  rev_Children := rev_Children r;
|}.

Definition set_rev_Children (children : list ControllerRevisionChildren) (r : ControllerRevision)
    : ControllerRevision := {|
  rev_Name := rev_Name r;
  rev_Namespace := rev_Namespace r;
  rev_UID := rev_UID r;
  rev_ResourceVersion := rev_ResourceVersion r;
  rev_Labels := rev_Labels r;
  rev_OwnerReferences := rev_OwnerReferences r;
  rev_DeletionTimestamp := rev_DeletionTimestamp r;
  rev_ParentPatch := rev_ParentPatch r;
  rev_Children := children;
|}.

Definition set_rev_ResourceVersion (rv : string) (r : ControllerRevision) : ControllerRevision := {|
  rev_Name := rev_Name r;
  rev_Namespace := rev_Namespace r;
  rev_UID := rev_UID r;
  rev_ResourceVersion := rv;
  rev_Labels := rev_Labels r;
  rev_OwnerReferences := rev_OwnerReferences r;
  rev_DeletionTimestamp := rev_DeletionTimestamp r;
  rev_ParentPatch := rev_ParentPatch r;
  rev_Children := rev_Children r;
|}.
