(* ===== verification/World.v ===== *)
(** * The cluster and the effects of a controller

    The API server is an arbitrary state with one transition per request (the
    class [Cluster]); a controller's run is a computation over a [World] that
    holds it, the log of the requests sent, and the process-wide cache of
    server-side applies.  The log is what the theorems about effects speak of. *)
From S2P Require Import Prelude Value K8s Types.
From stdpp Require Import options.

(** ** Requests *)
Record DeleteOptions := {
  (** [Preconditions.UID] *)
  do_UID : option string;
  do_PropagationPolicy : option string;
}.
Inductive PatchType := ApplyPatchType | JSONPatchType.
#[global] Instance PatchType_eq_dec : EqDecision PatchType.
Proof. solve_decision. Defined.
Record PatchOptions := {
  po_FieldManager : string;
  po_Force : option bool;
  po_DryRun : bool;
}.

(** The calls of the dynamic client, on a resource and a namespace. *)
Inductive dyn_req :=
  | DynGet (gvr : GroupVersionResource) (ns name : string)
  | DynCreate (gvr : GroupVersionResource) (ns : string) (obj : object)
  | DynUpdate (gvr : GroupVersionResource) (ns : string) (obj : object)
  | DynUpdateStatus (gvr : GroupVersionResource) (ns : string) (obj : object)
  | DynDelete (gvr : GroupVersionResource) (ns name : string) (opts : DeleteOptions)
  | DynPatch (gvr : GroupVersionResource) (ns name : string) (pt : PatchType) (data : string)
      (opts : PatchOptions).

(** The calls of the typed client of controller revisions. *)
Inductive rev_req :=
  | RevGet (ns name : string)
  | RevCreate (ns : string) (r : ControllerRevision)
  | RevUpdate (ns : string) (r : ControllerRevision)
  | RevDelete (ns name : string) (opts : DeleteOptions).

(** The operations of a controller's work queue; delays are in nanoseconds. *)
Inductive queue_op :=
  | QueueAdd (key : string)
  | QueueAddAfter (key : string) (delay : Z)
  | QueueAddRateLimited (key : string)
  | QueueForget (key : string)
  | QueueDone (key : string).

Inductive event :=
  | EvDyn (r : dyn_req)
  | EvRev (r : rev_req)
  | EvQueue (op : queue_op)
  (** [eventRecorder.Eventf]: the reason and the message *)
  | EvEventf (reason message : string).

(** Requests that may change the server's state. *)
Definition is_write (e : event) : bool :=
  match e with
  | EvDyn (DynGet _ _ _) => false
  | EvDyn (DynPatch _ _ _ _ _ opts) => negb (po_DryRun opts)
  | EvDyn _ => true
  | EvRev (RevGet _ _) => false
  | EvRev _ => true
  | EvQueue _ => false
  | EvEventf _ _ => false
  end.

(** The server: what each request returns, and the state it leaves. *)
Class Cluster := {
  Srv : Type;
  dyn_call : dyn_req → Srv → (object + error) * Srv;
  rev_call : rev_req → Srv → (ControllerRevision + error) * Srv;
  (** [ctx.Err()] *)
  ctx_err : Srv → option error;
}.

(** An entry of the cache of server-side applies. *)
Record lastUpdate := {
  lu_hash : Z;
  lu_resourcegeneration : Z;
  lu_resourceversion : string;
  lu_uid : string;
}.
#[global] Instance lastUpdate_eq_dec : EqDecision lastUpdate.
Proof. solve_decision. Defined.

Section world.
Context {CL : Cluster}.

Record World := {
  w_srv : Srv;
  w_log : list event;
  w_lastUpdated : gmap string lastUpdate;
}.

Definition of_sum {A} (r : A + error) : res A :=
  match r with inl a => Ok a | inr e => Err e end.

Definition dyn (req : dyn_req) : M World object := λ w,
  let '(r, srv) := dyn_call req (w_srv w) in
  (of_sum r, {| w_srv := srv; w_log := w_log w ++ [EvDyn req]; w_lastUpdated := w_lastUpdated w |}).

Definition rev (req : rev_req) : M World ControllerRevision := λ w,
  let '(r, srv) := rev_call req (w_srv w) in
  (of_sum r, {| w_srv := srv; w_log := w_log w ++ [EvRev req]; w_lastUpdated := w_lastUpdated w |}).

(** An effect outside the API server. *)
Definition record_event (e : event) : M World unit :=
  modify (λ w, {| w_srv := w_srv w; w_log := w_log w ++ [e]; w_lastUpdated := w_lastUpdated w |}).
Definition enqueue (op : queue_op) : M World unit := record_event (EvQueue op).

(** [if err := ctx.Err(); err != nil { return err }] *)
Definition check_ctx : M World unit := λ w,
  match ctx_err (w_srv w) with Some e => (Err e, w) | None => (Ok (), w) end.
End world.
Arguments World {_}.

(** ** What a computation emits *)

(** A state with a log of requests in it. *)
Class HasLog (W : Type) := log_of : W → list event.
#[global] Instance World_log {CL : Cluster} : HasLog World := w_log.

Section emits.
Context {W : Type} {HL : HasLog W}.
Implicit Types P Q : event → Prop.

(** Every event [m] adds to the log satisfies [P], and the log only grows. *)
Definition emits P {A} (m : M W A) : Prop :=
  ∀ w, ∃ es, log_of (m w).2 = log_of w ++ es ∧ Forall P es.

Lemma emits_weaken P Q {A} (m : M W A) :
  emits P m → (∀ e, P e → Q e) → emits Q m.
Proof.
  intros Hm HPQ w. destruct (Hm w) as (es & Hes & HP). exists es. split; [done|].
  by eapply Forall_impl.
Qed.

Lemma emits_pure P {A} (m : M W A) : (∀ w, log_of (m w).2 = log_of w) → emits P m.
Proof. intros Hm w. exists []. by rewrite Hm, app_nil_r. Qed.

Lemma emits_ret P {A} (a : A) : emits P (mret a).
Proof. by apply emits_pure. Qed.
Lemma emits_lift P {A} (r : res A) : emits P (lift r).
Proof. by apply emits_pure. Qed.
Lemma emits_throw P {A} e : emits P (throw (A:=A) e).
Proof. by apply emits_pure. Qed.
Lemma emits_get P : emits P get_state.
Proof. by apply emits_pure. Qed.
Lemma emits_modify P f : (∀ w, log_of (f w) = log_of w) → emits P (modify f).
Proof. intros Hf. by apply emits_pure. Qed.

Lemma emits_bind P {A B} (m : M W A) (f : A → M W B) :
  emits P m → (∀ a, emits P (f a)) → emits P (m ≫= f).
Proof.
  intros Hm Hf w. destruct (Hm w) as (es & Hes & HP). unfold mbind, M_bind.
  destruct (m w) as [[a|e|s] w']; simpl in *; [|by eauto..].
  destruct (Hf a w') as (es' & Hes' & HP'). exists (es ++ es'). rewrite Hes', Hes.
  rewrite app_assoc. split; [done|]. by apply Forall_app.
Qed.

(** What follows may rely on what [m] returned. *)
Lemma emits_bind_Ok P {A B} (m : M W A) (f : A → M W B) :
  emits P m → (∀ a w w', m w = (Ok a, w') → emits P (f a)) → emits P (m ≫= f).
Proof.
  intros Hm Hf w. destruct (Hm w) as (es & Hes & HP). unfold mbind, M_bind.
  destruct (m w) as [[a|e|s] w'] eqn:Hw; simpl in *; [|by eauto..].
  destruct (Hf a w w' Hw w') as (es' & Hes' & HP'). exists (es ++ es'). rewrite Hes', Hes.
  rewrite app_assoc. split; [done|]. by apply Forall_app.
Qed.

Lemma emits_lift_bind P {A B} (r : res A) (f : A → M W B) :
  (∀ a, r = Ok a → emits P (f a)) → emits P (lift r ≫= f).
Proof.
  intros Hf w. unfold mbind, M_bind, lift. destruct r as [a|e|s]; [by apply Hf|by exists []; rewrite app_nil_r..].
Qed.

Lemma emits_try P {A} (m : M W A) : emits P m → emits P (try m).
Proof.
  intros Hm w. destruct (Hm w) as (es & Hes & HP). unfold try.
  destruct (m w) as [[a|e|s] w']; simpl in *; eauto.
Qed.

Lemma emits_wrap P {A} msg (m : M W A) : emits P m → emits P (wrap_errM msg m).
Proof.
  intros Hm w. destruct (Hm w) as (es & Hes & HP). unfold wrap_errM.
  destruct (m w) as [r w']; simpl in *; eauto.
Qed.

Lemma emits_foldlM P {A B} (f : A → B → M W A) a l :
  (∀ a b, b ∈ l → emits P (f a b)) → emits P (foldlM f a l).
Proof.
  revert a. induction l as [|b l IH]; intros a Hf; simpl; [apply emits_ret|].
  apply emits_bind; [apply Hf; set_solver|]. intros a'. apply IH. set_solver.
Qed.

Lemma emits_collect P {A} (f : A → M W unit) l :
  (∀ a, a ∈ l → emits P (f a)) → emits P (collect f l).
Proof.
  intros Hf. apply emits_foldlM. intros errs a Ha.
  apply emits_bind; [by apply emits_try, Hf|]. intros r. apply emits_ret.
Qed.

(** [m] appends exactly [es] to the log, and does not panic. *)
Definition sends {A} (m : M W A) (es : list event) : Prop :=
  ∀ w, log_of (m w).2 = log_of w ++ es ∧ ∀ s, (m w).1 ≠ Panic s.

Lemma sends_nil {A} (m : M W A) :
  (∀ w, log_of (m w).2 = log_of w) → (∀ w s, (m w).1 ≠ Panic s) → sends m [].
Proof. intros H1 H2 w. by rewrite H1, app_nil_r. Qed.

Lemma sends_bind {A B} (m : M W A) (f : A → M W B) es :
  sends m es → (∀ a, sends (f a) []) → sends (m ≫= f) es.
Proof.
  intros Hm Hf w. destruct (Hm w) as [Hlog Hp]. unfold mbind, M_bind.
  destruct (m w) as [[a|e|s] w1]; simpl in *; [|by eauto|by destruct (Hp s)].
  destruct (Hf a w1) as [Hlog' Hp']. by rewrite Hlog', Hlog, app_nil_r.
Qed.

Lemma sends_try_bind {A B} (m : M W A) (f : A + error → M W B) es :
  sends m es → (∀ r, sends (f r) []) → sends (try m ≫= f) es.
Proof.
  intros Hm Hf. apply sends_bind; [|done]. intros w. destruct (Hm w) as [Hlog Hp]. unfold try.
  destruct (m w) as [[a|e|s] w1]; simpl in *; [done|done|by destruct (Hp s)].
Qed.

(** A computation that never fails, followed by another. *)
Lemma sends_seq {A B} (m : M W A) (f : A → M W B) es es' :
  sends m es → (∀ w, is_Ok (m w).1 = true) → (∀ a, sends (f a) es') → sends (m ≫= f) (es ++ es').
Proof.
  intros Hm Hok Hf w. destruct (Hm w) as [Hlog _]. specialize (Hok w). unfold mbind, M_bind.
  destruct (m w) as [[a|e|s] w1]; simpl in *; [|done..].
  destruct (Hf a w1) as [Hlog' Hp']. by rewrite Hlog', Hlog, app_assoc.
Qed.

Lemma collect_sends {A} (f : A → M W unit) (g : A → list event) l :
  (∀ a, sends (f a) (g a)) → sends (collect f l) (concat (g <$> l)).
Proof.
  intros Hf. unfold collect.
  match goal with |- sends (foldlM ?step [] l) _ =>
    enough (∀ errs, sends (foldlM step errs l) (concat (g <$> l))) by done end.
  induction l as [|a l IH]; intros errs; simpl; [by apply sends_nil|].
  apply sends_seq; [|intros w|intros errs'; apply IH].
  - apply sends_try_bind; [apply Hf|]. intros r. by apply sends_nil.
  - destruct (Hf a w) as [_ Hp]. unfold try, mbind, M_bind.
    destruct (f a w) as [[u|e|s] w1]; [done|done|by destruct (Hp s)].
Qed.
End emits.

(** ** What a computation attempts *)
Section attempts.
Context {W : Type} {HL : HasLog W}.

(** [m] sends the events of [es] one after the other until one fails: all of
    them if it succeeds, and then with a result as [Q] says. *)
Definition attempts {A} (m : M W A) (es : list event) (Q : A → Prop) : Prop :=
  ∀ w, ∃ es', log_of (m w).2 = log_of w ++ es' ∧ es' `prefix_of` es ∧
    ∀ a, (m w).1 = Ok a → es' = es ∧ Q a.

Lemma attempts_ret {A} (a : A) (Q : A → Prop) : Q a → attempts (mret a) [] Q.
Proof. intros HQ w. exists []. rewrite app_nil_r. split_and!; [done..|]. by intros ? [= <-]. Qed.

Lemma attempts_weaken {A} (m : M W A) es (Q R : A → Prop) :
  attempts m es Q → (∀ a, Q a → R a) → attempts m es R.
Proof.
  intros Hm HQR w. destruct (Hm w) as (es' & Hlog & Hpre & Hok). exists es'. split_and!; [done..|].
  intros a Ha. destruct (Hok a Ha) as [-> ?]. auto.
Qed.

Lemma attempts_bind {A B} (m : M W A) (f : A → M W B) es es' Q R :
  attempts m es Q → (∀ a, Q a → attempts (f a) es' R) → attempts (m ≫= f) (es ++ es') R.
Proof.
  intros Hm Hf w. destruct (Hm w) as (e1 & Hlog & Hpre & Hok). unfold mbind, M_bind.
  destruct (m w) as [[a|e|s] w1]; simpl in *.
  - destruct (Hok a eq_refl) as [-> HQ]. destruct (Hf a HQ w1) as (e2 & Hlog' & Hpre' & Hok').
    exists (es ++ e2). rewrite Hlog', Hlog, app_assoc. split_and!; [done|by apply prefix_app|].
    intros b Hb. destruct (Hok' b Hb) as [-> ?]. done.
  - exists e1. split_and!; [done|by apply prefix_app_r|done].
  - exists e1. split_and!; [done|by apply prefix_app_r|done].
Qed.

Lemma attempts_wrap {A} msg (m : M W A) es Q : attempts m es Q → attempts (wrap_errM msg m) es Q.
Proof.
  intros Hm w. destruct (Hm w) as (e1 & Hlog & Hpre & Hok). unfold wrap_errM.
  destruct (m w) as [[a|e|s] w1]; simpl in *; exists e1; split_and!; [done|done|done| | | | | |]; done.
Qed.

Lemma attempts_foldlM {A B} (step : A → B → M W A) (f : A → B → A) (g : B → list event) a l :
  (∀ a b, attempts (step a b) (g b) (λ a', a' = f a b)) →
  attempts (foldlM step a l) (l ≫= g) (λ a', a' = foldl f a l).
Proof.
  intros Hstep. revert a. induction l as [|b l IH]; intros a; simpl; [by apply attempts_ret|].
  eapply attempts_bind; [apply Hstep|]. intros a' ->. apply IH.
Qed.
End attempts.

(** [m] sends no request that may change the server. *)
Definition readonly {W} `{HasLog W} {A} (m : M W A) : Prop := emits (λ e, is_write e = false) m.

Section requests.
Context {CL : Cluster}.
Implicit Types P : event → Prop.

Lemma emits_check_ctx P : emits P check_ctx.
Proof. apply emits_pure. intros w. unfold check_ctx. by case_match. Qed.

Lemma emits_dyn P req : P (EvDyn req) → emits P (dyn req).
Proof.
  intros HP w. unfold dyn. destruct (dyn_call _ _) as [r s]. simpl.
  exists [EvDyn req]. split; [done|]. by constructor.
Qed.

Lemma emits_rev P req : P (EvRev req) → emits P (rev req).
Proof.
  intros HP w. unfold rev. destruct (rev_call _ _) as [r s]. simpl.
  exists [EvRev req]. split; [done|]. by constructor.
Qed.

Lemma attempts_rev req : attempts (rev req) [EvRev req] (λ _, True).
Proof.
  intros w. unfold rev. destruct (rev_call _ _) as [r s]. simpl.
  exists [EvRev req]. split_and!; [done|done|]. done.
Qed.

Lemma emits_record_event P e : P e → emits P (record_event e).
Proof. intros HP w. exists [e]. split; [done|]. by constructor. Qed.

Lemma emits_enqueue P op : P (EvQueue op) → emits P (enqueue op).
Proof. apply emits_record_event. Qed.

Lemma sends_dyn req : sends (dyn req) [EvDyn req].
Proof.
  intros w. unfold dyn. destruct (dyn_call _ _) as [r srv]. simpl. split; [done|]. by destruct r.
Qed.
End requests.


#[export] Hint Resolve emits_ret emits_lift emits_throw emits_get emits_check_ctx emits_try
  emits_wrap emits_bind emits_dyn emits_rev : go.

(** Descend through the monad's combinators, splitting the code's tests. *)
Ltac emits_step :=
  match goal with
  | |- emits _ (mbind _ _) => apply emits_bind; [|intros ?]
  | |- emits _ (mret _) => apply emits_ret
  | |- emits _ (_ <$> _) => unfold fmap, M_fmap
  | |- emits _ (lift _) => apply emits_lift
  | |- emits _ (throw _) => apply emits_throw
  | |- emits _ get_state => apply emits_get
  | |- emits _ check_ctx => apply emits_check_ctx
  | |- emits _ (try _) => apply emits_try
  | |- emits _ (wrap_errM _ _) => apply emits_wrap
  | |- emits _ (dyn _) => apply emits_dyn
  | |- emits _ (rev _) => apply emits_rev
  | |- emits _ (record_event _) => apply emits_record_event
  | |- emits _ (enqueue _) => apply emits_enqueue
  | |- emits _ (collect _ _) => apply emits_collect; intros ??
  | |- emits _ (foldlM _ _ _) => apply emits_foldlM; intros ???
  | |- emits _ (let '(_, _) := ?p in _) => destruct p
  | |- emits _ ((match ?p with (_, _) => _ end) _) => destruct p
  | |- emits _ (match ?x with _ => _ end) => destruct x eqn:?
  end.
Ltac emits_auto := repeat (emits_step; cbn beta iota zeta).
