(* ===== verification/ClientSet.v ===== *)
(** * The dynamic client: [pkg/dynamic/clientset/clientset.go]

    A client for one resource and namespace, and the read-modify-write loop the
    controllers use for unconditional writes.  [RetryOnConflict] is client-go's;
    its documented behaviour is the law of [Retry]. *)
From S2P Require Import Prelude Value K8s K8sInst Types World Discovery.
From stdpp Require Import options.

(** Run [fn] again while it reports a conflict, at most [n] more times. *)
Fixpoint retries {API : Apimachinery} {W A} (n : nat) (fn : M W A) : M W A := λ w,
  match fn w with
  | (Err e, w') =>
    match n with
    | 0 => (Err e, w')
    | S n => if IsConflict e then retries n fn w' else (Err e, w')
    end
  | r => r
  end.

(** "RetryOnConflict is used to make an update to a resource when you have to
    worry about conflicts caused by other code making unrelated updates": [fn]
    runs at least once, and again while it returns a conflict. *)
Class Retry `{!Apimachinery} := {
  RetryOnConflict : ∀ {W A}, M W A → M W A;
  RetryOnConflict_retries {W A} (fn : M W A) w :
    ∃ n, RetryOnConflict fn w = retries n fn w;
}.

(** A client for a resource, scoped to a namespace ([""]: not scoped). *)
Record ResourceClient := {
  rc_APIResource : APIResource;
  rc_GVR : GroupVersionResource;
  rc_namespace : string;
}.

Record Clientset := { cs_resources : ResourceMap }.

Section clientset.
Context {API : Apimachinery} {CL : Cluster} {RY : Retry}.

Definition Clientset_resource (apiResource : APIResource) : res ResourceClient :=
  gvr ← APIResource_GroupVersionResource apiResource;
  mret {| rc_APIResource := apiResource; rc_GVR := gvr; rc_namespace := "" |}.

Definition Clientset_Resource (cs : Clientset) (apiVersion resource : string) : res ResourceClient :=
  match ResourceMap_Get (cs_resources cs) apiVersion resource with
  | None => Err (ErrorString ("discovery: can't find resource " +:+ resource +:+
                              " in apiVersion " +:+ apiVersion))
  | Some apiResource => Clientset_resource apiResource
  end.

Definition Clientset_Kind (cs : Clientset) (apiVersion kind : string) : res ResourceClient :=
  match ResourceMap_GetKind (cs_resources cs) apiVersion kind with
  | None => Err (ErrorString ("discovery: can't find kind " +:+ kind +:+
                              " in apiVersion " +:+ apiVersion))
  | Some apiResource => Clientset_resource apiResource
  end.

Definition ResourceClient_Namespace (rc : ResourceClient) (namespace : string) : ResourceClient :=
  if negb (ar_Namespaced (rc_APIResource rc)) then rc
  else {| rc_APIResource := rc_APIResource rc;
          rc_GVR := rc_GVR rc;
          rc_namespace := namespace |}.

(** The methods of the embedded [dynamic.ResourceInterface]. *)
Definition rc_Get (rc : ResourceClient) (name : string) : M World object :=
  dyn (DynGet (rc_GVR rc) (rc_namespace rc) name).
Definition rc_Create (rc : ResourceClient) (obj : object) : M World object :=
  dyn (DynCreate (rc_GVR rc) (rc_namespace rc) obj).
Definition rc_Update (rc : ResourceClient) (obj : object) : M World object :=
  dyn (DynUpdate (rc_GVR rc) (rc_namespace rc) obj).
Definition rc_UpdateStatus (rc : ResourceClient) (obj : object) : M World object :=
  dyn (DynUpdateStatus (rc_GVR rc) (rc_namespace rc) obj).
Definition rc_Delete (rc : ResourceClient) (name : string) (opts : DeleteOptions) : M World object :=
  dyn (DynDelete (rc_GVR rc) (rc_namespace rc) name opts).
Definition rc_Patch (rc : ResourceClient) (name : string) (pt : PatchType) (data : string)
    (opts : PatchOptions) : M World object :=
  dyn (DynPatch (rc_GVR rc) (rc_namespace rc) name pt data opts).

(** One round of the loop: [update] returns [None] for false, the object to
    write otherwise. *)
Definition update_once (rc : ResourceClient) (orig : object) (update : object → option object)
    (write : object → M World object) : M World object :=
  check_ctx ;;
  current ← rc_Get rc (GetName orig);
  if GetUID current != GetUID orig
  then throw (NewNotFound (gvr_Resource (rc_GVR rc)) (GetName orig))
  else match update current with
       | None => mret current
       | Some updated => write updated
       end.

Definition AtomicUpdate (rc : ResourceClient) (orig : object) (update : object → option object)
    : M World object :=
  RetryOnConflict (update_once rc orig update (rc_Update rc)).

Definition AtomicStatusUpdate (rc : ResourceClient) (orig : object) (update : object → option object)
    : M World object :=
  RetryOnConflict (update_once rc orig update (λ current,
    if HasSubresource (rc_APIResource rc) "status" then rc_UpdateStatus rc current
    else rc_Update rc current)).

Definition ResourceClient_AddFinalizer (rc : ResourceClient) (orig : object) (name : string)
    : M World object :=
  AtomicUpdate rc orig (λ obj,
    if ContainsFinalizer obj name then None else Some (AddFinalizer obj name)).

Definition ResourceClient_RemoveFinalizer (rc : ResourceClient) (orig : object) (name : string)
    : M World object :=
  AtomicUpdate rc orig (λ obj,
    if negb (ContainsFinalizer obj name) then None else Some (RemoveFinalizer obj name)).
End clientset.

(** ** The read-modify-write loop *)
Section properties.
Context {API : Apimachinery} {CL : Cluster} {RY : Retry}.

Lemma retries_emits P {A} n (fn : M World A) : emits P fn → emits P (retries n fn).
Proof.
  intros Hfn. induction n as [|n IH]; intros w; simpl; destruct (Hfn w) as (es & Hes & HP);
    destruct (fn w) as [[a|e|s] w']; simpl in *; try (by exists es).
  destruct (IsConflict e); [|by exists es]. destruct (IH w') as (es' & Hes' & HP').
  exists (es ++ es'). rewrite Hes', Hes, app_assoc. split; [done|]. by apply Forall_app.
Qed.

Lemma RetryOnConflict_emits P {A} (fn : M World A) : emits P fn → emits P (RetryOnConflict fn).
Proof.
  intros Hfn w. destruct (RetryOnConflict_retries fn w) as [n ->]. by apply retries_emits.
Qed.

(** The result of a retried computation is the result of one of its runs. *)
Lemma retries_result {A} n (fn : M World A) w r w' :
  retries n fn w = (r, w') → ∃ w0, fn w0 = (r, w').
Proof.
  revert w. induction n as [|n IH]; intros w; simpl; destruct (fn w) as [[a|e|s] w1] eqn:E;
    try (intros [= <- <-]; eauto). case_match; [apply IH|intros [= <- <-]; eauto].
Qed.

Lemma RetryOnConflict_result {A} (fn : M World A) w r w' :
  RetryOnConflict fn w = (r, w') → ∃ w0, fn w0 = (r, w').
Proof. destruct (RetryOnConflict_retries fn w) as [n ->]. apply retries_result. Qed.

(** Requests of a loop on [orig]: reads of its name, and writes of what
    [update] makes of an object with [orig]'s UID. *)
Definition atomic_request (rc : ResourceClient) (orig : object) (update : object → option object)
    (e : event) : Prop :=
  e = EvDyn (DynGet (rc_GVR rc) (rc_namespace rc) (GetName orig)) ∨
  ∃ current updated, GetUID current = GetUID orig ∧ update current = Some updated ∧
    (e = EvDyn (DynUpdate (rc_GVR rc) (rc_namespace rc) updated) ∨
     e = EvDyn (DynUpdateStatus (rc_GVR rc) (rc_namespace rc) updated)).

Lemma update_once_emits rc orig update write :
  (∀ current updated, GetUID current = GetUID orig → update current = Some updated →
     emits (atomic_request rc orig update) (write updated)) →
  emits (atomic_request rc orig update) (update_once rc orig update write).
Proof.
  intros Hwrite. unfold update_once, rc_Get. emits_auto; [by left|].
  go_bools. by eapply Hwrite.
Qed.

Lemma AtomicUpdate_emits rc orig update :
  emits (λ e, e = EvDyn (DynGet (rc_GVR rc) (rc_namespace rc) (GetName orig)) ∨
           ∃ current updated, GetUID current = GetUID orig ∧ update current = Some updated ∧
             e = EvDyn (DynUpdate (rc_GVR rc) (rc_namespace rc) updated))
    (AtomicUpdate rc orig update).
Proof.
  apply RetryOnConflict_emits. unfold update_once, rc_Get, rc_Update. emits_auto; [by left|].
  right. go_bools. by eauto.
Qed.


Lemma AtomicStatusUpdate_emits rc orig update :
  emits (atomic_request rc orig update) (AtomicStatusUpdate rc orig update).
Proof.
  apply RetryOnConflict_emits, update_once_emits. intros current updated Huid Hupd.
  unfold rc_UpdateStatus, rc_Update. emits_auto; right; exists current, updated; auto.
Qed.

(** A status update goes through the status subresource exactly when the
    resource has one. *)
Theorem AtomicStatusUpdate_subresource rc orig update :
  emits (λ e,
    match e with
    | EvDyn (DynUpdate _ _ _) => HasSubresource (rc_APIResource rc) "status" = false
    | EvDyn (DynUpdateStatus _ _ _) => HasSubresource (rc_APIResource rc) "status" = true
    | EvDyn (DynGet _ _ _) => True
    | _ => False
    end) (AtomicStatusUpdate rc orig update).
Proof.
  apply RetryOnConflict_emits. unfold update_once, rc_Get, rc_UpdateStatus, rc_Update.
  emits_auto; done.
Qed.

(** A round that succeeds returns the live object unchanged, or the server's
    answer to the write. *)
Lemma update_once_Ok rc orig update write w r w' :
  update_once rc orig update write w = (Ok r, w') →
  ∃ current w1, GetUID current = GetUID orig ∧
    match update current with
    | None => r = current ∧ w' = w1
    | Some updated => write updated w1 = (Ok r, w')
    end.
Proof.
  unfold update_once, check_ctx, rc_Get, dyn, mbind, M_bind. simpl.
  destruct (ctx_err _); [done|]. destruct (dyn_call _ _) as [[current|e] srv]; simpl; [|done].
  case_bool_decide as Huid; simpl; [|done]. intros H. eexists current, _. split; [done|].
  destruct (update current); [exact H|]. unfold mret, M_ret in H. by simplify_eq.
Qed.

Lemma AtomicUpdate_Ok rc orig update w r w' :
  AtomicUpdate rc orig update w = (Ok r, w') →
  ∃ current w1, GetUID current = GetUID orig ∧
    match update current with
    | None => r = current ∧ w' = w1
    | Some updated => rc_Update rc updated w1 = (Ok r, w')
    end.
Proof.
  intros H. apply RetryOnConflict_result in H as [w0 H]. by eapply update_once_Ok.
Qed.

Lemma update_once_replaced rc orig update write w current srv :
  ctx_err (w_srv w) = None →
  dyn_call (DynGet (rc_GVR rc) (rc_namespace rc) (GetName orig)) (w_srv w) = (inl current, srv) →
  GetUID current ≠ GetUID orig →
  (update_once rc orig update write w).1 = Err (NewNotFound (gvr_Resource (rc_GVR rc)) (GetName orig)).
Proof.
  intros Hctx Hget Huid. unfold update_once, check_ctx, rc_Get, dyn, mbind, M_bind. simpl.
  rewrite Hctx. simpl. rewrite Hget. simpl. by rewrite bool_decide_false.
Qed.
End properties.
