(* ===== verification/FakeCluster.v ===== *)
(** * A concrete cluster

    An in-memory API server, for the theorems' concrete instances: it stores
    objects by resource, namespace and name, checks the UID of updates and of
    delete preconditions, and leaves a patched object as it is. *)
From S2P Require Import Prelude Value K8s K8sInst Types World Discovery ClientSet.
From stdpp Require Import options.

#[local] Existing Instance treeAPI.

Record FakeServer := {
  fs_objects : gmap (GroupVersionResource * string * string) object;
  fs_revisions : gmap (string * string) ControllerRevision;
}.

Definition fake_NotFound (name : string) : error := StatusError "NotFound" name.
Definition fake_Conflict (name : string) : error := StatusError "Conflict" name.
Definition fake_AlreadyExists (name : string) : error := StatusError "AlreadyExists" name.

Definition fake_put (gvr : GroupVersionResource) (ns : string) (obj : object) (s : FakeServer) : FakeServer :=
  {| fs_objects := <[(gvr, ns, GetName obj) := obj]> (fs_objects s); fs_revisions := fs_revisions s |}.
Definition fake_remove (gvr : GroupVersionResource) (ns name : string) (s : FakeServer) : FakeServer :=
  {| fs_objects := delete (gvr, ns, name) (fs_objects s); fs_revisions := fs_revisions s |}.

Definition fake_update (gvr : GroupVersionResource) (ns : string) (obj : object) (s : FakeServer)
    : (object + error) * FakeServer :=
  match fs_objects s !! (gvr, ns, GetName obj) with
  | None => (inr (fake_NotFound (GetName obj)), s)
  | Some old =>
    if GetUID old == GetUID obj then (inl obj, fake_put gvr ns obj s)
    else (inr (fake_Conflict (GetName obj)), s)
  end.

Definition fake_dyn_call (req : dyn_req) (s : FakeServer) : (object + error) * FakeServer :=
  match req with
  | DynGet gvr ns name =>
    match fs_objects s !! (gvr, ns, name) with
    | Some o => (inl o, s)
    | None => (inr (fake_NotFound name), s)
    end
  | DynCreate gvr ns obj =>
    match fs_objects s !! (gvr, ns, GetName obj) with
    | Some _ => (inr (fake_AlreadyExists (GetName obj)), s)
    | None => (inl obj, fake_put gvr ns obj s)
    end
  | DynUpdate gvr ns obj => fake_update gvr ns obj s
  | DynUpdateStatus gvr ns obj => fake_update gvr ns obj s
  | DynDelete gvr ns name opts =>
    match fs_objects s !! (gvr, ns, name) with
    | None => (inr (fake_NotFound name), s)
    | Some o =>
      if match do_UID opts with Some uid => GetUID o == uid | None => true end
      then (inl o, fake_remove gvr ns name s) else (inr (fake_Conflict name), s)
    end
  | DynPatch gvr ns name _ _ _ =>
    match fs_objects s !! (gvr, ns, name) with
    | Some o => (inl o, s)
    | None => (inr (fake_NotFound name), s)
    end
  end.

Definition fake_rev_call (req : rev_req) (s : FakeServer) : (ControllerRevision + error) * FakeServer :=
  let put ns r := {| fs_objects := fs_objects s;
                     fs_revisions := <[(ns, rev_Name r) := r]> (fs_revisions s) |} in
  match req with
  | RevGet ns name =>
    match fs_revisions s !! (ns, name) with
    | Some r => (inl r, s) | None => (inr (fake_NotFound name), s) end
  | RevCreate ns r =>
    match fs_revisions s !! (ns, rev_Name r) with
    | Some _ => (inr (fake_AlreadyExists (rev_Name r)), s) | None => (inl r, put ns r) end
  | RevUpdate ns r =>
    match fs_revisions s !! (ns, rev_Name r) with
    | Some _ => (inl r, put ns r) | None => (inr (fake_NotFound (rev_Name r)), s) end
  | RevDelete ns name _ =>
    match fs_revisions s !! (ns, name) with
    | Some r => (inl r, {| fs_objects := fs_objects s; fs_revisions := delete (ns, name) (fs_revisions s) |})
    | None => (inr (fake_NotFound name), s)
    end
  end.

Definition fakeCluster : Cluster := {|
  Srv := FakeServer;
  dyn_call := fake_dyn_call;
  rev_call := fake_rev_call;
  ctx_err := λ _, None;
|}.

Program Definition fakeRetry : Retry := {| RetryOnConflict := λ W A fn, retries 4 fn |}.
Next Obligation. intros W A fn w. by exists 4%nat. Qed.

(** ** Sample data *)
Definition configmaps : APIResource := {|
  ar_Name := "configmaps"; ar_Namespaced := true; ar_Group := ""; ar_Version := "v1";
  ar_Kind := "ConfigMap"; ar_APIVersion := "v1"; ar_subresourceMap := ∅ |}.
Definition configmaps_gvr : GroupVersionResource :=
  {| gvr_Group := ""; gvr_Version := "v1"; gvr_Resource := "configmaps" |}.
Definition configmaps_client : ResourceClient := {|
  rc_APIResource := configmaps; rc_GVR := configmaps_gvr; rc_namespace := "" |}.

(** An object of namespace ["ns"] with a UID and labels. *)
Definition sample (kind name uid : string) (labels : gmap string string) : object :=
  {[ "apiVersion" := VString "v1"; "kind" := VString kind;
     "metadata" := VMap {[ "name" := VString name; "namespace" := VString "ns"; "uid" := VString uid;
                           "labels" := VMap (VString <$> labels) ]} ]}.

Definition sample_parent : object := sample "Parent" "p" "parent-uid" ∅.
Definition sample_child (name uid : string) : object := sample "ConfigMap" name uid {[ "app" := "demo" ]}.

Definition fake_server (l : list object) : FakeServer :=
  {| fs_objects := list_to_map ((λ o, ((configmaps_gvr, "ns", GetName o), o)) <$> l); fs_revisions := ∅ |}.

Definition fake_world (l : list object) : @World fakeCluster :=
  @Build_World fakeCluster (fake_server l) [] ∅.
