(* ===== verification/Finalizer.v ===== *)
(** * Finalizers: [pkg/controller/common/finalizer/finalizer.go] *)
From S2P Require Import Prelude Value K8s K8sInst Types World Discovery ClientSet FakeCluster.
From stdpp Require Import options.

Record FinalizerManager := { fm_Name : string; fm_Enabled : bool }.

Definition FinalizerDeleteDependents : string := "foregroundDeletion".
Definition FinalizerOrphanDependents : string := "orphan".

Section finalizer.
Context {API : Apimachinery} {CL : Cluster} {RY : Retry}.

Definition FinalizerManager_SyncObject (m : FinalizerManager) (client : ResourceClient) (obj : object)
    : M World object :=
  if ContainsFinalizer obj (fm_Name m) == fm_Enabled m then mret obj
  else if fm_Enabled m then
    if being_deleted obj then mret obj
    else ResourceClient_AddFinalizer (ResourceClient_Namespace client (GetNamespace obj)) obj (fm_Name m)
  else ResourceClient_RemoveFinalizer (ResourceClient_Namespace client (GetNamespace obj)) obj (fm_Name m).

Definition hasGCFinalizer (obj : object) : bool :=
  existsb (λ item, (item == FinalizerDeleteDependents) || (item == FinalizerOrphanDependents))
    (GetFinalizers obj).

Definition FinalizerManager_ShouldFinalize (m : FinalizerManager) (parent : object) : bool :=
  if hasGCFinalizer parent then false
  else if negb (ContainsFinalizer parent (fm_Name m)) then false
  else fm_Enabled m.
End finalizer.

Section requests.
Context {API : Apimachinery} {CL : Cluster} {RY : Retry}.

(** Reads and updates of objects of the client's resource. *)
Definition resource_request (client : ResourceClient) (e : event) : Prop :=
  match e with
  | EvDyn (DynGet gvr _ _) | EvDyn (DynUpdate gvr _ _) | EvDyn (DynUpdateStatus gvr _ _) =>
    gvr = rc_GVR client
  | _ => False
  end.

Lemma ResourceClient_Namespace_GVR client ns : rc_GVR (ResourceClient_Namespace client ns) = rc_GVR client.
Proof. unfold ResourceClient_Namespace. by destruct (negb _). Qed.

Lemma AtomicUpdate_resource client ns orig update :
  emits (resource_request client) (AtomicUpdate (ResourceClient_Namespace client ns) orig update).
Proof.
  eapply emits_weaken; [apply AtomicUpdate_emits|].
  intros e [->|(c & u & _ & _ & ->)]; apply ResourceClient_Namespace_GVR.
Qed.

Lemma AtomicStatusUpdate_resource client ns orig update :
  emits (resource_request client) (AtomicStatusUpdate (ResourceClient_Namespace client ns) orig update).
Proof.
  eapply emits_weaken; [apply AtomicStatusUpdate_emits|].
  intros e [->|(c & u & _ & _ & [->| ->])]; apply ResourceClient_Namespace_GVR.
Qed.

Lemma SyncObject_resource m client obj :
  emits (resource_request client) (FinalizerManager_SyncObject m client obj).
Proof.
  unfold FinalizerManager_SyncObject, ResourceClient_AddFinalizer, ResourceClient_RemoveFinalizer.
  emits_auto; apply AtomicUpdate_resource.
Qed.
End requests.

Section properties.
Context {API : Apimachinery} {CL : Cluster} {RY : Retry} {FL : FinalizerLaws}.


(** The controller finalizes exactly the parents that still carry its
    finalizer and that the garbage collector is not already processing. *)
Theorem ShouldFinalize_spec m parent :
  FinalizerManager_ShouldFinalize m parent = true ↔
    fm_Enabled m = true ∧ fm_Name m ∈ GetFinalizers parent ∧
    FinalizerDeleteDependents ∉ GetFinalizers parent ∧ FinalizerOrphanDependents ∉ GetFinalizers parent.
Proof using All.
  unfold FinalizerManager_ShouldFinalize, hasGCFinalizer. rewrite <-ContainsFinalizer_spec.
  assert (Hgc : existsb (λ item, (item == FinalizerDeleteDependents) || (item == FinalizerOrphanDependents))
      (GetFinalizers parent) = true ↔
    FinalizerDeleteDependents ∈ GetFinalizers parent ∨ FinalizerOrphanDependents ∈ GetFinalizers parent).
  { rewrite existsb_exists. setoid_rewrite <-list_elem_of_In. setoid_rewrite orb_true_iff.
    setoid_rewrite bool_decide_eq_true. naive_solver. }
  destruct (existsb _ _).
  - split; [done|]. intros (_ & _ & H1 & H2). by destruct (proj1 Hgc eq_refl).
  - assert (Hn : ¬ (FinalizerDeleteDependents ∈ GetFinalizers parent ∨
                    FinalizerOrphanDependents ∈ GetFinalizers parent)) by (rewrite <-Hgc; done).
    destruct (ContainsFinalizer _ _); simpl; naive_solver.
Qed.
End properties.

(** ** Concrete instances *)
Section examples.
#[local] Existing Instance treeAPI.
#[local] Existing Instance fakeCluster.
#[local] Existing Instance fakeRetry.

Definition sample_manager : FinalizerManager := {| fm_Name := "demo.io/finalizer"; fm_Enabled := true |}.


Lemma ShouldFinalize_spec_witness :
  fm_Enabled sample_manager = true ∧
  fm_Name sample_manager ∈ GetFinalizers (AddFinalizer sample_parent "demo.io/finalizer").
Proof.
  split; [done|].
  apply (ShouldFinalize_spec sample_manager (AddFinalizer sample_parent "demo.io/finalizer")).
  by vm_compute.
Defined.
End examples.
