(* ===== verification/ControllerRef.v ===== *)
(** * Ownership: [pkg/third_party/kubernetes/controller_ref_manager.go] and
    [pkg/dynamic/controllerref]

    A controller claims the objects its selector matches: it adopts orphans,
    releases objects that no longer match, and leaves other controllers'
    objects alone.  The claims of one manager share the memory of its
    [CanAdopt] check, which runs at most once. *)
From S2P Require Import Prelude Value K8s K8sInst Types World Discovery ClientSet FakeCluster.
From stdpp Require Import options.

(** ** Owner references *)
Section references.
(** The loop of [addOwnerReference]: the references written out, and whether
    one had the UID of [add]. *)
Fixpoint add_loop (inp : list OwnerReference) (add : OwnerReference) : list OwnerReference * bool :=
  match inp with
  | [] => ([], false)
  | ref :: inp =>
    let '(out, found) := add_loop inp add in
    if or_UID ref == or_UID add then (add :: out, true) else (ref :: out, found)
  end.

Definition addOwnerReference (inp : list OwnerReference) (add : OwnerReference) : list OwnerReference :=
  let '(out, found) := add_loop inp add in
  if negb found then out ++ [add] else out.

Fixpoint removeOwnerReference (inp : list OwnerReference) (uid : string) : list OwnerReference :=
  match inp with
  | [] => []
  | ref :: inp =>
    if or_UID ref != uid then ref :: removeOwnerReference inp uid else removeOwnerReference inp uid
  end.
End references.

(** [metav1.Object], as far as claiming looks at it. *)
Class MetaObject (T : Type) := {
  mo_OwnerReferences : T → list OwnerReference;
  mo_DeletionTimestamp : T → option string;
  mo_Labels : T → gmap string string;
}.
#[global] Instance object_MetaObject {API : Apimachinery} : MetaObject object := {|
  mo_OwnerReferences := GetOwnerReferences;
  mo_DeletionTimestamp := GetDeletionTimestamp;
  mo_Labels := labels_of;
|}.
#[global] Instance revision_MetaObject : MetaObject ControllerRevision := {|
  mo_OwnerReferences := rev_OwnerReferences;
  mo_DeletionTimestamp := rev_DeletionTimestamp;
  mo_Labels := rev_Labels;
|}.

Section manager.
Context {API : Apimachinery} {CL : Cluster} {RY : Retry}.

Record BaseControllerRefManager := {
  crm_Controller : object;
  crm_Selector : Selector;
  crm_CanAdoptFunc : option (M World unit);
}.

(** The world, and what [canAdoptOnce] remembers. *)
Definition Claim : Type := World * option (res unit).

Definition liftC {A} (m : M World A) : M Claim A := λ '(w, once),
  let '(r, w') := m w in (r, (w', once)).

Definition CanAdopt (m : BaseControllerRefManager) : M Claim unit := λ '(w, once),
  match once with
  | Some r => (r, (w, Some r))
  | None =>
    let '(r, w') := match crm_CanAdoptFunc m with Some f => f w | None => (Ok (), w) end in
    (r, (w', Some r))
  end.

Definition ClaimObject {T} `{!MetaObject T} (m : BaseControllerRefManager) (obj : T)
    (matches : T → bool) (adopt release : T → M Claim unit) : M Claim bool :=
  match GetControllerOf (mo_OwnerReferences obj) with
  | Some controllerRef =>
    if or_UID controllerRef != GetUID (crm_Controller m) then mret false
    else if matches obj then mret true
    else if being_deleted (crm_Controller m) then mret false
    else
      r ← try (release obj);
      match r with
      | inr err => if IsNotFound err then mret false else throw err
      | inl _ => mret false
      end
  | None =>
    if being_deleted (crm_Controller m) || negb (matches obj) then mret false
    else if bool_decide (is_Some (mo_DeletionTimestamp obj)) then mret false
    else
      r ← try (adopt obj);
      match r with
      | inr err => if IsNotFound err then mret false else throw err
      | inl _ => mret true
      end
  end.

(** [RecheckDeletionTimestamp]: the check a controller passes as [canAdopt]. *)
Definition RecheckDeletionTimestamp (getObject : M World object) : M World unit :=
  obj ← wrap_errM "can't recheck DeletionTimestamp" getObject;
  match GetDeletionTimestamp obj with
  | Some ts => throw (ErrorString (GetNamespace obj +:+ "/" +:+ GetName obj +:+
                                   " has just been deleted at " +:+ ts))
  | None => mret ()
  end.

(** The loop of [ClaimChildren] and [ClaimControllerRevisions]. *)
Definition claim_all {T} `{!MetaObject T} (m : BaseControllerRefManager) (children : list T)
    (adopt release : T → M Claim unit) : M Claim (list T) :=
  let matches obj := Matches (crm_Selector m) (mo_Labels obj) in
  '(claimed, errlist) ← foldlM (λ '(claimed, errlist) child,
    r ← try (ClaimObject m child matches adopt release);
    mret match r with
         | inr err => (claimed, errlist ++ [err])
         | inl true => (claimed ++ [child], errlist)
         | inl false => (claimed, errlist)
         end) ([], []) children;
  lift (NewAggregate errlist) ;;
  mret claimed.

(** A fresh manager's [canAdoptOnce] has not run. *)
Definition run_claim {A} (m : M Claim A) : M World A := λ w,
  let '(r, (w', _)) := m (w, None) in (r, w').

(** *** [UnstructuredManager] *)
Record UnstructuredManager := {
  um_base : BaseControllerRefManager;
  um_parentKind : GroupVersionKind;
  um_childKind : GroupVersionKind;
  um_client : ResourceClient;
}.

Definition atomicUpdate (rc : ResourceClient) (obj : object) (updateFunc : object → option object)
    : M World unit :=
  _ ← AtomicUpdate (ResourceClient_Namespace rc (GetNamespace obj)) obj updateFunc; mret ().

Definition make_controllerRef (m : BaseControllerRefManager) (parentKind : GroupVersionKind)
    : OwnerReference := {|
  or_APIVersion := GroupVersion_String (gvk_GroupVersion parentKind);
  or_Kind := gvk_Kind parentKind;
  or_Name := GetName (crm_Controller m);
  or_UID := GetUID (crm_Controller m);
  or_Controller := Some true;
  or_BlockOwnerDeletion := Some true;
|}.

Definition adoptChild (m : UnstructuredManager) (child : object) : M Claim unit :=
  wrap_errM ("can't adopt " +:+ gvk_Kind (um_childKind m) +:+ " " +:+ GetNamespace child +:+ "/" +:+
             GetName child +:+ " (" +:+ GetUID child +:+ ")") (CanAdopt (um_base m)) ;;
  liftC (atomicUpdate (um_client m) child (λ obj,
    Some (SetOwnerReferences
      (addOwnerReference (GetOwnerReferences obj) (make_controllerRef (um_base m) (um_parentKind m))) obj))).

Definition releaseChild (m : UnstructuredManager) (obj : object) : M Claim unit :=
  r ← try (liftC (atomicUpdate (um_client m) obj (λ obj,
        Some (SetOwnerReferences
          (removeOwnerReference (GetOwnerReferences obj) (GetUID (crm_Controller (um_base m)))) obj))));
  match r with
  | inr err => if IsNotFound err || IsGone err then mret () else throw err
  | inl _ => mret ()
  end.

Definition ClaimChildren (m : UnstructuredManager) (children : list object) : M World (list object) :=
  run_claim (claim_all (um_base m) children (adoptChild m) (releaseChild m)).

(** *** [ControllerRevisionManager] *)
Record ControllerRevisionManager := {
  crrm_base : BaseControllerRefManager;
  crrm_parentKind : GroupVersionKind;
  (** the namespace of the typed client *)
  crrm_namespace : string;
}.

(** [controllerRevisions.UpdateWithRetries] of the typed client: a replaced
    object is reported as gone, and nothing is returned when nothing changes. *)
Definition UpdateWithRetries (ns : string) (orig : ControllerRevision)
    (updateFn : ControllerRevision → option ControllerRevision) : M World (option ControllerRevision) :=
  RetryOnConflict (
    current ← rev (RevGet ns (rev_Name orig));
    if rev_UID current != rev_UID orig
    then throw (NewGone ("can't update ControllerRevision " +:+ rev_Namespace orig +:+ "/" +:+
                         rev_Name orig +:+ ": original object is gone: got uid " +:+
                         rev_UID current +:+ ", want " +:+ rev_UID orig))
    else match updateFn current with
         | None => mret None
         | Some updated => Some <$> rev (RevUpdate ns updated)
         end).

Definition adoptControllerRevision (m : ControllerRevisionManager) (obj : ControllerRevision)
    : M Claim unit :=
  wrap_errM ("can't adopt ControllerRevision " +:+ rev_Namespace obj +:+ "/" +:+
             rev_Name obj +:+ " (" +:+ rev_UID obj +:+ ")") (CanAdopt (crrm_base m)) ;;
  liftC (_ ← UpdateWithRetries (crrm_namespace m) obj (λ obj,
    Some (set_rev_OwnerReferences
      (addOwnerReference (rev_OwnerReferences obj)
         (make_controllerRef (crrm_base m) (crrm_parentKind m))) obj)); mret ()).

Definition releaseControllerRevision (m : ControllerRevisionManager) (obj : ControllerRevision)
    : M Claim unit :=
  r ← try (liftC (_ ← UpdateWithRetries (crrm_namespace m) obj (λ obj,
        Some (set_rev_OwnerReferences
          (removeOwnerReference (rev_OwnerReferences obj) (GetUID (crm_Controller (crrm_base m)))) obj));
        mret ()));
  match r with
  | inr err => if IsNotFound err || IsGone err then mret () else throw err
  | inl _ => mret ()
  end.

Definition ClaimControllerRevisions (m : ControllerRevisionManager) (children : list ControllerRevision)
    : M World (list ControllerRevision) :=
  run_claim (claim_all (crrm_base m) children (adoptControllerRevision m) (releaseControllerRevision m)).
End manager.

(** ** Owner references *)
Section reference_properties.
Implicit Types refs : list OwnerReference.

Lemma add_loop_spec refs add :
  let '(out, found) := add_loop refs add in
  (∀ r, r ∈ out ↔ (r ∈ refs ∧ or_UID r ≠ or_UID add) ∨ (r = add ∧ found = true)) ∧
  found = existsb (λ r, or_UID r == or_UID add) refs ∧
  filter (λ r, or_UID r ≠ or_UID add) out = filter (λ r, or_UID r ≠ or_UID add) refs.
Proof.
  induction refs as [|ref refs IH]; simpl; [set_solver|].
  destruct (add_loop refs add) as [out found]. destruct IH as (IH1 & IH2 & IH3).
  case_bool_decide as Hu; simpl; rewrite !filter_cons, IH3.
  - rewrite !decide_False by tauto. split_and!; [|done..]. intros r.
    rewrite !elem_of_cons, IH1. split; [|naive_solver].
    intros [->|[[??]|[-> ?]]]; [by right|left; by auto|by right].
  - rewrite !decide_True by done. split_and!; [|by rewrite IH2|done]. intros r.
    rewrite !elem_of_cons, IH1. split; [|naive_solver].
    intros [->|[[??]|[-> ?]]]; [left; by auto|left; by auto|by right].
Qed.

Lemma addOwnerReference_facts refs add :
  add ∈ addOwnerReference refs add ∧
  (∀ r, r ∈ addOwnerReference refs add → or_UID r = or_UID add → r = add) ∧
  filter (λ r, or_UID r ≠ or_UID add) (addOwnerReference refs add) =
    filter (λ r, or_UID r ≠ or_UID add) refs.
Proof.
  unfold addOwnerReference. pose proof (add_loop_spec refs add) as H.
  destruct (add_loop refs add) as [out found]. destruct H as (H1 & H2 & H3).
  destruct found; simpl.
  - split_and!; [apply H1; by auto| |done]. intros r Hr Hu. apply H1 in Hr as [[_ ?]|[? _]]; done.
  - split_and!; [set_solver| |].
    + intros r [Hr| ->%list_elem_of_singleton]%elem_of_app Hu; [|done].
      apply H1 in Hr as [[_ ?]|[_ ?]]; done.
    + rewrite filter_app, filter_cons, filter_nil, H3, decide_False by tauto. by rewrite app_nil_r.
Qed.

(** Taking ownership puts the controller's reference in the list exactly
    once per earlier reference with its UID, or at the end, updates it in
    place if it was there, and leaves every other owner's reference as it
    was, in the same order. *)
Theorem addOwnerReference_spec refs add :
  add ∈ addOwnerReference refs add ∧
  (∀ r, r ∈ addOwnerReference refs add → or_UID r = or_UID add → r = add) ∧
  filter (λ r, or_UID r ≠ or_UID add) (addOwnerReference refs add) =
    filter (λ r, or_UID r ≠ or_UID add) refs.
Proof. apply addOwnerReference_facts. Qed.

Lemma addOwnerReference_idemp refs add :
  addOwnerReference (addOwnerReference refs add) add = addOwnerReference refs add.
Proof.
  assert (Hloop : ∀ l, add ∈ l → (∀ r, r ∈ l → or_UID r = or_UID add → r = add) →
    addOwnerReference l add = l).
  { intros l Hin Hl. unfold addOwnerReference.
    assert (Hout : add_loop l add = (l, existsb (λ r, or_UID r == or_UID add) l)).
    { clear Hin. induction l as [|r l IH]; simpl; [done|]. rewrite IH by set_solver.
      case_bool_decide as Hu; simpl; [|done]. f_equal. f_equal. symmetry. apply Hl; [set_solver|done]. }
    rewrite Hout. assert (existsb (λ r, or_UID r == or_UID add) l = true) as ->; [|done].
    apply existsb_exists. exists add. split; [by apply list_elem_of_In|]. by apply bool_decide_true. }
  destruct (addOwnerReference_facts refs add) as (H1 & H2 & _). by apply Hloop.
Qed.

Lemma removeOwnerReference_filter refs uid :
  removeOwnerReference refs uid = filter (λ r, or_UID r ≠ uid) refs.
Proof.
  induction refs as [|r refs IH]; simpl; [done|]. rewrite filter_cons, IH.
  case_bool_decide; simpl; [by rewrite decide_False by tauto|by rewrite decide_True].
Qed.
End reference_properties.

(** ** Claims *)
Section claim_properties.
Context {API : Apimachinery} {CL : Cluster} {RY : Retry}.

#[export] Instance Claim_log : HasLog Claim := λ s, w_log s.1.

Lemma emits_liftC P {A} (m : M World A) : emits P m → emits P (liftC m).
Proof.
  intros Hm [w once]. destruct (Hm w) as (es & Hes & HP). exists es. simpl.
  destruct (m w) as [r w']. simpl in *. done.
Qed.

Lemma emits_run_claim P {A} (m : M Claim A) : emits P m → emits P (run_claim m).
Proof.
  intros Hm w. destruct (Hm (w, None)) as (es & Hes & HP). exists es. unfold run_claim.
  destruct (m (w, None)) as [r [w' once]]. simpl in *. done.
Qed.

Lemma emits_CanAdopt P m :
  (∀ f, crm_CanAdoptFunc m = Some f → emits P f) → emits P (CanAdopt m).
Proof.
  intros Hf [w [r|]]; simpl; [by exists []; rewrite app_nil_r|].
  destruct (crm_CanAdoptFunc m) as [f|]; [|by exists []; rewrite app_nil_r].
  destruct (Hf f eq_refl w) as (es & Hes & HP). exists es. by destruct (f w) as [r w'].
Qed.

(** The check that the controller is still alive runs at most once per
    manager: after it ran, with whatever result, asking again returns that
    result without any request. *)
Theorem CanAdopt_once m s r s' w'' :
  CanAdopt m s = (r, s') → CanAdopt m (w'', s'.2) = (r, (w'', s'.2)).
Proof.
  destruct s as [w [r0|]]; simpl.
  - intros [= <- <-]. done.
  - destruct (match crm_CanAdoptFunc m with Some f => f w | None => (Ok (), w) end) as [r1 w1].
    intros [= <- <-]. done.
Qed.

Lemma ClaimObject_emits {T} `{!MetaObject T} P m (obj : T) matches adopt release :
  let orphan := GetControllerOf (mo_OwnerReferences obj) = None ∧ matches obj = true ∧
                mo_DeletionTimestamp obj = None in
  let stale := ∃ ref, GetControllerOf (mo_OwnerReferences obj) = Some ref ∧
                 or_UID ref = GetUID (crm_Controller m) ∧ matches obj = false in
  (being_deleted (crm_Controller m) = false → orphan → emits P (adopt obj)) →
  (being_deleted (crm_Controller m) = false → stale → emits P (release obj)) →
  emits P (ClaimObject m obj matches adopt release).
Proof.
  intros orphan stale Hadopt Hrelease. unfold ClaimObject. emits_auto; go_bools.
  - apply Hrelease; [done|]. eexists. eauto.
  - apply Hadopt; [done|]. split_and!; [done|by destruct (matches obj)|].
    by apply eq_None_not_Some.
Qed.

(** What it means that the controller may claim an object. *)
Definition owned {T} `{!MetaObject T} (m : BaseControllerRefManager) (obj : T) : Prop :=
  Matches (crm_Selector m) (mo_Labels obj) = true ∧
  ∃ ref, GetControllerOf (mo_OwnerReferences obj) = Some ref ∧ or_UID ref = GetUID (crm_Controller m).
Definition adoptable {T} `{!MetaObject T} (m : BaseControllerRefManager) (obj : T) : Prop :=
  Matches (crm_Selector m) (mo_Labels obj) = true ∧
  GetControllerOf (mo_OwnerReferences obj) = None ∧ mo_DeletionTimestamp obj = None ∧
  being_deleted (crm_Controller m) = false.

Lemma ClaimObject_result {T} `{!MetaObject T} m (obj : T) adopt release s b s' :
  ClaimObject m obj (λ obj, Matches (crm_Selector m) (mo_Labels obj)) adopt release s = (Ok b, s') →
  (b = true → owned m obj ∨ adoptable m obj) ∧ (owned m obj → b = true).
Proof.
  unfold ClaimObject, owned, adoptable, mret, M_ret.
  destruct (GetControllerOf _) as [ref|] eqn:Href.
  - case_bool_decide as Hu; simpl; [|intros [= <- _]; split; [done|]; naive_solver].
    destruct (Matches _ _) eqn:Hm; [intros [= <- _]; split; [by left; eauto|done]|]. intros H. split; [|by intros [? _]].
    intros ->. destruct (being_deleted _); [done|]. exfalso. revert H.
    unfold try, mbind, M_bind, throw. destruct (release obj s) as [[u|e|p] s1]; simpl; [done| |done].
    by destruct (IsNotFound e).
  - destruct (being_deleted _) eqn:Hd; simpl.
    { intros [= <- _]. split; [done|]. intros (_ & ? & ? & _). done. }
    destruct (Matches _ _) eqn:Hm; simpl; [|intros [= <- _]; split; [done|by intros [? _]]].
    case_bool_decide as Hdel; [intros [= <- _]; split; [done|]; intros (_ & ? & ? & _); done|].
    intros _. split; [|intros (_ & ? & ? & _); done]. intros ->. right. split_and!; try done.
    by apply eq_None_not_Some.
Qed.

Lemma claim_all_result {T} `{!MetaObject T} m (children : list T) adopt release s claimed s' :
  claim_all m children adopt release s = (Ok claimed, s') →
  claimed `sublist_of` children ∧
  Forall (λ c, owned m c ∨ adoptable m c) claimed ∧
  (∀ c, c ∈ children → owned m c → c ∈ claimed).
Proof.
  unfold claim_all.
  assert (Hloop : ∀ l acc s acc' s',
    foldlM (λ '(claimed, errlist) child,
      r ← try (ClaimObject m child (λ obj, Matches (crm_Selector m) (mo_Labels obj)) adopt release);
      mret match r with
           | inr err => (claimed, errlist ++ [err])
           | inl true => (claimed ++ [child], errlist)
           | inl false => (claimed, errlist)
           end) acc l s = (Ok acc', s') →
    ∃ l', acc'.1 = acc.1 ++ l' ∧ l' `sublist_of` l ∧ Forall (λ c, owned m c ∨ adoptable m c) l' ∧
      (acc'.2 = [] → acc.2 = [] ∧ ∀ c, c ∈ l → owned m c → c ∈ l')).
  { clear. induction l as [|child l IH]; intros [cl errs] s acc' s'; simpl.
    { intros [= <- <-]. exists []. rewrite app_nil_r. set_solver. }
    intros H. run_inv H. run_inv H0. run_inv H1. apply IH in H as (l' & Hl & Hsub & Hall & Herr).
    destruct a0 as [b|e]; [apply ClaimObject_result in H1 as [H1 H2]; destruct b|];
      apply mret_Ok in H0 as [<- _]; simpl in *.
    - exists (child :: l'). rewrite Hl, <-app_assoc. split_and!; [done| | |].
      + by apply sublist_skip.
      + constructor; auto.
      + intros He. destruct (Herr He) as [-> Ho]. split; [done|]. set_solver.
    - exists l'. split_and!; [done|by apply sublist_cons|done|].
      intros He. destruct (Herr He) as [-> Ho]. split; [done|].
      intros c [->|?]%elem_of_cons Hc; [by discriminate H2|auto].
    - exists l'. split_and!; [done|by apply sublist_cons|done|]. intros He.
      destruct (Herr He) as [Happ _]. by apply app_nil in Happ as [_ ?]. }
  intros H. run_inv H. destruct a as [cl errs].
  apply Hloop in H0 as (l' & Hl & Hsub & Hall & Herr). simpl in *. subst cl.
  run_inv H. run_inv H0. destruct a. apply NewAggregate_Ok in H0 as ->. apply mret_Ok in H as [<- _].
  split_and!; [done..|]. by apply Herr.
Qed.

Lemma run_claim_result {A} (m : M Claim A) w r w' :
  run_claim m w = (r, w') → ∃ once, m (w, None) = (r, (w', once)).
Proof. unfold run_claim. destruct (m _) as [r0 [w0 once]]. intros [= <- <-]. eauto. Qed.

Lemma ClaimChildren_result m children w claimed w' :
  ClaimChildren m children w = (Ok claimed, w') →
  claimed `sublist_of` children ∧
  Forall (λ c, owned (um_base m) c ∨ adoptable (um_base m) c) claimed ∧
  (∀ c, c ∈ children → owned (um_base m) c → c ∈ claimed).
Proof. intros (once & H)%run_claim_result. by eapply claim_all_result. Qed.

(** C13: the children a controller claims are among the given ones, in their
    order; each matches the selector, and is controlled by this very parent
    or was an orphan when it was adopted, which a parent that is being
    deleted never does; and every matching child the parent already controls
    is claimed. *)
Theorem ClaimChildren_claimed m children w claimed w' :
  ClaimChildren m children w = (Ok claimed, w') →
  claimed `sublist_of` children ∧
  Forall (λ c, owned (um_base m) c ∨ adoptable (um_base m) c) claimed ∧
  (∀ c, c ∈ children → owned (um_base m) c → c ∈ claimed).
Proof. apply ClaimChildren_result. Qed.

(** The requests of the adoption and the release of [child]. *)
Definition claim_request (m : UnstructuredManager) (child : object) (e : event) : Prop :=
  let rc := ResourceClient_Namespace (um_client m) (GetNamespace child) in
  let parent := crm_Controller (um_base m) in
  e = EvDyn (DynGet (rc_GVR rc) (rc_namespace rc) (GetName child)) ∨
  ∃ current refs, GetUID current = GetUID child ∧ being_deleted parent = false ∧
    e = EvDyn (DynUpdate (rc_GVR rc) (rc_namespace rc) (SetOwnerReferences refs current)) ∧
    (adoptable (um_base m) child ∧
       refs = addOwnerReference (GetOwnerReferences current)
                (make_controllerRef (um_base m) (um_parentKind m)) ∨
     Matches (crm_Selector (um_base m)) (labels_of child) = false ∧
       refs = filter (λ r, or_UID r ≠ GetUID parent) (GetOwnerReferences current)).

Lemma ClaimChildren_emits (Pcheck : event → Prop) m children :
  (∀ f, crm_CanAdoptFunc (um_base m) = Some f → emits Pcheck f) →
  emits (λ e, Pcheck e ∨ ∃ child, child ∈ children ∧ claim_request m child e) (ClaimChildren m children).
Proof.
  intros Hcheck. apply emits_run_claim. unfold claim_all. emits_auto.
  apply ClaimObject_emits.
  - intros Hdel (Horphan & Hmatch & Halive). unfold adoptChild. emits_auto.
    + apply emits_CanAdopt. intros f Hf. eapply emits_weaken; [by apply Hcheck|]. by left.
    + apply emits_liftC. unfold atomicUpdate. emits_auto.
      eapply emits_weaken; [apply AtomicUpdate_emits|].
      intros e He. right. exists b. split; [done|]. unfold claim_request.
      destruct He as [->|(current & updated & Huid & [= <-] & ->)]; [by left|right].
      eexists current, _. split_and!; [done..|]. left. split; [|done]. by split_and!.
  - intros Hdel (ref & Href & Huid & Hmatch). unfold releaseChild. emits_auto.
    apply emits_liftC. unfold atomicUpdate. emits_auto.
    eapply emits_weaken; [apply AtomicUpdate_emits|].
    intros e He. right. exists b. split; [done|]. unfold claim_request.
    destruct He as [->|(current & updated & Huid' & [= <-] & ->)]; [by left|right].
    eexists current, _. split_and!; [done..|]. right. split; [done|].
    apply removeOwnerReference_filter.
Qed.

(** C14: claiming children writes nothing but owner references: each update is
    of a live object with the UID of one of the children, adopts one that was
    an orphan matching the selector or drops the parent's own reference from
    one that stopped matching, and never happens while the parent is being
    deleted.  What the liveness check [CanAdoptFunc] sends is its own. *)
Theorem ClaimChildren_writes (Pcheck : event → Prop) m children :
  (∀ f, crm_CanAdoptFunc (um_base m) = Some f → emits Pcheck f) →
  emits (λ e, Pcheck e ∨ ∃ child, child ∈ children ∧ claim_request m child e) (ClaimChildren m children).
Proof. apply ClaimChildren_emits. Qed.
End claim_properties.

(** ** Concrete claims *)
Section examples.
#[local] Existing Instance treeAPI.
#[local] Existing Instance fakeCluster.
#[local] Existing Instance fakeRetry.

Definition sample_kind : GroupVersionKind := {| gvk_Group := ""; gvk_Version := "v1"; gvk_Kind := "Parent" |}.
Definition sample_check : M World unit :=
  RecheckDeletionTimestamp (dyn (DynGet configmaps_gvr "ns" "p")).
Definition demo_selector : list LabelSelectorRequirement :=
  [{| lsr_Key := "app"; lsr_Operator := "In"; lsr_Values := ["demo"] |}].
Definition sample_manager : UnstructuredManager := {|
  um_base := {| crm_Controller := sample_parent; crm_Selector := demo_selector;
                crm_CanAdoptFunc := Some sample_check |};
  um_parentKind := sample_kind;
  um_childKind := {| gvk_Group := ""; gvk_Version := "v1"; gvk_Kind := "ConfigMap" |};
  um_client := configmaps_client;
|}.
Definition other_child : object := sample "ConfigMap" "other" "uid-2" {[ "app" := "other" ]}.
Definition claim_world : World := fake_world [sample_parent; sample_child "c" "uid-1"; other_child].
Definition claim_run : res (list object) * World :=
  ClaimChildren sample_manager [sample_child "c" "uid-1"; other_child] claim_world.

Lemma CanAdopt_once_witness :
  let s1 := (CanAdopt (um_base sample_manager) (claim_world, None)).2 in
  CanAdopt (um_base sample_manager) (fake_world [], s1.2) =
    ((CanAdopt (um_base sample_manager) (claim_world, None)).1, (fake_world [], s1.2)).
Proof.
  intros s1. apply (CanAdopt_once (um_base sample_manager) (claim_world, None)).
  apply surjective_pairing.
Defined.

(** The orphan is adopted: a read of the parent, a read and a write of the child. *)
Lemma ClaimChildren_claimed_witness :
  match claim_run with
  | (Ok claimed, w') =>
    length claimed = 1 ∧ length (w_log w') = 3 ∧
    claimed `sublist_of` [sample_child "c" "uid-1"; other_child]
  | _ => False
  end.
Proof.
  assert (Hrun : match claim_run with
                 | (Ok claimed, w') => (length claimed =? 1)%nat && (length (w_log w') =? 3)%nat
                 | _ => false end = true) by (vm_compute; reflexivity).
  destruct claim_run as [[claimed|e|p] w'] eqn:E; [|discriminate..].
  apply andb_true_iff in Hrun as [H1 H2]. apply Nat.eqb_eq in H1, H2.
  split; [exact H1|]. split; [exact H2|].
  apply (ClaimChildren_claimed sample_manager _ _ _ _ E).
Defined.

Lemma ClaimChildren_writes_witness :
  emits (λ e, e = EvDyn (DynGet configmaps_gvr "ns" "p") ∨
           ∃ child, child ∈ [sample_child "c" "uid-1"; other_child] ∧ claim_request sample_manager child e)
    (ClaimChildren sample_manager [sample_child "c" "uid-1"; other_child]).
Proof.
  apply (ClaimChildren_writes (λ e, e = EvDyn (DynGet configmaps_gvr "ns" "p"))).
  intros f [= <-]. unfold sample_check, RecheckDeletionTimestamp. emits_auto. reflexivity.
Defined.
End examples.
