(* ===== verification/ManageChildren.v ===== *)
(** * Managing children: [pkg/controller/common/manage_children.go]

    What a sync does with the children a webhook asked for: delete the observed
    ones that are not desired, create or update the others, by a three-way
    merge ([DynamicApply]) or by server-side apply with a cache of what was
    applied last ([ServerSideApply]).  Objects are values here; where the code
    changes an object in place, the model returns the new one. *)
From S2P Require Import Prelude Value K8s K8sInst Apply ObjectMap Discovery Types World ClientSet FakeCluster.
From stdpp Require Import options.

(** [xxhash.Sum64] *)
Class Xxhash := { xxhash_Sum64 : string → Z }.

(** [ChildUpdateStrategy.GetMethod] *)
Definition GetMethod_t : Type := string → string → ChildUpdateMethod.

Record ApplyOptions := { ao_FieldManager : string; ao_Strategy : string }.
Definition ApplyStrategyServerSideApply : string := "server-side-apply".
Definition ApplyStrategyDynamicApply : string := "dynamic-apply".

Definition DeletePropagationBackground : string := "Background".

(** ** Computing an update *)
Section apply_update.
Context {RT : GoRuntime} {API : Apimachinery}.

Definition describeObject (obj : object) : string :=
  if GetNamespace obj != "" then GetKind obj +:+ " " +:+ GetNamespace obj +:+ "/" +:+ GetName obj
  else GetKind obj +:+ " " +:+ GetName obj.

Definition nullifyLastAppliedAnnotation (obj : object) : object :=
  match GetAnnotations obj with
  | None => obj
  | Some annotations =>
    match annotations !! LastAppliedAnnotation with
    | None => obj
    | Some _ => SetAnnotations (delete LastAppliedAnnotation annotations) obj
    end
  end.

Definition revertField (newObj orig : object) (fieldPath : list string) : res object :=
  found ← wrap_err "can't traverse UnstructuredContent to look for field"
            (NestedFieldNoCopy orig fieldPath);
  match found with
  | Some field => wrap_err "can't revert field" (SetNestedField newObj field fieldPath)
  | None => mret (RemoveNestedField newObj fieldPath)
  end.

Definition objectMetaSystemFields : list string :=
  ["selfLink"; "uid"; "resourceVersion"; "generation"; "creationTimestamp"; "deletionTimestamp";
   "deletionGracePeriodSeconds"; "managedFields"].

Definition revertObjectMetaSystemFields (newObj orig : object) : res object :=
  foldlM (λ newObj fieldName, revertField newObj orig ["metadata"; fieldName]) newObj
    objectMetaSystemFields.

(** [update] loses its annotation in place; no caller looks at it again. *)
Definition ApplyUpdate (orig update : object) : res object :=
  lastApplied ← GetLastApplied orig;
  let update := nullifyLastAppliedAnnotation update in
  newObj ← Merge orig lastApplied update;
  newObj ← wrap_err "failed to revert ObjectMeta system fields" (revertObjectMetaSystemFields newObj orig);
  newObj ← wrap_err "failed to revert .status" (revertField newObj orig ["status"]);
  match SetLastApplied newObj update with
  | Ok newObj => mret newObj
  | Err _ => mret newObj
  | Panic s => Panic s
  end.

Definition MakeControllerRef (parent : object) : OwnerReference := {|
  or_APIVersion := GetAPIVersion parent;
  or_Kind := GetKind parent;
  or_Name := GetName parent;
  or_UID := GetUID parent;
  or_Controller := Some true;
  or_BlockOwnerDeletion := Some true;
|}.

(** The owner references of [desired] with the parent's among them. *)
Definition claimOwnership (parent desired : object) : object :=
  let controllerRef := MakeControllerRef parent in
  let ownerRefs := GetOwnerReferences desired in
  if existsb (λ ref, or_UID ref == or_UID controllerRef) ownerRefs then desired
  else SetOwnerReferences (ownerRefs ++ [controllerRef]) desired.

Definition sanitizeForSSACompare (obj : object) : object :=
  let c := foldl (λ c fieldName, RemoveNestedField c ["metadata"; fieldName]) obj objectMetaSystemFields in
  let c := RemoveNestedField c ["status"] in
  nullifyLastAppliedAnnotation c.
End apply_update.

(** ** The cache of server-side applies *)
Section cache.
Context {API : Apimachinery} {CL : Cluster}.

Definition lastUpdateCacheKey (client : ResourceClient) (obj : object) : string :=
  ar_Group (rc_APIResource client) +:+ "/" +:+ ar_Kind (rc_APIResource client) +:+ "/" +:+
  GetNamespace obj +:+ "/" +:+ GetName obj.

Definition LastUpdateCache_Set (key : string) (hash generation : Z) (resourceVersion uid : string)
    : M World unit :=
  modify (λ w, {| w_srv := w_srv w; w_log := w_log w;
                  w_lastUpdated := <[key := {| lu_hash := hash; lu_resourcegeneration := generation;
                                               lu_resourceversion := resourceVersion; lu_uid := uid |}]>
                                     (w_lastUpdated w) |}).

Definition LastUpdateCache_Delete (key : string) : M World unit :=
  modify (λ w, {| w_srv := w_srv w; w_log := w_log w; w_lastUpdated := delete key (w_lastUpdated w) |}).

Definition isCacheInvalid (cache : gmap string lastUpdate) (cacheKeyName : string) (observed : object)
    (desiredHash : Z) : bool :=
  match cache !! cacheKeyName with
  | None => true
  | Some lastUpdated =>
    if lu_uid lastUpdated != GetUID observed then true
    else if lu_hash lastUpdated != desiredHash then true
    else if (GetGeneration observed == 0%Z) && (GetResourceVersion observed != lu_resourceversion lastUpdated)
    then true
    else if lu_resourcegeneration lastUpdated != GetGeneration observed then true
    else false
  end.
End cache.

(** ** Applying one child *)
Section appliers.
Context {RT : GoRuntime} {API : Apimachinery} {CL : Cluster} {XX : Xxhash}.

Record ApplyOperation := {
  op_updateStrategy : GetMethod_t;
  op_parent : object;
  op_observed : option object;
  op_desired : object;
}.

Inductive Applier :=
  | ServerSideApply (client : ResourceClient) (ssaOptions : ApplyOptions)
  | DynamicApply (client : ResourceClient).

Definition NewApplier (client : ResourceClient) (ssaOptions : ApplyOptions) : res Applier :=
  if (ao_Strategy ssaOptions == ApplyStrategyDynamicApply) || (ao_Strategy ssaOptions == "")
  then Ok (DynamicApply client)
  else if ao_Strategy ssaOptions == ApplyStrategyServerSideApply
  then Ok (ServerSideApply client ssaOptions)
  else Err (ErrorString ("invalid apply strategy: unknown strategy " +:+ quote (ao_Strategy ssaOptions))).

Definition delete_options (uid : string) : DeleteOptions :=
  {| do_UID := Some uid; do_PropagationPolicy := Some DeletePropagationBackground |}.

Definition childUpdateRecreate (client : ResourceClient) (observed desired : object) : M World unit :=
  r ← try (rc_Delete (ResourceClient_Namespace client (GetNamespace desired)) (GetName desired)
             (delete_options (GetUID observed)));
  match r with
  | inr err => if IsNotFound err then mret () else throw err
  | inl _ => mret ()
  end.

Definition childUpdateOnDelete : M World unit := mret ().

Definition unknown_method (client : ResourceClient) (method : ChildUpdateMethod) : error :=
  ErrorString ("invalid update strategy for " +:+ ar_Kind (rc_APIResource client) +:+
               ": unknown method " +:+ quote method).

Definition DynamicApply_Apply (client : ResourceClient) (op : ApplyOperation) : M World unit :=
  match op_observed op with
  | Some observed =>
    newObj ← lift (ApplyUpdate observed (op_desired op));
    if DeepEqual (VMap newObj) (VMap observed) then mret ()
    else if being_deleted observed then mret ()
    else
      let method := op_updateStrategy op (ar_Group (rc_APIResource client)) (ar_Kind (rc_APIResource client)) in
      if (method == ChildUpdateOnDelete) || (method == "") then childUpdateOnDelete
      else if (method == ChildUpdateRecreate) || (method == ChildUpdateRollingRecreate)
      then childUpdateRecreate client observed (op_desired op)
      else if (method == ChildUpdateInPlace) || (method == ChildUpdateRollingInPlace)
      then
        r ← try (rc_Update (ResourceClient_Namespace client (GetNamespace (op_desired op))) newObj);
        match r with
        | inr err => if IsNotFound err then mret () else if IsConflict err then mret () else throw err
        | inl _ => mret ()
        end
      else throw (unknown_method client method)
  | None =>
    desired ← lift (SetLastApplied (op_desired op) (op_desired op));
    let desired := claimOwnership (op_parent op) desired in
    r ← try (rc_Create (ResourceClient_Namespace client (GetNamespace desired)) desired);
    match r with
    | inr err => if IsAlreadyExists err then mret () else throw err
    | inl _ => mret ()
    end
  end.

(** A JSON string literal, of a text without special characters. *)
Definition json_string (s : string) : string := String dquote (s +:+ String dquote "").

(** The JSON patch that drops the annotation of an earlier dynamic apply. *)
Definition remove_annotation_patch : string :=
  let annotationNameForJsonPatch :=
    strings_ReplaceAll (strings_ReplaceAll LastAppliedAnnotation "~" "~0") "/" "~1" in
  "[{" +:+ json_string "op" +:+ ": " +:+ json_string "remove" +:+ ", " +:+ json_string "path" +:+ ": " +:+
  json_string ("/metadata/annotations/" +:+ annotationNameForJsonPatch) +:+ "}]".

Definition ServerSideApply_Apply (client : ResourceClient) (ssaOptions : ApplyOptions) (op : ApplyOperation)
    : M World unit :=
  if match op_observed op with Some observed => being_deleted observed | None => false end then mret ()
  else
    let desired := sanitizeForSSACompare (claimOwnership (op_parent op) (op_desired op)) in
    data ← lift (json_Marshal (VMap desired));
    let desiredHash := xxhash_Sum64 data in
    let cacheKeyName := lastUpdateCacheKey client desired in
    let storeState generation resourceVersion uid :=
      LastUpdateCache_Set cacheKeyName desiredHash generation resourceVersion uid in
    let scoped := ResourceClient_Namespace client (GetNamespace desired) in
    (* create or update the object using server-side apply *)
    let apply :=
      r ← try (rc_Patch scoped (GetName desired) ApplyPatchType data
                 {| po_FieldManager := ao_FieldManager ssaOptions; po_Force := Some true; po_DryRun := false |});
      match r with
      | inr err => if IsConflict err then mret () else throw err
      | inl patched => storeState (GetGeneration patched) (GetResourceVersion patched) (GetUID patched)
      end in
    match op_observed op with
    | None => apply
    | Some observed =>
      let storeObserved :=
        storeState (GetGeneration observed) (GetResourceVersion observed) (GetUID observed) in
      if being_deleted observed then mret ()
      else
        w ← get_state;
        if negb (isCacheInvalid (w_lastUpdated w) cacheKeyName observed desiredHash) then mret ()
        else
          let method := op_updateStrategy op (ar_Group (rc_APIResource client)) (ar_Kind (rc_APIResource client)) in
          if (method == ChildUpdateOnDelete) || (method == "") then
            childUpdateOnDelete ;; storeObserved
          else if (method == ChildUpdateRecreate) || (method == ChildUpdateRollingRecreate) then
            r ← try (rc_Patch scoped (GetName desired) ApplyPatchType data
                       {| po_FieldManager := ao_FieldManager ssaOptions; po_Force := Some true;
                          po_DryRun := true |});
            match r with
            | inr err =>
              if IsBadRequest err || IsForbidden err then storeObserved
              else throw (WrapError "dry run failed for server-side apply" err)
            | inl dryRunPatched =>
              if (GetGeneration observed != GetGeneration dryRunPatched) ||
                 (GetUID observed != GetUID dryRunPatched)
              then throw (ErrorString ("generation or UID changed during dry run for server-side apply, expected generation "
                     +:+ pretty (GetGeneration observed) +:+ " and UID " +:+ GetUID observed +:+
                     " but got generation " +:+ pretty (GetGeneration dryRunPatched) +:+ " and UID " +:+
                     GetUID dryRunPatched +:+
                     ", this likely means the object was updated after we read it, retrying on next reconciliation loop to avoid unnecessary delete and recreate"))
              else if DeepEqual (VMap (sanitizeForSSACompare dryRunPatched)) (VMap (sanitizeForSSACompare observed))
              then storeObserved
              else
                childUpdateRecreate client observed desired ;;
                LastUpdateCache_Delete cacheKeyName
            end
          else if (method == ChildUpdateInPlace) || (method == ChildUpdateRollingInPlace) then
            match annotations_of observed !! LastAppliedAnnotation with
            | Some _ =>
              r ← try (rc_Patch scoped (GetName desired) JSONPatchType remove_annotation_patch
                         {| po_FieldManager := ""; po_Force := None; po_DryRun := false |});
              match r with
              | inr err => if IsNotFound err then mret () else throw err
              | inl _ => apply
              end
            | None => apply
            end
          else throw (unknown_method client method)
    end.

Definition Applier_Apply (a : Applier) (op : ApplyOperation) : M World unit :=
  match a with
  | ServerSideApply client ssaOptions => ServerSideApply_Apply client ssaOptions op
  | DynamicApply client => DynamicApply_Apply client op
  end.

(** ** All the children *)

(** One pass of the loop of [deleteChildren]. *)
Definition delete_child (client : ResourceClient) (desired : option (gmap string object))
    (entry : string * object) : M World unit :=
  let '(name, obj) := entry in
  if being_deleted obj then mret ()
  else if bool_decide (is_Some (default ∅ desired !! name)) then mret ()
  else
    r ← try (rc_Delete (ResourceClient_Namespace client (GetNamespace obj)) (GetName obj)
               (delete_options (GetUID obj)));
    match r with
    | inr err =>
      if IsNotFound err then mret ()
      else throw (WrapError ("can't delete " +:+ describeObject obj) err)
    | inl _ => LastUpdateCache_Delete (lastUpdateCacheKey client obj)
    end.

Definition deleteChildren (client : ResourceClient) (parent : object) (observed : gmap string object)
    (desired : option (gmap string object)) : M World unit :=
  errs ← collect (delete_child client desired) (range observed);
  lift (NewAggregate errs).

Definition updateChildren (client : ResourceClient) (updateStrategy : GetMethod_t) (parent : object)
    (observed : option (gmap string object)) (desired : gmap string object) (ssaOptions : ApplyOptions)
    : M World unit :=
  applier ← lift (NewApplier client ssaOptions);
  errs ← collect (λ '(name, obj),
    Applier_Apply applier {| op_updateStrategy := updateStrategy; op_parent := parent;
                             op_observed := default ∅ observed !! name; op_desired := obj |}) (range desired);
  lift (NewAggregate errs).

(** The maps may be nil interfaces. *)
Definition ManageChildren {T1 T2} `{!ObjectMap T1, !ObjectMap T2} (dynClient : Clientset)
    (updateStrategy : GetMethod_t) (parent : object) (observedChildren : option T1)
    (desiredChildren : option T2) (ssaOptions : ApplyOptions) : M World unit :=
  let client_of gvk := lift (Clientset_Kind dynClient (GroupVersion_String (gvk_GroupVersion gvk)) (gvk_Kind gvk)) in
  errs1 ← match observedChildren with
    | None => mret []
    | Some observed =>
      collect (λ gvk,
        match GetObjectsByGVK observed gvk with
        | None => mret ()
        | Some objects =>
          client ← client_of gvk;
          deleteChildren client parent objects
            (desired ← desiredChildren; GetObjectsByGVK desired gvk)
        end) (GetAllGVKs observed)
    end;
  errs2 ← match desiredChildren with
    | None => mret []
    | Some desired =>
      collect (λ gvk,
        match GetObjectsByGVK desired gvk with
        | None => mret ()
        | Some objects =>
          client ← client_of gvk;
          updateChildren client updateStrategy parent
            (observed ← observedChildren; GetObjectsByGVK observed gvk) objects ssaOptions
        end) (GetAllGVKs desired)
    end;
  lift (NewAggregate (errs1 ++ errs2)).
End appliers.

(** ** What an update may change *)
Section update_properties.
Context {RT : GoRuntime} {API : Apimachinery} {NL : NestedFieldLaws} {AL : AnnotationLaws}.

Lemma nullify_idemp o :
  nullifyLastAppliedAnnotation (nullifyLastAppliedAnnotation o) = nullifyLastAppliedAnnotation o.
Proof using All.
  unfold nullifyLastAppliedAnnotation. destruct (GetAnnotations o) as [a|] eqn:Ha; [|by rewrite Ha].
  destruct (a !! LastAppliedAnnotation) eqn:Hl; [|by rewrite Ha, Hl].
  rewrite GetAnnotations_Set by (by eapply GetAnnotations_metadata). by rewrite lookup_delete_eq.
Qed.

(** The annotation of [update] plays no part. *)
Lemma ApplyUpdate_nullify orig update :
  ApplyUpdate orig (nullifyLastAppliedAnnotation update) = ApplyUpdate orig update.
Proof using All. unfold ApplyUpdate. by rewrite nullify_idemp. Qed.

Lemma revertField_Ok newObj orig p o :
  revertField newObj orig p = Ok o →
  ∃ found, NestedFieldNoCopy orig p = Ok found ∧
    match found with
    | Some field => SetNestedField newObj field p = Ok o
    | None => o = RemoveNestedField newObj p
    end.
Proof.
  unfold revertField. destruct (NestedFieldNoCopy orig p) as [found| |]; simpl; [|done..].
  intros H. exists found. split; [done|]. destruct found as [field|]; [|unfold mret, res_ret in H; by simplify_eq].
  by destruct (SetNestedField newObj field p); simpl in *.
Qed.

(** The reverted field is what it was, and no other field moves. *)
Lemma revertField_field newObj orig p o :
  p ≠ [] → revertField newObj orig p = Ok o →
  (∃ r, NestedFieldNoCopy newObj p = Ok r) → NestedFieldNoCopy o p = NestedFieldNoCopy orig p.
Proof using All.
  intros Hp ([field|] & Hf & H)%revertField_Ok [r Hr]; rewrite Hf.
  - by apply NestedField_Set in H.
  - subst. by eapply NestedField_Remove.
Qed.

Lemma revertField_other newObj orig p o q :
  revertField newObj orig p = Ok o → disjoint_paths p q →
  NestedFieldNoCopy o q = NestedFieldNoCopy newObj q.
Proof using All.
  intros ([field|] & Hf & H)%revertField_Ok Hd.
  - by eapply NestedField_Set_disjoint.
  - subst. by apply NestedField_Remove_disjoint.
Qed.

Lemma disjoint_siblings (k f g : string) : f ≠ g → disjoint_paths [k; f] [k; g].
Proof.
  intros Hne. split; intros [l Hl]; simplify_eq/=.
Qed.
Lemma disjoint_heads (k j : string) p q : k ≠ j → disjoint_paths (k :: p) (j :: q).
Proof. intros Hne. split; intros [l Hl]; simplify_eq/=. Qed.

(** Lookups below the metadata succeed when it is an object or absent. *)
Lemma metadata_lookup_Ok (o : object) f :
  (o !! "metadata" = None ∨ ∃ m, o !! "metadata" = Some (VMap m)) →
  ∃ r, NestedFieldNoCopy o ["metadata"; f] = Ok r.
Proof using All.
  intros [H|[m H]].
  - rewrite NestedField_absent by done. eauto.
  - rewrite (NestedField_under _ _ m) by done. rewrite NestedField_field. eauto.
Qed.

(** Reverting one field after the other restores them all. *)
Lemma revert_fields newObj orig fields o :
  foldlM (λ newObj fieldName, revertField newObj orig ["metadata"; fieldName]) newObj fields = Ok o →
  NoDup fields →
  (∀ f, f ∈ fields → ∃ r, NestedFieldNoCopy newObj ["metadata"; f] = Ok r) →
  (∀ f, f ∈ fields → NestedFieldNoCopy o ["metadata"; f] = NestedFieldNoCopy orig ["metadata"; f]) ∧
  (∀ q, (∀ f, f ∈ fields → disjoint_paths ["metadata"; f] q) →
     NestedFieldNoCopy o q = NestedFieldNoCopy newObj q).
Proof using All.
  revert newObj. induction fields as [|f fields IH]; intros newObj; simpl.
  { intros [= <-] _ _. set_solver. }
  destruct (revertField newObj orig ["metadata"; f]) as [o1| |] eqn:Hf; simpl; [|done..].
  intros Ho [Hnin Hnd]%NoDup_cons Hlook.
  assert (Hsib : ∀ g, g ∈ fields → disjoint_paths ["metadata"; f] ["metadata"; g]).
  { intros g Hg. apply disjoint_siblings. by intros ->. }
  destruct (IH o1 Ho Hnd) as [IH1 IH2].
  { intros g Hg. destruct (Hlook g) as [r Hr]; [set_solver|]. exists r.
    by rewrite (revertField_other _ _ _ _ _ Hf (Hsib g Hg)). }
  split.
  - intros g [->|Hg]%elem_of_cons; [|by apply IH1].
    rewrite IH2 by (intros h Hh; apply disjoint_siblings; by intros ->).
    eapply revertField_field; [done|exact Hf|]. apply Hlook. set_solver.
  - intros q Hq. rewrite IH2 by set_solver. apply (revertField_other _ _ _ _ _ Hf). set_solver.
Qed.

Lemma system_fields_NoDup : NoDup objectMetaSystemFields.
Proof. by apply (bool_decide_unpack _). Qed.

Lemma Merge_metadata observed last desired merged m :
  Merge observed last desired = Ok merged → observed !! "metadata" = Some (VMap m) →
  merged !! "metadata" = None ∨ ∃ m', merged !! "metadata" = Some (VMap m').
Proof.
  intros Hm Hobs. rewrite (Merge_lookup _ _ _ _ _ Hm).
  destruct (desired !! "metadata") as [d|].
  - right. rewrite (map_get_Some _ _ _ Hobs).
    destruct (mergeV_VMap_object m (map_get (default ∅ last) "metadata") d) as [m' ->]. eauto.
  - case_decide; [by left|]. right. eauto.
Qed.

Lemma wrap_err_Ok {A} msg (r : res A) a : wrap_err msg r = Ok a → r = Ok a.
Proof. by destruct r. Qed.

Lemma ApplyUpdate_Ok orig update new :
  ApplyUpdate orig update = Ok new →
  ∃ last merged o1 o2,
    GetLastApplied orig = Ok last ∧
    Merge orig last (nullifyLastAppliedAnnotation update) = Ok merged ∧
    revertObjectMetaSystemFields merged orig = Ok o1 ∧
    revertField o1 orig ["status"] = Ok o2 ∧
    (SetLastApplied o2 (nullifyLastAppliedAnnotation update) = Ok new ∨ new = o2).
Proof.
  unfold ApplyUpdate. intros (last & Hlast & H)%bind_res_Ok.
  apply bind_res_Ok in H as (merged & Hm & H).
  apply bind_res_Ok in H as (o1 & H1%wrap_err_Ok & H).
  apply bind_res_Ok in H as (o2 & H2%wrap_err_Ok & H).
  exists last, merged, o1, o2. split_and!; [done..|].
  unfold mret, res_ret in H. destruct (SetLastApplied o2 _); [left; congruence|right; congruence|done].
Qed.

Lemma SetLastApplied_other o last o' q :
  SetLastApplied o last = Ok o' → disjoint_paths ["metadata"; "annotations"] q →
  NestedFieldNoCopy o' q = NestedFieldNoCopy o q.
Proof using All.
  unfold SetLastApplied. intros (js & _ & H)%bind_res_Ok Hd.
  unfold mret, res_ret in H. simplify_eq. by apply NestedField_SetAnnotations.
Qed.

(** C7: an update never changes what belongs to the system: whatever the webhook
    asks for, the read-only metadata fields and the whole status of the object
    sent to the server are those of the observed object, set where they were
    set and absent where they were absent. *)
Theorem ApplyUpdate_system_fields orig update new m :
  ApplyUpdate orig update = Ok new → orig !! "metadata" = Some (VMap m) →
  (∀ f, f ∈ objectMetaSystemFields →
     NestedFieldNoCopy new ["metadata"; f] = NestedFieldNoCopy orig ["metadata"; f]) ∧
  NestedFieldNoCopy new ["status"] = NestedFieldNoCopy orig ["status"].
Proof using All.
  intros (last & merged & o1 & o2 & _ & Hm & H1 & H2 & H3)%ApplyUpdate_Ok Hmeta.
  pose proof (Merge_metadata _ _ _ _ _ Hm Hmeta) as Hmm.
  destruct (revert_fields _ _ _ _ H1 system_fields_NoDup) as [Hf Hother].
  { intros f _. by apply metadata_lookup_Ok. }
  assert (Hnew : ∀ q, disjoint_paths ["metadata"; "annotations"] q →
    NestedFieldNoCopy new q = NestedFieldNoCopy o2 q).
  { intros q Hq. destruct H3 as [H3| ->]; [|done]. by eapply SetLastApplied_other. }
  split.
  - intros f Hfin. rewrite Hnew.
    + rewrite (revertField_other _ _ _ _ _ H2) by (by apply disjoint_heads). by apply Hf.
    + apply disjoint_siblings. intros <-. revert Hfin. by apply (bool_decide_unpack _).
  - rewrite Hnew by (by apply disjoint_heads). eapply revertField_field; [done|exact H2|].
    rewrite Hother by (intros; by apply disjoint_heads).
    rewrite NestedField_field. eauto.
Qed.
End update_properties.

(** ** What a sync sends *)
Section requests.
Context {RT : GoRuntime} {API : Apimachinery} {CL : Cluster} {XX : Xxhash}.

Lemma emits_cache_set P key hash generation rv uid : emits P (LastUpdateCache_Set key hash generation rv uid).
Proof. by apply emits_modify. Qed.
Lemma emits_cache_delete P key : emits P (LastUpdateCache_Delete key).
Proof. by apply emits_modify. Qed.

(** The client of an object's namespace. *)
Abbreviation scoped client obj := (ResourceClient_Namespace client (GetNamespace obj)).

Definition delete_event (client : ResourceClient) (scope_of named : object) (uid : string) : event :=
  let rc := scoped client scope_of in
  EvDyn (DynDelete (rc_GVR rc) (rc_namespace rc) (GetName named) (delete_options uid)).

(** The observed children a sync deletes. *)
Definition doomed (desired : option (gmap string object)) (entry : string * object) : bool :=
  negb (being_deleted entry.2) && negb (bool_decide (is_Some (default ∅ desired !! entry.1))).

Lemma delete_child_sends client desired entry :
  sends (delete_child client desired entry)
    (if doomed desired entry
     then [delete_event client entry.2 entry.2 (GetUID entry.2)] else []).
Proof.
  destruct entry as [name obj]. unfold delete_child, doomed. simpl.
  destruct (being_deleted obj); simpl; [by apply sends_nil|].
  case_bool_decide; simpl; [by apply sends_nil|].
  apply sends_try_bind; [apply sends_dyn|].
  intros [o|err]; [by apply sends_nil|]. destruct (IsNotFound err); by apply sends_nil.
Qed.

(** C6: the deletions of a sync are exactly the observed children that are not
    desired and not already being deleted, each requested once, in background
    mode and bound to the UID that was observed; a failed deletion does not
    keep the others from being requested. *)
Theorem deleteChildren_requests client parent observed desired w :
  w_log (deleteChildren client parent observed desired w).2 =
    w_log w ++ ((λ entry, delete_event client entry.2 entry.2 (GetUID entry.2)) <$>
                filter (λ entry, doomed desired entry = true) (range observed)).
Proof.
  assert (Hs : sends (deleteChildren client parent observed desired)
    (concat ((λ entry, if doomed desired entry
       then [delete_event client entry.2 entry.2 (GetUID entry.2)] else []) <$> range observed))).
  { apply sends_bind; [|intros [|e errs]; by apply sends_nil].
    apply collect_sends. intros entry. apply delete_child_sends. }
  destruct (Hs w) as [Hlog _]. unfold log_of, World_log in Hlog. rewrite Hlog. f_equal. clear.
  induction (range observed) as [|entry l IH]; [done|].
  rewrite filter_cons. lsimpl. rewrite IH. destruct (doomed desired entry); done.
Qed.

Lemma deleteChildren_emits client parent observed desired :
  emits (λ e, ∃ name obj, observed !! name = Some obj ∧ being_deleted obj = false ∧
           default ∅ desired !! name = None ∧ e = delete_event client obj obj (GetUID obj))
    (deleteChildren client parent observed desired).
Proof.
  unfold deleteChildren. emits_auto. destruct a as [name obj].
  intros w. destruct (delete_child_sends client desired (name, obj) w) as [Hlog _].
  eexists. split; [exact Hlog|]. unfold doomed. simpl.
  apply elem_of_range in H. destruct (being_deleted obj) eqn:Hd; simpl; [done|].
  case_bool_decide as Hn; simpl; [done|]. constructor; [|done].
  exists name, obj. split_and!; try done. by apply eq_None_not_Some.
Qed.

(** *** The dynamic apply *)
Definition method_of (client : ResourceClient) (op : ApplyOperation) : ChildUpdateMethod :=
  op_updateStrategy op (ar_Group (rc_APIResource client)) (ar_Kind (rc_APIResource client)).
Definition recreates (method : ChildUpdateMethod) : Prop :=
  method = ChildUpdateRecreate ∨ method = ChildUpdateRollingRecreate.
Definition in_place (method : ChildUpdateMethod) : Prop :=
  method = ChildUpdateInPlace ∨ method = ChildUpdateRollingInPlace.

Definition dynamic_request (client : ResourceClient) (op : ApplyOperation) (e : event) : Prop :=
  let desired := op_desired op in
  match op_observed op with
  | None =>
    ∃ applied, SetLastApplied desired desired = Ok applied ∧
      let obj := claimOwnership (op_parent op) applied in
      e = EvDyn (DynCreate (rc_GVR (scoped client obj)) (rc_namespace (scoped client obj)) obj)
  | Some observed =>
    being_deleted observed = false ∧
    ∃ newObj, ApplyUpdate observed desired = Ok newObj ∧
      DeepEqual (VMap newObj) (VMap observed) = false ∧
      (recreates (method_of client op) ∧ e = delete_event client desired desired (GetUID observed) ∨
       in_place (method_of client op) ∧
         e = EvDyn (DynUpdate (rc_GVR (scoped client desired)) (rc_namespace (scoped client desired)) newObj))
  end.

Lemma childUpdateRecreate_emits client observed desired :
  emits (λ e, e = delete_event client desired desired (GetUID observed))
    (childUpdateRecreate client observed desired).
Proof. unfold childUpdateRecreate, rc_Delete. emits_auto. done. Qed.

Lemma DynamicApply_emits client op :
  emits (dynamic_request client op) (DynamicApply_Apply client op).
Proof.
  unfold DynamicApply_Apply, dynamic_request. destruct (op_observed op) as [observed|].
  - intros w. unfold mbind at 1, M_bind at 1, lift.
    destruct (ApplyUpdate observed (op_desired op)) as [newObj|e|s] eqn:Hnew;
      [|by exists []; rewrite app_nil_r..].
    revert w. match goal with |- ∀ w, ∃ es, log_of (?m w).2 = _ ∧ Forall ?P es => change (emits P m) end.
    destruct (DeepEqual _ _) eqn:Heq; [apply emits_ret|].
    destruct (being_deleted observed) eqn:Hdel; [apply emits_ret|].
    fold (method_of client op). cbn zeta.
    destruct ((method_of client op == ChildUpdateOnDelete) || _); [apply emits_ret|].
    destruct ((method_of client op == ChildUpdateRecreate) || _) eqn:Hre.
    { eapply emits_weaken; [apply childUpdateRecreate_emits|]. intros e ->.
      split; [done|]. exists newObj. split_and!; [done..|]. left. split; [|done].
      unfold recreates. apply orb_true_iff in Hre as [?|?]; go_bools; auto. }
    destruct ((method_of client op == ChildUpdateInPlace) || _) eqn:Hin; [|apply emits_throw].
    unfold rc_Update. emits_auto. split; [done|]. exists newObj. split_and!; [done..|]. right.
    split; [|done]. unfold in_place. apply orb_true_iff in Hin as [?|?]; go_bools; auto.
  - intros w. unfold mbind at 1, M_bind at 1, lift.
    destruct (SetLastApplied _ _) as [applied|e|s]; [|by exists []; rewrite app_nil_r..].
    revert w. match goal with |- ∀ w, ∃ es, log_of (?m w).2 = _ ∧ Forall ?P es => change (emits P m) end.
    unfold rc_Create. emits_auto. by eexists.
Qed.

(** What a dynamic apply sends: a missing child is created, carrying what
    was applied and the parent as its controller; an existing one is touched
    only if the three-way merge changes it and it is not being deleted, and
    then it is deleted by UID under the recreate methods, updated to the merge
    under the in-place ones, and left alone under any other. *)
Theorem DynamicApply_requests client op :
  emits (dynamic_request client op) (DynamicApply_Apply client op).
Proof. apply DynamicApply_emits. Qed.

(** *** The server-side apply *)

(** What is applied for a child. *)
Definition ssa_desired (op : ApplyOperation) : object :=
  sanitizeForSSACompare (claimOwnership (op_parent op) (op_desired op)).
Definition ssa_patch (client : ResourceClient) (opts : ApplyOptions) (d : object) (data : string)
    (dryRun : bool) : dyn_req :=
  DynPatch (rc_GVR (scoped client d)) (rc_namespace (scoped client d)) (GetName d) ApplyPatchType data
    {| po_FieldManager := ao_FieldManager opts; po_Force := Some true; po_DryRun := dryRun |}.

Definition ssa_request (client : ResourceClient) (opts : ApplyOptions) (op : ApplyOperation) (e : event)
    : Prop :=
  let d := ssa_desired op in
  ∃ data, json_Marshal (VMap d) = Ok data ∧
  match op_observed op with
  | None => e = EvDyn (ssa_patch client opts d data false)
  | Some observed =>
    being_deleted observed = false ∧
    (recreates (method_of client op) ∧
       (e = EvDyn (ssa_patch client opts d data true) ∨ e = delete_event client d d (GetUID observed)) ∨
     in_place (method_of client op) ∧
       (e = EvDyn (ssa_patch client opts d data false) ∨
        is_Some (annotations_of observed !! LastAppliedAnnotation) ∧
        e = EvDyn (DynPatch (rc_GVR (scoped client d)) (rc_namespace (scoped client d)) (GetName d)
              JSONPatchType remove_annotation_patch
              {| po_FieldManager := ""; po_Force := None; po_DryRun := false |})))
  end.

Lemma ServerSideApply_emits client opts op :
  emits (ssa_request client opts op) (ServerSideApply_Apply client opts op).
Proof.
  unfold ServerSideApply_Apply, ssa_request.
  destruct (match op_observed op with Some o => being_deleted o | None => false end) eqn:Hd;
    [apply emits_ret|].
  apply emits_lift_bind. intros data Hdata. fold (ssa_desired op) in *. cbn zeta.
  destruct (op_observed op) as [observed|].
  - rewrite Hd. apply emits_bind; [apply emits_get|]. intros w.
    destruct (isCacheInvalid _ _ _ _); [simpl|apply emits_ret].
    fold (method_of client op). destruct ((method_of client op == ChildUpdateOnDelete) || _).
    { apply emits_bind; [apply emits_ret|intros _; apply emits_cache_set]. }
    destruct ((method_of client op == ChildUpdateRecreate) || _) eqn:Hre.
    { assert (Hrec : recreates (method_of client op))
        by (unfold recreates; apply orb_true_iff in Hre as [?|?]; go_bools; auto).
      unfold rc_Patch. emits_auto; try apply emits_cache_set; try apply emits_cache_delete.
      - exists data. split_and!; [done..|]. left. auto.
      - eapply emits_weaken; [apply childUpdateRecreate_emits|]. intros e ->.
        exists data. split_and!; [done..|]. left. auto. }
    destruct ((method_of client op == ChildUpdateInPlace) || _) eqn:Hin; [|apply emits_throw].
    assert (Hinp : in_place (method_of client op))
      by (unfold in_place; apply orb_true_iff in Hin as [?|?]; go_bools; auto).
    unfold rc_Patch. emits_auto; try apply emits_cache_set;
      exists data; (split_and!; [done..|]); right; eauto 10.
  - unfold rc_Patch. emits_auto; try apply emits_cache_set. by exists data.
Qed.

(** What a server-side apply sends: a missing child is applied; an existing
    one is left alone while it is being deleted; under the in-place methods it
    is applied, after dropping the annotation of an earlier dynamic apply if it
    has one; under the recreate methods the only write is its deletion by UID;
    under any other method nothing is sent. *)
Theorem ServerSideApply_requests client opts op :
  emits (ssa_request client opts op) (ServerSideApply_Apply client opts op).
Proof. apply ServerSideApply_emits. Qed.

(** The entry that describes [o] as applied with [hash]. *)
Definition entry_for (hash : Z) (o : object) : lastUpdate := {|
  lu_hash := hash; lu_resourcegeneration := GetGeneration o;
  lu_resourceversion := GetResourceVersion o; lu_uid := GetUID o |}.

Lemma isCacheInvalid_entry cache key observed hash lu :
  cache !! key = Some lu → lu_hash lu = hash → lu_uid lu = GetUID observed →
  lu_resourcegeneration lu = GetGeneration observed →
  lu_resourceversion lu = GetResourceVersion observed →
  isCacheInvalid cache key observed hash = false.
Proof.
  intros Hlu <- Hu Hg Hv. unfold isCacheInvalid. rewrite Hlu, Hu, Hg, Hv.
  rewrite (bool_decide_true (GetUID observed = _)), (bool_decide_true (lu_hash lu = _)),
    (bool_decide_true (GetResourceVersion observed = _)), (bool_decide_true (GetGeneration observed = GetGeneration observed)) by done.
  by rewrite andb_false_r.
Qed.


(** Under the recreate methods server-side apply deletes a child only when
    the server's dry run of the apply succeeded on the very object that was
    observed (same UID and generation) and shows a difference outside the
    system fields. *)
Theorem ServerSideApply_recreate_guarded client opts op observed data w :
  op_observed op = Some observed → recreates (method_of client op) →
  json_Marshal (VMap (ssa_desired op)) = Ok data →
  let d := ssa_desired op in
  (∃ es1 es2, w_log (ServerSideApply_Apply client opts op w).2 =
     w_log w ++ es1 ++ delete_event client d d (GetUID observed) :: es2) →
  ∃ dry srv, dyn_call (ssa_patch client opts d data true) (w_srv w) = (inl dry, srv) ∧
    GetUID dry = GetUID observed ∧ GetGeneration dry = GetGeneration observed ∧
    DeepEqual (VMap (sanitizeForSSACompare dry)) (VMap (sanitizeForSSACompare observed)) = false.
Proof.
  intros Hobs Hre Hdata d. unfold ServerSideApply_Apply. rewrite Hobs.
  fold (ssa_desired op). fold d. fold d in Hdata. fold (method_of client op).
  assert (Hne : ∀ es1 ev es2, w_log w = w_log w ++ es1 ++ ev :: es2 → False).
  { intros es1 ev es2 H. apply (f_equal length) in H. rewrite !length_app in H. simpl in H. lia. }
  assert (Hne1 : ∀ es1 es2, w_log w ++ [EvDyn (ssa_patch client opts d data true)] =
      w_log w ++ es1 ++ delete_event client d d (GetUID observed) :: es2 → False).
  { intros es1 es2 H. apply app_inv_head in H.
    assert (Hin : delete_event client d d (GetUID observed) ∈ [EvDyn (ssa_patch client opts d data true)])
      by (rewrite H; set_solver). apply list_elem_of_singleton in Hin. done. }
  destruct (being_deleted observed) eqn:Hd; [by intros (es1 & es2 & H); apply Hne in H|].
  unfold mbind, M_bind, lift. rewrite Hdata. unfold get_state.
  destruct (isCacheInvalid _ _ _ _); simpl; [|by intros (es1 & es2 & H); apply Hne in H].
  assert (Hon : (method_of client op == ChildUpdateOnDelete) || (method_of client op == "") = false)
    by (by destruct Hre as [-> | ->]).
  assert (Hrec : (method_of client op == ChildUpdateRecreate) || (method_of client op == ChildUpdateRollingRecreate) = true)
    by (by destruct Hre as [-> | ->]).
  rewrite Hon, Hrec. unfold try, rc_Patch, dyn.
  fold (ssa_patch client opts d data true).
  destruct (dyn_call (ssa_patch client opts d data true) (w_srv w)) as [[dry|err] srv] eqn:Hcall; simpl.
  - destruct (decide (GetGeneration observed = GetGeneration dry)) as [Hg|Hg];
      [rewrite (bool_decide_true (GetGeneration observed = _)) by done
      |rewrite bool_decide_false by done; by intros (es1 & es2 & H); apply Hne1 in H].
    destruct (decide (GetUID observed = GetUID dry)) as [Hu|Hu];
      [rewrite (bool_decide_true (GetUID observed = _)) by done
      |rewrite bool_decide_false by done; by intros (es1 & es2 & H); apply Hne1 in H].
    simpl.
    destruct (DeepEqual _ _) eqn:Heq; [by intros (es1 & es2 & H); apply Hne1 in H|].
    intros _. by exists dry, srv.
  - destruct (IsBadRequest err || IsForbidden err); intros (es1 & es2 & H); by apply Hne1 in H.
Qed.

(** *** All the children *)

(** The object under a kind and a key of a map that may be nil. *)
Definition lookup_in {T} `{!ObjectMap T} (m : option T) (gvk : GroupVersionKind) (name : string)
    : option object :=
  m ← m; groups_lookup (om_groups m) gvk name.

Lemma lookup_in_group {T} `{!ObjectMap T} (m : option T) gvk name :
  default ∅ (m ← m; GetObjectsByGVK m gvk) !! name = lookup_in m gvk name.
Proof.
  unfold lookup_in. destruct m as [m|]; simpl; [|apply lookup_empty].
  rewrite GetObjectsByGVK_lookup. unfold groups_lookup.
  destruct (om_groups m !! gvk); simpl; [done|apply lookup_empty].
Qed.

Definition applier_request (client : ResourceClient) (opts : ApplyOptions) (op : ApplyOperation) (e : event)
    : Prop :=
  match NewApplier client opts with
  | Ok (DynamicApply client) => dynamic_request client op e
  | Ok (ServerSideApply client opts) => ssa_request client opts op e
  | _ => False
  end.

Definition manage_request {T1 T2} `{!ObjectMap T1, !ObjectMap T2} (dynClient : Clientset)
    (updateStrategy : GetMethod_t) (parent : object) (observedChildren : option T1)
    (desiredChildren : option T2) (opts : ApplyOptions) (e : event) : Prop :=
  ∃ gvk client name,
    Clientset_Kind dynClient (GroupVersion_String (gvk_GroupVersion gvk)) (gvk_Kind gvk) = Ok client ∧
    ((∃ obj, lookup_in observedChildren gvk name = Some obj ∧
        lookup_in desiredChildren gvk name = None ∧ being_deleted obj = false ∧
        e = delete_event client obj obj (GetUID obj)) ∨
     (∃ obj, lookup_in desiredChildren gvk name = Some obj ∧
        applier_request client opts
          {| op_updateStrategy := updateStrategy; op_parent := parent;
             op_observed := lookup_in observedChildren gvk name; op_desired := obj |} e)).

Lemma updateChildren_emits client strategy parent observed desired opts :
  emits (λ e, ∃ name obj, desired !! name = Some obj ∧
           applier_request client opts
             {| op_updateStrategy := strategy; op_parent := parent;
                op_observed := default ∅ observed !! name; op_desired := obj |} e)
    (updateChildren client strategy parent observed desired opts).
Proof.
  unfold updateChildren, applier_request. apply emits_lift_bind. intros applier ->.
  apply emits_bind; [|intros errs; apply emits_lift]. apply emits_collect. intros [name obj] Hin.
  apply elem_of_range in Hin. unfold Applier_Apply. destruct applier as [client' opts'|client'].
  - eapply emits_weaken; [apply ServerSideApply_emits|]. eauto.
  - eapply emits_weaken; [apply DynamicApply_emits|]. eauto.
Qed.

Lemma ManageChildren_emits {T1 T2} `{!ObjectMap T1, !ObjectMap T2} dynClient strategy parent
    (observed : option T1) (desired : option T2) opts :
  emits (manage_request dynClient strategy parent observed desired opts)
    (ManageChildren dynClient strategy parent observed desired opts).
Proof.
  unfold ManageChildren. apply emits_bind; [|intros errs1; apply emits_bind; [|intros; apply emits_lift]].
  - destruct observed as [obs|]; [|apply emits_ret]. apply emits_collect. intros gvk _.
    destruct (GetObjectsByGVK obs gvk) as [objects|] eqn:Hobj; [|apply emits_ret].
    apply emits_lift_bind. intros client Hclient.
    eapply emits_weaken; [apply deleteChildren_emits|].
    intros e (name & obj & Hname & Hdel & Hdes & ->). exists gvk, client, name. split; [done|]. left.
    exists obj. rewrite lookup_in_group in Hdes. split_and!; try done.
    unfold lookup_in, groups_lookup. simpl. rewrite <-GetObjectsByGVK_lookup, Hobj. done.
  - destruct desired as [des|]; [|apply emits_ret]. apply emits_collect. intros gvk _.
    destruct (GetObjectsByGVK des gvk) as [objects|] eqn:Hobj; [|apply emits_ret].
    apply emits_lift_bind. intros client Hclient.
    eapply emits_weaken; [apply updateChildren_emits|].
    intros e (name & obj & Hname & Happ). exists gvk, client, name. split; [done|]. right.
    exists obj. rewrite lookup_in_group in Happ. split; [|done].
    unfold lookup_in, groups_lookup. simpl. rewrite <-GetObjectsByGVK_lookup, Hobj. done.
Qed.

(** C5: everything a sync sends for its children: each request goes through the
    client of some kind and either deletes an observed child of that kind that
    is not desired, or is what the configured apply method sends for a desired
    child of that kind and its observed counterpart.  Nothing else is touched. *)
Theorem ManageChildren_requests {T1 T2} `{!ObjectMap T1, !ObjectMap T2} dynClient strategy parent
    (observed : option T1) (desired : option T2) opts :
  emits (manage_request dynClient strategy parent observed desired opts)
    (ManageChildren dynClient strategy parent observed desired opts).
Proof. apply ManageChildren_emits. Qed.

(** *** Ownership *)

(** A child that is created or applied carries a reference to the parent,
    beside all the owner references the webhook gave it; claiming again changes
    nothing. *)
Theorem claimOwnership_spec {OL : OwnerReferenceLaws} parent desired :
  metadata_ok desired →
  let claimed := claimOwnership parent desired in
  (∃ ref, ref ∈ GetOwnerReferences claimed ∧ or_UID ref = GetUID parent) ∧
  GetOwnerReferences desired `prefix_of` GetOwnerReferences claimed ∧
  claimOwnership parent claimed = claimed.
Proof using All.
  intros Hok. unfold claimOwnership. cbn zeta.
  destruct (existsb _ (GetOwnerReferences desired)) eqn:Hex.
  - rewrite Hex. split_and!; [|done..]. apply existsb_exists in Hex as (ref & Hin & Hu).
    apply list_elem_of_In in Hin. go_bools. by exists ref.
  - rewrite GetOwnerReferences_Set by done. split_and!.
    + exists (MakeControllerRef parent). split; [set_solver|done].
    + by apply prefix_app_r.
    + rewrite existsb_app. simpl. by rewrite bool_decide_true, orb_true_r.
Qed.
End requests.

(** ** Concrete runs *)
Section examples.
#[local] Existing Instance listRuntime.
#[local] Existing Instance treeAPI.
#[local] Existing Instance fakeCluster.
#[local] Instance lengthHash : Xxhash := {| xxhash_Sum64 := λ s, Z.of_nat (String.length s) |}.

Definition sample_options : ApplyOptions := {| ao_FieldManager := "demo"; ao_Strategy := ApplyStrategyServerSideApply |}.
Definition always (method : ChildUpdateMethod) : GetMethod_t := λ _ _, method.
Definition sample_op (method : ChildUpdateMethod) (observed : option object) : ApplyOperation := {|
  op_updateStrategy := always method; op_parent := sample_parent; op_observed := observed;
  op_desired := sample_child "c" "" |}.

(** The observed child with a status the webhook tries to overwrite. *)
Definition observed_child : object := <["status" := VString "Running"]> (sample_child "c" "uid-1").
Definition desired_child : object :=
  <["status" := VString "Failed"]> (<["data" := VInt 1]> (sample_child "c" "uid-9")).
Definition updated_child : res object := ApplyUpdate observed_child desired_child.

Lemma ApplyUpdate_system_fields_witness :
  match updated_child with
  | Ok new =>
    (new !! "data" == Some (VInt 1)) = true ∧
    NestedFieldNoCopy new ["metadata"; "uid"] = NestedFieldNoCopy observed_child ["metadata"; "uid"] ∧
    NestedFieldNoCopy new ["status"] = NestedFieldNoCopy observed_child ["status"]
  | _ => False
  end.
Proof.
  assert (Hok : match updated_child with Ok new => new !! "data" == Some (VInt 1) | _ => false end = true)
    by (vm_compute; reflexivity).
  destruct updated_child as [new| |] eqn:E; [|discriminate..]. split; [exact Hok|].
  destruct (ApplyUpdate_system_fields observed_child desired_child new _ E eq_refl) as [H1 H2].
  split; [|exact H2]. apply H1. apply (bool_decide_unpack _). vm_compute. exact I.
Defined.

Definition ssa_world : World := fake_world [sample_child "c" "uid-1"].
Definition ssa_data : string := bits_of (encode (tree_of (VMap (ssa_desired (sample_op "InPlace" None))))).
Definition ssa_run (observed : option object) (w : World) : res () * World :=
  ServerSideApply_Apply configmaps_client sample_options (sample_op "InPlace" observed) w.
Definition ssa_world' : World := (ssa_run None ssa_world).2.


(** The observed child differs from the live one: it is deleted for recreation. *)
Lemma ServerSideApply_recreate_guarded_witness :
  let op := sample_op "Recreate" (Some (<["data" := VInt 1]> (sample_child "c" "uid-1"))) in
  ∃ dry srv, dyn_call (ssa_patch configmaps_client sample_options (ssa_desired op)
      (bits_of (encode (tree_of (VMap (ssa_desired op))))) true) (w_srv ssa_world) = (inl dry, srv) ∧
    GetUID dry = "uid-1".
Proof.
  intros op.
  destruct (ServerSideApply_recreate_guarded configmaps_client sample_options op
    (<["data" := VInt 1]> (sample_child "c" "uid-1"))
    (bits_of (encode (tree_of (VMap (ssa_desired op))))) ssa_world)
    as (dry & srv & Hcall & Hu & _ & _).
  - reflexivity.
  - left. reflexivity.
  - reflexivity.
  - eexists [_], []. vm_compute. reflexivity.
  - exists dry, srv. split; [exact Hcall|]. rewrite Hu. vm_compute. reflexivity.
Defined.

Lemma claimOwnership_spec_witness :
  claimOwnership sample_parent (claimOwnership sample_parent (sample_child "c" "uid-1")) =
    claimOwnership sample_parent (sample_child "c" "uid-1").
Proof.
  apply (claimOwnership_spec sample_parent (sample_child "c" "uid-1")).
  right. eexists. reflexivity.
Defined.
End examples.
