(* ===== verification/Status.v ===== *)
(** * Status conditions and API versions: [pkg/dynamic/object/status.go] and
    the helpers of [pkg/controller/common/common.go]

    The conditions of an object's status as the rolling update reads and writes
    them.  A status is a possibly nil map: [None]. *)
From S2P Require Import Prelude Value K8s K8sInst.
From stdpp Require Import options.

(** ** [status.go] *)
Record StatusCondition := {
  sc_Type : string;
  sc_Status : string;
  sc_Reason : string;
  sc_Message : string;
}.

Definition StatusCondition_Object (c : StatusCondition) : object :=
  let obj := <["type" := VString (sc_Type c)]> (<["status" := VString (sc_Status c)]> ∅) in
  let obj := if sc_Reason c != "" then <["reason" := VString (sc_Reason c)]> obj else obj in
  if sc_Message c != "" then <["message" := VString (sc_Message c)]> obj else obj.

(** [if s, ok := obj[key].(string); ok { field = s }] *)
Definition string_field (obj : object) (key : string) : string :=
  match obj !! key with Some (VString s) => s | _ => "" end.

Definition NewStatusCondition (obj : object) : StatusCondition := {|
  sc_Type := string_field obj "type";
  sc_Status := string_field obj "status";
  sc_Reason := string_field obj "reason";
  sc_Message := string_field obj "message";
|}.

(** [obj, ok := item.(map[string]interface{}); ctype, ok := obj["type"].(string);
    ok && ctype == conditionType] *)
Definition condition_of_type (conditionType : string) (item : value) : option object :=
  match item with
  | VMap obj =>
    match obj !! "type" with
    | Some (VString ctype) => if ctype == conditionType then Some obj else None
    | _ => None
    end
  | _ => None
  end.

Section status.
Context {API : Apimachinery}.

Definition GetStatusCondition (obj : object) (conditionType : string) : res (option StatusCondition) :=
  conditions ← NestedSlice obj ["status"; "conditions"];
  match conditions with
  | None => mret None
  | Some conditions =>
    mret (NewStatusCondition <$> head (omap (condition_of_type conditionType) conditions))
  end.

(** The new content of [status].  [NestedSlice] returned a copy: storing into
    [conditions[i]] does not reach [status].  Writing to a nil map panics. *)
Definition SetCondition (status : option object) (condition : StatusCondition) : res (option object) :=
  conditions ← NestedSlice (default ∅ status) ["conditions"];
  if match conditions with
     | Some conditions =>
       existsb (λ item, bool_decide (is_Some (condition_of_type (sc_Type condition) item))) conditions
     | None => false
     end
  then mret status
  else
    let conditions := default [] conditions ++ [VMap (StatusCondition_Object condition)] in
    match status with
    | None => Panic "assignment to entry in nil map"
    | Some status => Some <$> SetNestedField status (VList conditions) ["conditions"]
    end.

Definition SetStatusCondition (obj : object) (condition : StatusCondition) : res object :=
  status ← NestedMap obj ["status"];
  let status := default ∅ status in
  status ← SetCondition (Some status) condition;
  SetNestedField obj (VMap (default ∅ status)) ["status"].

Definition GetObservedGeneration (obj : object) : res (option Z) :=
  NestedInt64 obj ["status"; "observedGeneration"].
End status.

(** ** [common.go] *)
Definition ParseAPIVersion (apiVersion : string) : string * string :=
  match strings_SplitN apiVersion "/"%char 2 with
  | [version] => ("", version)
  | group :: version :: _ => (group, version)
  | [] => ("", "")
  end.

(** [apiextensions/v1.CustomResourceDefinition], as far as it is looked at *)
Record CRDVersion := {
  crdv_Name : string;
  (** [Subresources], and its [Status] not nil *)
  crdv_Subresources : option bool;
}.
Record CustomResourceDefinition := {
  crd_GroupVersionKind : string;
  crd_Versions : list CRDVersion;
}.

Definition HasStatusSubresource (crd : CustomResourceDefinition) (version : string) : bool :=
  existsb (λ crdVersion,
    (crdv_Name crdVersion == version) &&
    match crdv_Subresources crdVersion with Some status => status | None => false end)
    (crd_Versions crd).

(** ** Properties *)
Lemma ParseAPIVersion_group group version :
  strings_Contains group "/" = false → ParseAPIVersion (group +:+ "/" +:+ version) = (group, version).
Proof.
  intros Hg. unfold ParseAPIVersion, strings_SplitN.
  change ("/" +:+ version) with (String "/"%char version). by rewrite strings_Cut_app.
Qed.

Lemma ParseAPIVersion_core version :
  strings_Contains version "/" = false → ParseAPIVersion version = ("", version).
Proof. intros Hv. unfold ParseAPIVersion, strings_SplitN. by rewrite strings_Cut_None. Qed.

(** The fields [NewStatusCondition] reads are the ones [Object] wrote. *)
Lemma StatusCondition_roundtrip c : NewStatusCondition (StatusCondition_Object c) = c.
Proof.
  destruct c as [t s r m]. unfold NewStatusCondition, StatusCondition_Object, string_field. simpl.
  f_equal; repeat case_bool_decide; simpl; by simplify_map_eq.
Qed.

Lemma StatusCondition_Object_type c :
  condition_of_type (sc_Type c) (VMap (StatusCondition_Object c)) = Some (StatusCondition_Object c).
Proof.
  unfold condition_of_type, StatusCondition_Object.
  assert (∀ o : object, o !! "type" = Some (VString (sc_Type c)) →
    match o !! "type" with
    | Some (VString ctype) => if ctype == sc_Type c then Some o else None
    | _ => None
    end = Some o) as H by (intros o ->; by rewrite bool_decide_true).
  apply H. repeat case_bool_decide; simpl; by simplify_map_eq.
Qed.

Section properties.
Context {API : Apimachinery} {NL : NestedFieldLaws} {TL : NestedTypeLaws}.

(** The status holds a list of conditions, or none yet. *)
Definition conditions_of (status : object) (conditions : list value) : Prop :=
  status !! "conditions" = Some (VList conditions) ∨
  status !! "conditions" = None ∧ conditions = [].

Lemma NestedSlice_conditions status conditions :
  conditions_of status conditions →
  NestedSlice status ["conditions"] = Ok None ∧ conditions = [] ∨
  NestedSlice status ["conditions"] = Ok (Some conditions).
Proof using All.
  intros [H|[H ->]]; [right|left].
  - apply NestedSlice_list. by rewrite NestedField_field, H.
  - split; [|done]. apply NestedSlice_absent. by rewrite NestedField_field, H.
Qed.

(** A condition whose type the status does not have yet is appended to its
    conditions, where [GetStatusCondition] finds it as it was written; a
    condition whose type is already there is left with its old content, the
    new one being lost; and a status that is nil panics. *)
Theorem SetCondition_spec status conditions c :
  conditions_of status conditions →
  let present := existsb (λ item, bool_decide (is_Some (condition_of_type (sc_Type c) item))) conditions in
  (present = true → SetCondition (Some status) c = Ok (Some status)) ∧
  (present = false →
     SetCondition (Some status) c =
       Ok (Some (<["conditions" := VList (conditions ++ [VMap (StatusCondition_Object c)])]> status)) ∧
     ∀ obj, obj !! "status" =
       Some (VMap (<["conditions" := VList (conditions ++ [VMap (StatusCondition_Object c)])]> status)) →
     GetStatusCondition obj (sc_Type c) = Ok (Some c)) ∧
  SetCondition None c = Panic "assignment to entry in nil map".
Proof using All.
  intros Hc present. unfold SetCondition. simpl.
  assert (Hempty : NestedSlice ∅ ["conditions"] = Ok None)
    by (apply NestedSlice_absent; by rewrite NestedField_field, lookup_empty).
  rewrite Hempty. split_and!; [| |done].
  - intros Hp. destruct (NestedSlice_conditions _ _ Hc) as [[_ ->]| ->]; [done|].
    simpl. fold present. by rewrite Hp.
  - intros Hp. split.
    + destruct (NestedSlice_conditions _ _ Hc) as [[-> ->]| ->]; simpl.
      * by rewrite SetNestedField_field.
      * fold present. rewrite Hp. by rewrite SetNestedField_field.
    + intros obj Hobj. unfold GetStatusCondition.
      erewrite NestedSlice_list; [simpl|].
      2: { rewrite (NestedField_under _ _ _ _ Hobj) by done. by rewrite NestedField_field, lookup_insert_eq. }
      unfold mret, res_ret. do 2 f_equal.
      rewrite omap_app. assert (omap (condition_of_type (sc_Type c)) conditions = []) as ->.
      { subst present. clear -Hp. induction conditions as [|x l IH]; [done|]. simpl in *.
        apply orb_false_iff in Hp as [Hx Hl]. apply bool_decide_eq_false in Hx.
        destruct (condition_of_type _ x); [by destruct Hx|]. by apply IH. }
      cbn [app omap list_omap]. rewrite StatusCondition_Object_type. simpl. f_equal.
      apply StatusCondition_roundtrip.
Qed.
End properties.

Section examples.
#[local] Existing Instance treeAPI.

Definition ready (status : string) : StatusCondition :=
  {| sc_Type := "Ready"; sc_Status := status; sc_Reason := ""; sc_Message := "" |}.
Definition ready_status : object := {[ "conditions" := VList [VMap (StatusCondition_Object (ready "False"))] ]}.

(** The update of the existing condition is lost. *)
Lemma SetCondition_spec_witness :
  SetCondition (Some ready_status) (ready "True") = Ok (Some ready_status) ∧
  SetCondition (Some ∅) (ready "True") =
    Ok (Some {[ "conditions" := VList [VMap (StatusCondition_Object (ready "True"))] ]}).
Proof.
  split.
  - apply (SetCondition_spec ready_status [VMap (StatusCondition_Object (ready "False"))]);
      [left; reflexivity|vm_compute; reflexivity].
  - apply (SetCondition_spec ∅ [] (ready "True")); [right; split; reflexivity|reflexivity].
Defined.
End examples.
