(* ===== verification/RollingUpdate.v ===== *)
(** * Rolling updates: [pkg/controller/composite/rolling_update.go] and the
    [parentRevision] half of [controller_revision.go]

    During a rollout every [ControllerRevision] of a parent claims the children
    it is responsible for.  The revisions of one sync are a list whose first
    element is the latest; a [*parentRevision] is a position in it.  A rollout
    threads the list and the map of claims, both of which the code changes in
    place. *)
From S2P Require Import Prelude Value K8s K8sInst Apply ObjectMap Discovery Types World ManageChildren Status.
From stdpp Require Import options.

Record CompositeHookResponse := {
  cr_Status : option object;
  cr_Children : list (option object);
  cr_ResyncAfterSeconds : Z;
  cr_Finalized : bool;
}.

Record parentRevision := {
  pr_parent : object;
  pr_revision : option ControllerRevision;
  pr_syncResult : option CompositeHookResponse;
  pr_syncError : option error;
  pr_desiredChildMap : RelativeObjectMap;
}.

Definition set_pr_revision (r : ControllerRevision) (pr : parentRevision) : parentRevision := {|
  pr_parent := pr_parent pr;
  pr_revision := Some r;
  pr_syncResult := pr_syncResult pr;
  pr_syncError := pr_syncError pr;
  pr_desiredChildMap := pr_desiredChildMap pr;
|}.
Definition set_pr_desiredChildMap (m : RelativeObjectMap) (pr : parentRevision) : parentRevision := {|
  pr_parent := pr_parent pr;
  pr_revision := pr_revision pr;
  pr_syncResult := pr_syncResult pr;
  pr_syncError := pr_syncError pr;
  pr_desiredChildMap := m;
|}.
Definition set_pr_status (status : option object) (pr : parentRevision) : parentRevision := {|
  pr_parent := pr_parent pr;
  pr_revision := pr_revision pr;
  pr_syncResult := (λ r, {| cr_Status := status;
                            cr_Children := cr_Children r;
                            cr_ResyncAfterSeconds := cr_ResyncAfterSeconds r;
                            cr_Finalized := cr_Finalized r |}) <$> pr_syncResult pr;
  pr_syncError := pr_syncError pr;
  pr_desiredChildMap := pr_desiredChildMap pr;
|}.

(** ** The claims of a revision *)
Definition is_group (apiGroup kind : string) (ch : ControllerRevisionChildren) : bool :=
  (crc_APIGroup ch == apiGroup) && (crc_Kind ch == kind).

Definition with_names (f : list string → list string) (ch : ControllerRevisionChildren)
    : ControllerRevisionChildren := {|
  crc_APIGroup := crc_APIGroup ch;
  crc_Kind := crc_Kind ch;
  crc_Names := f (crc_Names ch);
|}.

(** Change the first matching group, or add one for the names [new]. *)
Fixpoint update_group (apiGroup kind : string) (f : list string → list string) (new : list ControllerRevisionChildren)
    (l : list ControllerRevisionChildren) : list ControllerRevisionChildren :=
  match l with
  | [] => new
  | ch :: l =>
    if is_group apiGroup kind ch then with_names f ch :: l
    else ch :: update_group apiGroup kind f new l
  end.

Definition append_name (name : string) (names : list string) : list string :=
  if bool_decide (name ∈ names) then names else names ++ [name].

Fixpoint remove_name (name : string) (names : list string) : list string :=
  match names with
  | [] => []
  | n :: names => if n == name then names else n :: remove_name name names
  end.

(** [pr.revision.Children = f(pr.revision.Children)]: a nil revision panics. *)
Definition on_children (f : list ControllerRevisionChildren → list ControllerRevisionChildren)
    (pr : parentRevision) : res parentRevision :=
  revision ← deref (pr_revision pr);
  mret (set_pr_revision (set_rev_Children (f (rev_Children revision)) revision) pr).

Definition addChild (pr : parentRevision) (apiGroup kind name : string) : res parentRevision :=
  on_children (update_group apiGroup kind (append_name name)
    [{| crc_APIGroup := apiGroup; crc_Kind := kind; crc_Names := [name] |}]) pr.

Definition removeChild (pr : parentRevision) (apiGroup kind name : string) : res parentRevision :=
  on_children (update_group apiGroup kind (remove_name name) []) pr.

Definition countChildren (pr : parentRevision) : nat :=
  match pr_revision pr with
  | None => 0
  | Some revision => foldl (λ count ch, count + length (crc_Names ch)) 0 (rev_Children revision)
  end.

Definition pruneParentRevisions (parentRevisions : list parentRevision) : res (list parentRevision) :=
  match parentRevisions with
  | [] => Panic "index out of range"
  | latest :: rest => mret (latest :: filter (λ pr, (0 <? countChildren pr)%nat) rest)
  end.

(** ** The claims of a sync *)
Definition claimMapKey (apiGroup kind : string) : string := kind +:+ "." +:+ apiGroup.

Abbreviation childClaimMap := (gmap string (gmap string nat)).

Definition getKind (m : childClaimMap) (apiGroup kind : string) : gmap string nat :=
  default ∅ (m !! claimMapKey apiGroup kind).

Definition setParentRevision (m : childClaimMap) (apiGroup kind name : string) (pr : nat) : childClaimMap :=
  let key := claimMapKey apiGroup kind in
  <[key := <[name := pr]> (default ∅ (m !! key))]> m.

(** ** Update strategies *)
Abbreviation updateStrategyMap := (gmap string ChildUpdateStrategy).

Definition updateStrategyMap_get (m : updateStrategyMap) (apiGroup kind : string)
    : option ChildUpdateStrategy :=
  m !! claimMapKey apiGroup kind.

Definition updateStrategyMap_GetMethod (m : updateStrategyMap) (apiGroup kind : string) : ChildUpdateMethod :=
  match updateStrategyMap_get m apiGroup kind with
  | None => ChildUpdateOnDelete
  | Some strategy => if cus_Method strategy == "" then ChildUpdateOnDelete else cus_Method strategy
  end.

Definition isRollingStrategy (strategy : option ChildUpdateStrategy) : bool :=
  match strategy with
  | None => false
  | Some strategy =>
    (cus_Method strategy == ChildUpdateRollingInPlace) || (cus_Method strategy == ChildUpdateRollingRecreate)
  end.

Definition isRolling (m : updateStrategyMap) (apiGroup kind : string) : bool :=
  isRollingStrategy (updateStrategyMap_get m apiGroup kind).

Definition anyRolling `{!GoRuntime} (m : updateStrategyMap) : bool :=
  existsb (λ '(_, strategy), isRollingStrategy (Some strategy)) (range m).

Definition makeUpdateStrategyMap (resources : ResourceMap) (cc : CompositeController) : res updateStrategyMap :=
  foldlM (λ m child,
    let rule := child_rule child in
    match child_UpdateStrategy child with
    | Some strategy =>
      if cus_Method strategy != ChildUpdateOnDelete then
        match ResourceMap_Get resources (rr_APIVersion rule) (rr_Resource rule) with
        | None => Err (ErrorString ("can't find child resource " +:+ quote (rr_Resource rule) +:+
                                    " in " +:+ rr_APIVersion rule))
        | Some resource =>
          let '(apiGroup, _) := ParseAPIVersion (rr_APIVersion rule) in
          mret (<[claimMapKey apiGroup (ar_Kind resource) := strategy]> m)
        end
      else mret m
    | None => mret m
    end) ∅ (cc_ChildResources cc).

(** ** Status checks *)
Section status_check.
Context {API : Apimachinery}.

Definition condition_check (child : object) (condCheck : StatusConditionCheck) : res unit :=
  let type := quote (scc_Type condCheck) in
  match GetStatusCondition child (scc_Type condCheck) with
  | Panic s => Panic s
  | Err _ | Ok None => Err (ErrorString ("required condition type missing: " +:+ type))
  | Ok (Some cond) =>
    match scc_Status condCheck with
    | Some want =>
      if sc_Status cond != want
      then Err (ErrorString (type +:+ " condition status is " +:+ quote (sc_Status cond) +:+
                             " (want " +:+ quote want +:+ ")"))
      else mret ()
    | None => mret ()
    end ;;
    match scc_Reason condCheck with
    | Some want =>
      if sc_Reason cond != want
      then Err (ErrorString (type +:+ " condition reason is " +:+ quote (sc_Reason cond) +:+
                             " (want " +:+ quote want +:+ ")"))
      else mret ()
    | None => mret ()
    end
  end.

(** The callers pass the address of a struct: [checks] is not nil. *)
Definition childStatusCheck (checks : ChildUpdateStatusChecks) (child : object) : res unit :=
  foldlM (λ _ condCheck, condition_check child condCheck) () (Conditions checks).
End status_check.

(** ** The rollout *)
Section rollout.
Context {RT : GoRuntime} {API : Apimachinery} {T : Type} {OM : ObjectMap T}.

Record Rollout := {
  ro_revisions : list parentRevision;
  ro_claimed : childClaimMap;
}.

Definition parent_revision (i : nat) : M Rollout parentRevision := λ st,
  match ro_revisions st !! i with
  | Some pr => (Ok pr, st)
  | None => (Panic "index out of range", st)
  end.

(** Change the revision at [i] in place. *)
Definition on_revision (i : nat) (f : parentRevision → res parentRevision) : M Rollout unit :=
  pr ← parent_revision i;
  pr ← lift (f pr);
  modify (λ st, {| ro_revisions := <[i := pr]> (ro_revisions st); ro_claimed := ro_claimed st |}).

Definition set_claim (apiGroup kind name : string) (i : nat) : M Rollout unit :=
  modify (λ st, {| ro_revisions := ro_revisions st;
                   ro_claimed := setParentRevision (ro_claimed st) apiGroup kind name i |}).

(** *** [syncRevisionClaims] *)

(** The loop over the names of a group: the claims, and [names]. *)
Definition claim_name (desired : RelativeObjectMap) (ck : ControllerRevisionChildren) (i : nat)
    (acc : childClaimMap * list string) (name : string) : childClaimMap * list string :=
  let '(claimed, names) := acc in
  let gk := {| gk_Group := crc_APIGroup ck; gk_Kind := crc_Kind ck |} in
  match RelativeObjectMap_FindGroupKindName desired gk name with
  | None => (claimed, names)
  | Some _ =>
    let key := claimMapKey (crc_APIGroup ck) (crc_Kind ck) in
    let claimMap := default ∅ (claimed !! key) in
    if bool_decide (is_Some (claimMap !! name)) then (claimed, names)
    else (<[key := <[name := i]> claimMap]> claimed, names ++ [name])
  end.

(** The loop over the groups of a revision: the claims, and [children]. *)
Definition claim_group (strategy : updateStrategyMap) (desired : RelativeObjectMap) (i : nat)
    (acc : childClaimMap * list ControllerRevisionChildren) (ck : ControllerRevisionChildren)
    : childClaimMap * list ControllerRevisionChildren :=
  let '(claimed, children) := acc in
  if negb (isRolling strategy (crc_APIGroup ck) (crc_Kind ck)) then (claimed, children)
  else
    let '(claimed, names) := foldl (claim_name desired ck i) (claimed, []) (crc_Names ck) in
    match names with
    | [] => (claimed, children)
    | _ => (claimed, children ++ [ck])
    end.

Definition syncRevisionClaims (strategy : updateStrategyMap) (parentRevisions : list parentRevision)
    : res (childClaimMap * list parentRevision) :=
  match parentRevisions with
  | [] => Panic "index out of range"
  | latest :: _ =>
    let desired := pr_desiredChildMap latest in
    foldlM (λ '(claimed, done) '(i, pr),
      revision ← deref (pr_revision pr);
      let '(claimed, children) := foldl (claim_group strategy desired i) (claimed, []) (rev_Children revision) in
      mret (claimed, done ++ [set_pr_revision (set_rev_Children children revision) pr]))
      (∅, []) (imap pair parentRevisions)
  end.

(** *** Comparing a child with what the latest revision wants *)

(** [common.ApplyUpdate(child, update)] for a pointer [update] into the latest
    revision's desired children, where it is stored under its kind and [name]:
    its last-applied annotation is dropped in place. *)
Definition ApplyUpdate_in_place (child : object) (name : string) (update : option object)
    : M Rollout object :=
  match GetLastApplied child with
  | Ok _ =>
    update ← lift (deref update);
    on_revision 0 (λ latest,
      mret (set_pr_desiredChildMap
        (Relative (alter (alter nullifyLastAppliedAnnotation name) (obj_GroupVersionKind update)
                     (relative_groups (pr_desiredChildMap latest)))) latest)) ;;
    lift (ApplyUpdate child update)
  | Err e => throw e
  | Panic s => lift (Panic s)
  end.

(** *** [shouldContinueRolling] *)
Definition check_child (strategy : ChildUpdateStrategy) (observedChildren : T)
    (ck : ControllerRevisionChildren) (name : string) : M Rollout unit :=
  let kind := crc_Kind ck in
  let groupKind := {| gk_Group := crc_APIGroup ck; gk_Kind := kind |} in
  match FindGroupKindName observedChildren groupKind name with
  | None => throw (ErrorString ("missing child " +:+ kind +:+ " " +:+ name))
  | Some child =>
    latest ← parent_revision 0;
    let update := RelativeObjectMap_FindGroupKindName (pr_desiredChildMap latest) groupKind name in
    updated ← wrap_errM ("can't check if child " +:+ kind +:+ " " +:+ name +:+ " is updated")
                (ApplyUpdate_in_place child name update);
    if negb (DeepEqual (VMap child) (VMap updated))
    then throw (ErrorString ("child " +:+ kind +:+ " " +:+ name +:+ " is not updated yet"))
    else
      (if cus_Method strategy == ChildUpdateRollingInPlace then
         (* an error comes with the generation 0, so it is never returned *)
         match GetObservedGeneration child with
         | Ok (Some observedGeneration) =>
           if (0 <? observedGeneration)%Z && (observedGeneration <? GetGeneration child)%Z
           then throw (ErrorString ("child " +:+ kind +:+ " " +:+ name +:+
                  " with RollingInPlace update strategy hasn't observed latest spec"))
           else mret ()
         | Panic s => lift (Panic s)
         | _ => mret ()
         end
       else mret ()) ;;
      lift (wrap_err ("child " +:+ kind +:+ " " +:+ name +:+ " failed status check")
              (childStatusCheck (cus_StatusChecks strategy) child))
  end.

Definition shouldContinueRolling (strategy : updateStrategyMap) (observedChildren : T) : M Rollout unit :=
  latest ← parent_revision 0;
  revision ← lift (deref (pr_revision latest));
  foldlM (λ _ ck,
    match updateStrategyMap_get strategy (crc_APIGroup ck) (crc_Kind ck) with
    | Some s =>
      if negb (isRollingStrategy (Some s)) then mret ()
      else foldlM (λ _ name, check_child s observedChildren ck name) () (crc_Names ck)
    | None => mret ()
    end) () (rev_Children revision).

(** *** [syncRollingUpdate] *)

(** The body of the first loop: a child the latest revision desires. *)
Definition adopt_child (observedChildren : T) (gvk : GroupVersionKind) (name : string)
    (desiredChild : object) : M Rollout unit :=
  let apiGroup := gvk_Group gvk in
  let kind := gvk_Kind gvk in
  st ← get_state;
  match getKind (ro_claimed st) apiGroup kind !! name with
  | None =>
    on_revision 0 (λ latest, addChild latest apiGroup kind name) ;;
    set_claim apiGroup kind name 0
  | Some pr =>
    if pr == 0%nat then mret ()
    else
      match FindGroupKindName observedChildren (gvk_GroupKind gvk) name with
      | None => mret ()
      | Some child =>
        r ← try (ApplyUpdate_in_place child name (Some desiredChild));
        match r with
        | inr _ => mret ()
        | inl updated =>
          if DeepEqual (VMap child) (VMap updated) then
            on_revision 0 (λ latest, addChild latest apiGroup kind name) ;;
            on_revision pr (λ pr, removeChild pr apiGroup kind name) ;;
            set_claim apiGroup kind name 0
          else mret ()
        end
      end
  end.

Definition adopt_children (strategy : updateStrategyMap) (observedChildren : T) : M Rollout unit :=
  latest ← parent_revision 0;
  foldlM (λ _ '(gvk, objects),
    if negb (isRolling strategy (gvk_Group gvk) (gvk_Kind gvk)) then mret ()
    else foldlM (λ _ '(name, desiredChild), adopt_child observedChildren gvk name desiredChild) () (range objects))
    () (range (relative_groups (pr_desiredChildMap latest))).

Definition updatedConditionType : string := "Updated".

Definition updated_condition (status reason message : string) : StatusCondition :=
  {| sc_Type := updatedConditionType; sc_Status := status; sc_Reason := reason; sc_Message := message |}.

(** [dynamicobject.SetCondition(latest.syncResult.Status, updatedCondition)] *)
Definition set_latest_condition (c : StatusCondition) : M Rollout unit :=
  on_revision 0 (λ latest,
    result ← deref (pr_syncResult latest);
    status ← SetCondition (cr_Status result) c;
    mret (set_pr_status status latest)).

(** The one move of a pass: [latest] takes the child from all other revisions. *)
Definition move_child (apiGroup kind name : string) : M Rollout unit :=
  on_revision 0 (λ latest, addChild latest apiGroup kind name) ;;
  st ← get_state;
  foldlM (λ _ i, on_revision i (λ pr, removeChild pr apiGroup kind name)) ()
    (seq 1 (length (ro_revisions st) - 1)).

(** The second loop, over the children of the latest hook result. *)
Fixpoint roll_next (strategy : updateStrategyMap) (observedChildren : T) (children : list (option object))
    : M Rollout unit :=
  match children with
  | [] =>
    latest ← parent_revision 0;
    revision ← lift (deref (pr_revision latest));
    set_latest_condition (updated_condition "True" "OnLatestRevision"
      ("latest ControllerRevision: " +:+ rev_Name revision))
  | child :: children =>
    child ← lift (deref child);
    let apiGroup := (ParseAPIVersion (GetAPIVersion child)).1 in
    let kind := GetKind child in
    let name := GetName child in
    if negb (isRolling strategy apiGroup kind) then roll_next strategy observedChildren children
    else
      st ← get_state;
      if getKind (ro_claimed st) apiGroup kind !! name != Some 0%nat then
        r ← try (shouldContinueRolling strategy observedChildren);
        match r with
        | inr err => set_latest_condition (updated_condition "False" "RolloutWaiting" (error_Error err))
        | inl _ =>
          move_child apiGroup kind name ;;
          set_latest_condition (updated_condition "False" "RolloutProgressing"
            ("updating " +:+ kind +:+ " " +:+ name))
        end
      else roll_next strategy observedChildren children
  end.

Definition syncRollingUpdate (strategy : updateStrategyMap) (parentRevisions : list parentRevision)
    (observedChildren : T) : res (list parentRevision) :=
  '(claimed, parentRevisions) ← syncRevisionClaims strategy parentRevisions;
  let rollout : M Rollout unit :=
    adopt_children strategy observedChildren ;;
    latest ← parent_revision 0;
    result ← lift (deref (pr_syncResult latest));
    roll_next strategy observedChildren (cr_Children result) in
  let '(r, st) := rollout {| ro_revisions := parentRevisions; ro_claimed := claimed |} in
  _ ← r; mret (ro_revisions st).
End rollout.

(** ** Claims as a set *)
Definition child_claims (l : list ControllerRevisionChildren) : list (string * string * string) :=
  l ≫= λ ch, (λ name, (crc_APIGroup ch, crc_Kind ch, name)) <$> crc_Names ch.

Definition revision_children (pr : parentRevision) : list ControllerRevisionChildren :=
  match pr_revision pr with Some r => rev_Children r | None => [] end.

(** One group per kind, and no name twice in it. *)
Definition group_id (ch : ControllerRevisionChildren) : string * string := (crc_APIGroup ch, crc_Kind ch).
Definition wf_children (l : list ControllerRevisionChildren) : Prop :=
  NoDup (group_id <$> l) ∧ Forall (λ ch, NoDup (crc_Names ch)) l.

Lemma is_group_spec g k ch : is_group g k ch = true ↔ group_id ch = (g, k).
Proof using All. unfold is_group, group_id. rewrite andb_true_iff, !bool_decide_eq_true. naive_solver. Qed.

Lemma is_group_false g k ch : is_group g k ch = false ↔ group_id ch ≠ (g, k).
Proof using All. rewrite <-is_group_spec. by destruct (is_group g k ch). Qed.

Lemma elem_of_child_claims g k n l :
  (g, k, n) ∈ child_claims l ↔ ∃ ch, ch ∈ l ∧ group_id ch = (g, k) ∧ n ∈ crc_Names ch.
Proof.
  unfold child_claims, group_id. rewrite list_elem_of_bind. split.
  - intros (ch & (m & [= -> -> ->] & Hm)%list_elem_of_fmap & Hch). eauto.
  - intros (ch & Hch & [= <- <-] & Hn). exists ch. split; [|done]. apply list_elem_of_fmap. eauto.
Qed.

Lemma elem_of_append_name n m names : n ∈ append_name m names ↔ n ∈ names ∨ n = m.
Proof using All. unfold append_name. case_bool_decide; set_solver. Qed.

Lemma NoDup_append_name m names : NoDup names → NoDup (append_name m names).
Proof.
  unfold append_name. case_bool_decide; [done|]. intros. apply NoDup_app.
  split_and!; [done|set_solver|apply NoDup_singleton].
Qed.

Lemma remove_name_sublist m names : remove_name m names `sublist_of` names.
Proof.
  induction names as [|x names IH]; simpl; [done|].
  case_bool_decide; [by apply sublist_cons|by apply sublist_skip].
Qed.

Lemma elem_of_remove_name n m names :
  NoDup names → n ∈ remove_name m names ↔ n ∈ names ∧ n ≠ m.
Proof.
  induction 1 as [|x names Hx _ IH]; simpl; [set_solver|].
  case_bool_decide as Hm; [subst; set_solver|]. rewrite !elem_of_cons, IH. naive_solver.
Qed.

Lemma NoDup_remove_name m names : NoDup names → NoDup (remove_name m names).
Proof using All. intros. eapply sublist_NoDup; [done|apply remove_name_sublist]. Qed.

Lemma update_group_ids g k f new l :
  group_id <$> update_group g k f new l =
    if existsb (is_group g k) l then group_id <$> l else (group_id <$> l) ++ (group_id <$> new).
Proof.
  induction l as [|ch l IH]; [done|]. cbn [update_group existsb].
  destruct (is_group g k ch); [done|]. rewrite !fmap_cons, IH. by destruct (existsb _ l).
Qed.

Lemma existsb_is_group g k l : existsb (is_group g k) l = true ↔ (g, k) ∈ group_id <$> l.
Proof.
  rewrite existsb_exists, list_elem_of_fmap. split.
  - intros (ch & Hch & Hg). exists ch. apply is_group_spec in Hg. by rewrite list_elem_of_In.
  - intros (ch & Hg & Hch). exists ch. rewrite is_group_spec. by rewrite <-list_elem_of_In.
Qed.

(** The groups of a well-formed list after an update. *)
Lemma elem_of_update_group g k f new l ch :
  NoDup (group_id <$> l) →
  ch ∈ update_group g k f new l ↔
    (ch ∈ l ∧ group_id ch ≠ (g, k)) ∨
    (∃ ch', ch' ∈ l ∧ group_id ch' = (g, k) ∧ ch = with_names f ch') ∨
    ((g, k) ∉ group_id <$> l ∧ ch ∈ new).
Proof.
  induction l as [|x l IH]; simpl; intros Hnd; [set_solver|].
  apply NoDup_cons in Hnd as [Hx Hnd]. destruct (is_group g k x) eqn:Hg.
  - apply is_group_spec in Hg. split.
    + intros [->|Hch]%elem_of_cons.
      * right; left. exists x. set_solver.
      * left. split; [set_solver|]. intros He. apply Hx. rewrite Hg, <-He. by apply list_elem_of_fmap_2.
    + intros [[[->|Hch]%elem_of_cons Hne]|[(ch' & [->|Hch]%elem_of_cons & He & ->)|[Hn _]]].
      * done.
      * by apply elem_of_cons; right.
      * by apply elem_of_cons; left.
      * destruct Hx. rewrite Hg, <-He. by apply list_elem_of_fmap_2.
      * destruct Hn. rewrite Hg. apply elem_of_cons. by left.
  - apply is_group_false in Hg. rewrite elem_of_cons, IH by done. clear IH. split.
    + intros [->|[[??]|[(ch' & ? & ? & ->)|[??]]]]; [left; set_solver|left; set_solver| |].
      * right; left. exists ch'. set_solver.
      * right; right. set_solver.
    + intros [[[->|?]%elem_of_cons ?]|[(ch' & [->|?]%elem_of_cons & ? & ->)|[Hn ?]]].
      * by left.
      * right; by left.
      * done.
      * right; right; left; eauto.
      * right; right; right. set_solver.
Qed.

Lemma wf_update_group g k f new l :
  wf_children l → wf_children new → (∀ names, NoDup names → NoDup (f names)) →
  Forall (λ ch, group_id ch = (g, k)) new → length new ≤ 1 →
  wf_children (update_group g k f new l).
Proof.
  intros [Hl1 Hl2] [_ Hn2] Hf Hnew Hlen. split.
  - rewrite update_group_ids. destruct (existsb (is_group g k) l) eqn:He; [done|].
    assert (Hgk : (g, k) ∉ group_id <$> l) by (rewrite <-existsb_is_group; by rewrite He).
    apply NoDup_app. split_and!; [done| |].
    + intros x Hx (ch & -> & Hch)%list_elem_of_fmap. rewrite Forall_forall in Hnew.
      by rewrite (Hnew _ Hch) in Hx.
    + destruct new as [|a [|b new]]; [constructor|apply NoDup_singleton|simpl in Hlen; lia].
  - apply Forall_forall. rewrite Forall_forall in Hl2, Hn2.
    intros ch [[? _]|[(ch' & ? & _ & ->)|[_ ?]]]%elem_of_update_group; [by auto| |by auto|done].
    simpl. auto.
Qed.

Definition add_child_list (g k n : string) : list ControllerRevisionChildren → list ControllerRevisionChildren :=
  update_group g k (append_name n) [{| crc_APIGroup := g; crc_Kind := k; crc_Names := [n] |}].
Definition remove_child_list (g k n : string) : list ControllerRevisionChildren → list ControllerRevisionChildren :=
  update_group g k (remove_name n) [].

Lemma add_child_claims g k n l :
  wf_children l →
  wf_children (add_child_list g k n l) ∧
  ∀ c, c ∈ child_claims (add_child_list g k n l) ↔ c ∈ child_claims l ∨ c = (g, k, n).
Proof.
  intros Hl. pose proof Hl as [Hnd Hnames]. split.
  { apply wf_update_group; [done| |apply NoDup_append_name|by repeat constructor|simpl; lia].
    split; repeat constructor; set_solver. }
  intros [[g' k'] n']. unfold add_child_list. rewrite !elem_of_child_claims. split.
  - intros (ch & Hch & Hg & Hn). apply elem_of_update_group in Hch as [[Hch Hne]|[(c & Hch & Hc & ->)|[_ Hch]]]; [..|done].
    + left; eauto.
    + simpl in *. apply elem_of_append_name in Hn as [Hn| ->]; [left; by eauto|right].
      unfold group_id in *. simpl in *. congruence.
    + right. apply list_elem_of_singleton in Hch as ->. unfold group_id in Hg. simpl in *.
      apply list_elem_of_singleton in Hn as ->. congruence.
  - intros [(ch & Hch & Hg & Hn)|[= -> -> ->]].
    + destruct (decide (group_id ch = (g, k))) as [Heq|Hne].
      * exists (with_names (append_name n) ch). split_and!; [|done|apply elem_of_append_name; by left].
        apply elem_of_update_group; [done|]. right; left. eauto.
      * exists ch. split; [|done]. apply elem_of_update_group; [done|]. by left.
    + destruct (decide ((g, k) ∈ group_id <$> l)) as [Hin|Hout].
      * apply list_elem_of_fmap in Hin as (ch & Hg & Hch).
        exists (with_names (append_name n) ch). split_and!; [|done|apply elem_of_append_name; by right].
        apply elem_of_update_group; [done|]. right; left. eauto.
      * eexists. split_and!; [apply elem_of_update_group; [done|]; right; right; split; [done|];
          apply list_elem_of_singleton; reflexivity|done|]. simpl. set_solver.
Qed.

Lemma remove_child_claims g k n l :
  wf_children l →
  wf_children (remove_child_list g k n l) ∧
  ∀ c, c ∈ child_claims (remove_child_list g k n l) ↔ c ∈ child_claims l ∧ c ≠ (g, k, n).
Proof.
  intros Hl. pose proof Hl as [Hnd Hnames]. rewrite Forall_forall in Hnames. split.
  { apply wf_update_group; [done|by repeat constructor|apply NoDup_remove_name|constructor|simpl; lia]. }
  intros [[g' k'] n']. unfold remove_child_list. rewrite !elem_of_child_claims. split.
  - intros (ch & Hch & Hg & Hn). apply elem_of_update_group in Hch as [[Hch Hne]|[(c & Hch & Hc & ->)|[_ Hch]]];
      [..|by apply not_elem_of_nil in Hch|done].
    + split; [by eauto|]. congruence.
    + simpl in *. apply elem_of_remove_name in Hn as [Hn Hne]; [|by auto].
      split; [by eauto|]. congruence.
  - intros [(ch & Hch & Hg & Hn) Hne]. destruct (decide (group_id ch = (g, k))) as [Heq|Hgk].
    + exists (with_names (remove_name n) ch). split_and!; [|done|].
      * apply elem_of_update_group; [done|]. right; left. eauto.
      * apply elem_of_remove_name; [by auto|]. split; [done|]. congruence.
    + exists ch. split; [|done]. apply elem_of_update_group; [done|]. by left.
Qed.

(** A revision's children form a set of claims, one group per kind and no
    name twice: adding a child adds exactly that claim, removing one drops
    exactly that claim, and both keep the children well-formed; a parent
    revision without a [ControllerRevision] panics. *)
Theorem parentRevision_claims pr revision apiGroup kind name :
  pr_revision pr = Some revision → wf_children (rev_Children revision) →
  (∃ added, addChild pr apiGroup kind name = Ok added ∧ wf_children (revision_children added) ∧
     ∀ c, c ∈ child_claims (revision_children added) ↔
       c ∈ child_claims (rev_Children revision) ∨ c = (apiGroup, kind, name)) ∧
  (∃ removed, removeChild pr apiGroup kind name = Ok removed ∧ wf_children (revision_children removed) ∧
     ∀ c, c ∈ child_claims (revision_children removed) ↔
       c ∈ child_claims (rev_Children revision) ∧ c ≠ (apiGroup, kind, name)).
Proof.
  intros Hpr Hwf. unfold addChild, removeChild, on_children. rewrite Hpr.
  destruct (add_child_claims apiGroup kind name _ Hwf) as [Ha1 Ha2].
  destruct (remove_child_claims apiGroup kind name _ Hwf) as [Hr1 Hr2].
  split; eexists; (split; [reflexivity|]); by split.
Qed.

Lemma foldl_add_length l n :
  foldl (λ count ch, count + length (crc_Names ch)) n l = n + length (child_claims l).
Proof.
  revert n. induction l as [|ch l IH]; intros n; simpl; [lia|].
  rewrite IH. unfold child_claims. cbn [mbind list_bind]. rewrite length_app, length_fmap. lia.
Qed.

Lemma countChildren_claims pr : countChildren pr = length (child_claims (revision_children pr)).
Proof.
  unfold countChildren, revision_children. destruct (pr_revision pr); [|done].
  by rewrite foldl_add_length.
Qed.

(** Pruning keeps the latest revision, and of the others exactly those
    that still claim a child, in their order: no claim is ever pruned. *)
Theorem pruneParentRevisions_spec latest rest :
  ∃ kept, pruneParentRevisions (latest :: rest) = Ok (latest :: kept) ∧
    kept `sublist_of` rest ∧
    (∀ pr, pr ∈ rest → pr ∈ kept ↔ child_claims (revision_children pr) ≠ []) ∧
    (rest ≫= λ pr, child_claims (revision_children pr)) =
      (kept ≫= λ pr, child_claims (revision_children pr)).
Proof.
  eexists. split; [reflexivity|]. split_and!.
  - apply sublist_filter.
  - intros pr Hpr. rewrite list_elem_of_filter, countChildren_claims.
    destruct (child_claims _); simpl; [|naive_solver]. split; [|done]. by intros [? _].
  - induction rest as [|pr rest IH]; [done|]. rewrite filter_cons.
    cbn [mbind list_bind] in *. rewrite IH. case_decide as Hc; [done|].
    rewrite countChildren_claims in Hc. by destruct (child_claims (revision_children pr)).
Qed.

(** ** Reconciling the claims *)
Section claim_properties.
Context {RT : GoRuntime} {API : Apimachinery}.

Definition claimed_by (claimed : childClaimMap) (key name : string) : option nat :=
  default ∅ (claimed !! key) !! name.

Definition group_key (ck : ControllerRevisionChildren) : string :=
  claimMapKey (crc_APIGroup ck) (crc_Kind ck).

Definition desires (desired : RelativeObjectMap) (ck : ControllerRevisionChildren) (name : string) : Prop :=
  is_Some (RelativeObjectMap_FindGroupKindName desired
    {| gk_Group := crc_APIGroup ck; gk_Kind := crc_Kind ck |} name).

(** The group [ck] holds a claim of [name] under [key] that counts. *)
Definition valid_claim (strategy : updateStrategyMap) (desired : RelativeObjectMap)
    (ck : ControllerRevisionChildren) (key name : string) : Prop :=
  isRolling strategy (crc_APIGroup ck) (crc_Kind ck) = true ∧ group_key ck = key ∧
  name ∈ crc_Names ck ∧ desires desired ck name.

Lemma claimed_by_insert claimed key name i key' name' :
  claimed_by (<[key := <[name := i]> (default ∅ (claimed !! key))]> claimed) key' name' =
    if decide (key = key' ∧ name = name') then Some i else claimed_by claimed key' name'.
Proof.
  unfold claimed_by. destruct (decide (key = key')) as [->|Hk].
  - rewrite lookup_insert_eq. simpl. destruct (decide (name = name')) as [->|Hn].
    + rewrite lookup_insert_eq. by rewrite decide_True.
    + rewrite lookup_insert_ne by done. by rewrite decide_False by tauto.
  - rewrite lookup_insert_ne by done. by rewrite decide_False by tauto.
Qed.

(** The claims that a step adds are the valid ones of [P] that nobody made. *)
Definition extends (i : nat) (P : string → string → Prop) (claimed claimed' : childClaimMap) : Prop :=
  ∀ key name j, claimed_by claimed' key name = Some j ↔
    claimed_by claimed key name = Some j ∨
    (claimed_by claimed key name = None ∧ j = i ∧ P key name).

Lemma extends_refl i claimed : extends i (λ _ _, False) claimed claimed.
Proof. intros key name j. naive_solver. Qed.

Lemma extends_ext i P Q claimed claimed' :
  extends i P claimed claimed' → (∀ key name, P key name ↔ Q key name) → extends i Q claimed claimed'.
Proof. intros H HPQ key name j. rewrite (H key name j). specialize (HPQ key name). tauto. Qed.

Lemma extends_trans i P Q c1 c2 c3 :
  extends i P c1 c2 → extends i Q c2 c3 → extends i (λ key name, P key name ∨ Q key name) c1 c3.
Proof.
  intros H12 H23 key name j. rewrite (H23 key name j), (H12 key name j). split.
  - intros [H|(Hn & -> & HQ)]; [naive_solver|]. right. split; [|naive_solver].
    destruct (claimed_by c1 key name) as [j'|] eqn:E; [|done].
    assert (claimed_by c2 key name = Some j') as H by (apply H12; by left). by rewrite Hn in H.
  - intros [H|(Hn & -> & HPQ)]; [by left; left|].
    destruct (claimed_by c2 key name) as [j'|] eqn:E.
    + left. right. apply H12 in E as [E|(_ & -> & HP)]; [by rewrite Hn in E|done].
    + right. split_and!; [done..|]. destruct HPQ as [HP|HQ]; [|done].
      assert (claimed_by c2 key name = Some i) as H by (apply H12; by right). by rewrite E in H.
Qed.

Lemma claim_names_extends desired ck i claimed names l claimed' names' :
  foldl (claim_name desired ck i) (claimed, names) l = (claimed', names') →
  extends i (λ key name, key = group_key ck ∧ name ∈ l ∧ desires desired ck name) claimed claimed' ∧
  (∃ new, names' = names ++ new ∧ ∀ name, name ∈ new →
     name ∈ l ∧ desires desired ck name ∧
     claimed_by claimed (group_key ck) name = None ∧ claimed_by claimed' (group_key ck) name = Some i) ∧
  (∀ name, claimed_by claimed (group_key ck) name = None →
     claimed_by claimed' (group_key ck) name = Some i → name ∈ names').
Proof.
  revert claimed names. induction l as [|n l IH]; intros claimed names; simpl.
  { intros [= <- <-]. split_and!.
    - eapply extends_ext; [apply extends_refl|]. set_solver.
    - exists []. rewrite app_nil_r. set_solver.
    - intros name H1 H2. by rewrite H1 in H2. }
  destruct (RelativeObjectMap_FindGroupKindName desired _ n) as [o|] eqn:Hfind.
  2: { intros H. apply IH in H as (H1 & (new & -> & Hnew) & H3). split_and!; [| |done].
    - eapply extends_ext; [apply H1|]. intros key name. unfold desires.
      split; [set_solver|]. intros (-> & [->|?]%elem_of_cons & Hd); [|done].
      rewrite Hfind in Hd. by destruct Hd.
    - exists new. set_solver. }
  case_bool_decide as Hclaim.
  - intros H. apply IH in H as (H1 & (new & -> & Hnew) & H3). split_and!; [| |done].
    + intros key name j. rewrite (H1 key name j). split; [set_solver|].
      intros [?|(Hn & -> & -> & [->|?]%elem_of_cons & Hd)]; [by left| |right; by auto].
      destruct Hclaim as [j Hj]. unfold claimed_by, group_key in Hn. by rewrite Hj in Hn.
    + exists new. set_solver.
  - intros H. apply IH in H as (H1 & (new & -> & Hnew) & H3).
    assert (Hnone : claimed_by claimed (group_key ck) n = None)
      by (unfold claimed_by; by apply eq_None_not_Some).
    assert (Hext : extends i (λ key name, key = group_key ck ∧ name = n) claimed
      (<[group_key ck := <[n := i]> (default ∅ (claimed !! group_key ck))]> claimed)).
    { intros key name j. rewrite claimed_by_insert. case_decide as Hd.
      - destruct Hd as [<- <-]. rewrite Hnone. naive_solver.
      - split; [by left|]. intros [?|(_ & _ & -> & ->)]; [done|]. by destruct Hd. }
    fold (group_key ck) in *. split_and!.
    + eapply extends_ext; [eapply extends_trans; [apply Hext|apply H1]|].
      intros key name. unfold desires. rewrite elem_of_cons. split; [|naive_solver].
      intros [[-> ->]|?]; [|naive_solver]. rewrite Hfind. eauto.
    + exists (n :: new). rewrite <-app_assoc. split; [done|].
      intros name [->|Hin]%elem_of_cons.
      * split_and!; [set_solver|by eexists|done|]. apply H1. left. apply Hext. by right.
      * destruct (Hnew _ Hin) as (? & ? & Hc & ?). split_and!; [set_solver|done| |done].
        rewrite claimed_by_insert in Hc. by case_decide.
    + intros name Hc Hc'. destruct (decide (name = n)) as [->|Hne]; [set_solver|].
      apply H3; [|done]. rewrite claimed_by_insert, decide_False by naive_solver. done.
Qed.

(** A group that is kept: a rolling one that won the claim of one of its names. *)
Definition kept_group (strategy : updateStrategyMap) (desired : RelativeObjectMap) (i : nat)
    (claimed : childClaimMap) (ck : ControllerRevisionChildren) : Prop :=
  ∃ name, valid_claim strategy desired ck (group_key ck) name ∧
    claimed_by claimed (group_key ck) name = Some i.

Lemma claim_groups_extends strategy desired i l claimed children claimed' children' :
  foldl (claim_group strategy desired i) (claimed, children) l = (claimed', children') →
  extends i (λ key name, ∃ ck, ck ∈ l ∧ valid_claim strategy desired ck key name) claimed claimed' ∧
  ∃ kept, children' = children ++ kept ∧ kept `sublist_of` l ∧
    Forall (kept_group strategy desired i claimed') kept ∧
    (∀ key name, claimed_by claimed key name = None → claimed_by claimed' key name = Some i →
       ∃ ck, ck ∈ kept ∧ valid_claim strategy desired ck key name).
Proof.
  revert claimed children. induction l as [|ck l IH]; intros claimed children; simpl.
  { intros [= <- <-]. split.
    - eapply extends_ext; [apply extends_refl|]. intros ??. split; [done|].
      intros (ck & Hck & _). by apply not_elem_of_nil in Hck.
    - exists []. rewrite app_nil_r. split_and!; [done..|].
      intros key name H1 H2. by rewrite H1 in H2. }
  destruct (isRolling strategy _ _) eqn:Hroll; simpl.
  2: { intros H. apply IH in H as (H1 & kept & -> & Hsub & Hall & Hkept). split.
    - eapply extends_ext; [apply H1|]. intros key name. unfold valid_claim. split; [set_solver|].
      intros (ck' & [->|?]%elem_of_cons & Hv); [|by eauto]. rewrite Hroll in Hv. by destruct Hv.
    - exists kept. split_and!; [done|by apply sublist_cons|done..]. }
  destruct (foldl (claim_name desired ck i) (claimed, []) (crc_Names ck)) as [c1 names] eqn:Hnames.
  apply claim_names_extends in Hnames as (H1 & (new & Hnew & Hin) & Hall).
  simpl in Hnew. subst new.
  set (kept1 := match names with [] => [] | _ => [ck] end).
  assert (Hmatch : match names with [] => (c1, children) | _ => (c1, children ++ [ck]) end =
    (c1, children ++ kept1)) by (subst kept1; destruct names; [by rewrite app_nil_r|done]).
  rewrite Hmatch. intros H. apply IH in H as (H2 & kept & -> & Hsub & Hkept & Hex).
  assert (Hmono : ∀ key name j, claimed_by c1 key name = Some j → claimed_by claimed' key name = Some j)
    by (intros key name j Hj; apply H2; by left).
  split.
  - eapply extends_ext; [eapply extends_trans; [apply H1|apply H2]|].
    intros key name. unfold valid_claim. split.
    + intros [(-> & Hn & Hd)|(ck' & ? & Hv)]; [exists ck; set_solver|exists ck'; set_solver].
    + intros (ck' & [->|?]%elem_of_cons & Hv); [left; naive_solver|right; eauto].
  - exists (kept1 ++ kept). rewrite app_assoc. split_and!; [done| | |].
    + subst kept1. destruct names; [by apply sublist_cons|by apply sublist_skip].
    + apply Forall_app. split; [|done]. subst kept1. destruct names as [|n names]; [constructor|].
      constructor; [|constructor]. exists n. destruct (Hin n) as (? & ? & _ & ?); [by left|].
      split; [|by apply Hmono]. by split_and!.
    + intros key name Hn Hs. destruct (claimed_by c1 key name) as [j|] eqn:E.
      * assert (j = i) as -> by (apply Hmono in E; congruence).
        apply H1 in E as E'. destruct E' as [E'|(_ & _ & -> & Hname & Hd)]; [by rewrite Hn in E'|].
        pose proof (Hall name Hn E) as Hl. exists ck. split.
        -- apply elem_of_app. left. subst kept1. destruct names; [by apply not_elem_of_nil in Hl|].
           by left.
        -- by split_and!.
      * destruct (Hex key name E Hs) as (ck' & ? & ?). exists ck'. split; [|done].
        apply elem_of_app. by right.
Qed.

(** Revision [n] of [l] has a claim that counts. *)
Definition claims_at (strategy : updateStrategyMap) (desired : RelativeObjectMap) (l : list parentRevision)
    (key name : string) (n : nat) : Prop :=
  ∃ pr ck, l !! n = Some pr ∧ ck ∈ revision_children pr ∧ valid_claim strategy desired ck key name.

(** The first revision of [l] that claims the child is number [n]. *)
Definition first_claim (strategy : updateStrategyMap) (desired : RelativeObjectMap) (l : list parentRevision)
    (key name : string) (n : nat) : Prop :=
  claims_at strategy desired l key name n ∧
  ∀ m, m < n → ¬ claims_at strategy desired l key name m.

(** What becomes of revision [i]: it keeps, unchanged, the groups that won a
    claim, and every claim it won is in one of them. *)
Definition reconciled (strategy : updateStrategyMap) (desired : RelativeObjectMap) (claimed : childClaimMap)
    (i : nat) (pr pr' : parentRevision) : Prop :=
  (∃ r children, pr_revision pr = Some r ∧ pr' = set_pr_revision (set_rev_Children children r) pr) ∧
  revision_children pr' `sublist_of` revision_children pr ∧
  Forall (kept_group strategy desired i claimed) (revision_children pr') ∧
  (∀ key name, claimed_by claimed key name = Some i →
     ∃ ck, ck ∈ revision_children pr' ∧ valid_claim strategy desired ck key name).

Lemma claims_at_cons strategy desired pr l key name n :
  claims_at strategy desired (pr :: l) key name n ↔
    match n with
    | 0 => ∃ ck, ck ∈ revision_children pr ∧ valid_claim strategy desired ck key name
    | S n => claims_at strategy desired l key name n
    end.
Proof. unfold claims_at. destruct n; simpl; naive_solver. Qed.

Lemma first_claim_cons strategy desired pr l key name n :
  first_claim strategy desired (pr :: l) key name n ↔
    match n with
    | 0 => claims_at strategy desired (pr :: l) key name 0
    | S n => ¬ claims_at strategy desired (pr :: l) key name 0 ∧ first_claim strategy desired l key name n
    end.
Proof.
  unfold first_claim. destruct n as [|n].
  - split; [naive_solver|]. intros H. split; [done|]. intros m Hm. lia.
  - rewrite (claims_at_cons _ _ _ _ _ _ (S n)). split.
    + intros [H1 H2]. split_and!; [apply H2; lia|done|]. intros m Hm Hc.
      apply (H2 (S m)); [lia|]. by rewrite claims_at_cons.
    + intros (H0 & H1 & H2). split; [done|]. intros [|m] Hm Hc; [done|].
      rewrite claims_at_cons in Hc. apply (H2 m); [lia|done].
Qed.

Lemma syncRevisionClaims_loop strategy desired l k claimed done claimed' done' :
  (∀ key name j, claimed_by claimed key name = Some j → j < k) →
  foldlM (λ '(claimed, done) '(i, pr),
      revision ← deref (pr_revision pr);
      let '(claimed, children) := foldl (claim_group strategy desired i) (claimed, []) (rev_Children revision) in
      mret (claimed, done ++ [set_pr_revision (set_rev_Children children revision) pr]))
    (claimed, done) (imap (λ n pr, (k + n, pr)) l) = Ok (claimed', done') →
  (∀ key name j, claimed_by claimed' key name = Some j ↔
     claimed_by claimed key name = Some j ∨
     (claimed_by claimed key name = None ∧ ∃ n, j = k + n ∧ first_claim strategy desired l key name n)) ∧
  ∃ new, done' = done ++ new ∧ length new = length l ∧
    ∀ n pr, l !! n = Some pr → ∃ pr', new !! n = Some pr' ∧ reconciled strategy desired claimed' (k + n) pr pr'.
Proof.
  revert k claimed done. induction l as [|pr l IH]; intros k claimed done Hk; simpl.
  { intros [= <- <-]. split; [|exists []; rewrite app_nil_r; split_and!; [done|done|]; by intros n pr ?].
    intros key name j. split; [by left|]. intros [?|(_ & n & _ & (pr & ck & Hl & _) & _)]; [done|]. done. }
  destruct (pr_revision pr) as [r|] eqn:Hr; simpl; [|done].
  destruct (foldl (claim_group strategy desired (k + 0)) (claimed, []) (rev_Children r)) as [c1 children] eqn:Hg.
  apply claim_groups_extends in Hg as (H1 & kept & Hkept & Hsub & Hall & Hex). simpl in Hkept. subst kept.
  rewrite Nat.add_0_r in *.
  rewrite (imap_ext _ (λ n pr, (S k + n, pr))) by (intros; simpl; f_equal; lia).
  intros H. apply IH in H.
  2: { intros key name j Hj. apply H1 in Hj as [Hj|(_ & -> & _)]; [apply Hk in Hj|]; lia. }
  destruct H as (H2 & new & -> & Hlen & Hnew).
  assert (Hmono : ∀ key name j, claimed_by c1 key name = Some j → claimed_by claimed' key name = Some j)
    by (intros key name j Hj; apply H2; by left).
  assert (Hback : ∀ key name, claimed_by claimed' key name = Some k → claimed_by c1 key name = Some k).
  { intros key name Hj. apply H2 in Hj as [?|(_ & n & Hn & _)]; [done|lia]. }
  assert (Hhead : ∀ key name, claims_at strategy desired (pr :: l) key name 0 ↔
    ∃ ck, ck ∈ rev_Children r ∧ valid_claim strategy desired ck key name).
  { intros key name. rewrite claims_at_cons. unfold revision_children. by rewrite Hr. }
  split.
  - intros key name j. rewrite (H2 key name j), (H1 key name j). split.
    + intros [[Hj|(Hn & -> & Hc)]|(Hn & n & -> & Hf)].
      * by left.
      * right. split; [done|]. exists 0. split; [lia|]. rewrite first_claim_cons. by apply Hhead.
      * right. destruct (claimed_by claimed key name) as [j|] eqn:E.
        { assert (claimed_by c1 key name = Some j) as Hc by (apply H1; by left). by rewrite Hn in Hc. }
        split; [done|]. exists (S n). split; [lia|]. rewrite first_claim_cons. split; [|done].
        intros Hc%Hhead. assert (claimed_by c1 key name = Some k) as Hc' by (apply H1; by right).
        by rewrite Hn in Hc'.
    + intros [Hj|(Hn & n & -> & Hf)]; [by left; left|]. rewrite first_claim_cons in Hf.
      destruct n as [|n].
      * left. right. split_and!; [done|lia|]. by apply Hhead.
      * destruct Hf as [Hf0 Hf]. right. split; [|exists n; split; [lia|done]].
        destruct (claimed_by c1 key name) as [j|] eqn:E; [|done].
        apply H1 in E as [E|(_ & -> & Hc)]; [by rewrite Hn in E|]. by apply Hhead in Hc.
  - exists (set_pr_revision (set_rev_Children children r) pr :: new). rewrite <-app_assoc.
    split_and!; [done|simpl; lia|]. intros [|n] pr1; simpl.
    + intros [= <-]. eexists. split; [done|]. rewrite Nat.add_0_r. split_and!.
      * eauto.
      * unfold revision_children. by rewrite Hr.
      * eapply Forall_impl; [apply Hall|]. intros ck (name & Hv & Hc). exists name. split; [done|]. by apply Hmono.
      * intros key name Hc%Hback. apply Hex; [|done].
        destruct (claimed_by claimed key name) as [j|] eqn:E; [|done].
        assert (claimed_by c1 key name = Some j) as Hj by (apply H1; by left).
        rewrite Hc in Hj. injection Hj as <-. apply Hk in E. lia.
    + intros Hl. destruct (Hnew _ _ Hl) as (pr' & Hpr' & Hrec). exists pr'. split; [done|].
      by replace (k + S n) with (S k + n) by lia.
Qed.

(** After reconciling the claims of the revisions of a sync, a child is
    claimed exactly when some revision lists it in a group of a rolling kind
    and the latest revision desires it, and then by the first such revision,
    so that the latest wins over the others and no child has two claimants;
    every revision keeps, in order, exactly the groups in which it won a
    claim, but keeps each of them whole, with the names whose claim was
    dropped. *)
Theorem syncRevisionClaims_spec strategy latest rest claimed revisions :
  let parentRevisions := latest :: rest in
  let desired := pr_desiredChildMap latest in
  syncRevisionClaims strategy parentRevisions = Ok (claimed, revisions) →
  (∀ key name i, claimed_by claimed key name = Some i ↔
     first_claim strategy desired parentRevisions key name i) ∧
  length revisions = length parentRevisions ∧
  ∀ i pr, parentRevisions !! i = Some pr →
    ∃ pr', revisions !! i = Some pr' ∧ reconciled strategy desired claimed i pr pr'.
Proof.
  intros parentRevisions desired. unfold syncRevisionClaims. subst parentRevisions. cbv iota zeta.
  fold desired. intros H.
  rewrite (imap_ext pair (λ n pr, (0 + n, pr))) in H by done.
  apply syncRevisionClaims_loop in H as (Hclaimed & new & -> & Hlen & Hnew).
  2: { intros key name j. unfold claimed_by. by rewrite lookup_empty. }
  split_and!; [|done|done].
  intros key name i. rewrite Hclaimed. unfold claimed_by at 1 2. rewrite !lookup_empty. simpl.
  rewrite lookup_empty. naive_solver.
Qed.
End claim_properties.

(** ** The rollout step *)
Section rollout_properties.
Context {RT : GoRuntime} {API : Apimachinery} {NL : NestedFieldLaws} {AL : AnnotationLaws}.
Context {T : Type} {OM : ObjectMap T}.
Implicit Types st : Rollout.

(** *** Computations on the list of revisions *)
Lemma on_revision_Ok i f st u st' :
  on_revision i f st = (Ok u, st') →
  ∃ pr pr', ro_revisions st !! i = Some pr ∧ f pr = Ok pr' ∧
    st' = {| ro_revisions := <[i := pr']> (ro_revisions st); ro_claimed := ro_claimed st |}.
Proof.
  unfold on_revision, parent_revision, mbind, M_bind, lift, modify.
  destruct (ro_revisions st !! i) as [pr|]; [|done].
  destruct (f pr) as [pr'|e|s] eqn:Hf; [|done..]. intros [= _ <-]. eauto.
Qed.

Lemma parent_revision_Ok i st pr st' :
  parent_revision i st = (Ok pr, st') → ro_revisions st !! i = Some pr ∧ st' = st.
Proof. unfold parent_revision. destruct (ro_revisions st !! i); intros [=]; by subst. Qed.

(** What only moves of claims change. *)
Definition claims_of (st : Rollout) : list (option ControllerRevision) * childClaimMap :=
  (pr_revision <$> ro_revisions st, ro_claimed st).

Lemma keeps_parent_revision i : keeps claims_of (parent_revision i).
Proof. intros st. unfold parent_revision. by destruct (ro_revisions st !! i). Qed.

Lemma keeps_on_revision i f :
  (∀ pr pr', f pr = Ok pr' → pr_revision pr' = pr_revision pr) → keeps claims_of (on_revision i f).
Proof.
  intros Hf st. unfold on_revision, parent_revision, mbind, M_bind, lift, modify.
  destruct (ro_revisions st !! i) as [pr|] eqn:Hi; [|done].
  destruct (f pr) as [pr'|e|s] eqn:Hpr; [|done..]. unfold claims_of. simpl. f_equal.
  rewrite list_fmap_insert. apply list_insert_id. by rewrite list_lookup_fmap, Hi, (Hf _ _ Hpr).
Qed.

Lemma keeps_ApplyUpdate_in_place child name update :
  keeps claims_of (ApplyUpdate_in_place child name update).
Proof.
  unfold ApplyUpdate_in_place. keeps_auto. apply keeps_on_revision. by intros pr pr' [= <-].
Qed.

Lemma keeps_check_child s observed ck name : keeps claims_of (check_child s observed ck name).
Proof.
  unfold check_child. keeps_auto;
    first [apply keeps_parent_revision | apply keeps_ApplyUpdate_in_place].
Qed.

Lemma keeps_shouldContinueRolling strategy observed : keeps claims_of (shouldContinueRolling strategy observed).
Proof.
  unfold shouldContinueRolling. keeps_auto; first [apply keeps_parent_revision | apply keeps_check_child].
Qed.

Lemma keeps_set_latest_condition c : keeps claims_of (set_latest_condition c).
Proof.
  apply keeps_on_revision. intros pr pr'. destruct (pr_syncResult pr) as [r|]; simpl; [|done].
  destruct (SetCondition _ _); simpl; by intros [= <-].
Qed.

(** *** [shouldContinueRolling] *)

(** The child was observed as the latest revision wants it, has observed its
    own spec if that is asked for, and passes the status checks. *)
Definition happy (s : ChildUpdateStrategy) (observed : T) (desired : RelativeObjectMap)
    (ck : ControllerRevisionChildren) (name : string) : Prop :=
  let gk := {| gk_Group := crc_APIGroup ck; gk_Kind := crc_Kind ck |} in
  ∃ child gvk update updated,
    FindGroupKindName observed gk name = Some child ∧
    gvk_GroupKind gvk = gk ∧ groups_lookup (relative_groups desired) gvk name = Some update ∧
    ApplyUpdate child update = Ok updated ∧ DeepEqual (VMap child) (VMap updated) = true ∧
    (cus_Method s = ChildUpdateRollingInPlace → ∀ g, GetObservedGeneration child = Ok (Some g) →
       (0 < g)%Z → (GetGeneration child ≤ g)%Z) ∧
    childStatusCheck (cus_StatusChecks s) child = Ok ().

(** The desired children up to their last-applied annotations. *)
Definition nullified (desired desired' : RelativeObjectMap) : Prop :=
  ∀ gvk name u', groups_lookup (relative_groups desired') gvk name = Some u' →
    ∃ u, groups_lookup (relative_groups desired) gvk name = Some u ∧
      (u' = u ∨ u' = nullifyLastAppliedAnnotation u).

Lemma nullified_alter desired desired' gvk name :
  nullified desired desired' →
  nullified desired (Relative (alter (alter nullifyLastAppliedAnnotation name) gvk (relative_groups desired'))).
Proof using All.
  intros Hd gvk' name' u'. unfold groups_lookup. simpl.
  destruct (decide (gvk = gvk')) as [<-|Hg].
  - rewrite lookup_alter_eq. intros Hu. apply bind_Some in Hu as (objs & Hobjs & Hu).
    apply fmap_Some in Hobjs as (objs0 & Hobjs0 & ->).
    destruct (decide (name = name')) as [<-|Hn].
    + rewrite lookup_alter_eq in Hu. apply fmap_Some in Hu as (u1 & Hu1 & ->).
      destruct (Hd gvk name u1) as (u & Hu & Hor); [unfold groups_lookup; by rewrite Hobjs0|].
      exists u. split; [done|]. right. destruct Hor as [->| ->]; [done|]. apply nullify_idemp.
    + rewrite lookup_alter_ne in Hu by done. apply Hd. unfold groups_lookup. by rewrite Hobjs0.
  - rewrite lookup_alter_ne by done. apply Hd.
Qed.

Lemma relative_find (m : RelativeObjectMap) gk name obj :
  RelativeObjectMap_FindGroupKindName m gk name = Some obj →
  ∃ gvk, gvk_GroupKind gvk = gk ∧ groups_lookup (relative_groups m) gvk name = Some obj.
Proof using All. exact (FindGroupKindName_Some (T:=RelativeObjectMap) m gk name obj). Qed.

(** The state of a rollout whose latest revision desires [desired]. *)
Definition latest_desires (desired : RelativeObjectMap) (st : Rollout) : Prop :=
  ∃ latest, ro_revisions st !! 0 = Some latest ∧ nullified desired (pr_desiredChildMap latest).

Lemma ApplyUpdate_in_place_Ok desired child name update st updated st' :
  latest_desires desired st →
  ApplyUpdate_in_place child name update st = (Ok updated, st') →
  latest_desires desired st' ∧ ∃ u, update = Some u ∧ ApplyUpdate child u = Ok updated.
Proof using All.
  intros (latest & Hl & Hd). unfold ApplyUpdate_in_place. destruct (GetLastApplied child); [|done..].
  intros H. run_inv H. run_inv H0. destruct update as [u|]; [|done]. injection H0 as ->.
  run_inv H. apply on_revision_Ok in H0 as (pr & pr' & Hpr & [= <-] & ->).
  run_inv H. subst. split; [|by eauto].
  rewrite Hl in Hpr. injection Hpr as <-. eexists. split.
  - simpl. apply list_lookup_insert_eq. by eapply lookup_lt_Some.
  - simpl. by apply nullified_alter.
Qed.

Lemma check_child_Ok desired s observed ck name st u st' :
  latest_desires desired st →
  check_child s observed ck name st = (Ok u, st') →
  latest_desires desired st' ∧ happy s observed desired ck name.
Proof using All.
  intros Hst. unfold check_child.
  destruct (FindGroupKindName observed _ name) as [child|] eqn:Hchild; [|done].
  intros H. run_inv H. apply parent_revision_Ok in H0 as [Hl ->]. run_inv H.
  unfold wrap_errM in H0.
  destruct (ApplyUpdate_in_place child name _ st) as [[updated|e|p] st1] eqn:Hup; [|done..].
  simpl in H0. injection H0 as <- <-.
  eapply ApplyUpdate_in_place_Ok in Hup as (Hst1 & update & Hupdate & Hok); [|done].
  destruct (DeepEqual _ _) eqn:Heq; simpl in H; [|done]. run_inv H.
  apply lift_Ok in H as [Hstatus ->].
  destruct Hst as (latest & Hl' & Hd). rewrite Hl in Hl'. injection Hl' as ->.
  apply relative_find in Hupdate as (gvk & Hgvk & Hlookup).
  destruct (Hd _ _ _ Hlookup) as (update0 & Hlookup0 & Hor).
  assert (ApplyUpdate child update0 = Ok updated) as Hok0.
  { destruct Hor as [->| ->]; [done|]. by rewrite ApplyUpdate_nullify in Hok. }
  assert (st' = st1 ∧ (cus_Method s = ChildUpdateRollingInPlace → ∀ g, GetObservedGeneration child = Ok (Some g) →
       (0 < g)%Z → (GetGeneration child ≤ g)%Z)) as [-> Hgen].
  { revert H0. case_bool_decide as Hm; [|intros H0; apply mret_Ok in H0 as [_ <-]; by split].
    destruct (GetObservedGeneration child) as [[g|]|e|p]; simpl.
    - destruct ((0 <? g)%Z && (g <? GetGeneration child)%Z) eqn:Hg; [done|].
      intros H0. apply mret_Ok in H0 as [_ <-]. split; [done|]. intros _ g' [= <-] Hpos. lia.
    - intros H0. by apply mret_Ok in H0 as [_ <-].
    - intros H0. by apply mret_Ok in H0 as [_ <-].
    - done. }
  split; [done|]. exists child, gvk, update0, updated. split_and!; try done.
  unfold wrap_err in Hstatus. destruct u. by destruct (childStatusCheck _ child) as [[]| |].
Qed.

(** C16: the rollout goes on only when every child of a rolling kind that the
    latest revision claims was observed, already as the latest revision
    desires it (applying that state again changes nothing), has caught up with
    its spec where updates are in place, and passes its status checks. *)
Theorem shouldContinueRolling_happy strategy observed st latest revision u st' :
  ro_revisions st !! 0 = Some latest → pr_revision latest = Some revision →
  shouldContinueRolling strategy observed st = (Ok u, st') →
  ∀ ck s name, ck ∈ rev_Children revision →
    updateStrategyMap_get strategy (crc_APIGroup ck) (crc_Kind ck) = Some s →
    isRollingStrategy (Some s) = true → name ∈ crc_Names ck →
    happy s observed (pr_desiredChildMap latest) ck name.
Proof using All.
  intros Hl Hr H. unfold shouldContinueRolling in H. run_inv H.
  apply parent_revision_Ok in H0 as [Hl' ->]. rewrite Hl in Hl'. injection Hl' as <-.
  run_inv H. run_inv H0. rewrite Hr in H0. injection H0 as <-. subst.
  set (desired := pr_desiredChildMap latest).
  apply (foldlM_each (latest_desires desired) (λ ck, ∀ s name,
    updateStrategyMap_get strategy (crc_APIGroup ck) (crc_Kind ck) = Some s →
    isRollingStrategy (Some s) = true → name ∈ crc_Names ck → happy s observed desired ck name)) in H.
  - destruct H as [_ Hall]. rewrite Forall_forall in Hall. intros ck s name Hck. by apply Hall.
  - exists latest. split; [done|]. intros gvk name u' Hu'. by eauto.
  - intros a ck st1 a' st2 _ Hst1 Hstep.
    destruct (updateStrategyMap_get strategy _ _) as [s0|] eqn:Hs.
    2: { apply mret_Ok in Hstep as [_ <-]. split; [done|]. by intros s name. }
    destruct (isRollingStrategy (Some s0)) eqn:Hroll; simpl in Hstep.
    + apply (foldlM_each (latest_desires desired) (λ name, happy s0 observed desired ck name)) in Hstep.
      * destruct Hstep as [Hst2 Hall]. split; [done|]. rewrite Forall_forall in Hall.
        intros s name [= <-] _ Hname. by apply Hall.
      * done.
      * intros a1 name st3 a1' st4 _ Hst3. by apply check_child_Ok.
    + apply mret_Ok in Hstep as [_ <-]. split; [done|]. intros s name [= <-]. by rewrite Hroll.
Qed.

(** *** [roll_next] *)
Lemma map_revision_Ok (idx : list nat) f st u st' :
  NoDup idx →
  foldlM (λ _ i, on_revision i f) () idx st = (Ok u, st') →
  ro_claimed st' = ro_claimed st ∧
  ∀ i pr, ro_revisions st !! i = Some pr → ∃ pr', ro_revisions st' !! i = Some pr' ∧
    (if decide (i ∈ idx) then f pr = Ok pr' else pr' = pr).
Proof using All.
  intros Hnd. revert st. induction Hnd as [|j idx Hj Hnd IH]; intros st; simpl.
  { intros [_ <-]%mret_Ok. split; [done|]. eauto. }
  intros H. run_inv H. apply on_revision_Ok in H0 as (pr & pr1 & Hpr & Hf & ->).
  destruct a. apply IH in H as [Hclaimed H]. simpl in *. split; [done|]. intros i pr0 Hi.
  destruct (decide (i = j)) as [->|Hij].
  - rewrite Hpr in Hi. injection Hi as <-.
    destruct (H j pr1) as (pr' & Hpr' & Hor).
    { apply list_lookup_insert_eq. by eapply lookup_lt_Some. }
    rewrite decide_False in Hor by done. subst. exists pr1. split; [done|].
    rewrite decide_True by (by left). done.
  - destruct (H i pr0) as (pr' & Hpr' & Hor).
    { rewrite list_lookup_insert_ne by done. done. }
    exists pr'. split; [done|]. revert Hor. repeat case_decide; set_solver.
Qed.

(** The new children of revision [i] when the latest takes [name]. *)
Definition moved_children (apiGroup kind name : string) (i : nat)
    : list ControllerRevisionChildren → list ControllerRevisionChildren :=
  if decide (i = 0) then add_child_list apiGroup kind name else remove_child_list apiGroup kind name.

Lemma on_children_Ok f pr pr' :
  on_children f pr = Ok pr' →
  ∃ r, pr_revision pr = Some r ∧ pr_revision pr' = Some (set_rev_Children (f (rev_Children r)) r).
Proof using All.
  unfold on_children. destruct (pr_revision pr) as [r|]; [|done]. intros [= <-]. by exists r.
Qed.

Lemma move_child_Ok g k n st u st' :
  move_child g k n st = (Ok u, st') →
  ro_claimed st' = ro_claimed st ∧
  ∀ i pr, ro_revisions st !! i = Some pr →
    ∃ r pr', pr_revision pr = Some r ∧ ro_revisions st' !! i = Some pr' ∧
      pr_revision pr' = Some (set_rev_Children (moved_children g k n i (rev_Children r)) r).
Proof using All.
  unfold move_child. intros H. run_inv H. apply on_revision_Ok in H0 as (pr0 & pr1 & Hpr0 & Hadd & ->).
  run_inv H. injection H0 as <- <-. apply map_revision_Ok in H as [Hclaimed H]; [|apply NoDup_seq].
  simpl in *. split; [done|]. rewrite length_insert in H. intros i pr Hi.
  destruct (decide (i = 0)) as [->|Hi0].
  - rewrite Hpr0 in Hi. injection Hi as <-. destruct (H 0 pr1) as (pr' & Hpr' & Hor).
    { apply list_lookup_insert_eq. by eapply lookup_lt_Some. }
    rewrite decide_False in Hor by (rewrite elem_of_seq; lia). subst pr'.
    apply on_children_Ok in Hadd as (r & Hr & Hr'). by exists r, pr1.
  - destruct (H i pr) as (pr' & Hpr' & Hor).
    { by rewrite list_lookup_insert_ne by done. }
    apply lookup_lt_Some in Hi. rewrite decide_True in Hor by (apply elem_of_seq; lia).
    apply on_children_Ok in Hor as (r & Hr & Hr'). exists r, pr'. split_and!; [done..|].
    unfold moved_children. by rewrite decide_False.
Qed.

(** The first child of the hook's answer that the latest revision still has to
    take over. *)
Definition to_move (strategy : updateStrategyMap) (claimed : childClaimMap) (child : object) : bool :=
  let apiGroup := (ParseAPIVersion (GetAPIVersion child)).1 in
  isRolling strategy apiGroup (GetKind child) &&
  (getKind claimed apiGroup (GetKind child) !! GetName child != Some 0%nat).

Definition next_move (strategy : updateStrategyMap) (claimed : childClaimMap) (children : list (option object))
    : option object :=
  head (filter (λ child, to_move strategy claimed child = true) (omap id children)).

Lemma keeps_claims st st' (m : M Rollout unit) r :
  keeps claims_of m → m st = (r, st') →
  pr_revision <$> ro_revisions st' = pr_revision <$> ro_revisions st ∧ ro_claimed st' = ro_claimed st.
Proof using All. intros Hm H. specialize (Hm st). rewrite H in Hm. unfold claims_of in Hm. simpl in Hm. by simplify_eq. Qed.

Lemma lookup_same_revisions (l l' : list parentRevision) i pr :
  pr_revision <$> l' = pr_revision <$> l → l !! i = Some pr →
  ∃ pr', l' !! i = Some pr' ∧ pr_revision pr' = pr_revision pr.
Proof using All.
  intros Heq Hi. assert (H : (pr_revision <$> l') !! i = Some (pr_revision pr))
    by (rewrite Heq, list_lookup_fmap; by rewrite Hi).
  rewrite list_lookup_fmap in H. destruct (l' !! i) as [pr'|]; [|done]. exists pr'.
  split; [done|]. by injection H.
Qed.


(** *** Adopting children that need no change *)

(** The children that revision [i] claims. *)
Definition children_at st (i : nat) : option (list ControllerRevisionChildren) :=
  revision_children <$> ro_revisions st !! i.

Lemma children_at_keeps st st' i : claims_of st' = claims_of st → children_at st' i = children_at st i.
Proof.
  unfold claims_of, children_at. intros Heq. apply (f_equal fst) in Heq. simpl in Heq.
  assert (H : (pr_revision <$> ro_revisions st') !! i = (pr_revision <$> ro_revisions st) !! i) by (by rewrite Heq).
  rewrite !list_lookup_fmap in H. unfold revision_children.
  destruct (ro_revisions st' !! i), (ro_revisions st !! i); simpl in *; try done.
  injection H as H. by rewrite H.
Qed.

Lemma on_children_at f i st u st' :
  on_revision i (on_children f) st = (Ok u, st') →
  ro_claimed st' = ro_claimed st ∧ is_Some (children_at st i) ∧
  ∀ j, children_at st' j = if decide (i = j) then f <$> children_at st i else children_at st j.
Proof using All.
  intros (pr & pr' & Hpr & Hf & ->)%on_revision_Ok.
  apply on_children_Ok in Hf as (r & Hr & Hr'). unfold children_at. simpl. rewrite Hpr.
  split_and!; [done|by eexists|]. intros j. destruct (decide (i = j)) as [<-|Hij].
  - rewrite list_lookup_insert_eq by (by eapply lookup_lt_Some). simpl. unfold revision_children.
    by rewrite Hr, Hr'.
  - by rewrite list_lookup_insert_ne.
Qed.

Section adoption.
Variables (strategy : updateStrategyMap) (observed : T) (desired : RelativeObjectMap) (start : Rollout).

(** The latest revision desires the child, whose kind is rolling. *)
Definition wanted (c : string * string * string) : Prop :=
  let '(g, k, n) := c in
  isRolling strategy g k = true ∧ ∃ gvk want, gvk_Group gvk = g ∧ gvk_Kind gvk = k ∧
    groups_lookup (relative_groups desired) gvk n = Some want.

(** Applying what the latest revision desires leaves the observed child as it is. *)
Definition no_op (c : string * string * string) : Prop :=
  let '(g, k, n) := c in
  ∃ gvk want child updated, gvk_Group gvk = g ∧ gvk_Kind gvk = k ∧
    groups_lookup (relative_groups desired) gvk n = Some want ∧
    FindGroupKindName observed {| gk_Group := g; gk_Kind := k |} n = Some child ∧
    ApplyUpdate child want = Ok updated ∧ DeepEqual (VMap child) (VMap updated) = true.

Definition unclaimed (c : string * string * string) : Prop :=
  let '(g, k, n) := c in claimed_by (ro_claimed start) (claimMapKey g k) n = None.

Record adopted (st : Rollout) : Prop := {
  ad_wf i l : children_at st i = Some l → wf_children l;
  ad_claimed key name :
    claimed_by (ro_claimed st) key name = None → claimed_by (ro_claimed start) key name = None;
  ad_lost i l c :
    i ≠ 0 → children_at start i = Some l → c ∈ child_claims l →
    ∃ l', children_at st i = Some l' ∧ (c ∈ child_claims l' ∨ no_op c);
  ad_gained i l' c :
    children_at st i = Some l' → c ∈ child_claims l' →
    (∃ l, children_at start i = Some l ∧ c ∈ child_claims l) ∨
    (i = 0 ∧ wanted c ∧ (no_op c ∨ unclaimed c));
}.

Lemma adopted_keeps st st' : claims_of st' = claims_of st → adopted st → adopted st'.
Proof.
  intros Heq [H1 H2 H3 H4].
  assert (ro_claimed st' = ro_claimed st) as Hc by exact (f_equal snd Heq).
  split.
  - intros i l. rewrite (children_at_keeps st st') by done. apply H1.
  - rewrite Hc. apply H2.
  - intros i l c. rewrite (children_at_keeps st st') by done. apply H3.
  - intros i l' c. rewrite (children_at_keeps st st') by done. apply H4.
Qed.

Lemma adopted_add g k n st u st' :
  wanted (g, k, n) → no_op (g, k, n) ∨ unclaimed (g, k, n) → adopted st →
  on_revision 0 (λ latest, addChild latest g k n) st = (Ok u, st') → adopted st'.
Proof using All.
  intros Hw Hor [H1 H2 H3 H4] H. apply on_children_at in H as (Hc & [l0 Hl0] & H).
  fold (add_child_list g k n) in H. destruct (add_child_claims g k n l0) as [Hwf Hin]; [by eauto|].
  split.
  - intros i l. rewrite H, Hl0. case_decide; [|by apply H1]. intros [= <-]. done.
  - rewrite Hc. apply H2.
  - intros i l c Hi. rewrite H, decide_False by done. by apply H3.
  - intros i l' c. rewrite H, Hl0. case_decide as Hi; [|apply H4]. subst i. intros [= <-].
    rewrite Hin. intros [Hcl| ->]; [by eapply H4|]. by right.
Qed.

Lemma adopted_remove g k n i st u st' :
  no_op (g, k, n) → adopted st →
  on_revision i (λ pr, removeChild pr g k n) st = (Ok u, st') → adopted st'.
Proof using All.
  intros Hno [H1 H2 H3 H4] H. apply on_children_at in H as (Hc & [l0 Hl0] & H).
  fold (remove_child_list g k n) in H. destruct (remove_child_claims g k n l0) as [Hwf Hin]; [by eauto|].
  split.
  - intros j l. rewrite H, Hl0. case_decide; [|by apply H1]. intros [= <-]. done.
  - rewrite Hc. apply H2.
  - intros j l c Hj Hl Hcl. rewrite H, Hl0. destruct (H3 _ _ _ Hj Hl Hcl) as (l' & Hl' & Hor).
    case_decide as Hij; [subst j|by eauto]. eexists. split; [done|].
    rewrite Hl0 in Hl'. injection Hl' as <-. rewrite Hin.
    destruct (decide (c = (g, k, n))) as [->|]; [by right|naive_solver].
  - intros j l' c. rewrite H, Hl0. case_decide as Hij; [|apply H4]. subst j. intros [= <-].
    rewrite Hin. intros [Hcl _]. by eapply H4.
Qed.

Lemma adopted_claim g k n i st u st' :
  adopted st → set_claim g k n i st = (Ok u, st') → adopted st'.
Proof.
  intros [H1 H2 H3 H4] [= _ <-]. split; try done. intros key name. simpl. unfold setParentRevision.
  rewrite claimed_by_insert. case_decide; [done|]. apply H2.
Qed.

Lemma adopt_child_adopted gvk name want st u st' :
  isRolling strategy (gvk_Group gvk) (gvk_Kind gvk) = true →
  groups_lookup (relative_groups desired) gvk name = Some want →
  adopted st → adopt_child observed gvk name want st = (Ok u, st') → adopted st'.
Proof using All.
  intros Hroll Hwant Had. unfold adopt_child. intros H. run_inv H. injection H0 as <- <-.
  assert (Hw : wanted (gvk_Group gvk, gvk_Kind gvk, name)) by (split; eauto).
  destruct (getKind (ro_claimed st) _ _ !! name) as [i|] eqn:Hclaim.
  - destruct (i == 0%nat); [by apply mret_Ok in H as [_ <-]|].
    destruct (FindGroupKindName observed _ name) as [child|] eqn:Hchild; [|by apply mret_Ok in H as [_ <-]].
    run_inv H. apply try_Ok in H0.
    assert (Hst1 : adopted w).
    { eapply adopted_keeps; [|done]. pose proof (keeps_ApplyUpdate_in_place child name (Some want) st) as Hk.
      by rewrite H0 in Hk. }
    destruct a as [updated|e]; [|by apply mret_Ok in H as [_ <-]].
    destruct (DeepEqual _ _) eqn:Heq; [|by apply mret_Ok in H as [_ <-]].
    assert (Hno : no_op (gvk_Group gvk, gvk_Kind gvk, name)).
    { exists gvk, want, child, updated. split_and!; try done.
      revert H0. unfold ApplyUpdate_in_place. destruct (GetLastApplied child); [|done..].
      intros H0. run_inv H0. run_inv H1. injection H1 as <-. run_inv H0. by apply lift_Ok in H0 as [? _]. }
    run_inv H. run_inv H. eapply adopted_claim; [|done]. eapply adopted_remove; [done| |done].
    eapply adopted_add; [done|by left|done|done].
  - run_inv H. eapply adopted_claim; [|done]. eapply adopted_add; [done| |done|done].
    right. simpl. apply (ad_claimed _ Had). done.
Qed.
End adoption.

(** Before the one move of a pass, the latest revision takes over some
    children at once, and this is safe: a revision only loses a claim to a
    child whose observed state already is what the latest revision desires,
    and the latest only gains children that it desires, whose kind is rolling,
    and that either nobody claimed or that need no change. *)
Theorem adopt_children_safe strategy observed st latest u st' :
  ro_revisions st !! 0 = Some latest →
  (∀ i l, children_at st i = Some l → wf_children l) →
  adopt_children strategy observed st = (Ok u, st') →
  adopted strategy observed (pr_desiredChildMap latest) st st'.
Proof using All.
  intros Hl Hwf H. unfold adopt_children in H. run_inv H.
  apply parent_revision_Ok in H0 as [Hl' ->]. rewrite Hl in Hl'. injection Hl' as <-.
  set (desired := pr_desiredChildMap latest) in *.
  assert (Hstart : adopted strategy observed desired st st).
  { split; [done|done| |by eauto]. intros i l c _ Hi Hc. by eauto. }
  revert H. apply (foldlM_Ok_inv (λ _ st', adopted strategy observed desired st st')); [done|].
  intros a [gvk objects] w a' w' Hgvk Hw. destruct (isRolling _ _ _) eqn:Hroll; simpl.
  2: { intros [_ <-]%mret_Ok. done. }
  apply (foldlM_Ok_inv (λ _ st', adopted strategy observed desired st st')); [done|].
  intros a1 [name want] w1 a1' w1' Hname Hw1. apply adopt_child_adopted; [done| |done].
  apply elem_of_range in Hgvk, Hname. unfold groups_lookup. by rewrite Hgvk.
Qed.
End rollout_properties.

(** ** Status checks, and rollouts that cannot go on *)
Section stuck.
Context {RT : GoRuntime} {API : Apimachinery}.

Lemma foldlM_unit_Ok {A} (f : A → res unit) l :
  foldlM (λ _ a, f a) () l = Ok () ↔ Forall (λ a, f a = Ok ()) l.
Proof.
  induction l as [|a l IH]; simpl; [by split|]. rewrite Forall_cons, <-IH. clear IH.
  destruct (f a) as [[]|e|s]; simpl; naive_solver.
Qed.

Definition condition_ok (child : object) (c : StatusConditionCheck) : Prop :=
  ∃ cond, GetStatusCondition child (scc_Type c) = Ok (Some cond) ∧
    (∀ s, scc_Status c = Some s → sc_Status cond = s) ∧
    (∀ r, scc_Reason c = Some r → sc_Reason cond = r).

(** The status checks pass exactly when the child has every condition that
    is asked for, with the status and the reason asked for. *)
Theorem childStatusCheck_spec checks child :
  childStatusCheck checks child = Ok () ↔ Forall (condition_ok child) (Conditions checks).
Proof.
  unfold childStatusCheck. rewrite foldlM_unit_Ok. apply Forall_proper; [intros c|done].
  unfold condition_check, condition_ok.
  destruct (GetStatusCondition child (scc_Type c)) as [[cond|]|e|p]; [|naive_solver..].
  split.
  - intros H. exists cond. split; [done|].
    destruct (scc_Status c) as [s|], (scc_Reason c) as [r|]; simpl in *;
      repeat case_bool_decide; simpl in *; naive_solver.
  - intros (cond' & [= <-] & Hs & Hr).
    destruct (scc_Status c) as [s|]; [rewrite (bool_decide_true (sc_Status cond = s)) by auto|]; simpl;
      (destruct (scc_Reason c) as [r|]; [rewrite (bool_decide_true (sc_Reason cond = r)) by auto|]); done.
Qed.

Lemma qualified_not_relative parent l gvk name :
  (∀ o, o ∈ l → GetNamespace o ≠ "") → strings_Contains name "/" = false →
  groups_lookup (uniform_groups (MakeUniformObjectMap parent l)) gvk name = None.
Proof using All.
  intros Hns Hname.
  pose proof (InsertAll_lookup_from (T:=UniformObjectMap) (Uniform ∅) parent l gvk name) as H.
  unfold MakeUniformObjectMap. etrans; [exact H|]. clear H.
  destruct (last _) as [o|] eqn:Ho; [|done].
  apply last_Some_elem_of, list_elem_of_filter in Ho as [[_ Hkey] Hin]. exfalso.
  revert Hname. rewrite <-Hkey. simpl. unfold qualifiedName.
  rewrite bool_decide_false by auto. simpl.
  change ("/" +:+ GetName o) with (String "/"%char (GetName o)). by rewrite Contains_sep.
Qed.

Lemma bind_not_Ok {W A} (m : M W A) (k : A → M W A) w r w' :
  m w = (r, w') → is_Ok r = false → (m ≫= k) w = (r, w').
Proof. unfold mbind, M_bind. intros ->. by destruct r. Qed.

(** The first check that fails ends the checks. *)
Lemma shouldContinueRolling_first {T} {OM : ObjectMap T} strategy (observed : T) st latest revision ck groups
    s name names r st' :
  ro_revisions st !! 0 = Some latest → pr_revision latest = Some revision →
  rev_Children revision = ck :: groups → crc_Names ck = name :: names →
  updateStrategyMap_get strategy (crc_APIGroup ck) (crc_Kind ck) = Some s →
  isRollingStrategy (Some s) = true →
  check_child s observed ck name st = (r, st') → is_Ok r = false →
  shouldContinueRolling strategy observed st = (r, st').
Proof.
  intros Hl Hr Hck Hnames Hs Hroll Hcheck Hno.
  unfold shouldContinueRolling, parent_revision. unfold mbind at 1, M_bind at 1. rewrite Hl.
  unfold mbind at 1, M_bind at 1, lift, deref. rewrite Hr, Hck. cbn [foldlM]. apply bind_not_Ok; [|done].
  rewrite Hs, Hroll. cbn [negb]. rewrite Hnames. cbn [foldlM]. by apply bind_not_Ok.
Qed.

(** C39: with the observed children keyed by namespace and name, as
    [claimChildren] keys them, a rollout of namespaced children cannot go on
    once the latest revision claims one of them: the claim holds the child's
    bare name, under which it is never found. *)
Theorem shouldContinueRolling_stalls strategy parent l st latest revision ck groups s name names :
  let observed := MakeUniformObjectMap parent l in
  (∀ o, o ∈ l → GetNamespace o ≠ "") → strings_Contains name "/" = false →
  ro_revisions st !! 0 = Some latest → pr_revision latest = Some revision →
  rev_Children revision = ck :: groups → crc_Names ck = name :: names →
  updateStrategyMap_get strategy (crc_APIGroup ck) (crc_Kind ck) = Some s →
  isRollingStrategy (Some s) = true →
  shouldContinueRolling strategy observed st =
    (Err (ErrorString ("missing child " +:+ crc_Kind ck +:+ " " +:+ name)), st).
Proof.
  intros observed Hns Hname Hl Hr Hck Hnames Hs Hroll.
  eapply shouldContinueRolling_first; [done..| |done]. unfold check_child.
  assert (FindGroupKindName observed {| gk_Group := crc_APIGroup ck; gk_Kind := crc_Kind ck |} name = None) as ->;
    [|done].
  destruct (FindGroupKindName observed _ name) as [o|] eqn:Ho; [|done].
  apply FindGroupKindName_Some in Ho as (gvk & _ & Hlook).
  change (groups_lookup (uniform_groups (MakeUniformObjectMap parent l)) gvk name = Some o) in Hlook.
  by rewrite (qualified_not_relative parent l gvk name) in Hlook.
Qed.

(** A child that the latest revision still claims but no longer desires,
    and that is still there, makes the check of the rollout dereference a nil
    pointer. *)
Theorem shouldContinueRolling_panics {T} {OM : ObjectMap T} strategy (observed : T) st latest revision ck groups
    s name names child last :
  let gk := {| gk_Group := crc_APIGroup ck; gk_Kind := crc_Kind ck |} in
  ro_revisions st !! 0 = Some latest → pr_revision latest = Some revision →
  rev_Children revision = ck :: groups → crc_Names ck = name :: names →
  updateStrategyMap_get strategy (crc_APIGroup ck) (crc_Kind ck) = Some s →
  isRollingStrategy (Some s) = true →
  FindGroupKindName observed gk name = Some child → GetLastApplied child = Ok last →
  RelativeObjectMap_FindGroupKindName (pr_desiredChildMap latest) gk name = None →
  (shouldContinueRolling strategy observed st).1 = Panic "nil pointer dereference".
Proof.
  intros gk Hl Hr Hck Hnames Hs Hroll Hchild Hlast Hgone.
  assert (check_child s observed ck name st = (Panic "nil pointer dereference", st)) as Hcheck.
  { unfold check_child. fold gk. rewrite Hchild.
    unfold parent_revision, mbind, M_bind, wrap_errM, ApplyUpdate_in_place, lift. by rewrite Hl, Hgone, Hlast. }
  by rewrite (shouldContinueRolling_first _ _ _ _ _ _ _ _ _ _ _ _ Hl Hr Hck Hnames Hs Hroll Hcheck).
Qed.
End stuck.

(** ** A concrete rollout *)
Section examples.
#[local] Existing Instance listRuntime.
#[local] Existing Instance treeAPI.

(** A cluster-scoped parent with two cluster-scoped children: the latest
    revision has taken over [a], the older one still claims [b]. *)
Definition thing (kind name : string) : object :=
  {[ "apiVersion" := VString "demo.io/v1"; "kind" := VString kind;
     "metadata" := VMap {[ "name" := VString name ]} ]}.
Definition rollout_parent : object := thing "Parent" "p".
Definition applied (o : object) : object := match ApplyUpdate o o with Ok o' => o' | _ => ∅ end.
Definition rollout_observed : UniformObjectMap :=
  MakeUniformObjectMap rollout_parent [applied (thing "Thing" "a"); applied (thing "Thing" "b")].

Definition rollout_strategy : updateStrategyMap :=
  {[ "Thing.demo.io" := {| cus_Method := ChildUpdateRollingInPlace;
                           cus_StatusChecks := {| Conditions := [] |} |} ]}.
Definition sample_revision (name : string) (names : list string) : ControllerRevision := {|
  rev_Name := name; rev_Namespace := ""; rev_UID := name; rev_ResourceVersion := "1"; rev_Labels := ∅;
  rev_OwnerReferences := []; rev_DeletionTimestamp := None; rev_ParentPatch := "";
  rev_Children := [{| crc_APIGroup := "demo.io"; crc_Kind := "Thing"; crc_Names := names |}] |}.
Definition rollout_result : CompositeHookResponse := {|
  cr_Status := Some ∅; cr_Children := [Some (thing "Thing" "a"); Some (thing "Thing" "b")];
  cr_ResyncAfterSeconds := 0; cr_Finalized := false |}.
Definition sample_parentRevision (name : string) (names : list string) : parentRevision := {|
  pr_parent := rollout_parent; pr_revision := Some (sample_revision name names);
  pr_syncResult := Some rollout_result; pr_syncError := None;
  pr_desiredChildMap := MakeRelativeObjectMap rollout_parent [thing "Thing" "a"; thing "Thing" "b"] |}.
Definition rollout_start (latest_names : list string) : Rollout := {|
  ro_revisions := [sample_parentRevision "new" latest_names; sample_parentRevision "old" ["b"]];
  ro_claimed := {[ "Thing.demo.io" := {[ "a" := 0; "b" := 1 ]} ]} |}.

Definition a_group : ControllerRevisionChildren :=
  {| crc_APIGroup := "demo.io"; crc_Kind := "Thing"; crc_Names := ["a"] |}.

Lemma sample_wf names : NoDup names → wf_children (rev_Children (sample_revision "r" names)).
Proof. intros Hnd. split; [apply NoDup_singleton|]. by repeat constructor. Qed.

Lemma parentRevision_claims_witness :
  ∃ added, addChild (sample_parentRevision "r" ["a"]) "demo.io" "Thing" "b" = Ok added ∧
    wf_children (revision_children added) ∧
    ∀ c, c ∈ child_claims (revision_children added) ↔
      c ∈ child_claims (rev_Children (sample_revision "r" ["a"])) ∨ c = ("demo.io", "Thing", "b").
Proof.
  apply (parentRevision_claims (sample_parentRevision "r" ["a"]) (sample_revision "r" ["a"])
    "demo.io" "Thing" "b" eq_refl).
  apply sample_wf. apply NoDup_singleton.
Defined.

(** The latest revision lists a child it no longer desires: the claim is gone,
    the name stays in the revision. *)
Definition stale_claims : res (childClaimMap * list parentRevision) :=
  syncRevisionClaims rollout_strategy [sample_parentRevision "new" ["a"; "gone"]; sample_parentRevision "old" ["b"]].

Lemma syncRevisionClaims_spec_witness :
  match stale_claims with
  | Ok (claimed, revisions) =>
    (∀ key name i, claimed_by claimed key name = Some i ↔
       first_claim rollout_strategy (pr_desiredChildMap (sample_parentRevision "new" ["a"; "gone"]))
         [sample_parentRevision "new" ["a"; "gone"]; sample_parentRevision "old" ["b"]] key name i) ∧
    claimed_by claimed "Thing.demo.io" "gone" = None ∧
    (revision_children <$> revisions !! 0) =
      Some (rev_Children (sample_revision "new" ["a"; "gone"]))
  | _ => False
  end.
Proof.
  assert (Hrun : match stale_claims with
    | Ok (claimed, revisions) =>
      bool_decide (claimed_by claimed "Thing.demo.io" "gone" = None) &&
      bool_decide ((revision_children <$> revisions !! 0) =
        Some (rev_Children (sample_revision "new" ["a"; "gone"])))
    | _ => false end = true) by (vm_compute; reflexivity).
  destruct stale_claims as [[claimed revisions]|e|p] eqn:E; [|discriminate..].
  apply andb_true_iff in Hrun as [H1 H2]. apply bool_decide_eq_true in H1, H2.
  split; [|split; [exact H1|exact H2]].
  apply (syncRevisionClaims_spec rollout_strategy (sample_parentRevision "new" ["a"; "gone"])
    [sample_parentRevision "old" ["b"]] claimed revisions E).
Defined.

Lemma shouldContinueRolling_happy_witness :
  happy {| cus_Method := ChildUpdateRollingInPlace; cus_StatusChecks := {| Conditions := [] |} |}
    rollout_observed (pr_desiredChildMap (sample_parentRevision "new" ["a"])) a_group "a".
Proof.
  assert (Hrun : is_Ok (shouldContinueRolling rollout_strategy rollout_observed (rollout_start ["a"])).1 = true)
    by (vm_compute; reflexivity).
  destruct (shouldContinueRolling rollout_strategy rollout_observed (rollout_start ["a"])) as [[u|e|p] st'] eqn:E;
    [|discriminate..].
  apply (shouldContinueRolling_happy rollout_strategy rollout_observed (rollout_start ["a"])
    (sample_parentRevision "new" ["a"]) (sample_revision "new" ["a"]) u st' eq_refl eq_refl E a_group).
  - by left.
  - vm_compute; reflexivity.
  - vm_compute; reflexivity.
  - by left.
Defined.

Definition rollout_children : list (option object) := cr_Children rollout_result.


Lemma rollout_start_wf i l : children_at (rollout_start ["a"]) i = Some l → wf_children l.
Proof.
  unfold children_at. destruct i as [|[|i]]; simpl; [| |done]; intros [= <-];
    (split; [apply NoDup_singleton|repeat constructor; set_solver]).
Qed.

(** [b] needs no change, so the latest revision adopts it at once. *)
Lemma adopt_children_safe_witness :
  let '(r, st') := adopt_children rollout_strategy rollout_observed (rollout_start ["a"]) in
  is_Ok r = true ∧ (length ∘ child_claims ∘ revision_children <$> ro_revisions st') = [2; 0] ∧
  adopted rollout_strategy rollout_observed (pr_desiredChildMap (sample_parentRevision "new" ["a"]))
    (rollout_start ["a"]) st'.
Proof.
  assert (Hrun : let '(r, st') := adopt_children rollout_strategy rollout_observed (rollout_start ["a"]) in
    is_Ok r && bool_decide ((length ∘ child_claims ∘ revision_children <$> ro_revisions st') = [2; 0]) = true)
    by (vm_compute; reflexivity).
  destruct (adopt_children rollout_strategy rollout_observed (rollout_start ["a"])) as [[u|e|p] st'] eqn:E;
    [|discriminate..].
  apply andb_true_iff in Hrun as [_ H2]. apply bool_decide_eq_true in H2.
  split; [reflexivity|]. split; [exact H2|].
  apply (adopt_children_safe rollout_strategy rollout_observed (rollout_start ["a"])
    (sample_parentRevision "new" ["a"]) u st' eq_refl); [exact rollout_start_wf|exact E].
Defined.

Definition namespaced (o : object) : object := SetNamespace "ns" o.

Lemma shouldContinueRolling_stalls_witness :
  shouldContinueRolling rollout_strategy
    (MakeUniformObjectMap rollout_parent [namespaced (applied (thing "Thing" "a"))]) (rollout_start ["a"]) =
  (Err (ErrorString "missing child Thing a"), rollout_start ["a"]).
Proof.
  apply (shouldContinueRolling_stalls rollout_strategy rollout_parent [namespaced (applied (thing "Thing" "a"))]
    (rollout_start ["a"]) (sample_parentRevision "new" ["a"]) (sample_revision "new" ["a"]) a_group []
    {| cus_Method := ChildUpdateRollingInPlace; cus_StatusChecks := {| Conditions := [] |} |} "a" []).
  - intros o ->%list_elem_of_singleton. by vm_compute.
  - reflexivity.
  - reflexivity.
  - reflexivity.
  - reflexivity.
  - reflexivity.
  - vm_compute; reflexivity.
  - reflexivity.
Defined.

Lemma shouldContinueRolling_panics_witness :
  (shouldContinueRolling rollout_strategy
     (MakeUniformObjectMap rollout_parent [thing "Thing" "gone"]) (rollout_start ["gone"])).1 =
  Panic "nil pointer dereference".
Proof.
  apply (shouldContinueRolling_panics rollout_strategy _ (rollout_start ["gone"])
    (sample_parentRevision "new" ["gone"]) (sample_revision "new" ["gone"])
    {| crc_APIGroup := "demo.io"; crc_Kind := "Thing"; crc_Names := ["gone"] |} []
    {| cus_Method := ChildUpdateRollingInPlace; cus_StatusChecks := {| Conditions := [] |} |} "gone" []
    (thing "Thing" "gone") None); vm_compute; reflexivity.
Defined.
End examples.
