(* ===== verification/Sha1.v ===== *)
(** * SHA-1: the Go standard library's [crypto/sha1] and [encoding/hex]

    What [controllerRevisionHash] uses of them: the digest of a byte string,
    written as forty lower-case hexadecimal digits (FIPS 180-4).  Words are
    32-bit integers in [Z]. *)
From S2P Require Import Prelude.
From stdpp Require Import options.

Module SHA.
#[local] Open Scope Z_scope.

Definition w32 (z : Z) : Z := Z.land z (2 ^ 32 - 1).
Definition rotl (n x : Z) : Z := w32 (Z.lor (Z.shiftl x n) (Z.shiftr x (32 - n))).

Definition bytes_of (s : string) : list Z := Z.of_N ∘ Ascii.N_of_ascii <$> String.list_ascii_of_string s.

(** [n] bytes of [z], the most significant first. *)
Fixpoint big_endian (n : nat) (z : Z) : list Z :=
  match n with
  | O => []
  | S n => big_endian n (Z.shiftr z 8) ++ [Z.land z 255]
  end.

Definition pad (message : list Z) : list Z :=
  let len := Z.of_nat (length message) in
  message ++ [128] ++ replicate (Z.to_nat ((55 - len) mod 64)) 0 ++ big_endian 8 (8 * len).

Fixpoint words (bytes : list Z) : list Z :=
  match bytes with
  | a :: b :: c :: d :: bytes =>
    Z.lor (Z.shiftl a 24) (Z.lor (Z.shiftl b 16) (Z.lor (Z.shiftl c 8) d)) :: words bytes
  | _ => []
  end.

(** The message schedule, the latest word first. *)
Fixpoint schedule (n : nat) (w : list Z) : list Z :=
  match n with
  | O => w
  | S n =>
    let x := Z.lxor (Z.lxor (nth 2 w 0) (nth 7 w 0)) (Z.lxor (nth 13 w 0) (nth 15 w 0)) in
    schedule n (rotl 1 x :: w)
  end.

Record state := { st_a : Z; st_b : Z; st_c : Z; st_d : Z; st_e : Z }.

Definition round (st : state) (tw : nat * Z) : state :=
  let '(t, w) := tw in
  let '{| st_a := a; st_b := b; st_c := c; st_d := d; st_e := e |} := st in
  let '(f, k) :=
    if (t <? 20)%nat then (Z.lxor d (Z.land b (Z.lxor c d)), 1518500249)
    else if (t <? 40)%nat then (Z.lxor b (Z.lxor c d), 1859775393)
    else if (t <? 60)%nat then (Z.lor (Z.land b c) (Z.lor (Z.land b d) (Z.land c d)), 2400959708)
    else (Z.lxor b (Z.lxor c d), 3395469782) in
  {| st_a := w32 (rotl 5 a + f + e + k + w); st_b := a; st_c := rotl 30 b; st_d := c; st_e := d |}.

Definition block (st : state) (w : list Z) : state :=
  let st' := foldl round st (imap pair (reverse (schedule 64 (reverse w)))) in
  {| st_a := w32 (st_a st + st_a st'); st_b := w32 (st_b st + st_b st'); st_c := w32 (st_c st + st_c st');
     st_d := w32 (st_d st + st_d st'); st_e := w32 (st_e st + st_e st') |}.

(** Fuel: the number of words bounds the number of blocks. *)
Fixpoint blocks (fuel : nat) (st : state) (w : list Z) : state :=
  match fuel with
  | O => st
  | S fuel =>
    match w with
    | [] => st
    | _ => blocks fuel (block st (take 16 w)) (drop 16 w)
    end
  end.

Definition initial : state :=
  {| st_a := 1732584193; st_b := 4023233417; st_c := 2562383102; st_d := 271733878; st_e := 3285377520 |}.

Definition sha1 (message : string) : list Z :=
  let w := words (pad (bytes_of message)) in
  let st := blocks (length w) initial w in
  [st_a st; st_b st; st_c st; st_d st; st_e st] ≫= big_endian 4.

(** [hex.EncodeToString] *)
Fixpoint EncodeToString (bytes : list Z) : string :=
  match bytes with
  | [] => ""
  | b :: bytes =>
    String (hex_digit (Z.to_nat (Z.shiftr b 4))) (String (hex_digit (Z.to_nat (Z.land b 15)))
      (EncodeToString bytes))
  end.

Lemma length_big_endian n z : length (big_endian n z) = n.
Proof. revert z. induction n as [|n IH]; intros z; simpl; [done|]. rewrite length_app, IH. simpl. lia. Qed.

Lemma length_EncodeToString bytes : String.length (EncodeToString bytes) = (2 * length bytes)%nat.
Proof. induction bytes as [|b bytes IH]; simpl; [done|]. rewrite IH. lia. Qed.

Lemma length_sha1 message : length (sha1 message) = 20%nat.
Proof. unfold sha1. cbn [mbind list_bind]. by rewrite !length_app, !length_big_endian. Qed.

Example sha1_empty : EncodeToString (sha1 "") = "da39a3ee5e6b4b0d3255bfef95601890afd80709".
Proof. vm_compute. reflexivity. Qed.
Example sha1_fox :
  EncodeToString (sha1 "The quick brown fox jumps over the lazy dog") = "2fd4e1c67a2d28fced849ee1bb76e7391b93eb12".
Proof. vm_compute. reflexivity. Qed.
(** Two blocks. *)
Example sha1_long :
  EncodeToString (sha1 "abcdbcdecdefdefgefghfghighijhijkijkljklmklmnlmnomnopnopq") =
    "84983e441c3bd26ebaae4aa1f95129e5e54670f1".
Proof. vm_compute. reflexivity. Qed.
End SHA.
