(* ===== verification/Worker.v ===== *)
(** * What the two kinds of controllers share: listers, events and the worker

    An informer's lister and the objects it hands to event handlers, with
    [GetObject] and [KeyFunc] of [pkg/controller/common/common.go]; and the
    worker loop, which both controllers have, around the sync of a key. *)
From S2P Require Import Prelude Value K8s K8sInst Types World.
From stdpp Require Import options.

(** What an informer hands to an event handler. *)
Inductive informer_object :=
  | Live (o : object)
  (** [cache.DeletedFinalStateUnknown] *)
  | Tombstone (key : string) (o : option object)
  (** [cache.ExplicitKey] *)
  | ExplicitKey (key : string)
  | OtherObject.

Section listers.
Context {API : Apimachinery} {CL : Cluster}.

(** The lister of an informer: a get by namespace and name, and the list of a
    namespace ([""]: all). *)
Record Lister := {
  lister_Get : string → string → M World object;
  lister_List : string → M World (list object);
}.

(** [cache.DeletionHandlingMetaNamespaceKeyFunc] *)
Definition KeyFunc (obj : informer_object) : res string :=
  match obj with
  | Live o => MetaNamespaceKeyFunc o
  | Tombstone key _ | ExplicitKey key => Ok key
  | OtherObject => Err (ErrorString "object has no meta")
  end.

Definition GetObject (informer : Lister) (namespace name : string) : M World object :=
  if namespace == "" then lister_Get informer "" name else lister_Get informer namespace name.
End listers.

(** ** The worker *)
Section worker.
Context {CL : Cluster}.
Variable sync : string → M World unit.

(** [processNextWorkItem], of both controllers, for a key the queue gave out;
    [HandleError] only logs.  The deferred [Done] also runs when the sync panics. *)
Definition process_key (key : string) : M World unit :=
  r ← try (sync key);
  match r with
  | inl _ => enqueue (QueueForget key)
  | inr err =>
    match errors_As_TooManyRequest err with
    | Some afterSecond => enqueue (QueueAddAfter key (seconds afterSecond))
    | None => enqueue (QueueAddRateLimited key)
    end
  end.

Definition process_item (item : option string) : M World bool :=
  match item with
  | None => mret false
  | Some key => λ w,
    let '(r, w1) := process_key key w in
    let '(_, w2) := enqueue (QueueDone key) w1 in
    match r with
    | Ok _ => (Ok true, w2)
    | Err e => (Err e, w2)
    | Panic s => (Panic s, w2)
    end
  end.

(** ** No key is lost *)

(** What becomes of a key after its sync. *)
Definition requeue (key : string) (r : res unit) : list event :=
  match r with
  | Ok _ => [EvQueue (QueueForget key)]
  | Err err =>
    match errors_As_TooManyRequest err with
    | Some afterSecond => [EvQueue (QueueAddAfter key (seconds afterSecond))]
    | None => [EvQueue (QueueAddRateLimited key)]
    end
  | Panic _ => []
  end.

(** C32: no key is ever lost: a key whose sync failed is put back on the queue,
    once, after the delay the webhook asked for or at the rate limiter's pace;
    a key whose sync succeeded is forgotten; and the key is marked done last,
    even when the sync panics. *)
Theorem process_item_requeues key w :
  let '(r, w1) := sync key w in
  w_log (process_item (Some key) w).2 = w_log w1 ++ requeue key r ++ [EvQueue (QueueDone key)] ∧
  match r with
  | Panic s => (process_item (Some key) w).1 = Panic s
  | _ => (process_item (Some key) w).1 = Ok true
  end.
Proof.
  destruct (sync key w) as [r w1] eqn:Hsync.
  unfold process_item, process_key, mbind, M_bind, try. rewrite Hsync. unfold requeue.
  destruct r as [u|e|s]; [| |done].
  - simpl. by rewrite <-app_assoc.
  - destruct (errors_As_TooManyRequest e); simpl; by rewrite <-app_assoc.
Qed.

(** The delay before a retry is the number of seconds that the webhook
    asked for, as long as it fits the 64 bits of a duration in nanoseconds,
    which is up to 292 years; beyond that it wraps around, so that
    9223372037 seconds become a negative delay, and the key is due at once. *)
Theorem requeue_delay_bounds key err afterSecond :
  errors_As_TooManyRequest err = Some afterSecond →
  ∃ delay, requeue key (Err err) = [EvQueue (QueueAddAfter key delay)] ∧
    (- 2 ^ 63 ≤ delay < 2 ^ 63)%Z ∧
    ((0 ≤ afterSecond ≤ 9223372036)%Z → delay = (afterSecond * 1000000000)%Z) ∧
    (afterSecond = 9223372037%Z → (delay < 0)%Z).
Proof.
  intros Herr. exists (seconds afterSecond). unfold requeue. rewrite Herr.
  split; [done|]. split; [apply int64_range|]. split.
  - intros. apply seconds_small. lia.
  - intros ->. by vm_compute.
Qed.
End worker.

(** ** A concrete retry *)
Lemma requeue_delay_bounds_witness :
  ∃ delay, requeue "ns/p" (Err (WrapError "sync hook failed" (TooManyRequestError 30))) =
    [EvQueue (QueueAddAfter "ns/p" delay)] ∧ delay = 30000000000%Z.
Proof.
  destruct (requeue_delay_bounds "ns/p" (WrapError "sync hook failed" (TooManyRequestError 30)) 30)
    as (delay & Hd & _ & Hsmall & _); [reflexivity|].
  exists delay. split; [exact Hd|]. apply Hsmall. lia.
Defined.
