(* ===== verification/ParentController.v ===== *)
(** * The controller of one parent resource: [pkg/controller/composite/hooks.go],
    [pkg/controller/composite/api] and the selectors of [controller.go]

    The state of a [parentController], the selector of a parent's children, and
    the hooks: which one a sync calls, and the request it sends (version 1 names
    children relative to the parent, version 2 by namespace and name).  The
    executor that sends a request over HTTP is the interface [Hook_I]. *)
From S2P Require Import Prelude Value K8s K8sInst ObjectMap Types World Discovery ClientSet FakeCluster Finalizer ControllerRef.
From S2P Require Import ManageChildren Status RollingUpdate Worker.
From stdpp Require Import options.

(** [api.ObjectMap], an interface value: nil, or one of the two maps. *)
Inductive any_ObjectMap :=
  | NilObjectMap
  | AnyRelative (m : RelativeObjectMap)
  | AnyUniform (m : UniformObjectMap).

Record CompositeHookRequest (Map : Type) := {
  chr_Controller : CompositeController;
  chr_Parent : option object;
  chr_Children : Map;
  chr_Related : Map;
  chr_Finalizing : bool;
}.
Arguments chr_Controller {Map}.
Arguments chr_Parent {Map}.
Arguments chr_Children {Map}.
Arguments chr_Related {Map}.
Arguments chr_Finalizing {Map}.

Inductive hook_request :=
  | V1Request (r : CompositeHookRequest RelativeObjectMap)
  | V2Request (r : CompositeHookRequest UniformObjectMap).

(** ** Request builders *)
(** Of a composite or of a decorator controller: both packages have the same one. *)
Record requestBuilder (C : Type) := {
  rb_controller : C;
  rb_parent : option object;
  rb_children : any_ObjectMap;
  rb_related : any_ObjectMap;
  rb_finalizing : bool;
}.
Arguments rb_controller {C}.
Arguments rb_parent {C}.
Arguments rb_children {C}.
Arguments rb_related {C}.
Arguments rb_finalizing {C}.

Section builder.
Context {RT : GoRuntime} {API : Apimachinery}.

Definition toRelativeObjectMap {C} (r : requestBuilder C) (objMap : any_ObjectMap) : RelativeObjectMap :=
  match objMap with
  | NilObjectMap => Relative ∅
  | _ =>
    match rb_parent r with
    | None => Relative ∅
    | Some parent =>
      match objMap with
      | NilObjectMap => Relative ∅
      | AnyRelative typed => typed
      | AnyUniform typed => UniformObjectMap_Convert typed parent
      end
    end
  end.

Definition toUniformObjectMap {C} (r : requestBuilder C) (objMap : any_ObjectMap) : UniformObjectMap :=
  match objMap with
  | NilObjectMap => Uniform ∅
  | _ =>
    match rb_parent r with
    | None => Uniform ∅
    | Some parent =>
      match objMap with
      | NilObjectMap => Uniform ∅
      | AnyUniform typed => typed
      | AnyRelative typed => MakeUniformObjectMap parent (RelativeObjectMap_List typed)
      end
    end
  end.

Definition v1_Build (r : requestBuilder CompositeController) : CompositeHookRequest RelativeObjectMap := {|
  chr_Controller := rb_controller r;
  chr_Parent := rb_parent r;
  chr_Children := toRelativeObjectMap r (rb_children r);
  chr_Related := toRelativeObjectMap r (rb_related r);
  chr_Finalizing := rb_finalizing r;
|}.

Definition v2_Build (r : requestBuilder CompositeController) : CompositeHookRequest UniformObjectMap := {|
  chr_Controller := rb_controller r;
  chr_Parent := rb_parent r;
  chr_Children := toUniformObjectMap r (rb_children r);
  chr_Related := toUniformObjectMap r (rb_related r);
  chr_Finalizing := rb_finalizing r;
|}.
End builder.

(** ** Hooks *)
Section hooks.
Context {RT : GoRuntime} {API : Apimachinery} {CL : Cluster}.

(** [hooks.Hook]; a call decodes the response into the zero value of the
    version's response type. *)
Record Hook_I (Request Response : Type) := {
  hook_IsEnabled : bool;
  hook_GetVersion : HookVersion;
  hook_Call : Request → M World Response;
}.
#[global] Arguments hook_IsEnabled {Request Response}.
#[global] Arguments hook_GetVersion {Request Response}.
#[global] Arguments hook_Call {Request Response}.

Record hookCallInfo := {
  hci_version : HookVersion;
  hci_isFinalizing : bool;
  hci_hookType : string;
}.

(** The indexed lists of a child informer's cache, by namespace ([""]: all). *)
Record ChildInformer := {
  ListByOwnerUID : string → string → M World (list object);
  ListOrphans : string → M World (list object);
}.

(** [parentController]; the informers, listers, hooks and the customize manager
    are interfaces, each a computation over the world. *)
Record parentController := {
  pc_cc : CompositeController;
  pc_parentResource : APIResource;
  pc_dynClient : Clientset;
  pc_parentClient : ResourceClient;
  pc_parentInformer : Lister;
  pc_parentSelector : option Selector;
  (** [revisionLister.ControllerRevisions(namespace).List(labels.Everything())] *)
  pc_revisionLister : string → M World (list ControllerRevision);
  pc_updateStrategy : updateStrategyMap;
  pc_childInformers : gmap GroupVersionResource ChildInformer;
  pc_ssaOptions : ApplyOptions;
  pc_finalizer : FinalizerManager;
  (** [customize.GetRelatedObjects] *)
  pc_GetRelatedObjects : object → M World any_ObjectMap;
  pc_syncHook : Hook_I hook_request CompositeHookResponse;
  pc_finalizeHook : Hook_I hook_request CompositeHookResponse;
}.

Implicit Types pc : parentController.

Definition doNotMatchLabels pc (labelsMap : gmap string string) : bool :=
  match pc_parentSelector pc with Some s => negb (Matches s labelsMap) | None => false end.

Definition shouldCallFinalizeHook pc (parent : object) : bool :=
  hook_IsEnabled (pc_finalizeHook pc) && (being_deleted parent || doNotMatchLabels pc (labels_of parent)).

Definition determineHookToCall pc (parent : object) : option hookCallInfo :=
  if shouldCallFinalizeHook pc parent then
    Some {| hci_version := hook_GetVersion (pc_finalizeHook pc); hci_isFinalizing := true; hci_hookType := "finalize" |}
  else if hook_IsEnabled (pc_syncHook pc) then
    Some {| hci_version := hook_GetVersion (pc_syncHook pc); hci_isFinalizing := false; hci_hookType := "sync" |}
  else None.

Definition buildHookRequest pc (hookInfo : hookCallInfo) (parent : object)
    (observedChildren related : any_ObjectMap) : hook_request :=
  let builder := {|
    rb_controller := pc_cc pc; rb_parent := Some parent; rb_children := observedChildren; rb_related := related;
    rb_finalizing := hci_isFinalizing hookInfo |} in
  if hci_version hookInfo == HookVersionV2 then V2Request (v2_Build builder) else V1Request (v1_Build builder).

Definition callHookExecutor pc (hookInfo : hookCallInfo) (request : hook_request) : M World CompositeHookResponse :=
  if hci_isFinalizing hookInfo then hook_Call (pc_finalizeHook pc) request
  else hook_Call (pc_syncHook pc) request.

Definition applyNamespaceDefaults (children : list (option object)) (parent : object) : list (option object) :=
  (λ child, match child with
            | Some child =>
              Some (if GetNamespace child == "" then SetNamespace (GetNamespace parent) child else child)
            | None => None
            end) <$> children.

Definition set_cr_Children (children : list (option object)) (r : CompositeHookResponse) : CompositeHookResponse := {|
  cr_Status := cr_Status r;
  cr_Children := children;
  cr_ResyncAfterSeconds := cr_ResyncAfterSeconds r;
  cr_Finalized := cr_Finalized r;
|}.

(** The responses of both versions have the same fields:
    [convertV2ToV1Response] copies them one by one. *)
Definition convertV2ToV1Response (v2Response : CompositeHookResponse) : CompositeHookResponse := {|
  cr_Status := cr_Status v2Response;
  cr_Children := cr_Children v2Response;
  cr_ResyncAfterSeconds := cr_ResyncAfterSeconds v2Response;
  cr_Finalized := cr_Finalized v2Response;
|}.

Definition executeHook pc (hookInfo : hookCallInfo) (request : hook_request) (parent : object)
    : M World CompositeHookResponse :=
  v1Response ←
    (if hci_version hookInfo == HookVersionV2 then
       v2Response ← wrap_errM (hci_hookType hookInfo +:+ " hook failed (version=v2)")
                      (callHookExecutor pc hookInfo request);
       mret (convertV2ToV1Response v2Response)
     else
       wrap_errM (hci_hookType hookInfo +:+ " hook failed (version=v1)") (callHookExecutor pc hookInfo request));
  mret (set_cr_Children (applyNamespaceDefaults (cr_Children v1Response) parent) v1Response).

(** [None] is the nil result of a controller without a hook to call. *)
Definition callHook pc (parent : object) (observedChildren related : any_ObjectMap)
    : M World (option CompositeHookResponse) :=
  match determineHookToCall pc parent with
  | None => mret None
  | Some hookInfo =>
    let request := buildHookRequest pc hookInfo parent observedChildren related in
    Some <$> executeHook pc hookInfo request parent
  end.

(** ** Selectors *)
Definition GetNestedFieldInto_LabelSelector (obj : object) (fields : list string) : res LabelSelector :=
  found ← wrap_err ("can't get nested field " +:+ strings_Join fields ".") (NestedFieldNoCopy obj fields);
  match found with
  | None => mret emptyLabelSelector
  | Some objMap =>
    data ← wrap_err ("can't encode nested field " +:+ strings_Join fields ".") (json_Marshal objMap);
    wrap_err ("can't decode nested field " +:+ strings_Join fields "." +:+ " into type *v1.LabelSelector")
      (json_Unmarshal_LabelSelector data)
  end.

Definition isUsingGeneratedLabelSelector pc : bool := default false (cc_GenerateSelector (pc_cc pc)).

Definition makeSelector pc (parent : object) (extraMatchLabels : gmap string string) : res Selector :=
  labelSelector ←
    (if isUsingGeneratedLabelSelector pc then
       mret (AddLabelToSelector emptyLabelSelector "controller-uid" (GetUID parent))
     else
       match GetNestedFieldInto_LabelSelector parent ["spec"; "selector"] with
       | Panic s => Panic s
       | Err _ => Err (ErrorString ("can't get label selector from " +:+ ar_Kind (pc_parentResource pc) +:+ " " +:+
                                    GetNamespace parent +:+ "/" +:+ GetName parent))
       | Ok labelSelector =>
         if bool_decide (MatchLabels labelSelector = ∅) && bool_decide (MatchExpressions labelSelector = [])
         then Err (ErrorString ".spec.selector must have either matchLabels, matchExpressions, or both")
         else mret labelSelector
       end);
  let labelSelector :=
    foldl (λ s '(key, value), AddLabelToSelector s key value) labelSelector (range extraMatchLabels) in
  wrap_err "can't convert label selector" (LabelSelectorAsSelector labelSelector).

Definition canAdoptFunc pc (parent : object) : M World unit :=
  RecheckDeletionTimestamp (
    fresh ← rc_Get (ResourceClient_Namespace (pc_parentClient pc) (GetNamespace parent)) (GetName parent);
    if GetUID fresh != GetUID parent
    then throw (ErrorString ("original " +:+ ar_Kind (pc_parentResource pc) +:+ " " +:+ GetNamespace parent +:+ "/" +:+
                             GetName parent +:+ " is gone: got uid " +:+ GetUID fresh +:+
                             ", wanted " +:+ GetUID parent))
    else mret fresh).
End hooks.

(** ** A concrete controller *)
Section examples.
#[local] Existing Instance treeAPI.
#[local] Existing Instance listRuntime.
#[local] Existing Instance fakeCluster.

Definition demo_resource (name kind : string) (namespaced : bool) : APIResource := {|
  ar_Name := name; ar_Namespaced := namespaced; ar_Group := "demo.io"; ar_Version := "v1";
  ar_Kind := kind; ar_APIVersion := "demo.io/v1"; ar_subresourceMap := {[ "status" ]} |}.
Definition demo_parents : APIResource := demo_resource "parents" "Parent" false.

Definition demo_cc : CompositeController := {|
  cc_Name := "demo";
  cc_ParentResource := {| parent_rule := {| rr_APIVersion := "demo.io/v1"; rr_Resource := "parents" |};
                          parent_RevisionHistory := None; parent_LabelSelector := None;
                          parent_IgnoreStatusChanges := None |};
  cc_ChildResources := []; cc_Hooks := None; cc_EndpointConfigs := []; cc_ResyncPeriodSeconds := None;
  cc_GenerateSelector := Some true |}.

Definition parents_gvr : GroupVersionResource :=
  {| gvr_Group := "demo.io"; gvr_Version := "v1"; gvr_Resource := "parents" |}.

(** Things, as the API server lists them. *)
Definition things_group : groupVersionEntry :=
  match refresh_group {| arl_GroupVersion := "demo.io/v1";
                         arl_APIResources := [demo_parents; demo_resource "things" "Thing" false] |} with
  | Ok e => e
  | _ => {| gve_heap := []; gve_resources := ∅; gve_kinds := ∅; gve_subresources := ∅ |}
  end.
Definition things_gvr : GroupVersionResource :=
  {| gvr_Group := "demo.io"; gvr_Version := "v1"; gvr_Resource := "things" |}.

Definition labelled (name : string) (uid : string) : object :=
  SetLabels {[ "controller-uid" := "parent-uid" ]}
    (<["metadata" := VMap {[ "name" := VString name; "uid" := VString uid ]}]> (thing "Thing" name)).
Definition live_parent : object :=
  <["metadata" := VMap {[ "name" := VString "p"; "uid" := VString "parent-uid" ]}]> (thing "Parent" "p").

Definition things_world : World := {|
  w_srv := {| fs_objects :=
    <[(things_gvr, "", "a") := labelled "a" "uid-a"]>
    (<[(things_gvr, "", "b") := labelled "b" "uid-b"]>
    {[ (parents_gvr, "", "p") := live_parent ]}); fs_revisions := ∅ |};
  w_log := []; w_lastUpdated := ∅ |}.

(** A webhook that always answers [response]. *)
Definition constant_hook {Req Resp} (response : Resp) : Hook_I Req Resp :=
  {| hook_IsEnabled := true; hook_GetVersion := HookVersionV1; hook_Call := λ _, mret response |}.
Definition disabled_hook {Req Resp} : Hook_I Req Resp :=
  {| hook_IsEnabled := false; hook_GetVersion := HookVersionV1;
     hook_Call := λ _, throw (ErrorString "not enabled") |}.

Definition demo_controller (parents : list object) (strategy : updateStrategyMap)
    (response : CompositeHookResponse) : parentController := {|
  pc_cc := demo_cc;
  pc_parentResource := demo_parents;
  pc_dynClient := {| cs_resources := NewResourceMap |};
  pc_parentClient := {| rc_APIResource := demo_parents;
                        rc_GVR := parents_gvr;
                        rc_namespace := "" |};
  pc_parentInformer := {|
    lister_Get := λ ns name,
      match head (filter (λ o, GetNamespace o = ns ∧ GetName o = name) parents) with
      | Some o => mret o
      | None => throw (fake_NotFound name)
      end;
    lister_List := λ ns, mret (filter (λ o, ns = "" ∨ GetNamespace o = ns) parents) |};
  pc_parentSelector := None;
  pc_revisionLister := λ _, mret [];
  pc_updateStrategy := strategy;
  pc_childInformers := ∅;
  pc_ssaOptions := {| ao_FieldManager := "demo"; ao_Strategy := ApplyStrategyDynamicApply |};
  pc_finalizer := {| fm_Name := "demo.io/finalizer"; fm_Enabled := false |};
  pc_GetRelatedObjects := λ _, mret NilObjectMap;
  pc_syncHook := constant_hook response;
  pc_finalizeHook := disabled_hook;
|}.
End examples.
