(* ===== verification/Revisions.v ===== *)
(** * Controller revisions: [pkg/controller/composite/controller_revision.go]

    A [ControllerRevision] records the fields of a parent that matter for its
    history.  A sync claims the revisions of the parent, asks the hook for the
    children each of them wants, lets the rollout move children between them,
    stores the outcome, and merges the answers into one. *)
From S2P Require Import Prelude Value K8s K8sInst Apply ObjectMap Discovery Types World ClientSet FakeCluster.
From S2P Require Import Finalizer ControllerRef ManageChildren Status RollingUpdate Sha1 Worker ParentController.
From stdpp Require Import options.

Definition labelKeyAPIGroup : string := "metacontroller.k8s.io/apiGroup".
Definition labelKeyResource : string := "metacontroller.k8s.io/resource".

(** ** Patches *)
Section patches.
Context {API : Apimachinery}.

Definition path_parts (fieldPath : string) : list string := strings_Split fieldPath "."%char.

Definition makePatch (src : object) (fieldPaths : list string) : res object :=
  foldlM (λ patch fieldPath,
    let pathParts := path_parts fieldPath in
    found ← NestedFieldNoCopy src pathParts;
    match found with
    | Some value =>
      wrap_err ("can't make patch for field " +:+ fieldPath) (SetNestedField patch value pathParts)
    | None => mret patch
    end) ∅ fieldPaths.

Definition applyPatch (dest patch : object) (fieldPaths : list string) : res object :=
  foldlM (λ dest fieldPath,
    let pathParts := path_parts fieldPath in
    found ← NestedFieldNoCopy patch pathParts;
    match found with
    | Some value =>
      wrap_err ("can't apply patch for field " +:+ fieldPath) (SetNestedField dest value pathParts)
    | None => mret dest
    end) dest fieldPaths.
End patches.

(** ** Names *)
Definition controllerRevisionHash (parentUID patchData : string) : string :=
  SHA.EncodeToString (SHA.sha1 (parentUID +:+ patchData)).

Section revisions.
Context {RT : GoRuntime} {API : Apimachinery} {CL : Cluster} {RY : Retry}.
Implicit Types pc : parentController.

Definition controllerRevisionName (parentResource : APIResource) (parent : object) (patchData : string) : string :=
  let apiGroup := if ar_Group parentResource == "" then "core" else ar_Group parentResource in
  let prefix := ar_Name parentResource +:+ "." +:+ apiGroup in
  let prefix := if (253 - 41 <? String.length prefix)%nat then String.substring 0 (253 - 41) prefix else prefix in
  prefix +:+ "-" +:+ controllerRevisionHash (GetUID parent) patchData.

Definition newControllerRevision pc (parent patch : object) : res ControllerRevision :=
  patchData ← wrap_err "can't marshal ControllerRevision parentPatch" (json_Marshal (VMap patch));
  labels ←
    (if isUsingGeneratedLabelSelector pc then mret (<["controller-uid" := GetUID parent]> ∅)
     else
       found ← wrap_err ("invalid labels on parent " +:+ GetKind parent +:+ " " +:+ GetNamespace parent +:+ "/" +:+
                         GetName parent)
                 (NestedStringMap parent ["spec"; "template"; "metadata"; "labels"]);
       mret (default ∅ found));
  let labels := <[labelKeyAPIGroup := ar_Group (pc_parentResource pc)]> labels in
  let labels := <[labelKeyResource := ar_Name (pc_parentResource pc)]> labels in
  mret {|
    rev_Name := controllerRevisionName (pc_parentResource pc) parent patchData;
    rev_Namespace := GetNamespace parent;
    rev_UID := "";
    rev_ResourceVersion := "";
    rev_Labels := labels;
    rev_OwnerReferences := [MakeControllerRef parent];
    rev_DeletionTimestamp := None;
    rev_ParentPatch := patchData;
    rev_Children := [];
  |}.

(** ** Storing the revisions *)

(** [%v %v/%v] of the parent in the error messages *)
Definition describe_parent pc (parent : object) : string :=
  ar_Kind (pc_parentResource pc) +:+ " " +:+ GetNamespace parent +:+ "/" +:+ GetName parent.

Definition delete_revision pc (parent : object) (desired : gset string) (revision : ControllerRevision)
    : M World unit :=
  if bool_decide (rev_Name revision ∈ desired) then mret ()
  else
    _ ← wrap_errM ("can't delete ControllerRevision " +:+ rev_Name revision +:+ " for " +:+ describe_parent pc parent)
          (rev (RevDelete (GetNamespace parent) (rev_Name revision)
                  {| do_UID := Some (rev_UID revision); do_PropagationPolicy := None |}));
    mret ().

Definition write_revision pc (parent : object) (observedMap : gmap string ControllerRevision)
    (revision : ControllerRevision) : M World unit :=
  match observedMap !! rev_Name revision with
  | Some oldObj =>
    if oldObj == revision then mret ()
    else
      let revision :=
        if rev_ResourceVersion oldObj != rev_ResourceVersion revision
        then set_rev_ResourceVersion (rev_ResourceVersion oldObj) revision else revision in
      _ ← wrap_errM ("can't update ControllerRevision " +:+ rev_Name revision +:+ " for " +:+ describe_parent pc parent)
            (rev (RevUpdate (GetNamespace parent) revision));
      mret ()
  | None =>
    _ ← wrap_errM ("can't create ControllerRevision " +:+ rev_Name revision +:+ " for " +:+ describe_parent pc parent)
          (rev (RevCreate (GetNamespace parent) revision));
    mret ()
  end.

Definition manageRevisions pc (parent : object) (observedRevisions desiredRevisions : list ControllerRevision)
    : M World unit :=
  let desired : gset string := list_to_set (rev_Name <$> desiredRevisions) in
  observedMap ← foldlM (λ observedMap revision,
      delete_revision pc parent desired revision ;;
      mret (<[rev_Name revision := revision]> observedMap)) ∅ observedRevisions;
  foldlM (λ _ revision, write_revision pc parent observedMap revision) () desiredRevisions.

(** ** Claiming them *)
Definition claimRevisions pc (parent : object) : M World (list ControllerRevision) :=
  parentGVK ← lift (APIResource_GroupVersionKind (pc_parentResource pc));
  selector ← lift (makeSelector pc parent
    (<[labelKeyAPIGroup := ar_Group (pc_parentResource pc)]>
      {[ labelKeyResource := ar_Name (pc_parentResource pc) ]}));
  all ← wrap_errM "can't list ControllerRevisions" (pc_revisionLister pc (GetNamespace parent));
  wrap_errM "can't claim ControllerRevisions"
    (ClaimControllerRevisions {|
       crrm_base := {| crm_Controller := parent; crm_Selector := selector;
                       crm_CanAdoptFunc := Some (canAdoptFunc pc parent) |};
       crrm_parentKind := parentGVK;
       crrm_namespace := GetNamespace parent |} all).

(** ** The answers of all revisions as one *)

(** The smallest positive value wins; 0 stands for none. *)
Definition aggregate_resync (results : list CompositeHookResponse) : Z :=
  foldl (λ acc r,
    let resync := cr_ResyncAfterSeconds r in
    if float64_lt 0 resync && (float64_eq acc 0 || float64_lt resync acc) then resync else acc) 0%Z results.

Definition aggregate_finalized (results : list CompositeHookResponse) : bool := forallb cr_Finalized results.

(** The children of the latest revision, but those that another revision still
    claims as that one wants them. *)
Definition claimed_children (pr : parentRevision) : list object :=
  revision_children pr ≫= λ ck,
    omap (λ name, RelativeObjectMap_FindGroupKindName (pr_desiredChildMap pr)
                    {| gk_Group := crc_APIGroup ck; gk_Kind := crc_Kind ck |} name) (crc_Names ck).

Definition merge_desired (parent : object) (desired : RelativeObjectMap) (others : list parentRevision)
    : RelativeObjectMap :=
  foldl (λ desiredChildren child, RelativeObjectMap_ReplaceObjectIfExists desiredChildren parent child)
    desired (others ≫= claimed_children).

(** ** The sync of the revisions *)
Definition set_pr_sync (result : option CompositeHookResponse) (err : option error) (desired : RelativeObjectMap)
    (pr : parentRevision) : parentRevision := {|
  pr_parent := pr_parent pr;
  pr_revision := pr_revision pr;
  pr_syncResult := result;
  pr_syncError := err;
  pr_desiredChildMap := desired;
|}.

(** The goroutine of a revision: it fills in the result or the error. *)
Definition sync_revision pc (parent : object) (observedChildren : UniformObjectMap) (pr : parentRevision)
    : M World parentRevision :=
  let fail err := mret (set_pr_sync (pr_syncResult pr) (Some err) (pr_desiredChildMap pr) pr) in
  related ← try (pc_GetRelatedObjects pc (pr_parent pr));
  match related with
  | inr err => fail err
  | inl related =>
    syncResult ← try (callHook pc (pr_parent pr) (AnyUniform observedChildren) related);
    match syncResult with
    | inr err => fail err
    | inl syncResult =>
      result ← lift (deref syncResult);
      children ← lift (mapM deref (cr_Children result));
      mret (set_pr_sync (Some result) (pr_syncError pr) (MakeRelativeObjectMap parent children) pr)
    end
  end.

(** The revisions' goroutines, all waited for. *)
Definition sync_all pc (parent : object) (observedChildren : UniformObjectMap)
    (parentRevisions : list parentRevision) : M World (list parentRevision) :=
  foldlM (λ prs '(i, pr), pr' ← sync_revision pc parent observedChildren pr; mret (<[i := pr']> prs))
    parentRevisions (schedule (imap pair parentRevisions)).

(** The parent as each revision has it; the first component is the revision
    that matches the latest state, if there is one. *)
Definition materialize_revisions (parent latestPatch : object) (fieldPaths : list string)
    (observedRevisions : list ControllerRevision) : res (option ControllerRevision * list parentRevision) :=
  foldlM (λ '(latest, prs) revision,
    patch ← wrap_err "can't unmarshal ControllerRevision parentPatch" (json_Unmarshal (rev_ParentPatch revision));
    if DeepEqual (VMap patch) (VMap latestPatch) then mret (Some revision, prs)
    else
      dest ← applyPatch parent patch fieldPaths;
      mret (latest, prs ++ [{| pr_parent := dest; pr_revision := Some revision; pr_syncResult := None;
                               pr_syncError := None; pr_desiredChildMap := Relative ∅ |}]))
    (None, []) observedRevisions.

Definition history_paths (cc : CompositeController) : list string :=
  match parent_RevisionHistory (cc_ParentResource cc) with
  | Some ((_ :: _) as fieldPaths) => fieldPaths
  | _ => ["spec"]
  end.

(** [%v %v/%v] of the parent in [syncRevisions] *)
Definition sync_failed pc (parent : object) (err : error) : error :=
  WrapError ("sync hook failed for " +:+ describe_parent pc parent) err.

Definition syncRevisions pc (parent : object) (observedChildren : UniformObjectMap)
    (relatedObjects : any_ObjectMap) : M World CompositeHookResponse :=
  if negb (anyRolling (pc_updateStrategy pc)) ||
     (being_deleted parent && negb (FinalizerManager_ShouldFinalize (pc_finalizer pc) parent))
  then
    syncResult ← wrap_errM ("sync hook failed for " +:+ describe_parent pc parent)
                   (callHook pc parent (AnyUniform observedChildren) relatedObjects);
    match syncResult with
    | None => throw (ErrorString ("sync hook nil//not defined for " +:+ describe_parent pc parent +:+ ": %!w(<nil>)"))
    | Some syncResult => mret syncResult
    end
  else
    observedRevisions ← claimRevisions pc parent;
    let fieldPaths := history_paths (pc_cc pc) in
    latestPatch ← lift (makePatch parent fieldPaths);
    '(found, others) ← lift (materialize_revisions parent latestPatch fieldPaths observedRevisions);
    latestRevision ← lift (match found with
                           | Some revision => mret revision
                           | None => newControllerRevision pc parent latestPatch
                           end);
    let latest := {| pr_parent := parent; pr_revision := Some latestRevision; pr_syncResult := None;
                     pr_syncError := None; pr_desiredChildMap := Relative ∅ |} in
    parentRevisions ← sync_all pc parent observedChildren (latest :: others);
    match omap pr_syncError parentRevisions with
    | err :: _ => throw (sync_failed pc parent err)
    | [] =>
      parentRevisions ← lift (syncRollingUpdate (pc_updateStrategy pc) parentRevisions observedChildren);
      parentRevisions ← lift (pruneParentRevisions parentRevisions);
      wrap_errM (describe_parent pc parent +:+ ": can't reconcile ControllerRevisions")
        (manageRevisions pc parent observedRevisions (omap pr_revision parentRevisions)) ;;
      match parentRevisions with
      | [] => lift (Panic "index out of range")
      | latest :: others =>
        results ← lift (mapM deref (pr_syncResult <$> parentRevisions));
        latestResult ← lift (deref (pr_syncResult latest));
        let desiredChildren := merge_desired parent (pr_desiredChildMap latest) others in
        mret {| cr_Status := cr_Status latestResult;
                cr_Children := Some <$> RelativeObjectMap_List desiredChildren;
                cr_ResyncAfterSeconds := aggregate_resync results;
                cr_Finalized := aggregate_finalized results |}
      end
    end.
End revisions.

(** ** Patches: what they carry over *)
Section patch_properties.
Context {API : Apimachinery} {NL : NestedFieldLaws}.

(** No path of the list leads through another one. *)
Fixpoint separate_paths (paths : list string) : Prop :=
  match paths with
  | [] => True
  | p :: paths => Forall (λ q, disjoint_paths (path_parts p) (path_parts q)) paths ∧ separate_paths paths
  end.

Lemma disjoint_paths_sym p q : disjoint_paths p q → disjoint_paths q p.
Proof. intros [H1 H2]. by split. Qed.

Lemma path_parts_cons p : ∃ k q, path_parts p = k :: q.
Proof.
  unfold path_parts. destruct p as [|c p]; simpl; [by eauto|].
  destruct (c == "."%char); [by eauto|]. destruct (strings_Split p _); by eauto.
Qed.

(** The loop that [makePatch] and [applyPatch] share. *)
Lemma copy_fields msg src dest paths dest' :
  separate_paths paths →
  foldlM (λ dest fieldPath,
    found ← NestedFieldNoCopy src (path_parts fieldPath);
    match found with
    | Some value => wrap_err (msg fieldPath) (SetNestedField dest value (path_parts fieldPath))
    | None => mret dest
    end) dest paths = Ok dest' →
  (∀ q, Forall (λ p, disjoint_paths (path_parts p) q) paths →
     NestedFieldNoCopy dest' q = NestedFieldNoCopy dest q) ∧
  (∀ p, p ∈ paths → ∃ r, NestedFieldNoCopy src (path_parts p) = Ok r ∧
     NestedFieldNoCopy dest' (path_parts p) =
       match r with Some v => Ok (Some v) | None => NestedFieldNoCopy dest (path_parts p) end).
Proof using All.
  revert dest. induction paths as [|p paths IH]; intros dest; simpl.
  { intros _ [= <-]. split; [done|]. intros p Hp. by apply not_elem_of_nil in Hp. }
  intros [Hp Hsep] H.
  destruct (NestedFieldNoCopy src (path_parts p)) as [r|e|s] eqn:Hr; simpl in H; [|done..].
  assert (∃ dest1, foldlM (λ dest fieldPath,
      found ← NestedFieldNoCopy src (path_parts fieldPath);
      match found with
      | Some value => wrap_err (msg fieldPath) (SetNestedField dest value (path_parts fieldPath))
      | None => mret dest
      end) dest1 paths = Ok dest' ∧
    (∀ q, disjoint_paths (path_parts p) q → NestedFieldNoCopy dest1 q = NestedFieldNoCopy dest q) ∧
    NestedFieldNoCopy dest1 (path_parts p) =
      match r with Some v => Ok (Some v) | None => NestedFieldNoCopy dest (path_parts p) end)
    as (dest1 & Hrest & Hother & Hthis).
  { destruct r as [v|]; [|by exists dest].
    destruct (SetNestedField dest v (path_parts p)) as [dest1|e|s] eqn:Hset; simpl in H; [|done..].
    exists dest1. split_and!; [done| |].
    - intros q Hq. by eapply NestedField_Set_disjoint.
    - eapply NestedField_Set; [|done]. destruct (path_parts_cons p) as (k & q & ->). done. }
  apply IH in Hrest as [Hout Hin]; [|done]. clear IH H. split.
  - intros q [Hq Hqs]%Forall_cons. rewrite Hout by done. by apply Hother.
  - intros p' [->|Hp']%elem_of_cons.
    + exists r. split; [done|]. rewrite Hout; [done|].
      eapply Forall_impl; [apply Hp|]. intros q. apply disjoint_paths_sym.
    + destruct (Hin p' Hp') as (r' & Hr' & Hget). exists r'. split; [done|]. rewrite Hget.
      destruct r'; [done|]. apply Hother. rewrite Forall_forall in Hp. by apply Hp.
Qed.

(** A patch made from one state of a parent and applied to another gives
    back every recorded field that the first one had; a recorded field that it
    lacked keeps the value it has in the second, and so does everything
    outside the recorded fields. *)
Theorem patch_roundtrip src dest patch dest' fieldPaths :
  separate_paths fieldPaths →
  makePatch src fieldPaths = Ok patch → applyPatch dest patch fieldPaths = Ok dest' →
  (∀ p, p ∈ fieldPaths → ∃ r, NestedFieldNoCopy src (path_parts p) = Ok r ∧
     NestedFieldNoCopy dest' (path_parts p) =
       match r with Some v => Ok (Some v) | None => NestedFieldNoCopy dest (path_parts p) end) ∧
  (∀ q, Forall (λ p, disjoint_paths (path_parts p) q) fieldPaths →
     NestedFieldNoCopy dest' q = NestedFieldNoCopy dest q).
Proof using All.
  intros Hsep Hmake Happly.
  apply (copy_fields (λ p, "can't make patch for field " +:+ p)) in Hmake as [Hout1 Hin1]; [|done].
  apply (copy_fields (λ p, "can't apply patch for field " +:+ p)) in Happly as [Hout2 Hin2]; [|done].
  split; [|done]. intros p Hp. destruct (Hin1 p Hp) as (r1 & Hr1 & Hget1). exists r1. split; [done|].
  destruct (Hin2 p Hp) as (r2 & Hr2 & Hget2). rewrite Hget2. rewrite Hr2 in Hget1.
  destruct r1 as [v|]; [by injection Hget1 as ->|].
  destruct (path_parts_cons p) as (k & q & Hk). rewrite Hk in *.
  rewrite (NestedField_absent ∅) in Hget1 by apply lookup_empty. by injection Hget1 as ->.
Qed.
End patch_properties.

(** ** Names and merged answers *)
Section result_properties.
Context {RT : GoRuntime} {API : Apimachinery} {CL : Cluster}.

Lemma length_substring n s : n ≤ String.length s → String.length (String.substring 0 n s) = n.
Proof.
  revert n. induction s as [|c s IH]; intros [|n]; simpl; try lia. intros H. f_equal. apply IH. lia.
Qed.

(** The name of a revision is at most 253 bytes long, as the API server
    demands, and ends with the forty digits of the hash of the parent's UID
    and the patch. *)
Theorem controllerRevisionName_bound parentResource parent patchData :
  let name := controllerRevisionName parentResource parent patchData in
  String.length name ≤ 253 ∧
  ∃ prefix, name = prefix +:+ "-" +:+ controllerRevisionHash (GetUID parent) patchData ∧
    String.length (controllerRevisionHash (GetUID parent) patchData) = 40.
Proof.
  intros name. subst name.
  assert (Hhash : String.length (controllerRevisionHash (GetUID parent) patchData) = 40).
  { unfold controllerRevisionHash. by rewrite SHA.length_EncodeToString, SHA.length_sha1. }
  unfold controllerRevisionName. split.
  - set (prefix := ar_Name parentResource +:+ _).
    assert (String.length (if (253 - 41 <? String.length prefix)%nat
      then String.substring 0 (253 - 41) prefix else prefix) ≤ 253 - 41) as Hprefix.
    { destruct (Nat.ltb_spec (253 - 41) (String.length prefix)); [|lia]. rewrite length_substring; lia. }
    rewrite !string_length_app, Hhash. change (String.length "-") with 1%nat. lia.
  - eexists. by split.
Qed.
End result_properties.

(** [r] is a positive number of seconds. *)
Definition positive (r : Z) : bool := float64_lt 0 r.

Lemma float64_lt_rank a b :
  float64_lt a b = true ↔
  float64_is_nan a = false ∧ float64_is_nan b = false ∧ (float64_rank a < float64_rank b)%Z.
Proof. unfold float64_lt. rewrite !andb_true_iff, !negb_true_iff, Z.ltb_lt. tauto. Qed.

Lemma positive_not_zero r : positive r = true → float64_eq r 0 = false.
Proof.
  unfold positive. rewrite float64_lt_rank. intros (_ & Hr & Hlt). unfold float64_eq, float64_is_zero.
  rewrite Hr. simpl. unfold float64_rank in Hlt. simpl in Hlt.
  destruct (Z.eqb_spec r 0) as [->|Hr0]; simpl; [by vm_compute in Hlt|].
  destruct (Z.eqb_spec r (2 ^ 63)) as [->|Hr1]; simpl; [|done]. by vm_compute in Hlt.
Qed.

(** The aggregated resync delay is the least positive delay that any of
    the revisions asks for, and 0 when none does. *)
Theorem aggregate_resync_spec results :
  let delays := cr_ResyncAfterSeconds <$> results in
  (aggregate_resync results = 0%Z ∧ Forall (λ d, positive d = false) delays) ∨
  (aggregate_resync results ∈ delays ∧ positive (aggregate_resync results) = true ∧
   Forall (λ d, positive d = true → float64_lt d (aggregate_resync results) = false) delays).
Proof.
  cbv zeta. induction results as [|r results IH] using rev_ind; [left; split; [reflexivity|constructor]|].
  unfold aggregate_resync in *. rewrite foldl_app, fmap_app. cbn [foldl fmap list_fmap].
  set (acc := foldl _ _ _) in *. set (d := cr_ResyncAfterSeconds r).
  fold (positive d). rewrite !Forall_app, !Forall_singleton.
  assert (Hirr : ∀ x, float64_lt x x = false).
  { intros x. destruct (float64_lt x x) eqn:E; [|done]. apply float64_lt_rank in E as (_ & _ & ?). lia. }
  destruct (positive d) eqn:Hd; cbn [andb].
  - destruct IH as [[Hacc Hall]|(Hin & Hpos & Hall)].
    + rewrite Hacc. right. split_and!; [apply elem_of_app; right; by left|exact Hd| |].
      * eapply Forall_impl; [apply Hall|]. simpl. intros x Hx Hp. by rewrite Hp in Hx.
      * intros _. apply Hirr.
    + rewrite positive_not_zero by done. cbn [orb]. right.
      destruct (float64_lt d acc) eqn:Hlt; split_and!.
      * apply elem_of_app. right. by left.
      * exact Hd.
      * eapply Forall_impl; [apply Hall|]. simpl. intros x Hx Hp. specialize (Hx Hp).
        destruct (float64_lt x d) eqn:E; [|done]. apply float64_lt_rank in E as (Hx1 & _ & Hx2).
        apply float64_lt_rank in Hlt as (_ & Ha & Hlt).
        assert (float64_lt x acc = true) as Hc by (apply float64_lt_rank; split_and!; [done|done|lia]).
        by rewrite Hc in Hx.
      * intros _. apply Hirr.
      * apply elem_of_app. by left.
      * exact Hpos.
      * exact Hall.
      * intros _. exact Hlt.
  - destruct IH as [[Hacc Hall]|(Hin & Hpos & Hall)].
    + left. by split_and!.
    + right. split_and!; [apply elem_of_app; by left|exact Hpos|exact Hall|].
      intros Hd'. exfalso. unfold d in Hd. congruence.
Qed.

(** ** Storing the revisions *)
Section store_properties.
Context {RT : GoRuntime} {API : Apimachinery} {CL : Cluster} {RY : Retry}.
Implicit Types pc : parentController.

Definition by_name (l : list ControllerRevision) : gmap string ControllerRevision :=
  foldl (λ m r, <[rev_Name r := r]> m) ∅ l.

(** The request that deletes an observed revision that is not desired. *)
Definition delete_events (parent : object) (desired : list ControllerRevision) (r : ControllerRevision)
    : list event :=
  if bool_decide (rev_Name r ∈ rev_Name <$> desired) then []
  else [EvRev (RevDelete (GetNamespace parent) (rev_Name r)
          {| do_UID := Some (rev_UID r); do_PropagationPolicy := None |})].

(** The request that stores a desired revision: none when nothing changed. *)
Definition write_events (parent : object) (observed : list ControllerRevision) (r : ControllerRevision)
    : list event :=
  match by_name observed !! rev_Name r with
  | Some old =>
    if old == r then []
    else [EvRev (RevUpdate (GetNamespace parent) (set_rev_ResourceVersion (rev_ResourceVersion old) r))]
  | None => [EvRev (RevCreate (GetNamespace parent) r)]
  end.

Lemma attempts_rev_wrapped msg req :
  attempts (_ ← wrap_errM msg (rev req); mret ()) [EvRev req] (λ _ : unit, True).
Proof.
  rewrite <-(app_nil_r [EvRev req]). eapply attempts_bind; [apply attempts_wrap, attempts_rev|].
  intros _ _. by apply attempts_ret.
Qed.

Lemma delete_revision_attempts pc parent desired r :
  attempts (delete_revision pc parent (list_to_set (rev_Name <$> desired)) r)
    (delete_events parent desired r) (λ _, True).
Proof.
  unfold delete_revision, delete_events.
  destruct (decide (rev_Name r ∈ rev_Name <$> desired)) as [Hin|Hout].
  - rewrite !bool_decide_true by (done || by apply elem_of_list_to_set). by apply attempts_ret.
  - rewrite !bool_decide_false by (done || by rewrite elem_of_list_to_set). apply attempts_rev_wrapped.
Qed.

Lemma write_revision_attempts pc parent observed r :
  attempts (write_revision pc parent (by_name observed) r) (write_events parent observed r) (λ _, True).
Proof.
  unfold write_revision, write_events. destruct (by_name observed !! rev_Name r) as [old|].
  - destruct (old == r); [by apply attempts_ret|].
    assert ((if rev_ResourceVersion old != rev_ResourceVersion r
             then set_rev_ResourceVersion (rev_ResourceVersion old) r else r) =
            set_rev_ResourceVersion (rev_ResourceVersion old) r) as ->.
    { case_bool_decide as Hrv; simpl; [|done]. destruct r. simpl in *. by rewrite Hrv. }
    apply attempts_rev_wrapped.
  - apply attempts_rev_wrapped.
Qed.

Lemma manageRevisions_attempts pc parent observed desired :
  attempts (manageRevisions pc parent observed desired)
    ((observed ≫= delete_events parent desired) ++ (desired ≫= write_events parent observed)) (λ _, True).
Proof.
  unfold manageRevisions. eapply attempts_bind.
  - apply (attempts_foldlM _ (λ m r, <[rev_Name r := r]> m)). intros m r.
    rewrite <-(app_nil_r (delete_events _ _ _)).
    eapply attempts_bind; [apply delete_revision_attempts|]. intros _ _. by apply attempts_ret.
  - intros m ->. apply (attempts_weaken _ _ (λ a, a = foldl (λ _ _, tt) tt desired)); [|done].
    apply (attempts_foldlM _ (λ _ _, tt)). intros [] r.
    eapply attempts_weaken; [apply write_revision_attempts|]. by intros [].
Qed.

(** Storing the revisions sends, in this order, one deletion for every
    observed revision that is not desired, bound to its UID, then for every
    desired one a creation if it was not observed, and an update at the
    observed resource version if it was and has changed; it stops at the
    first request that fails, and succeeds only when all of them did. *)
Theorem manageRevisions_requests pc parent observed desired w :
  ∃ es, w_log (manageRevisions pc parent observed desired w).2 = w_log w ++ es ∧
    es `prefix_of` (observed ≫= delete_events parent desired) ++ (desired ≫= write_events parent observed) ∧
    (is_Ok (manageRevisions pc parent observed desired w).1 = true →
     es = (observed ≫= delete_events parent desired) ++ (desired ≫= write_events parent observed)).
Proof.
  destruct (manageRevisions_attempts pc parent observed desired w) as (es & Hlog & Hpre & Hok).
  exists es. split_and!; [done..|]. destruct (manageRevisions _ _ _ _ w).1 as [a|e|s]; [|done..].
  intros _. by apply (Hok a).
Qed.

Lemma attempts_emits {A} P (m : M World A) es Q : attempts m es Q → Forall P es → emits P m.
Proof.
  intros Hm HP w. destruct (Hm w) as (es' & Hlog & [k ->] & _). exists es'. split; [done|].
  by apply Forall_app in HP as [? _].
Qed.

Lemma manageRevisions_emits pc parent observed desired :
  emits (λ e, match e with EvRev (RevGet _ _) => False | EvRev _ => True | _ => False end)
    (manageRevisions pc parent observed desired).
Proof.
  eapply attempts_emits; [apply manageRevisions_attempts|]. apply Forall_app. split; apply Forall_forall.
  - intros e (r & He & _)%list_elem_of_bind. unfold delete_events in He.
    case_bool_decide; [by apply not_elem_of_nil in He|]. by apply list_elem_of_singleton in He as ->.
  - intros e (r & He & _)%list_elem_of_bind. unfold write_events in He.
    destruct (by_name observed !! rev_Name r) as [old|].
    + case_bool_decide; [by apply not_elem_of_nil in He|]. by apply list_elem_of_singleton in He as ->.
    + by apply list_elem_of_singleton in He as ->.
Qed.

(** ** Claiming what was created *)

Lemma MatchLabels_fold {SL : SelectorLaws} (s : LabelSelector) (l : list (string * string)) k v :
  Forall (λ '(k, _), k ≠ "") l →
  let s' := foldl (λ s '(key, value), AddLabelToSelector s key value) s l in
  MatchExpressions s' = MatchExpressions s ∧
  (MatchLabels s' !! k = Some v → (k, v) ∈ l ∨ MatchLabels s !! k = Some v).
Proof.
  revert s. induction l as [|[k0 v0] l IH]; intros s Hl; simpl; [by split; [|right]|].
  apply Forall_cons in Hl as [Hk0 Hl]. destruct (IH (AddLabelToSelector s k0 v0) Hl) as [IH1 IH2].
  split; [by rewrite IH1, MatchExpressions_Add|]. intros H. apply IH2 in H as [H|H].
  - left. by right.
  - rewrite MatchLabels_Add in H by done. apply lookup_insert_Some in H as [[<- <-]|[_ H]]; [|by right].
    left. by left.
Qed.

(** With generated selectors, a revision that the controller creates is one
    that it claims on the next sync: its labels match the selector that
    [claimRevisions] uses, and its controller reference is the parent's. *)
Theorem newControllerRevision_claimed {SL : SelectorLaws} {OL : OwnerReferenceLaws} pc parent patch r m :
  isUsingGeneratedLabelSelector pc = true →
  newControllerRevision pc parent patch = Ok r →
  makeSelector pc parent (<[labelKeyAPIGroup := ar_Group (pc_parentResource pc)]>
    {[ labelKeyResource := ar_Name (pc_parentResource pc) ]}) = Ok (crm_Selector m) →
  crm_Controller m = parent →
  owned m r.
Proof.
  intros Hgen Hnew Hsel <-. unfold newControllerRevision in Hnew.
  destruct (json_Marshal (VMap patch)) as [data|e|s]; simpl in Hnew; [|done..].
  rewrite Hgen in Hnew. simpl in Hnew. injection Hnew as <-. split.
  - unfold makeSelector in Hsel. rewrite Hgen in Hsel. simpl in Hsel.
    set (extra := <[labelKeyAPIGroup := _]> {[ labelKeyResource := _ ]} : gmap string string) in *.
    set (s := AddLabelToSelector emptyLabelSelector _ _) in *.
    assert (Hs : MatchLabels s = {[ "controller-uid" := GetUID (crm_Controller m) ]} ∧ MatchExpressions s = []).
    { unfold s. by rewrite MatchLabels_Add, MatchExpressions_Add. }
    assert (Hne : Forall (λ '(k, _), k ≠ "") (range extra)).
    { apply Forall_forall. intros [k v] Hkv%elem_of_range ->. unfold extra in Hkv.
      by rewrite lookup_insert_ne, lookup_singleton_ne in Hkv by done. }
    destruct (LabelSelectorAsSelector _) as [sel|e|p] eqn:Has; simpl in Hsel; [|done..].
    injection Hsel as ->. apply (Matches_labels _ _ _) in Has as ->.
    + apply map_subseteq_spec. intros k v Hkv.
      apply (MatchLabels_fold s (range extra) k v Hne) in Hkv as [Hkv|Hkv]; simpl.
      * apply elem_of_range in Hkv. unfold extra in Hkv. simpl.
        apply lookup_insert_Some in Hkv as [[<- <-]|[Hk Hkv]].
        -- rewrite lookup_insert_ne by done. by rewrite lookup_insert_eq.
        -- apply lookup_singleton_Some in Hkv as [<- <-]. by rewrite lookup_insert_eq.
      * rewrite (proj1 Hs) in Hkv. apply lookup_singleton_Some in Hkv as [<- <-].
        rewrite !lookup_insert_ne by done. by rewrite lookup_insert_eq.
    + destruct (MatchLabels_fold s (range extra) "" "" Hne) as [-> _]. apply Hs.
  - simpl. destruct (GetControllerOf [MakeControllerRef (crm_Controller m)]) as [ref|] eqn:Href.
    + exists ref. split; [done|]. apply GetControllerOf_Some in Href as [Hin _].
      by apply list_elem_of_singleton in Hin as ->.
    + apply GetControllerOf_None in Href. by inversion Href.
Qed.

(** ** The children of all revisions *)

(** Of the children of a sync, those that a revision other than the latest
    still claims are as that revision wants them, all others as the latest
    does; and the set of children, by kind and name, is the one that the
    latest wants. *)
Theorem merge_desired_lookup parent desired others gvk name :
  groups_lookup (relative_groups (merge_desired parent desired others)) gvk name =
    match last (filter (λ child, obj_GroupVersionKind child = gvk ∧ relativeName parent child = name)
                  (others ≫= claimed_children)) with
    | Some child => (λ _, child) <$> groups_lookup (relative_groups desired) gvk name
    | None => groups_lookup (relative_groups desired) gvk name
    end.
Proof.
  unfold merge_desired. induction (others ≫= claimed_children) as [|c l IH] using rev_ind; [done|].
  rewrite foldl_app. cbn [foldl].
  pose proof (ReplaceObjectIfExists_lookup (T:=RelativeObjectMap)
    (foldl (λ d c, RelativeObjectMap_ReplaceObjectIfExists d parent c) desired l) parent c gvk name) as Hr.
  cbn in Hr. rewrite Hr, IH, filter_app, filter_cons, filter_nil. clear Hr IH.
  case_decide as Hc.
  - rewrite last_snoc. destruct (last _); [|done]. by destruct (groups_lookup _ _ _).
  - by rewrite app_nil_r.
Qed.
End store_properties.

(** ** The sync of the revisions *)
Section sync_properties.
Context {RT : GoRuntime} {API : Apimachinery} {CL : Cluster} {RY : Retry}.
Implicit Types pc : parentController.

Definition is_read (e : event) : Prop := is_write e = false.
Definition no_event (e : event) : Prop := False.

(** What the interfaces of a controller are relied on for: hooks, listers and
    the customize manager read caches and call webhooks, and send the API
    server nothing. *)
Record quiet pc : Prop := {
  quiet_syncHook req : emits no_event (hook_Call (pc_syncHook pc) req);
  quiet_finalizeHook req : emits no_event (hook_Call (pc_finalizeHook pc) req);
  quiet_related parent : emits no_event (pc_GetRelatedObjects pc parent);
  quiet_revisions ns : emits no_event (pc_revisionLister pc ns);
  quiet_parents_Get ns name : emits no_event (lister_Get (pc_parentInformer pc) ns name);
  quiet_parents_List ns : emits no_event (lister_List (pc_parentInformer pc) ns);
  quiet_owned gvr informer uid ns :
    pc_childInformers pc !! gvr = Some informer → emits no_event (ListByOwnerUID informer uid ns);
  quiet_orphans gvr informer ns :
    pc_childInformers pc !! gvr = Some informer → emits no_event (ListOrphans informer ns);
}.

Lemma emits_no_event P {A} (m : M World A) : emits no_event m → emits P m.
Proof. intros Hm. by eapply emits_weaken. Qed.

Lemma callHook_quiet pc parent observed related :
  quiet pc → emits no_event (callHook pc parent observed related).
Proof.
  intros Hq. unfold callHook, executeHook, callHookExecutor. emits_auto;
    first [by apply (quiet_syncHook pc) | by apply (quiet_finalizeHook pc)].
Qed.

Lemma sync_revision_quiet pc parent observed pr :
  quiet pc → emits no_event (sync_revision pc parent observed pr).
Proof.
  intros Hq. unfold sync_revision. cbv zeta. emits_auto;
    first [by apply (quiet_related pc) | by apply callHook_quiet].
Qed.

Lemma sync_all_quiet pc parent observed prs :
  quiet pc → emits no_event (sync_all pc parent observed prs).
Proof.
  intros Hq. apply emits_foldlM. intros acc [i pr] _. emits_auto. by apply sync_revision_quiet.
Qed.

(** The loop over the goroutines writes every result into its own slot. *)
Lemma fill_slots {A} (f : A → M World A) (l : list (nat * A)) acc w acc' w' :
  NoDup l.*1 →
  foldlM (λ acc '(i, a), a' ← f a; mret (<[i := a']> acc)) acc l w = (Ok acc', w') →
  length acc' = length acc ∧
  (∀ i a, (i, a) ∈ l → i < length acc → ∃ a' w1 w2, acc' !! i = Some a' ∧ f a w1 = (Ok a', w2)) ∧
  (∀ i, i ∉ l.*1 → acc' !! i = acc !! i).
Proof.
  revert acc w. induction l as [|[i a] l IH]; intros acc w Hnd H.
  { apply mret_Ok in H as [<- _]. split_and!; [done| |done]. intros i a Hin. by apply not_elem_of_nil in Hin. }
  cbn [foldlM] in H. apply bind_Ok in H as (acc1 & w1 & Hstep & H).
  apply bind_Ok in Hstep as (a' & w2 & Ha & Hret). apply mret_Ok in Hret as [<- <-].
  apply NoDup_cons in Hnd as [Hi Hnd]. apply IH in H as (Hlen & Hin & Hout); [|done]. clear IH.
  rewrite length_insert in *. split_and!; [done| |].
  - intros j b [[= -> ->]|Hj]%elem_of_cons Hlt.
    + exists a', w, w2. split; [|done]. rewrite Hout by done. by apply list_lookup_insert_eq.
    + by apply (Hin j b).
  - intros j Hj. apply not_elem_of_cons in Hj as [Hne Hj]. rewrite Hout by done.
    by rewrite list_lookup_insert_ne by done.
Qed.

(** Whatever order the scheduler runs the goroutines in, every revision
    ends up with the result of a hook call for its own parent state, in its
    own place. *)
Theorem sync_all_results pc parent observed prs w prs' w' :
  sync_all pc parent observed prs w = (Ok prs', w') →
  length prs' = length prs ∧
  ∀ i pr, prs !! i = Some pr →
    ∃ pr' w1 w2, prs' !! i = Some pr' ∧ sync_revision pc parent observed pr w1 = (Ok pr', w2).
Proof.
  unfold sync_all. intros H.
  assert (Hfst : (imap pair prs).*1 = seq 0 (length prs)).
  { apply list_eq. intros i. rewrite list_lookup_fmap, list_lookup_imap.
    destruct (prs !! i) as [pr|] eqn:Hi; simpl; symmetry.
    - rewrite lookup_seq_lt by (by eapply lookup_lt_Some). done.
    - by apply lookup_seq_ge, lookup_ge_None. }
  apply fill_slots in H as (Hlen & Hin & _).
  - split; [done|]. intros i pr Hi. apply Hin.
    + rewrite schedule_perm. apply elem_of_lookup_imap. by exists i, pr.
    + by eapply lookup_lt_Some.
  - rewrite schedule_perm, Hfst. apply NoDup_seq.
Qed.

(** Requests on controller revisions, and reads. *)
Definition revision_request (e : event) : Prop :=
  match e with
  | EvRev _ => True
  | EvDyn (DynGet _ _ _) => True
  | _ => False
  end.

Lemma canAdoptFunc_emits pc parent : emits revision_request (canAdoptFunc pc parent).
Proof. unfold canAdoptFunc, RecheckDeletionTimestamp, rc_Get. emits_auto. done. Qed.

Lemma canAdoptFunc_resource pc parent : emits (resource_request (pc_parentClient pc)) (canAdoptFunc pc parent).
Proof.
  unfold canAdoptFunc, RecheckDeletionTimestamp, rc_Get. emits_auto. apply ResourceClient_Namespace_GVR.
Qed.

Lemma UpdateWithRetries_emits ns orig f : emits revision_request (UpdateWithRetries ns orig f).
Proof. apply RetryOnConflict_emits. emits_auto; done. Qed.

Lemma claimRevisions_emits pc parent : quiet pc → emits revision_request (claimRevisions pc parent).
Proof.
  intros Hq. unfold claimRevisions. emits_auto.
  - apply emits_no_event. by apply (quiet_revisions pc).
  - apply emits_run_claim. unfold claim_all. emits_auto.
    apply ClaimObject_emits; intros _ _.
    + unfold adoptControllerRevision. emits_auto.
      * apply emits_CanAdopt. intros f [= <-]. apply canAdoptFunc_emits.
      * apply emits_liftC. emits_auto. apply UpdateWithRetries_emits.
    + unfold releaseControllerRevision. emits_auto.
      apply emits_liftC. emits_auto. apply UpdateWithRetries_emits.
Qed.

Lemma syncRevisions_emits pc parent observed related :
  quiet pc →
  emits revision_request (syncRevisions pc parent observed related) ∧
  (anyRolling (pc_updateStrategy pc) = false →
   emits no_event (syncRevisions pc parent observed related)).
Proof.
  intros Hq. split.
  - unfold syncRevisions. cbv zeta. emits_auto;
      try (apply emits_no_event; first [by apply callHook_quiet | by apply sync_all_quiet]).
    + by apply claimRevisions_emits.
    + eapply emits_weaken; [apply manageRevisions_emits|]. by intros [|[]| |] ?.
  - intros Hroll. unfold syncRevisions. rewrite Hroll. cbn [negb orb]. emits_auto. by apply callHook_quiet.
Qed.

(** C37: computing the desired children of a parent, a rollout included, touches
    no child and not the parent: without rolling updates it sends nothing at
    all; with them every write is of a [ControllerRevision], and everything
    else a read. *)
Theorem syncRevisions_writes pc parent observed related :
  quiet pc →
  emits revision_request (syncRevisions pc parent observed related) ∧
  (anyRolling (pc_updateStrategy pc) = false →
   emits no_event (syncRevisions pc parent observed related)).
Proof. apply syncRevisions_emits. Qed.
End sync_properties.

(** ** Concrete revisions *)
Section examples.
#[local] Existing Instance treeAPI.
#[local] Existing Instance listRuntime.
#[local] Existing Instance fakeCluster.
#[local] Existing Instance fakeRetry.

Definition history_parent (image : string) : object :=
  <["spec" := VMap {[ "image" := VString image ]}]> rollout_parent.
Definition new_parent : object :=
  <["spec" := VMap {[ "image" := VString "v2"; "replicas" := VInt 3 ]}]> rollout_parent.

(** Only the image is recorded: the old image comes back, the new field stays. *)
Lemma patch_roundtrip_witness :
  match makePatch (history_parent "v1") ["spec.image"] with
  | Ok patch =>
    match applyPatch new_parent patch ["spec.image"] with
    | Ok dest' =>
      NestedFieldNoCopy dest' ["spec"; "image"] = Ok (Some (VString "v1")) ∧
      NestedFieldNoCopy dest' ["spec"; "replicas"] = Ok (Some (VInt 3))
    | _ => False
    end
  | _ => False
  end.
Proof.
  assert (Hrun : match makePatch (history_parent "v1") ["spec.image"] with
                 | Ok patch => is_Ok (applyPatch new_parent patch ["spec.image"])
                 | _ => false end = true) by (vm_compute; reflexivity).
  destruct (makePatch (history_parent "v1") ["spec.image"]) as [patch|e|s] eqn:Hp; [|discriminate..].
  destruct (applyPatch new_parent patch ["spec.image"]) as [dest'|e|s] eqn:Hd; [|discriminate..].
  destruct (patch_roundtrip (history_parent "v1") new_parent patch dest' ["spec.image"]) as [Hin Hout];
    [split; [constructor|exact I]|exact Hp|exact Hd|]. split.
  - destruct (Hin "spec.image") as (r & Hr & Hget); [by left|].
    change (path_parts "spec.image") with ["spec"; "image"] in *. rewrite Hget.
    assert (Hr' : NestedFieldNoCopy (history_parent "v1") ["spec"; "image"] = Ok (Some (VString "v1")))
      by (vm_compute; reflexivity).
    rewrite Hr' in Hr. by injection Hr as <-.
  - rewrite Hout; [vm_compute; reflexivity|]. constructor; [|constructor].
    change (path_parts "spec.image") with ["spec"; "image"].
    by split; intros [k Hk].
Defined.

Definition demo_pc : parentController := demo_controller [new_parent] rollout_strategy rollout_result.
Definition demo_revision : res ControllerRevision := newControllerRevision demo_pc new_parent ∅.
Definition demo_selector_of : res Selector :=
  makeSelector demo_pc new_parent (<[labelKeyAPIGroup := ar_Group (pc_parentResource demo_pc)]>
    {[ labelKeyResource := ar_Name (pc_parentResource demo_pc) ]}).

Lemma newControllerRevision_claimed_witness :
  match demo_revision, demo_selector_of with
  | Ok r, Ok sel =>
    owned {| crm_Controller := new_parent; crm_Selector := sel; crm_CanAdoptFunc := None |} r
  | _, _ => False
  end.
Proof.
  assert (H : is_Ok demo_revision && is_Ok demo_selector_of = true) by (vm_compute; reflexivity).
  destruct demo_revision as [r|e|s] eqn:Hr; [|discriminate..].
  destruct demo_selector_of as [sel|e|s] eqn:Hs; [|discriminate..].
  apply (newControllerRevision_claimed demo_pc new_parent ∅ r
    {| crm_Controller := new_parent; crm_Selector := sel; crm_CanAdoptFunc := None |});
    [reflexivity|exact Hr|exact Hs|reflexivity].
Defined.

Lemma demo_quiet parents strategy response : quiet (demo_controller parents strategy response).
Proof.
  split; simpl; intros; try apply emits_ret; try apply emits_throw.
  - destruct (head _); [apply emits_ret|apply emits_throw].
  - done.
  - done.
Qed.

Lemma syncRevisions_writes_witness :
  emits revision_request (syncRevisions demo_pc new_parent rollout_observed NilObjectMap) ∧
  is_Ok (syncRevisions demo_pc new_parent rollout_observed NilObjectMap (fake_world [])).1 = true.
Proof.
  split; [|vm_compute; reflexivity].
  apply (syncRevisions_writes demo_pc new_parent rollout_observed NilObjectMap). apply demo_quiet.
Defined.

Lemma sync_all_results_witness :
  let prs := [sample_parentRevision "new" ["a"]; sample_parentRevision "old" ["b"]] in
  match sync_all demo_pc rollout_parent rollout_observed prs (fake_world []) with
  | (Ok prs', w') =>
    length prs' = 2 ∧
    ∃ pr' w1 w2, prs' !! 1 = Some pr' ∧
      sync_revision demo_pc rollout_parent rollout_observed (sample_parentRevision "old" ["b"]) w1 = (Ok pr', w2)
  | _ => False
  end.
Proof.
  intros prs.
  assert (Hrun : is_Ok (sync_all demo_pc rollout_parent rollout_observed prs (fake_world [])).1 = true)
    by (vm_compute; reflexivity).
  destruct (sync_all demo_pc rollout_parent rollout_observed prs (fake_world [])) as [[prs'|e|s] w'] eqn:E;
    [|discriminate..].
  destruct (sync_all_results demo_pc rollout_parent rollout_observed prs (fake_world []) prs' w' E) as [Hlen Hall].
  split; [exact Hlen|]. apply (Hall 1). reflexivity.
Defined.

(** A rolling update while the lister of the revisions is empty: the hook gives
    both children the image of the parent, which was changed from [v1] to [v2];
    the revision of [v1] claims both. *)
Definition image_of (parent : object) : value :=
  match NestedFieldNoCopy parent ["spec"; "image"] with Ok (Some v) => v | _ => VNull end.
Definition image_hook : Hook_I hook_request CompositeHookResponse := {|
  hook_IsEnabled := true; hook_GetVersion := HookVersionV1;
  hook_Call := λ request,
    let parent := match request with V1Request r => chr_Parent r | V2Request r => chr_Parent r end in
    let image := image_of (default ∅ parent) in
    let child name := Some (<["spec" := VMap {[ "image" := image ]}]> (thing "Thing" name)) in
    mret {| cr_Status := Some ∅; cr_Children := [child "a"; child "b"]; cr_ResyncAfterSeconds := 0; cr_Finalized := false |} |}.
Definition listing_pc (revisions : list ControllerRevision) : parentController :=
  let base := demo_controller [history_parent "v2"] rollout_strategy rollout_result in {|
  pc_cc := pc_cc base; pc_parentResource := pc_parentResource base; pc_dynClient := pc_dynClient base;
  pc_parentClient := pc_parentClient base; pc_parentInformer := pc_parentInformer base; pc_parentSelector := None;
  pc_revisionLister := λ _, mret revisions;
  pc_updateStrategy := rollout_strategy; pc_childInformers := ∅; pc_ssaOptions := pc_ssaOptions base;
  pc_finalizer := pc_finalizer base; pc_GetRelatedObjects := pc_GetRelatedObjects base;
  pc_syncHook := image_hook; pc_finalizeHook := disabled_hook |}.
Definition old_revision : list ControllerRevision :=
  match (patch ← makePatch (history_parent "v1") ["spec"]; newControllerRevision (listing_pc []) (history_parent "v1") patch) with
  | Ok r => [set_rev_Children [{| crc_APIGroup := "demo.io"; crc_Kind := "Thing"; crc_Names := ["a"; "b"] |}] r]
  | _ => []
  end.
(** The server has the revision; the images that a sync wants for the children,
    when the lister knows [revisions]. *)
Definition revisions_world : World := {|
  w_srv := {| fs_objects := ∅; fs_revisions := list_to_map ((λ r, (("", rev_Name r), r)) <$> old_revision) |};
  w_log := []; w_lastUpdated := ∅ |}.
Definition wanted_images (revisions : list ControllerRevision) : option (list (string * value)) :=
  match (syncRevisions (listing_pc revisions) (history_parent "v2") rollout_observed NilObjectMap revisions_world).1 with
  | Ok response => mapM (λ child, child ← child; Some (GetName child, image_of child)) (cr_Children response)
  | _ => None
  end.
(** With the revision the sync moves one child; without it, both at once. *)
Example rollout_needs_revisions :
  wanted_images old_revision = Some [("a", VString "v2"); ("b", VString "v1")] ∧
  wanted_images [] = Some [("a", VString "v2"); ("b", VString "v2")].
Proof. split; vm_compute; reflexivity. Qed.
End examples.
