(* ===== verification/CompositeController.v ===== *)
(** * The composite controller: [pkg/controller/composite/controller.go]

    The event handlers that put parents on the work queue, the worker that takes
    them off, and the sync of one parent: finalizer, claims, hook, finalization,
    children, status. *)
From S2P Require Import Prelude Value K8s K8sInst Apply ObjectMap Discovery Types World ClientSet FakeCluster.
From S2P Require Import Finalizer ControllerRef ManageChildren Status RollingUpdate Worker ParentController Revisions.
From stdpp Require Import options.

Section composite.
Context {RT : GoRuntime} {API : Apimachinery} {CL : Cluster} {RY : Retry} {XX : Xxhash}.
Implicit Types pc : parentController.

(** ** Event handlers *)

(** The parent is none of our business. *)
Definition ignored pc (parent : object) : bool :=
  negb (ContainsFinalizer parent (fm_Name (pc_finalizer pc))) && doNotMatchLabels pc (labels_of parent).

(** A key that cannot be computed is reported and dropped. *)
Definition enqueueParentObject pc (obj : informer_object) : M World unit :=
  if match obj with Live parent => ignored pc parent | _ => false end then mret ()
  else
    match KeyFunc obj with
    | Ok key => enqueue (QueueAdd key)
    | Err _ => mret ()
    | Panic s => lift (Panic s)
    end.

Definition enqueueParentObjectAfter pc (obj : informer_object) (delay : Z) : M World unit :=
  match KeyFunc obj with
  | Ok key => enqueue (QueueAddAfter key delay)
  | Err _ => mret ()
  | Panic s => lift (Panic s)
  end.

(** [same_pointer] is [parentOld == parentCur]. *)
Definition updateParentObject pc (same_pointer : bool) (old cur : informer_object) : M World unit :=
  if match old, cur with
     | Live parentOld, Live parentCur =>
       default false (parent_IgnoreStatusChanges (cc_ParentResource (pc_cc pc))) &&
       negb same_pointer &&
       (GetGeneration parentOld == GetGeneration parentCur) &&
       (GetLabels parentOld == GetLabels parentCur) &&
       (GetAnnotations parentOld == GetAnnotations parentCur) &&
       negb (being_deleted parentCur)
     | _, _ => false
     end then mret ()
  else enqueueParentObject pc cur.

Definition resolveControllerRef pc (childNamespace : string) (controllerRef : OwnerReference)
    : M World (option object) :=
  let apiGroup := (ParseAPIVersion (or_APIVersion controllerRef)).1 in
  if apiGroup != ar_Group (pc_parentResource pc) then mret None
  else if or_Kind controllerRef != ar_Kind (pc_parentResource pc) then mret None
  else
    let parentNamespace := if ar_Namespaced (pc_parentResource pc) then childNamespace else "" in
    r ← try (GetObject (pc_parentInformer pc) parentNamespace (or_Name controllerRef));
    match r with
    | inr _ => mret None
    | inl parent =>
      if GetUID parent != or_UID controllerRef then mret None
      else if ignored pc parent then mret None
      else mret (Some parent)
    end.

Definition findPotentialParents pc (child : object) : M World (list object) :=
  r ← try (lister_List (pc_parentInformer pc)
             (if ar_Namespaced (pc_parentResource pc) then GetNamespace child else ""));
  match r with
  | inr _ => mret []
  | inl parents =>
    lift (foldlM (λ matchingParents parent,
      match makeSelector pc parent ∅ with
      | Panic s => Panic s
      | Err _ => mret matchingParents
      | Ok selector =>
        if Selector_Empty selector then mret matchingParents
        else if Matches selector (labels_of child) then mret (matchingParents ++ [parent])
        else mret matchingParents
      end) [] parents)
  end.

Definition onChildDelete pc (obj : informer_object) : M World unit :=
  match match obj with Live child => Some child | Tombstone _ o => o | _ => None end with
  | None => mret ()
  | Some child =>
    match GetControllerOf (GetOwnerReferences child) with
    | None => mret ()
    | Some controllerRef =>
      parent ← resolveControllerRef pc (GetNamespace child) controllerRef;
      match parent with
      | None => mret ()
      | Some parent => enqueueParentObject pc (Live parent)
      end
    end
  end.

Definition onChildAdd pc (obj : informer_object) : M World unit :=
  match obj with
  | Live child =>
    if being_deleted child then onChildDelete pc (Live child)
    else
      match GetControllerOf (GetOwnerReferences child) with
      | Some controllerRef =>
        parent ← resolveControllerRef pc (GetNamespace child) controllerRef;
        match parent with
        | None => mret ()
        | Some parent => enqueueParentObject pc (Live parent)
        end
      | None =>
        parents ← findPotentialParents pc child;
        foldlM (λ _ parent, enqueueParentObject pc (Live parent)) () parents
      end
  | _ => lift (Panic "interface conversion")
  end.

Definition onChildUpdate pc (old cur : informer_object) : M World unit :=
  match old, cur with
  | Live oldChild, Live curChild =>
    if GetResourceVersion oldChild == GetResourceVersion curChild then mret () else onChildAdd pc cur
  | _, _ => lift (Panic "interface conversion")
  end.

(** ** Claiming the children *)

(** The first object of every UID. *)
Fixpoint dedup_uid (seen : gset string) (l : list object) : list object :=
  match l with
  | [] => []
  | obj :: l =>
    if bool_decide (GetUID obj ∈ seen) then dedup_uid seen l
    else obj :: dedup_uid ({[ GetUID obj ]} ∪ seen) l
  end.

Definition claim_kind pc (parent : object) (parentGVK : GroupVersionKind) (selector : Selector)
    (childMap : UniformObjectMap) (child : CompositeControllerChildResourceRule) : M World UniformObjectMap :=
  let rule := child_rule child in
  childClient ← lift (Clientset_Resource (pc_dynClient pc) (rr_APIVersion rule) (rr_Resource rule));
  groupVersion ← lift (ParseGroupVersion_or_zero (rr_APIVersion rule));
  match pc_childInformers pc !! gv_WithResource groupVersion (rr_Resource rule) with
  | None => throw (ErrorString ("no informer for resource " +:+ quote (rr_Resource rule) +:+
                                " in apiVersion " +:+ quote (rr_APIVersion rule)))
  | Some informer =>
    let namespace := if ar_Namespaced (pc_parentResource pc) then GetNamespace parent else "" in
    let kind := ar_Kind (rc_APIResource childClient) in
    ownedByParent ← wrap_errM ("can't list owned " +:+ kind +:+ " children")
                      (ListByOwnerUID informer (GetUID parent) namespace);
    orphans ← wrap_errM ("can't list orphan " +:+ kind +:+ " children") (ListOrphans informer namespace);
    let all := dedup_uid ∅ (ownedByParent ++ orphans) in
    childGVK ← lift (APIResource_GroupVersionKind (rc_APIResource childClient));
    let childMap := UniformObjectMap_InitGroup childMap childGVK in
    children ← wrap_errM ("can't claim " +:+ kind +:+ " children")
      (ClaimChildren {|
         um_base := {| crm_Controller := parent; crm_Selector := selector;
                       crm_CanAdoptFunc := Some (canAdoptFunc pc parent) |};
         um_parentKind := parentGVK; um_childKind := childGVK; um_client := childClient |} all);
    mret (foldl (λ m obj, UniformObjectMap_Insert m parent obj) childMap children)
  end.

Definition claimChildren pc (parent : object) : M World UniformObjectMap :=
  parentGVK ← lift (APIResource_GroupVersionKind (pc_parentResource pc));
  selector ← lift (makeSelector pc parent ∅);
  foldlM (claim_kind pc parent parentGVK selector) (Uniform ∅) (cc_ChildResources (pc_cc pc)).

(** ** The status of the parent *)
Definition status_update (parent : object) (status : option object) (obj : object) : option object :=
  let status := <["observedGeneration" := VInt (GetGeneration parent)]> (default ∅ status) in
  if DeepEqual (default VNull (obj !! "status")) (VMap status) then None
  else Some (<["status" := VMap status]> obj).

Definition updateParentStatus pc (parent : object) (status : option object) : M World object :=
  AtomicStatusUpdate (ResourceClient_Namespace (pc_parentClient pc) (GetNamespace parent)) parent
    (status_update parent status).

(** ** The sync of a parent *)

(** The label of a desired child, and whether it may be created. *)
Definition check_labels pc (parent : object) (selector : Selector) (obj : object) : res object :=
  objLabels ← wrap_err ("invalid labels on desired child " +:+ GetKind obj +:+ " " +:+ GetNamespace obj +:+ "/" +:+
                        GetName obj)
                (NestedStringMap obj ["metadata"; "labels"]);
  let objLabels := default ∅ objLabels in
  let '(obj, objLabels) :=
    if default false (cc_GenerateSelector (pc_cc pc)) then
      match objLabels !! "controller-uid" with
      | Some _ => (obj, objLabels)
      | None =>
        let objLabels := <["controller-uid" := GetUID parent]> objLabels in
        (SetLabels objLabels obj, objLabels)
      end
    else (obj, objLabels) in
  if negb (Matches selector objLabels)
  then Err (ErrorString ("labels on desired child " +:+ GetKind obj +:+ " " +:+ GetNamespace obj +:+ "/" +:+
                         GetName obj +:+ " don't match parent selector"))
  else mret obj.

Definition enforce_labels pc (parent : object) (selector : Selector) (desiredChildren : UniformObjectMap)
    : res UniformObjectMap :=
  Uniform <$> foldlM (λ groups '(gvk, group),
    foldlM (λ groups '(name, obj),
      obj ← check_labels pc parent selector obj;
      mret (alter (<[name := obj]>) gvk groups)) groups (range group))
    (uniform_groups desiredChildren) (range (uniform_groups desiredChildren)).

Definition syncParentObject pc (parent : object) : M World unit :=
  check_ctx ;;
  if ignored pc parent then mret ()
  else
    parent ← wrap_errM ("can't sync finalizer for " +:+ GetKind parent +:+ " " +:+ GetNamespace parent +:+ "/" +:+
                        GetName parent)
               (FinalizerManager_SyncObject (pc_finalizer pc) (pc_parentClient pc) parent);
    if ignored pc parent then mret ()
    else
      observedChildren ← claimChildren pc parent;
      relatedObjects ← pc_GetRelatedObjects pc parent;
      syncResult ← syncRevisions pc parent observedChildren relatedObjects;
      children ← lift (mapM deref (cr_Children syncResult));
      let desiredChildren := MakeUniformObjectMap parent children in
      (if float64_lt 0 (cr_ResyncAfterSeconds syncResult)
       then enqueueParentObjectAfter pc (Live parent) (float64_seconds (cr_ResyncAfterSeconds syncResult))
       else mret ()) ;;
      parent ← (if cr_Finalized syncResult then
                  wrap_errM ("can't remove finalizer for " +:+ GetKind parent +:+ " " +:+ GetNamespace parent +:+
                             "/" +:+ GetName parent)
                    (ResourceClient_RemoveFinalizer
                       (ResourceClient_Namespace (pc_parentClient pc) (GetNamespace parent)) parent
                       (fm_Name (pc_finalizer pc)))
                else mret parent);
      selector ← lift (makeSelector pc parent ∅);
      desiredChildren ← lift (enforce_labels pc parent selector desiredChildren);
      manageErr ←
        (if negb (being_deleted parent) || FinalizerManager_ShouldFinalize (pc_finalizer pc) parent then
           r ← try (ManageChildren (pc_dynClient pc) (updateStrategyMap_GetMethod (pc_updateStrategy pc)) parent
                      (Some observedChildren) (Some desiredChildren) (pc_ssaOptions pc));
           mret (match r with
                 | inl _ => None
                 | inr err => Some (WrapError ("can't reconcile children for " +:+ describe_parent pc parent) err)
                 end)
         else mret None);
      r ← try (updateParentStatus pc parent (cr_Status syncResult));
      match r with
      | inr err =>
        if IsNotFound err then mret ()
        else if IsConflict err then mret ()
        else throw (WrapError ("can't update status for " +:+ describe_parent pc parent) err)
      | inl _ =>
        match manageErr with
        | Some err => throw err
        | None => mret ()
        end
      end.

Definition sync pc (key : string) : M World unit :=
  '(namespace, name) ← lift (SplitMetaNamespaceKey key);
  r ← try (GetObject (pc_parentInformer pc) namespace name);
  match r with
  | inr err => if IsNotFound err then mret () else throw err
  | inl parent =>
    r ← try (syncParentObject pc parent);
    match r with
    | inl _ => mret ()
    | inr err =>
      match errors_As_TooManyRequest err with
      | Some _ => throw err
      | None =>
        if errors_Is_NotSynced err then throw err
        else record_event (EvEventf "SyncError" ("Sync error: " +:+ error_Error err)) ;; throw err
      end
    end
  end.

(** ** The worker *)
Definition processNextWorkItem pc : option string → M World bool := process_item (sync pc).
End composite.


(** ** The labels of the desired children *)
Section label_properties.
Context {RT : GoRuntime} {API : Apimachinery} {CL : Cluster} {RY : Retry} {XX : Xxhash}.
Implicit Types pc : parentController.

Lemma check_labels_Ok {LL : LabelLaws} pc parent selector obj obj' :
  metadata_ok obj → check_labels pc parent selector obj = Ok obj' →
  ∃ labels, NestedStringMap obj' ["metadata"; "labels"] = Ok labels ∧
    Matches selector (default ∅ labels) = true ∧
    (default false (cc_GenerateSelector (pc_cc pc)) = true → is_Some (default ∅ labels !! "controller-uid")) ∧
    (obj' = obj ∨ ∃ labels, obj' = SetLabels labels obj).
Proof.
  intros Hok. unfold check_labels.
  destruct (NestedStringMap obj _) as [l|e|s] eqn:Hl; simpl; [|done..].
  destruct (default false (cc_GenerateSelector (pc_cc pc))) eqn:Hgen.
  - destruct (default ∅ l !! "controller-uid") as [uid|] eqn:Huid.
    + destruct (Matches selector (default ∅ l)) eqn:Hm; simpl; [|done]. intros [= <-].
      exists l. split_and!; [done|done|by eauto|by left].
    + set (l' := <["controller-uid" := GetUID parent]> (default ∅ l)).
      destruct (Matches selector l') eqn:Hm; simpl; [|done]. intros [= <-].
      exists (Some l'). split_and!; [by apply NestedStringMap_SetLabels|done| |by right; eauto].
      intros _. simpl. unfold l'. rewrite lookup_insert_eq. eauto.
  - destruct (Matches selector (default ∅ l)) eqn:Hm; simpl; [|done]. intros [= <-].
    exists l. split_and!; [done|done|done|by left].
Qed.

(** One group of the loop. *)
Lemma enforce_group pc parent selector gvk (l : list (string * object))
    (groups groups' : gmap GroupVersionKind (gmap string object)) (group : gmap string object) :
  NoDup l.*1 → groups !! gvk = Some group →
  foldlM (λ groups '(name, obj),
    obj ← check_labels pc parent selector obj;
    mret (alter (<[name := obj]>) gvk groups)) groups l = Ok groups' →
  (∀ gvk', gvk' ≠ gvk → groups' !! gvk' = groups !! gvk') ∧
  ∃ group', groups' !! gvk = Some group' ∧
    (∀ name obj, (name, obj) ∈ l → ∃ obj', group' !! name = Some obj' ∧ check_labels pc parent selector obj = Ok obj') ∧
    (∀ name, name ∉ l.*1 → group' !! name = group !! name).
Proof.
  revert groups group. induction l as [|[name obj] l IH]; intros groups group Hnd Hgroup.
  { intros [= <-]. split; [done|]. exists group. split_and!; [done| |done]. intros ?? H. by apply not_elem_of_nil in H. }
  cbn [foldlM]. intros H. apply bind_res_Ok in H as (groups1 & H1 & H).
  apply bind_res_Ok in H1 as (obj' & Hobj & [= <-]).
  apply NoDup_cons in Hnd as [Hname Hnd].
  apply (IH _ (<[name := obj']> group)) in H as (Hother & group' & Hgroup' & Hin & Hout); [|done|].
  2: { by rewrite lookup_alter_eq, Hgroup. }
  split.
  - intros gvk' Hne. rewrite Hother by done. by rewrite lookup_alter_ne.
  - exists group'. split_and!; [done| |].
    + intros n o [[= -> ->]|Hl]%elem_of_cons; [|by apply Hin].
      exists obj'. split; [|done]. rewrite Hout by done. by rewrite lookup_insert_eq.
    + intros n Hn. apply not_elem_of_cons in Hn as [Hne Hn]. rewrite Hout by done.
      by rewrite lookup_insert_ne.
Qed.

Lemma enforce_labels_lookup pc parent selector desired desired' gvk name :
  enforce_labels pc parent selector desired = Ok desired' →
  match groups_lookup (uniform_groups desired) gvk name with
  | Some obj => ∃ obj', groups_lookup (uniform_groups desired') gvk name = Some obj' ∧
      check_labels pc parent selector obj = Ok obj'
  | None => groups_lookup (uniform_groups desired') gvk name = None
  end.
Proof.
  unfold enforce_labels. destruct (foldlM _ _ _) as [groups'|e|s] eqn:H; simpl; [|done..].
  intros [= <-]. simpl. unfold groups_lookup.
  set (groups := uniform_groups desired) in *.
  enough (Hloop : ∀ (l : list (GroupVersionKind * gmap string object)) (acc acc' : ObjectMap.groups), NoDup l.*1 → (∀ k g, (k, g) ∈ l → acc !! k = Some g) →
    foldlM (λ groups '(gvk, group),
      foldlM (λ groups '(name, obj),
        obj ← check_labels pc parent selector obj;
        mret (alter (<[name := obj]>) gvk groups)) groups (range group)) acc l = Ok acc' →
    (∀ k, k ∉ l.*1 → acc' !! k = acc !! k) ∧
    (∀ k g, (k, g) ∈ l → ∃ g', acc' !! k = Some g' ∧
       (∀ n o, g !! n = Some o → ∃ o', g' !! n = Some o' ∧ check_labels pc parent selector o = Ok o') ∧
       (∀ n, g !! n = None → g' !! n = None))).
  { apply Hloop in H as [Hout Hin]; [|apply NoDup_range_keys|intros; by apply elem_of_range].
    destruct (groups !! gvk) as [g|] eqn:Hg; simpl.
    - destruct (Hin gvk g) as (g' & -> & Hsome & Hnone); [by apply elem_of_range|]. simpl.
      destruct (g !! name) eqn:Hn; auto.
    - rewrite Hout, Hg; [done|]. intros ([k g] & -> & Hk%elem_of_range)%list_elem_of_fmap.
      simpl in Hg. by rewrite Hk in Hg. }
  clear. induction l as [|[k g] l IH]; intros acc acc' Hnd Hl.
  { intros [= <-]. split; [done|]. intros ?? Hin. by apply not_elem_of_nil in Hin. }
  cbn [foldlM]. intros H. apply bind_res_Ok in H as (acc1 & H1 & H).
  apply NoDup_cons in Hnd as [Hk Hnd]. simpl in Hk.
  apply (enforce_group _ _ _ _ _ _ _ g) in H1 as (Hother & g1 & Hg1 & Hin1 & Hout1);
    [|apply NoDup_range_keys|apply Hl; by left].
  apply IH in H as [Hout Hin]; [|done|].
  2: { intros k' g' Hk'. rewrite Hother; [by apply Hl; right|]. intros ->. apply Hk.
       apply list_elem_of_fmap. by exists (k, g'). }
  split.
  - intros k' [Hne Hk']%not_elem_of_cons. by rewrite Hout, Hother.
  - intros k' g' [[= -> ->]|Hk']%elem_of_cons; [|by apply Hin].
    exists g1. rewrite Hout by done. split_and!; [done| |].
    + intros n o Ho. apply Hin1. by apply elem_of_range.
    + intros n Hn. rewrite Hout1; [done|]. intros ([n' o] & -> & Ho%elem_of_range)%list_elem_of_fmap.
      simpl in Hn. by rewrite Ho in Hn.
Qed.

(** Before any child is written, every desired child is checked against
    the parent's selector: the children that remain are the desired ones,
    under the same kinds and names; each has labels that the selector
    matches, the [controller-uid] label among them when selectors are
    generated, and differs from what the hook returned in its labels only. *)
Theorem enforce_labels_spec {LL : LabelLaws} pc parent selector desired desired' gvk name :
  enforce_labels pc parent selector desired = Ok desired' →
  (∀ obj, groups_lookup (uniform_groups desired) gvk name = Some obj → metadata_ok obj) →
  match groups_lookup (uniform_groups desired) gvk name with
  | None => groups_lookup (uniform_groups desired') gvk name = None
  | Some obj => ∃ obj' labels,
      groups_lookup (uniform_groups desired') gvk name = Some obj' ∧
      NestedStringMap obj' ["metadata"; "labels"] = Ok labels ∧
      Matches selector (default ∅ labels) = true ∧
      (default false (cc_GenerateSelector (pc_cc pc)) = true → is_Some (default ∅ labels !! "controller-uid")) ∧
      (obj' = obj ∨ ∃ labels, obj' = SetLabels labels obj)
  end.
Proof.
  intros H Hok. apply (enforce_labels_lookup _ _ _ _ _ gvk name) in H.
  destruct (groups_lookup (uniform_groups desired) gvk name) as [obj|]; [|done].
  destruct H as (obj' & Hobj' & Hcheck). apply check_labels_Ok in Hcheck as (l & ? & ? & ? & ?); [|by apply Hok].
  exists obj', l. by split_and!.
Qed.
End label_properties.

(** ** The claimed children *)
Section claim_properties.
Context {RT : GoRuntime} {API : Apimachinery} {CL : Cluster} {RY : Retry} {XX : Xxhash}.
Implicit Types pc : parentController.
Implicit Types m : UniformObjectMap.

(** Every object of the map is a child of the parent, under its own kind and name. *)
Definition children_typed (parent : object) (selector : Selector) m : Prop :=
  ∀ gvk name obj, groups_lookup (uniform_groups m) gvk name = Some obj →
    gvk = obj_GroupVersionKind obj ∧ name = qualifiedName obj ∧
    let crm := {| crm_Controller := parent; crm_Selector := selector; crm_CanAdoptFunc := None |} in
    owned crm obj ∨ adoptable crm obj.

Definition has_group (gvk : GroupVersionKind) m : Prop := is_Some (uniform_groups m !! gvk).

Lemma Insert_typed parent selector m children :
  (let crm := {| crm_Controller := parent; crm_Selector := selector; crm_CanAdoptFunc := None |} in
   Forall (λ c, owned crm c ∨ adoptable crm c) children) →
  children_typed parent selector m →
  let m' := foldl (λ m obj, UniformObjectMap_Insert m parent obj) m children in
  children_typed parent selector m' ∧ ∀ gvk, has_group gvk m → has_group gvk m'.
Proof using All.
  intros Hall. revert m. induction Hall as [|c children Hc _ IH]; intros m Hm; simpl; [done|].
  destruct (IH (UniformObjectMap_Insert m parent c)) as [Ht Hg].
  - intros gvk name obj. rewrite uniform_Insert, groups_lookup_insert. case_decide as Hk; [|by apply Hm].
    destruct Hk as [<- <-]. by intros [= <-].
  - split; [done|]. intros gvk Hgvk. apply Hg. unfold has_group in *.
    rewrite uniform_Insert. unfold groups_insert. destruct (decide (obj_GroupVersionKind c = gvk)) as [->|Hne].
    + rewrite lookup_insert_eq. eauto.
    + by rewrite lookup_insert_ne.
Qed.

Lemma claim_kind_result pc parent pgvk selector m rule w m' w' :
  claim_kind pc parent pgvk selector m rule w = (Ok m', w') →
  children_typed parent selector m →
  children_typed parent selector m' ∧ (∀ gvk, has_group gvk m → has_group gvk m') ∧
  ∃ client gvk, Clientset_Resource (pc_dynClient pc) (rr_APIVersion (child_rule rule)) (rr_Resource (child_rule rule)) =
      Ok client ∧ APIResource_GroupVersionKind (rc_APIResource client) = Ok gvk ∧ has_group gvk m'.
Proof using All.
  unfold claim_kind. intros H Hm.
  apply bind_Ok in H as (client & w1 & Hclient & H). unfold lift in Hclient.
  apply bind_Ok in H as (gv & w2 & _ & H).
  destruct (pc_childInformers pc !! _) as [informer|]; [|done].
  apply bind_Ok in H as (l1 & w3 & _ & H). apply bind_Ok in H as (l2 & w4 & _ & H).
  apply bind_Ok in H as (gvk & w5 & Hgvk & H). unfold lift in Hgvk.
  apply bind_Ok in H as (children & w6 & Hclaim & H). injection H as <- <-.
  apply wrap_errM_Ok, ClaimChildren_result in Hclaim as (_ & Hall & _).
  destruct (Insert_typed parent selector (UniformObjectMap_InitGroup m gvk) children) as [Ht Hg].
  - exact Hall.
  - intros g n o. rewrite uniform_InitGroup, groups_lookup_init. by apply Hm.
  - split; [done|]. split.
    + intros g [x Hx]. apply Hg. unfold has_group. rewrite uniform_InitGroup. unfold groups_init.
      destruct (decide (gvk = g)) as [->|Hne]; [rewrite lookup_insert_eq; eauto|]. rewrite lookup_insert_ne by done. eauto.
    + exists client, gvk. split_and!; [congruence|congruence|]. apply Hg. unfold has_group. rewrite uniform_InitGroup.
      unfold groups_init. rewrite lookup_insert_eq. eauto.
Qed.

Lemma claim_rules_result pc parent pgvk selector rules m w m' w' :
  foldlM (claim_kind pc parent pgvk selector) m rules w = (Ok m', w') →
  children_typed parent selector m →
  children_typed parent selector m' ∧ (∀ gvk, has_group gvk m → has_group gvk m') ∧
  ∀ rule, rule ∈ rules →
    ∃ client gvk, Clientset_Resource (pc_dynClient pc) (rr_APIVersion (child_rule rule)) (rr_Resource (child_rule rule)) =
      Ok client ∧ APIResource_GroupVersionKind (rc_APIResource client) = Ok gvk ∧ has_group gvk m'.
Proof using All.
  revert m w. induction rules as [|r rules IH]; intros m w H Hm.
  { injection H as <- <-. split_and!; [done|done|]. intros r Hr. by apply not_elem_of_nil in Hr. }
  cbn [foldlM] in H. apply bind_Ok in H as (m1 & w1 & Hr & H).
  apply claim_kind_result in Hr as (Hm1 & Hmono & client & gvk & Hc & Hg & Hin); [|done].
  apply IH in H as (Hm' & Hmono' & Hrules); [|done]. split_and!; [done|by auto|].
  intros r' [->|Hr']%elem_of_cons; [|by apply Hrules]. exists client, gvk. auto.
Qed.

Lemma claimChildren_result pc parent w m w' :
  claimChildren pc parent w = (Ok m, w') →
  ∃ selector, makeSelector pc parent ∅ = Ok selector ∧ children_typed parent selector m ∧
  ∀ rule, rule ∈ cc_ChildResources (pc_cc pc) →
    ∃ client gvk, Clientset_Resource (pc_dynClient pc) (rr_APIVersion (child_rule rule)) (rr_Resource (child_rule rule)) =
      Ok client ∧ APIResource_GroupVersionKind (rc_APIResource client) = Ok gvk ∧ has_group gvk m.
Proof using All.
  unfold claimChildren. intros H.
  apply bind_Ok in H as (pgvk & w1 & _ & H). apply bind_Ok in H as (selector & w2 & Hsel & H).
  unfold lift in Hsel. apply claim_rules_result in H as (Ht & _ & Hrules).
  - exists selector. split_and!; [congruence|done|done].
  - intros gvk name obj. unfold groups_lookup. simpl. rewrite lookup_empty. done.
Qed.

(** C31: the observed children of a sync are well-formed: every object sits
    under its own kind and its own qualified name; each matches the selector
    of the parent and is controlled by it or was an orphan free to adopt; and
    every kind the controller is configured for has its group, be it empty. *)
Theorem claimChildren_typed pc parent w m w' :
  claimChildren pc parent w = (Ok m, w') →
  ∃ selector, makeSelector pc parent ∅ = Ok selector ∧ children_typed parent selector m ∧
  ∀ rule, rule ∈ cc_ChildResources (pc_cc pc) →
    ∃ client gvk, Clientset_Resource (pc_dynClient pc) (rr_APIVersion (child_rule rule)) (rr_Resource (child_rule rule)) =
      Ok client ∧ APIResource_GroupVersionKind (rc_APIResource client) = Ok gvk ∧ has_group gvk m.
Proof using All. apply claimChildren_result. Qed.
End claim_properties.

(** ** What a sync sends *)
Section sync_properties.
Context {RT : GoRuntime} {API : Apimachinery} {CL : Cluster} {RY : Retry} {XX : Xxhash}.
Implicit Types pc : parentController.

(** The requests of the claims of the children of [rule]. *)
Definition child_claim pc (rule : CompositeControllerChildResourceRule) (parent : object) (e : event) : Prop :=
  ∃ m child,
    Clientset_Resource (pc_dynClient pc) (rr_APIVersion (child_rule rule)) (rr_Resource (child_rule rule)) =
      Ok (um_client m) ∧
    crm_Controller (um_base m) = parent ∧ makeSelector pc parent ∅ = Ok (crm_Selector (um_base m)) ∧
    claim_request m child e.

(** Everything a sync may do to the world. *)
Inductive sync_event pc : event → Prop :=
  | sync_parent e : resource_request (pc_parentClient pc) e → sync_event pc e
  | sync_revisions e : revision_request e → sync_event pc e
  | sync_later key delay : sync_event pc (EvQueue (QueueAddAfter key delay))
  | sync_claim rule parent e : rule ∈ cc_ChildResources (pc_cc pc) → child_claim pc rule parent e → sync_event pc e
  | sync_manage parent selector hook_children desired parent0 selector0 observed e :
    children_typed parent0 selector0 observed →
    being_deleted parent = false ∨ FinalizerManager_ShouldFinalize (pc_finalizer pc) parent = true →
    makeSelector pc parent ∅ = Ok selector →
    enforce_labels pc parent selector hook_children = Ok desired →
    manage_request (pc_dynClient pc) (updateStrategyMap_GetMethod (pc_updateStrategy pc)) parent
      (Some observed : option UniformObjectMap) (Some desired) (pc_ssaOptions pc) e →
    sync_event pc e.

Lemma claim_kind_emits pc parent gvk selector m rule :
  quiet pc → makeSelector pc parent ∅ = Ok selector →
  emits (λ e, resource_request (pc_parentClient pc) e ∨ child_claim pc rule parent e)
    (claim_kind pc parent gvk selector m rule).
Proof.
  intros Hq Hsel. unfold claim_kind. apply emits_lift_bind. intros childClient Hclient.
  emits_auto; try (apply emits_no_event; first [by eapply (quiet_owned pc) | by eapply (quiet_orphans pc)]).
  eapply emits_weaken; [apply (ClaimChildren_emits (resource_request (pc_parentClient pc)))|].
  - intros f [= <-]. apply canAdoptFunc_resource.
  - intros e [He|(child & _ & He)]; [by left|]. right.
    eexists _, child. refine (conj _ (conj _ (conj _ He))); done.
Qed.

Lemma claimChildren_emits pc parent :
  quiet pc →
  emits (λ e, resource_request (pc_parentClient pc) e ∨
              ∃ rule, rule ∈ cc_ChildResources (pc_cc pc) ∧ child_claim pc rule parent e) (claimChildren pc parent).
Proof.
  intros Hq. unfold claimChildren. apply emits_lift_bind. intros gvk _. apply emits_lift_bind. intros selector Hsel.
  apply emits_foldlM. intros m rule Hrule. eapply emits_weaken; [by apply claim_kind_emits|].
  intros e [He|He]; eauto.
Qed.

Lemma updateParentStatus_emits pc parent status :
  emits (resource_request (pc_parentClient pc)) (updateParentStatus pc parent status).
Proof. apply AtomicStatusUpdate_resource. Qed.

Lemma enqueueParentObjectAfter_emits pc obj delay :
  emits (λ e, ∃ key, e = EvQueue (QueueAddAfter key delay)) (enqueueParentObjectAfter pc obj delay).
Proof. unfold enqueueParentObjectAfter. emits_auto. eauto. Qed.

(** Like [emits_auto], but keeping what the checks before a request returned. *)
Ltac emits_checked :=
  repeat (lazymatch goal with
          | |- emits _ (mbind _ (lift _)) => apply emits_lift_bind; intros ??
          | |- emits _ (mbind _ (claimChildren _ _)) => apply emits_bind_Ok; [|intros ????]
          | _ => emits_step
          end; cbn beta iota zeta).

Lemma syncParentObject_emits pc parent : quiet pc → emits (sync_event pc) (syncParentObject pc parent).
Proof.
  intros Hq. unfold syncParentObject. emits_checked.
  - eapply emits_weaken; [apply SyncObject_resource|]. by constructor.
  - eapply emits_weaken; [by apply claimChildren_emits|].
    intros e [He|(rule & Hrule & He)]; [by constructor|by eapply sync_claim].
  - apply emits_no_event. by apply (quiet_related pc).
  - eapply emits_weaken; [exact (proj1 (syncRevisions_emits pc _ _ _ Hq))|]. by constructor.
  - eapply emits_weaken; [apply enqueueParentObjectAfter_emits|]. intros e [key ->]. by constructor.
  - eapply emits_weaken; [apply AtomicUpdate_resource|]. by constructor.
  - eapply emits_weaken; [apply ManageChildren_emits|]. intros e He.
    match goal with Hb : negb _ || _ = true |- _ => apply orb_true_iff in Hb; rewrite negb_true_iff in Hb end.
    match goal with Hc : claimChildren _ _ _ = _ |- _ => apply claimChildren_result in Hc as (? & _ & ? & _) end.
    by eapply sync_manage.
  - eapply emits_weaken; [apply updateParentStatus_emits|]. by constructor.
Qed.


(** A sync that fails before the children are managed, or whose finalizer could
    not be added, leaves the children alone. *)
Lemma syncParentObject_finalizer_first pc parent w err w' :
  ctx_err (w_srv w) = None → ignored pc parent = false →
  FinalizerManager_SyncObject (pc_finalizer pc) (pc_parentClient pc) parent w = (Err err, w') →
  (syncParentObject pc parent w).2 = w' ∧ is_Ok (syncParentObject pc parent w).1 = false.
Proof.
  intros Hctx Hign Hsync. unfold syncParentObject, check_ctx, mbind, M_bind, wrap_errM. rewrite Hctx, Hign, Hsync.
  done.
Qed.
End sync_properties.

(** ** The status of the parent *)
Section status_properties.
Context {API : Apimachinery}.

(** The status the parent should have. *)
Definition desired_status (parent : object) (status : option object) : object :=
  <["observedGeneration" := VInt (GetGeneration parent)]> (default ∅ status).

(** A status update writes the status of the hook, with the observed
    generation of the parent that the hook saw, and no other field.  Without
    odd floats it writes only what differs, and once it is written, the next
    update with the same answer finds nothing to do. *)
Theorem status_update_spec parent status obj obj' :
  status_update parent status obj = Some obj' →
  obj' !! "status" = Some (VMap (desired_status parent status)) ∧
  (∀ k, k ≠ "status" → obj' !! k = obj !! k) ∧
  (canonical (VMap (desired_status parent status)) = true →
   obj !! "status" ≠ obj' !! "status" ∧ status_update parent status obj' = None).
Proof.
  unfold status_update, desired_status. set (st := <["observedGeneration" := _]> _).
  destruct (DeepEqual (default VNull (obj !! "status")) _) eqn:Hd; [done|]. intros [= <-].
  rewrite lookup_insert_eq. split; [done|]. split; [intros; by rewrite lookup_insert_ne|].
  intros Hc. simpl. rewrite DeepEqual_refl by done. split; [|done].
  intros Heq. rewrite Heq in Hd. simpl in Hd. by rewrite DeepEqual_refl in Hd.
Qed.
End status_properties.

(** ** Which parents an event wakes up *)
Section event_properties.
Context {RT : GoRuntime} {API : Apimachinery} {CL : Cluster} {RY : Retry} {XX : Xxhash}.
Implicit Types pc : parentController.

(** The parent adopts children like this one. *)
Definition wants_orphan pc (child parent : object) : bool :=
  match makeSelector pc parent ∅ with
  | Ok selector => negb (Selector_Empty selector) && Matches selector (labels_of child)
  | _ => false
  end.

(** The parent that a reference names, when it is one this controller syncs. *)
Definition refers_to pc (ref : OwnerReference) (parent : object) : Prop :=
  GetUID parent = or_UID ref ∧ or_Kind ref = ar_Kind (pc_parentResource pc) ∧
  (ParseAPIVersion (or_APIVersion ref)).1 = ar_Group (pc_parentResource pc) ∧ ignored pc parent = false.

#[global] Instance refers_to_dec pc ref parent : Decision (refers_to pc ref parent).
Proof. unfold refers_to. apply _. Defined.

Lemma resolveControllerRef_Some pc ns ref w parent w' :
  resolveControllerRef pc ns ref w = (Ok (Some parent), w') →
  refers_to pc ref parent ∧
  ∃ w1, GetObject (pc_parentInformer pc) (if ar_Namespaced (pc_parentResource pc) then ns else "")
          (or_Name ref) w = (Ok parent, w1).
Proof.
  unfold resolveControllerRef. case_bool_decide as Hg; simpl; [|done]. case_bool_decide as Hk; simpl; [|done].
  unfold mbind, M_bind, try. destruct (GetObject _ _ _ w) as [[p|e|s] w1] eqn:Hget; [|done..].
  case_bool_decide as Hu; simpl; [|done]. destruct (ignored pc p) eqn:Hi; [done|].
  intros [= <- <-]. split; [|by exists w1]. by split_and!.
Qed.

Lemma findPotentialParents_result pc child w parents w' l w1 :
  lister_List (pc_parentInformer pc) (if ar_Namespaced (pc_parentResource pc) then GetNamespace child else "") w =
    (Ok l, w1) →
  findPotentialParents pc child w = (Ok parents, w') →
  parents = filter (λ p, wants_orphan pc child p = true) l ∧ w' = w1.
Proof.
  intros Hl. unfold findPotentialParents, mbind at 1, M_bind, try. rewrite Hl. unfold lift.
  intros [= H <-]. split; [|done].
  enough (Hg : ∀ acc, foldlM (λ matchingParents parent,
      match makeSelector pc parent ∅ with
      | Panic s => Panic s
      | Err _ => mret matchingParents
      | Ok selector =>
        if Selector_Empty selector then mret matchingParents
        else if Matches selector (labels_of child) then mret (matchingParents ++ [parent])
        else mret matchingParents
      end) acc l = Ok parents → parents = acc ++ filter (λ p, wants_orphan pc child p = true) l).
  { by apply (Hg []) in H. }
  clear. induction l as [|p l IH]; intros acc H; simpl in H.
  { injection H as <-. by rewrite app_nil_r. }
  apply bind_res_Ok in H as (acc1 & Hp & H). apply IH in H as ->.
  rewrite filter_cons. assert (Hw := eq_refl (wants_orphan pc child p)). unfold wants_orphan at 2 in Hw.
  destruct (makeSelector pc p ∅) as [sel|e|s]; [|injection Hp as <-; by rewrite Hw|done].
  destruct (Selector_Empty sel); simpl in Hw; [injection Hp as <-; by rewrite Hw|].
  destruct (Matches sel (labels_of child)); injection Hp as <-; rewrite Hw; [by rewrite <-app_assoc|done].
Qed.

(** What putting a parent on the queue records. *)
Definition wake pc (parent : object) : list event :=
  if ignored pc parent then []
  else match MetaNamespaceKeyFunc parent with Ok key => [EvQueue (QueueAdd key)] | _ => [] end.

Lemma enqueueParentObject_wakes pc parent w w' :
  enqueueParentObject pc (Live parent) w = (Ok (), w') → w_log w' = w_log w ++ wake pc parent.
Proof.
  unfold enqueueParentObject, wake. simpl. destruct (ignored pc parent).
  { intros [= <-]. by rewrite app_nil_r. }
  destruct (MetaNamespaceKeyFunc parent) as [key|e|s]; [|intros [= <-]; by rewrite app_nil_r|done].
  by intros [= <-].
Qed.

Lemma enqueue_all_wakes pc parents w w' :
  foldlM (λ _ parent, enqueueParentObject pc (Live parent)) () parents w = (Ok (), w') →
  w_log w' = w_log w ++ (parents ≫= wake pc).
Proof.
  revert w. induction parents as [|p parents IH]; intros w H; simpl in H.
  { injection H as <-. by rewrite app_nil_r. }
  apply bind_Ok in H as ([] & w1 & Hp & H). apply enqueueParentObject_wakes in Hp. apply IH in H as ->.
  simpl. by rewrite Hp, <-app_assoc.
Qed.

Lemma quiet_log {A} (m : M World A) w r w' : emits no_event m → m w = (r, w') → w_log w' = w_log w.
Proof.
  intros Hm Hr. destruct (Hm w) as (es & Hlog & HF). rewrite Hr in Hlog. destruct es as [|e es].
  - rewrite app_nil_r in Hlog. exact Hlog.
  - by inversion HF.
Qed.

Lemma GetObject_quiet pc ns name : quiet pc → emits no_event (GetObject (pc_parentInformer pc) ns name).
Proof. intros Hq. unfold GetObject. case_match; apply Hq. Qed.

(** The parent a reference leads to, and the parent it should lead to. *)
Lemma resolveControllerRef_result pc ns ref w parent w1 r w2 :
  quiet pc →
  GetObject (pc_parentInformer pc) (if ar_Namespaced (pc_parentResource pc) then ns else "") (or_Name ref) w =
    (Ok parent, w1) →
  resolveControllerRef pc ns ref w = (Ok r, w2) →
  w_log w2 = w_log w ∧ (refers_to pc ref parent → r = Some parent) ∧ (¬ refers_to pc ref parent → r = None).
Proof.
  intros Hq Hget. pose proof (quiet_log _ _ _ _ (GetObject_quiet pc _ _ Hq) Hget) as Hlog.
  unfold resolveControllerRef, refers_to.
  case_bool_decide as Hg; simpl; [|intros [= <- <-]; split_and!; [done|by intros (_ & _ & ? & _)|done]].
  case_bool_decide as Hk; simpl; [|intros [= <- <-]; split_and!; [done|by intros (_ & ? & _)|done]].
  unfold mbind, M_bind, try. rewrite Hget.
  case_bool_decide as Hu; simpl; [|intros [= <- <-]; split_and!; [done|by intros (? & _)|done]].
  destruct (ignored pc parent) eqn:Hi; intros [= <- <-]; split_and!; try done.
  - by intros (_ & _ & _ & ?).
  - intros []. by split_and!.
Qed.

(** The parents that an event about [child] concerns, when the parent informer
    finds [found] under the name of its controller, and lists [listed]. *)
Definition concerned pc (child found : object) (listed : list object) (parent : object) : Prop :=
  match GetControllerOf (GetOwnerReferences child) with
  | Some ref => parent = found ∧ refers_to pc ref parent
  | None => being_deleted child = false ∧ parent ∈ listed ∧ wants_orphan pc child parent = true
  end.

Lemma onChildDelete_wakes pc child found listed w w1 w' :
  quiet pc →
  (∀ ref, GetControllerOf (GetOwnerReferences child) = Some ref →
    GetObject (pc_parentInformer pc) (if ar_Namespaced (pc_parentResource pc) then GetNamespace child else "")
      (or_Name ref) w = (Ok found, w1)) →
  GetControllerOf (GetOwnerReferences child) ≠ None ∨ being_deleted child = true →
  onChildDelete pc (Live child) w = (Ok (), w') →
  ∃ parents, w_log w' = w_log w ++ (parents ≫= wake pc) ∧
    ∀ parent, parent ∈ parents ↔ concerned pc child found listed parent.
Proof.
  intros Hq Hget Hcase H. unfold concerned. unfold onChildDelete in H.
  destruct (GetControllerOf _) as [ref|] eqn:Href.
  - apply bind_Ok in H as (r & w2 & Hr & H). eapply resolveControllerRef_result in Hr as (Hlog & Hyes & Hno); [|done|by apply Hget].
    rewrite <-Hlog. destruct r as [p|].
    + apply enqueueParentObject_wakes in H. exists [p]. rewrite bind_cons, app_nil_r. split; [done|].
      destruct (decide (p = found)) as [->|Hne].
      * assert (Hr : refers_to pc ref found) by (apply dec_stable; intros Hn; by apply Hno in Hn).
        intros q. rewrite list_elem_of_singleton. by split; [intros ->|intros [-> _]].
      * exfalso. assert (Hn : ¬ refers_to pc ref found) by (intros Hn; apply Hyes in Hn; congruence).
        by apply Hno in Hn.
    + injection H as <-. exists []. rewrite app_nil_r. split; [done|]. intros q. split.
      * intros Hin. by apply not_elem_of_nil in Hin.
      * intros [-> Hr]. by apply Hyes in Hr.
  - destruct Hcase as [|Hdel]; [done|]. injection H as <-. exists []. rewrite app_nil_r. split; [done|].
    intros q. split; [intros Hin; by apply not_elem_of_nil in Hin|]. intros [? _]. congruence.
Qed.

(** An event about a child puts exactly the parents it concerns on the
    queue: the parent that controls it, if it is one of this controller and
    its own (by UID) parent, and for an orphan that is not being deleted every
    parent whose selector matches it. *)
Theorem onChildAdd_wakes pc child found listed w w1 w2 w' :
  quiet pc →
  (∀ ref, GetControllerOf (GetOwnerReferences child) = Some ref →
    GetObject (pc_parentInformer pc) (if ar_Namespaced (pc_parentResource pc) then GetNamespace child else "")
      (or_Name ref) w = (Ok found, w1)) →
  lister_List (pc_parentInformer pc) (if ar_Namespaced (pc_parentResource pc) then GetNamespace child else "") w =
    (Ok listed, w2) →
  onChildAdd pc (Live child) w = (Ok (), w') →
  ∃ parents, w_log w' = w_log w ++ (parents ≫= wake pc) ∧
    ∀ parent, parent ∈ parents ↔ concerned pc child found listed parent.
Proof.
  intros Hq Hget Hlist H. unfold onChildAdd in H.
  destruct (being_deleted child) eqn:Hdel.
  { eapply onChildDelete_wakes; eauto. }
  destruct (GetControllerOf _) as [ref|] eqn:Href.
  { eapply (onChildDelete_wakes pc child found listed w w1 w'); [done|by rewrite Href|by left; rewrite Href|].
    unfold onChildDelete. by rewrite Href. }
  apply bind_Ok in H as (parents & w3 & Hp & H).
  destruct (findPotentialParents_result pc child w parents w3 listed w2 Hlist Hp) as [-> ->]. apply enqueue_all_wakes in H.
  rewrite (quiet_log _ _ _ _ (quiet_parents_List pc Hq _) Hlist) in H.
  eexists. split; [done|]. intros p. unfold concerned. rewrite Href, list_elem_of_filter. naive_solver.
Qed.
End event_properties.

(** ** Concrete runs *)
Section examples.
#[local] Existing Instance treeAPI.
#[local] Existing Instance listRuntime.
#[local] Existing Instance fakeCluster.
#[local] Existing Instance fakeRetry.
#[local] Instance lengthHash : Xxhash := {| xxhash_Sum64 := λ s, Z.of_nat (String.length s) |}.

(** A controller of things: two orphans in the cache of its informer. *)
Definition things_controller : parentController :=
  let base := demo_controller [live_parent] ∅
    {| cr_Status := Some {[ "ready" := VBool true ]}; cr_Children := [Some (labelled "a" "")];
       cr_ResyncAfterSeconds := 0; cr_Finalized := false |} in
  let cc := pc_cc base in {|
  pc_cc := {|
    cc_Name := cc_Name cc; cc_ParentResource := cc_ParentResource cc;
    cc_ChildResources := [{| child_rule := {| rr_APIVersion := "demo.io/v1"; rr_Resource := "things" |};
                             child_UpdateStrategy := None |}];
    cc_Hooks := cc_Hooks cc; cc_EndpointConfigs := cc_EndpointConfigs cc;
    cc_ResyncPeriodSeconds := cc_ResyncPeriodSeconds cc; cc_GenerateSelector := cc_GenerateSelector cc |};
  pc_parentResource := pc_parentResource base;
  pc_dynClient := {| cs_resources := {| rm_groupVersions := Some {[ "demo.io/v1" := things_group ]} |} |};
  pc_parentClient := pc_parentClient base; pc_parentInformer := pc_parentInformer base;
  pc_parentSelector := None; pc_revisionLister := pc_revisionLister base;
  pc_updateStrategy := ∅;
  pc_childInformers := {[ things_gvr := {|
    ListByOwnerUID := λ _ _, mret [];
    ListOrphans := λ _, mret [labelled "a" "uid-a"; labelled "b" "uid-b"] |} ]};
  pc_ssaOptions := pc_ssaOptions base; pc_finalizer := pc_finalizer base;
  pc_GetRelatedObjects := pc_GetRelatedObjects base; pc_syncHook := pc_syncHook base;
  pc_finalizeHook := pc_finalizeHook base |}.

Definition claim_things : res UniformObjectMap * World := claimChildren things_controller live_parent things_world.
Definition sync_things : res unit * World := syncParentObject things_controller live_parent things_world.

Lemma things_quiet : quiet things_controller.
Proof.
  split; simpl; intros; try apply emits_ret; try apply emits_throw.
  - destruct (head _); [apply emits_ret|apply emits_throw].
  - apply lookup_singleton_Some in H as [_ <-]. apply emits_ret.
  - apply lookup_singleton_Some in H as [_ <-]. apply emits_ret.
Qed.


Lemma claimChildren_typed_witness :
  match claim_things with
  | (Ok m, _) =>
    ∃ selector, children_typed live_parent selector m ∧
      groups_lookup (uniform_groups m) {| gvk_Group := "demo.io"; gvk_Version := "v1"; gvk_Kind := "Thing" |} "b" ≠ None
  | _ => False
  end.
Proof.
  assert (Hrun : match claim_things with
    | (Ok m, _) => bool_decide (is_Some (groups_lookup (uniform_groups m)
        {| gvk_Group := "demo.io"; gvk_Version := "v1"; gvk_Kind := "Thing" |} "b"))
    | _ => false end = true) by (vm_compute; reflexivity).
  destruct claim_things as [[m|e|s] w'] eqn:E; [|discriminate..].
  destruct (claimChildren_typed things_controller live_parent things_world m w' E) as (selector & _ & Ht & _).
  exists selector. split; [exact Ht|]. intros Hn. by rewrite Hn in Hrun.
Defined.

Definition hook_status : option object := Some {[ "ready" := VBool true ]}.

Lemma status_update_spec_witness :
  match status_update live_parent hook_status live_parent with
  | Some obj' => obj' !! "status" = Some (VMap (desired_status live_parent hook_status))
  | None => False
  end.
Proof.
  assert (H : bool_decide (is_Some (status_update live_parent hook_status live_parent)) = true)
    by (vm_compute; reflexivity).
  destruct (status_update live_parent hook_status live_parent) as [obj'|] eqn:E.
  - apply (status_update_spec live_parent hook_status live_parent obj' E).
  - by apply bool_decide_eq_true in H as [? ?].
Defined.

(** A new orphan wakes up the parent that selects it. *)
Lemma onChildAdd_wakes_witness :
  match onChildAdd things_controller (Live (labelled "c" "uid-c")) things_world with
  | (Ok _, w') => ∃ parents, w_log w' = w_log things_world ++ (parents ≫= wake things_controller) ∧
      live_parent ∈ parents
  | _ => False
  end.
Proof.
  assert (Hrun : is_Ok (onChildAdd things_controller (Live (labelled "c" "uid-c")) things_world).1 = true)
    by (vm_compute; reflexivity).
  destruct (onChildAdd things_controller (Live (labelled "c" "uid-c")) things_world) as [[[]|e|s] w'] eqn:E;
    [|discriminate..].
  assert (Hno : GetControllerOf (GetOwnerReferences (labelled "c" "uid-c")) = None) by (vm_compute; reflexivity).
  destruct (onChildAdd_wakes things_controller (labelled "c" "uid-c") live_parent [live_parent]
              things_world things_world things_world w') as (parents & Hlog & Hin).
  - apply things_quiet.
  - rewrite Hno. discriminate.
  - assert (Hlist : filter (λ o, "" = "" ∨ GetNamespace o = "") [live_parent] = [live_parent])
      by (rewrite filter_cons, decide_True by (by left); reflexivity).
    exact (f_equal (λ l, (Ok l, things_world)) Hlist).
  - exact E.
  - exists parents. split; [exact Hlog|]. apply Hin. unfold concerned. rewrite Hno.
    split; [vm_compute; reflexivity|]. split; [by left|]. vm_compute. reflexivity.
Defined.

Definition one_desired : UniformObjectMap := MakeUniformObjectMap live_parent [labelled "a" ""].
Definition thing_kind : GroupVersionKind := {| gvk_Group := "demo.io"; gvk_Version := "v1"; gvk_Kind := "Thing" |}.

Lemma enforce_labels_spec_witness :
  match makeSelector things_controller live_parent ∅ with
  | Ok selector =>
    match enforce_labels things_controller live_parent selector one_desired with
    | Ok desired' => ∃ obj', groups_lookup (uniform_groups desired') thing_kind "a" = Some obj'
    | _ => False
    end
  | _ => False
  end.
Proof.
  assert (Hrun : match makeSelector things_controller live_parent ∅ with
    | Ok selector => is_Ok (enforce_labels things_controller live_parent selector one_desired)
    | _ => false end = true) by (vm_compute; reflexivity).
  destruct (makeSelector things_controller live_parent ∅) as [selector|e|s]; [|discriminate..].
  destruct (enforce_labels things_controller live_parent selector one_desired) as [desired'|e|s] eqn:E;
    [|discriminate..].
  assert (Hone : match groups_lookup (uniform_groups one_desired) thing_kind "a" with
                 | Some o => bool_decide (o = labelled "a" "") | None => false end = true)
    by (vm_compute; reflexivity).
  pose proof (enforce_labels_spec things_controller live_parent selector one_desired desired' thing_kind "a" E) as H.
  destruct (groups_lookup (uniform_groups one_desired) thing_kind "a") as [o|]; [|discriminate].
  apply bool_decide_eq_true in Hone as ->.
  destruct H as (obj' & _ & Hobj' & _); [|by exists obj'].
  intros ? [= <-]. right. eexists. vm_compute. reflexivity.
Defined.
End examples.
