(* ===== verification/DecoratorController.v ===== *)
(** * The decorator controller: [pkg/controller/decorator]

    A decorator adds attachments, labels, annotations and a status to objects
    of any kind that its selector picks.  The file models the selector
    ([selector.go]), the hooks ([hooks.go], [api/v1], [api/v2]), the event
    handlers and the sync of one parent ([controller.go]). *)
From S2P Require Import Prelude Value K8s K8sInst Apply ObjectMap Discovery Types World ClientSet FakeCluster.
From S2P Require Import Finalizer ControllerRef ManageChildren Status RollingUpdate Worker ParentController Revisions.
From stdpp Require Import options.

(** ** The selector *)
Definition decoratorControllerAnnotation : string := "metacontroller.k8s.io/decorator-controller".

Definition selectorMapKey (apiGroup kind : string) : string := kind +:+ "." +:+ apiGroup.

Section selector.
Context {API : Apimachinery}.

Record decoratorSelector := {
  labelSelectors : gmap string Selector;
  annotationSelectors : gmap string Selector;
}.

Definition selector_error (what : string) (parent : DecoratorControllerResourceRule) : string :=
  "can't convert " +:+ what +:+ " selector for parent resource " +:+ quote (rr_Resource (dc_rule parent)) +:+
  " in apiVersion " +:+ quote (rr_APIVersion (dc_rule parent)).

Definition resource_not_found (rule : ResourceRule) : error :=
  ErrorString ("can't find resource " +:+ quote (rr_Resource rule) +:+ " in apiVersion " +:+ quote (rr_APIVersion rule)).

Definition newDecoratorSelector (resources : ResourceMap) (dc : DecoratorController) : res decoratorSelector :=
  foldlM (λ ds parent,
    match ResourceMap_Get resources (rr_APIVersion (dc_rule parent)) (rr_Resource (dc_rule parent)) with
    | None => Err (resource_not_found (dc_rule parent))
    | Some resource =>
      let key := selectorMapKey (ar_Group resource) (ar_Kind resource) in
      labelSelector ←
        match dc_LabelSelector parent with
        | Some s => wrap_err (selector_error "label" parent) (LabelSelectorAsSelector s)
        | None => mret Everything
        end;
      annotationSelector ←
        match dc_AnnotationSelector parent with
        | Some s =>
          wrap_err (selector_error "annotation" parent)
            (LabelSelectorAsSelector {| MatchLabels := MatchAnnotations s;
                                        MatchExpressions := ann_MatchExpressions s |})
        | None => mret Everything
        end;
      mret {| labelSelectors := <[key := labelSelector]> (labelSelectors ds);
              annotationSelectors := <[key := annotationSelector]> (annotationSelectors ds) |}
    end) {| labelSelectors := ∅; annotationSelectors := ∅ |} (dc_Resources dc).

Definition decoratorSelector_Matches (ds : decoratorSelector) (obj : object) : bool :=
  let key := selectorMapKey (ParseAPIVersion (GetAPIVersion obj)).1 (GetKind obj) in
  match labelSelectors ds !! key, annotationSelectors ds !! key with
  | Some labelSelector, Some annotationSelector =>
    Matches labelSelector (labels_of obj) && Matches annotationSelector (annotations_of obj)
  | _, _ => false
  end.
End selector.

(** ** Requests and responses of the hooks *)
Record DecoratorHookRequest (Map : Type) := {
  dhr_Controller : DecoratorController;
  dhr_Object : option object;
  dhr_Attachments : Map;
  dhr_Related : Map;
  dhr_Finalizing : bool;
}.
Inductive decorator_request :=
  | DecoratorV1Request (r : DecoratorHookRequest RelativeObjectMap)
  | DecoratorV2Request (r : DecoratorHookRequest UniformObjectMap).

(** In [dr_Labels] and [dr_Annotations], [None] is a null: delete the key. *)
Record DecoratorHookResponse := {
  dr_Labels : gmap string (option string);
  dr_Annotations : gmap string (option string);
  dr_Status : option object;
  dr_Attachments : list (option object);
  dr_ResyncAfterSeconds : Z;
  dr_Finalized : bool;
}.

Section builder.
Context {RT : GoRuntime} {API : Apimachinery}.
Definition decorator_v1_Build (r : requestBuilder DecoratorController) : DecoratorHookRequest RelativeObjectMap := {|
  dhr_Controller := rb_controller r;
  dhr_Object := rb_parent r;
  dhr_Attachments := toRelativeObjectMap r (rb_children r);
  dhr_Related := toRelativeObjectMap r (rb_related r);
  dhr_Finalizing := rb_finalizing r;
|}.
Definition decorator_v2_Build (r : requestBuilder DecoratorController) : DecoratorHookRequest UniformObjectMap := {|
  dhr_Controller := rb_controller r;
  dhr_Object := rb_parent r;
  dhr_Attachments := toUniformObjectMap r (rb_children r);
  dhr_Related := toUniformObjectMap r (rb_related r);
  dhr_Finalizing := rb_finalizing r;
|}.
End builder.

(** ** The update strategies *)
Section strategies.
Context {API : Apimachinery}.

Abbreviation attachmentStrategies := (gmap string ChildUpdateMethod).

Definition updateStrategyMapKey (apiGroup kind : string) : string := kind +:+ "." +:+ apiGroup.

Definition strategy_get (m : attachmentStrategies) (apiGroup kind : string) : option ChildUpdateMethod :=
  m !! updateStrategyMapKey apiGroup kind.

Definition strategy_GetMethod (m : attachmentStrategies) : GetMethod_t := λ apiGroup kind,
  match strategy_get m apiGroup kind with
  | None => ChildUpdateOnDelete
  | Some method => if method == "" then ChildUpdateOnDelete else method
  end.

Definition decorator_makeUpdateStrategyMap (resources : ResourceMap) (dc : DecoratorController)
    : res attachmentStrategies :=
  foldlM (λ m child,
    match attachment_UpdateStrategy child with
    | None => mret m
    | Some method =>
      if method != ChildUpdateOnDelete then
        let rule := attachment_rule child in
        match ResourceMap_Get resources (rr_APIVersion rule) (rr_Resource rule) with
        | None => Err (ErrorString ("can't find child resource " +:+ quote (rr_Resource rule) +:+ " in " +:+
                                    rr_APIVersion rule))
        | Some resource =>
          mret (<[updateStrategyMapKey (ParseAPIVersion (rr_APIVersion rule)).1 (ar_Kind resource) := method]> m)
        end
      else mret m
    end) ∅ (dc_Attachments dc).
End strategies.

(** ** The queue keys *)
Section keys.
Context {API : Apimachinery}.

Definition parentQueueKey (obj : informer_object) : res string :=
  match obj with
  | Tombstone key _ => Ok key
  | ExplicitKey key => Ok key
  | Live o => Ok (GetAPIVersion o +:+ ":" +:+ GetKind o +:+ ":" +:+ GetNamespace o +:+ ":" +:+ GetName o)
  | OtherObject => Err (ErrorString "can't get key for object; expected *unstructured.Unstructured")
  end.

Definition splitParentQueueKey (key : string) : res (string * string * string * string) :=
  match strings_SplitN key ":" 4 with
  | [apiVersion; kind; namespace; name] => Ok (apiVersion, kind, namespace, name)
  | _ => Err (ErrorString ("invalid parent key: " +:+ quote key))
  end.
End keys.

(** [updateStringMap]: the map afterwards, and whether anything changed. *)
Definition updateStringMap {RT : GoRuntime} (dest : gmap string string) (updates : gmap string (option string))
    : gmap string string * bool :=
  foldl (λ '(dest, changed) '(k, v),
    match v with
    | None => if bool_decide (is_Some (dest !! k)) then (delete k dest, true) else (dest, changed)
    | Some v => if bool_decide (dest !! k = Some v) then (dest, changed) else (<[k := v]> dest, true)
    end) (dest, false) (range updates).

Section decorator.
Context {RT : GoRuntime} {API : Apimachinery} {CL : Cluster} {RY : Retry} {XX : Xxhash}.

(** [decoratorController]; as in the composite controller, listers, hooks and
    the customize manager are interfaces. *)
Record decoratorController := {
  c_dc : DecoratorController;
  c_resources : ResourceMap;
  c_parentKinds : gmap GroupKind APIResource;
  c_parentSelector : decoratorSelector;
  c_dynClient : Clientset;
  c_updateStrategy : gmap string ChildUpdateMethod;
  c_parentInformers : gmap GroupVersionResource Lister;
  c_childInformers : gmap GroupVersionResource Lister;
  c_ssaOptions : ApplyOptions;
  c_finalizer : FinalizerManager;
  (** [customize.GetRelatedObjects] *)
  c_GetRelatedObjects : object → M World any_ObjectMap;
  c_syncHook : Hook_I decorator_request DecoratorHookResponse;
  c_finalizeHook : Hook_I decorator_request DecoratorHookResponse;
}.

Implicit Types c : decoratorController.

(** ** Hooks *)
Definition decorator_shouldCallFinalizeHook c (parent : object) : bool :=
  hook_IsEnabled (c_finalizeHook c) &&
  (being_deleted parent || negb (decoratorSelector_Matches (c_parentSelector c) parent)).

Definition decorator_determineHookToCall c (parent : object) : option hookCallInfo :=
  if decorator_shouldCallFinalizeHook c parent then
    Some {| hci_version := hook_GetVersion (c_finalizeHook c); hci_isFinalizing := true; hci_hookType := "finalize" |}
  else if hook_IsEnabled (c_syncHook c) then
    Some {| hci_version := hook_GetVersion (c_syncHook c); hci_isFinalizing := false; hci_hookType := "sync" |}
  else None.

Definition decorator_buildHookRequest c (hookInfo : hookCallInfo) (parent : object)
    (observedChildren related : any_ObjectMap) : decorator_request :=
  let builder := {|
    rb_controller := c_dc c; rb_parent := Some parent; rb_children := observedChildren; rb_related := related;
    rb_finalizing := hci_isFinalizing hookInfo |} in
  if hci_version hookInfo == HookVersionV2 then DecoratorV2Request (decorator_v2_Build builder)
  else DecoratorV1Request (decorator_v1_Build builder).

Definition decorator_callHookExecutor c (hookInfo : hookCallInfo) (request : decorator_request)
    : M World DecoratorHookResponse :=
  if hci_isFinalizing hookInfo then hook_Call (c_finalizeHook c) request
  else hook_Call (c_syncHook c) request.

Definition set_dr_Attachments (attachments : list (option object)) (r : DecoratorHookResponse)
    : DecoratorHookResponse := {|
  dr_Labels := dr_Labels r;
  dr_Annotations := dr_Annotations r;
  dr_Status := dr_Status r;
  dr_Attachments := attachments;
  dr_ResyncAfterSeconds := dr_ResyncAfterSeconds r;
  dr_Finalized := dr_Finalized r;
|}.

(** The responses of both versions have the same fields. *)
Definition decorator_convertV2ToV1Response (v2Response : DecoratorHookResponse) : DecoratorHookResponse := {|
  dr_Labels := dr_Labels v2Response;
  dr_Annotations := dr_Annotations v2Response;
  dr_Status := dr_Status v2Response;
  dr_Attachments := dr_Attachments v2Response;
  dr_ResyncAfterSeconds := dr_ResyncAfterSeconds v2Response;
  dr_Finalized := dr_Finalized v2Response;
|}.

Definition decorator_applyNamespaceDefaults (attachments : list (option object)) (parent : object)
    : list (option object) :=
  (λ attachment, match attachment with
                 | Some a => Some (if GetNamespace a == "" then SetNamespace (GetNamespace parent) a else a)
                 | None => None
                 end) <$> attachments.

Definition decorator_executeHook c (hookInfo : hookCallInfo) (request : decorator_request) (parent : object)
    : M World DecoratorHookResponse :=
  v1Response ←
    (if hci_version hookInfo == HookVersionV2 then
       v2Response ← wrap_errM (hci_hookType hookInfo +:+ " hook failed (version=v2)")
                      (decorator_callHookExecutor c hookInfo request);
       mret (decorator_convertV2ToV1Response v2Response)
     else
       wrap_errM (hci_hookType hookInfo +:+ " hook failed (version=v1)")
         (decorator_callHookExecutor c hookInfo request));
  mret (set_dr_Attachments (decorator_applyNamespaceDefaults (dr_Attachments v1Response) parent) v1Response).

Definition decorator_callHook c (parent : object) (observedChildren related : any_ObjectMap)
    : M World DecoratorHookResponse :=
  match dc_Hooks (c_dc c) with
  | None => throw (ErrorString "no hooks defined")
  | Some _ =>
    match decorator_determineHookToCall c parent with
    | None => throw (ErrorString "no enabled hooks found")
    | Some hookInfo =>
      let request := decorator_buildHookRequest c hookInfo parent observedChildren related in
      decorator_executeHook c hookInfo request parent
    end
  end.

(** ** Event handlers *)

(** The parent is none of our business. *)
Definition decorator_ignored c (parent : object) : bool :=
  negb (decoratorSelector_Matches (c_parentSelector c) parent) &&
  negb (ContainsFinalizer parent (fm_Name (c_finalizer c))).

Definition decorator_enqueueParentObject c (obj : informer_object) : M World unit :=
  if match obj with Live parent => decorator_ignored c parent | _ => false end then mret ()
  else
    match parentQueueKey obj with
    | Ok key => enqueue (QueueAdd key)
    | Err _ => mret ()
    | Panic s => lift (Panic s)
    end.

Definition decorator_enqueueParentObjectAfter (obj : informer_object) (delay : Z) : M World unit :=
  match parentQueueKey obj with
  | Ok key => enqueue (QueueAddAfter key delay)
  | Err _ => mret ()
  | Panic s => lift (Panic s)
  end.

(** An update that changed neither the generation nor labels nor annotations of
    a parent that is not being deleted; [same_pointer] is
    [parentOld == parentCur]. *)
Definition only_status_changed (same_pointer : bool) (parentOld parentCur : object) : bool :=
  negb same_pointer &&
  (GetGeneration parentOld == GetGeneration parentCur) &&
  (GetLabels parentOld == GetLabels parentCur) &&
  (GetAnnotations parentOld == GetAnnotations parentCur) &&
  negb (being_deleted parentCur).

Definition decorator_updateParentObject c (same_pointer : bool) (old cur : informer_object) : M World unit :=
  if match old with
     | Live parentOld =>
       existsb (λ parent,
         match ResourceMap_Get (c_resources c) (rr_APIVersion (dc_rule parent)) (rr_Resource (dc_rule parent)) with
         | None => false
         | Some resource =>
           (ar_APIVersion resource == GetAPIVersion parentOld) && (ar_Kind resource == GetKind parentOld) &&
           default false (dc_IgnoreStatusChanges parent) &&
           match cur with Live parentCur => only_status_changed same_pointer parentOld parentCur | _ => false end
         end) (dc_Resources (c_dc c))
     | _ => false
     end then mret ()
  else decorator_enqueueParentObject c cur.

Definition decorator_resolveControllerRef c (childNamespace : string) (controllerRef : OwnerReference)
    : M World (option object) :=
  apiGroup ← lift (ParseGroupVersion_or_zero (or_APIVersion controllerRef));
  match c_parentKinds c !! {| gk_Group := gv_Group apiGroup; gk_Kind := or_Kind controllerRef |} with
  | None => mret None
  | Some resource =>
    groupVersion ← lift (ParseGroupVersion_or_zero (ar_APIVersion resource));
    match c_parentInformers c !! gv_WithResource groupVersion (ar_Name resource) with
    | None => mret None
    | Some informer =>
      let parentNamespace := if ar_Namespaced resource then childNamespace else "" in
      r ← try (GetObject informer parentNamespace (or_Name controllerRef));
      match r with
      | inr _ => mret None
      | inl parent =>
        if GetUID parent != or_UID controllerRef then mret None
        else if decorator_ignored c parent then mret None
        else mret (Some parent)
      end
    end
  end.

Definition decorator_onChildDelete c (obj : informer_object) : M World unit :=
  match match obj with Live child => Some child | Tombstone _ o => o | _ => None end with
  | None => mret ()
  | Some child =>
    match GetControllerOf (GetOwnerReferences child) with
    | None => mret ()
    | Some controllerRef =>
      parent ← decorator_resolveControllerRef c (GetNamespace child) controllerRef;
      match parent with
      | None => mret ()
      | Some parent => decorator_enqueueParentObject c (Live parent)
      end
    end
  end.

Definition decorator_onChildAdd c (obj : informer_object) : M World unit :=
  match obj with
  | Live child =>
    if being_deleted child then decorator_onChildDelete c (Live child)
    else
      match GetControllerOf (GetOwnerReferences child) with
      | None => mret ()
      | Some controllerRef =>
        parent ← decorator_resolveControllerRef c (GetNamespace child) controllerRef;
        match parent with
        | None => mret ()
        | Some parent => decorator_enqueueParentObject c (Live parent)
        end
      end
  | _ => lift (Panic "interface conversion")
  end.

Definition decorator_onChildUpdate c (old cur : informer_object) : M World unit :=
  match old, cur with
  | Live oldChild, Live curChild =>
    if GetResourceVersion oldChild == GetResourceVersion curChild then mret () else decorator_onChildAdd c cur
  | _, _ => lift (Panic "interface conversion")
  end.
(** ** The children of a parent *)

(** The object belongs to this parent, and this decorator created it. *)
Definition is_attachment c (parent obj : object) : bool :=
  match GetControllerOf (GetOwnerReferences obj) with
  | None => false
  | Some controllerRef =>
    (or_UID controllerRef == GetUID parent) && (annotation obj decoratorControllerAnnotation == dc_Name (c_dc c))
  end.

Definition get_kind c (parent : object) (childMap : UniformObjectMap) (child : DecoratorControllerAttachmentRule)
    : M World UniformObjectMap :=
  let rule := attachment_rule child in
  let in_version := " in apiVersion " +:+ quote (rr_APIVersion rule) in
  groupVersion ← lift (ParseGroupVersion_or_zero (rr_APIVersion rule));
  match c_childInformers c !! gv_WithResource groupVersion (rr_Resource rule) with
  | None => throw (ErrorString ("no informer for resource " +:+ quote (rr_Resource rule) +:+ in_version))
  | Some informer =>
    all ← wrap_errM ("can't list children for resource " +:+ quote (rr_Resource rule) +:+ in_version)
            (lister_List informer (GetNamespace parent));
    match ResourceMap_Get (c_resources c) (rr_APIVersion rule) (rr_Resource rule) with
    | None => throw (resource_not_found rule)
    | Some resource =>
      gvk ← lift (APIResource_GroupVersionKind resource);
      let childMap := UniformObjectMap_InitGroup childMap gvk in
      mret (foldl (λ m obj, if is_attachment c parent obj then UniformObjectMap_Insert m parent obj else m)
              childMap all)
    end
  end.

Definition getChildren c (parent : object) : M World UniformObjectMap :=
  foldlM (get_kind c parent) (Uniform ∅) (dc_Attachments (c_dc c)).

(** ** The sync of a parent *)

(** The updated parent, and whether it and its status have to be written;
    [None] when nothing changed.  A nil status becomes a null field. *)
Definition decorated c (parent : object) (syncResult : DecoratorHookResponse) : res (option (object * bool)) :=
  parentStatus ← NestedMap parent ["status"];
  let status := match dr_Status syncResult with None => parentStatus | Some status => Some status end in
  let '(parentLabels, labelsChanged) := updateStringMap (labels_of parent) (dr_Labels syncResult) in
  let '(parentAnnotations, annotationsChanged) :=
    updateStringMap (annotations_of parent) (dr_Annotations syncResult) in
  let statusChanged :=
    match parentStatus, status with
    | Some old, Some new => negb (DeepEqual (VMap old) (VMap new))
    | None, None => false
    | _, _ => true
    end in
  if labelsChanged || annotationsChanged || statusChanged ||
     (dr_Finalized syncResult && ContainsFinalizer parent (fm_Name (c_finalizer c)))
  then
    updatedParent ← SetNestedField (SetAnnotations parentAnnotations (SetLabels parentLabels parent))
                      (match status with Some s => VMap s | None => VNull end) ["status"];
    mret (Some (updatedParent, statusChanged))
  else mret None.

(** Write the updated parent; the result tells whether the sync goes on: an
    update that comes too late ends it. *)
Definition write_parent c (parentClient : ResourceClient) (parent updatedParent : object) (statusChanged finalized : bool)
    : M World bool :=
  let client := ResourceClient_Namespace parentClient (GetNamespace parent) in
  let too_late err := IsNotFound err || IsConflict err in
  r ← (if statusChanged && HasSubresource (rc_APIResource parentClient) "status" then
         r ← try (rc_UpdateStatus client updatedParent);
         match r with
         | inr err => if too_late err then mret None else throw (WrapError "can't update status" err)
         | inl result => mret (Some (SetResourceVersion (GetResourceVersion result) updatedParent))
         end
       else mret (Some updatedParent));
  match r with
  | None => mret false
  | Some updatedParent =>
    let updatedParent :=
      if finalized then RemoveFinalizer updatedParent (fm_Name (c_finalizer c)) else updatedParent in
    r ← try (rc_Update client updatedParent);
    match r with
    | inr err =>
      if too_late err then mret false
      else throw (WrapError ("can't update " +:+ GetKind parent +:+ " " +:+ GetNamespace parent +:+ "/" +:+
                             GetName parent) err)
    | inl _ => mret true
    end
  end.

(** The annotation that remembers which decorator created a child. *)
Definition mark_attachment c (child : object) : object :=
  if annotation child decoratorControllerAnnotation == dc_Name (c_dc c) then child
  else SetAnnotations (<[decoratorControllerAnnotation := dc_Name (c_dc c)]> (annotations_of child)) child.

Definition mark_attachments c (desiredChildren : UniformObjectMap) : UniformObjectMap :=
  Uniform ((λ group : gmap string object, mark_attachment c <$> group) <$> uniform_groups desiredChildren).

Definition decorator_syncParentObject c (parent : object) : M World unit :=
  let describe parent := GetKind parent +:+ " " +:+ GetNamespace parent +:+ "/" +:+ GetName parent in
  check_ctx ;;
  if decorator_ignored c parent then mret ()
  else
    parentClient ← lift (wrap_err ("can't get client for " +:+ describe parent)
                           (Clientset_Kind (c_dynClient c) (GetAPIVersion parent) (GetKind parent)));
    parent ← wrap_errM ("can't sync finalizer for " +:+ describe parent)
               (FinalizerManager_SyncObject (c_finalizer c) parentClient parent);
    if decorator_ignored c parent then mret ()
    else
      observedChildren ← getChildren c parent;
      relatedObjects ← c_GetRelatedObjects c parent;
      syncResult ← decorator_callHook c parent (AnyUniform observedChildren) relatedObjects;
      attachments ← lift (mapM deref (dr_Attachments syncResult));
      let desiredChildren := MakeUniformObjectMap parent attachments in
      (if float64_lt 0 (dr_ResyncAfterSeconds syncResult)
       then decorator_enqueueParentObjectAfter (Live parent) (float64_seconds (dr_ResyncAfterSeconds syncResult))
       else mret ()) ;;
      updated ← lift (decorated c parent syncResult);
      go_on ← match updated with
              | None => mret true
              | Some (updatedParent, statusChanged) =>
                write_parent c parentClient parent updatedParent statusChanged (dr_Finalized syncResult)
              end;
      if negb go_on then mret ()
      else
        let desiredChildren := mark_attachments c desiredChildren in
        if negb (being_deleted parent) || FinalizerManager_ShouldFinalize (c_finalizer c) parent then
          wrap_errM ("can't reconcile children for " +:+ describe parent)
            (ManageChildren (c_dynClient c) (strategy_GetMethod (c_updateStrategy c)) parent
               (Some observedChildren) (Some desiredChildren) (c_ssaOptions c))
        else mret ().

Definition decorator_sync c (key : string) : M World unit :=
  '(apiVersion, kind, namespace, name) ← lift (splitParentQueueKey key);
  match ResourceMap_GetKind (c_resources c) apiVersion kind with
  | None => throw (ErrorString ("can't find kind " +:+ quote kind +:+ " in apiVersion " +:+ quote apiVersion))
  | Some resource =>
    groupVersion ← lift (ParseGroupVersion_or_zero apiVersion);
    match c_parentInformers c !! gv_WithResource groupVersion (ar_Name resource) with
    | None => throw (ErrorString ("no informer for resource " +:+ quote (ar_Name resource) +:+
                                  " in apiVersion " +:+ quote apiVersion))
    | Some informer =>
      r ← try (GetObject informer namespace name);
      match r with
      | inr err => if IsNotFound err then mret () else throw err
      | inl parent =>
        r ← try (decorator_syncParentObject c parent);
        match r with
        | inl _ => mret ()
        | inr err =>
          match errors_As_TooManyRequest err with
          | Some _ => throw err
          | None =>
            if errors_Is_NotSynced err then throw err
            else record_event (EvEventf "SyncError" ("Sync error: " +:+ error_Error err)) ;; throw err
          end
        end
      end
    end
  end.

Definition decorator_processNextWorkItem c : option string → M World bool := process_item (decorator_sync c).
End decorator.

(** ** Queue keys *)
Section key_properties.
Context {RT : GoRuntime} {API : Apimachinery} {CL : Cluster} {RY : Retry} {XX : Xxhash}.
Implicit Types c : decoratorController.

Lemma Cut_colon a b : strings_Contains a ":" = false → strings_Cut ":" (a +:+ ":" +:+ b) = Some (a, b).
Proof. apply (strings_Cut_app ":" a b). Qed.

(** The queue key of a parent splits back into its API version, kind,
    namespace and name, as long as the first three hold no colon, whatever is
    in the name. *)
Theorem parentQueueKey_roundtrip o :
  strings_Contains (GetAPIVersion o) ":" = false → strings_Contains (GetKind o) ":" = false →
  strings_Contains (GetNamespace o) ":" = false →
  ∃ key, parentQueueKey (Live o) = Ok key ∧
    splitParentQueueKey key = Ok (GetAPIVersion o, GetKind o, GetNamespace o, GetName o).
Proof.
  intros H1 H2 H3. eexists. split; [done|]. unfold splitParentQueueKey. cbn [strings_SplitN].
  by rewrite !Cut_colon.
Qed.

Lemma Cut_none s : strings_Contains s ":" = false → strings_Cut ":" s = None.
Proof.
  induction s as [|ch s IH]; simpl; [done|]. intros [Hc Hs]%orb_false_iff.
  rewrite Hc, IH by done. done.
Qed.

(** The key of a parent whose deletion was missed is the one of the
    informer's cache, a namespace and a name without a colon, and not one the
    sync can split: every time the worker takes it off the queue it puts it
    back, whatever happens to the parent in the meantime. *)
Theorem tombstone_key_stuck c key o w :
  strings_Contains key ":" = false →
  parentQueueKey (Tombstone key o) = Ok key ∧
  w_log (decorator_processNextWorkItem c (Some key) w).2 =
    w_log w ++ [EvQueue (QueueAddRateLimited key); EvQueue (QueueDone key)].
Proof.
  intros Hkey. split; [done|]. unfold decorator_processNextWorkItem, process_item, process_key, decorator_sync.
  unfold splitParentQueueKey. cbn [strings_SplitN]. rewrite (Cut_none _ Hkey). simpl. by rewrite <-app_assoc.
Qed.
End key_properties.

(** ** Labels and annotations of the parent *)
Section map_properties.
Context {RT : GoRuntime}.
Implicit Types dest : gmap string string.

Definition update_step : gmap string string * bool → string * option string → gmap string string * bool :=
  λ '(dest, changed) '(k, v),
    match v with
    | None => if bool_decide (is_Some (dest !! k)) then (delete k dest, true) else (dest, changed)
    | Some v => if bool_decide (dest !! k = Some v) then (dest, changed) else (<[k := v]> dest, true)
    end.

Lemma update_step_eq dest changed k v :
  update_step (dest, changed) (k, v) =
    (partial_alter (λ _, v) k dest, changed || bool_decide (dest !! k ≠ v)).
Proof.
  unfold update_step. destruct v as [v|].
  - destruct (decide (dest !! k = Some v)) as [Hv|Hv].
    + rewrite !bool_decide_true, bool_decide_false by naive_solver. rewrite orb_false_r. f_equal.
      exact (eq_sym (insert_id dest k v Hv)).
    + rewrite bool_decide_false, bool_decide_true by done. by rewrite orb_true_r.
  - destruct (dest !! k) as [x|] eqn:Hx.
    + rewrite !bool_decide_true by (by eauto). by rewrite orb_true_r.
    + rewrite !bool_decide_false by (by intros [] || naive_solver). rewrite orb_false_r. f_equal.
      exact (eq_sym (delete_id dest k Hx)).
Qed.

Lemma update_steps l dest changed dest' changed' :
  NoDup l.*1 → foldl update_step (dest, changed) l = (dest', changed') →
  (∀ k v, (k, v) ∈ l → dest' !! k = v) ∧ (∀ k, k ∉ l.*1 → dest' !! k = dest !! k) ∧
  (changed' = true ↔ changed = true ∨ ∃ k v, (k, v) ∈ l ∧ dest !! k ≠ v).
Proof.
  revert dest changed. induction l as [|[k v] l IH]; intros dest changed Hnd Hf.
  { injection Hf as <- <-. split_and!; [|done|].
    - intros ?? H. by apply not_elem_of_nil in H.
    - split; [by left|]. intros [?|(? & ? & H & _)]; [done|]. by apply not_elem_of_nil in H. }
  cbn [foldl] in Hf. rewrite update_step_eq in Hf. apply NoDup_cons in Hnd as [Hk Hnd]. simpl in Hk.
  apply IH in Hf as (Hin & Hout & Hch); [|done]. split_and!.
  - intros k' v' [[= -> ->]|H]%elem_of_cons; [|by apply Hin]. rewrite Hout by done. by apply lookup_partial_alter_eq.
  - intros k' [Hne Hk']%not_elem_of_cons. rewrite Hout by done. by apply lookup_partial_alter_ne.
  - assert (Hsame : ∀ k' v', (k', v') ∈ l → partial_alter (λ _, v) k dest !! k' = dest !! k').
    { intros k' v' H. apply lookup_partial_alter_ne. intros ->. apply Hk. apply list_elem_of_fmap. by exists (k', v'). }
    rewrite Hch, orb_true_iff, bool_decide_eq_true. setoid_rewrite elem_of_cons. split.
    + intros [[?|?]|(k' & v' & H & Hne)]; [by left|right; exists k, v; auto|].
      right. exists k', v'. rewrite (Hsame k' v') in Hne by done. auto.
    + intros [?|(k' & v' & [[= -> ->]|H] & Hne)]; [by left; left|by left; right|].
      right. exists k', v'. by rewrite (Hsame k' v').
Qed.

Lemma updateStringMap_result dest updates :
  (∀ k, (updateStringMap dest updates).1 !! k = match updates !! k with Some v => v | None => dest !! k end) ∧
  ((updateStringMap dest updates).2 = true ↔ (updateStringMap dest updates).1 ≠ dest).
Proof.
  change (updateStringMap dest updates) with (foldl update_step (dest, false) (range updates)).
  destruct (foldl update_step (dest, false) (range updates)) as [dest' changed'] eqn:E.
  apply update_steps in E as (Hin & Hout & Hch); [|apply NoDup_range_keys]. simpl.
  assert (Hlook : ∀ k, dest' !! k = match updates !! k with Some v => v | None => dest !! k end).
  { intros k. destruct (updates !! k) as [v|] eqn:Hk.
    - apply Hin. by apply elem_of_range.
    - apply Hout. intros ([k' v] & -> & H%elem_of_range)%list_elem_of_fmap. simpl in Hk. congruence. }
  split; [done|]. split.
  - intros H. apply Hch in H as [?|(k & v & Hkv & Hne)]; [done|]. intros ->. apply Hne. by apply Hin.
  - intros Hne. destruct changed'; [done|]. exfalso. apply Hne, map_eq. intros k. rewrite Hlook.
    destruct (updates !! k) as [v|] eqn:Hk; [|done]. symmetry. apply dec_stable. intros Hkv.
    assert (false = true) by (apply Hch; right; exists k, v; by rewrite elem_of_range). done.
Qed.

(** Merging the labels or annotations of a response into those of the
    parent sets what has a value, deletes what is null, leaves the rest, and
    reports a change exactly when there is one. *)
Theorem updateStringMap_spec dest updates :
  (∀ k, (updateStringMap dest updates).1 !! k = match updates !! k with Some v => v | None => dest !! k end) ∧
  ((updateStringMap dest updates).2 = true ↔ (updateStringMap dest updates).1 ≠ dest).
Proof. apply updateStringMap_result. Qed.
End map_properties.

(** ** The selector *)
Section selector_properties.
Context {API : Apimachinery}.

(** The key under which a rule's selectors are stored. *)
Definition rule_key (resources : ResourceMap) (rule : DecoratorControllerResourceRule) : option string :=
  resource ← ResourceMap_Get resources (rr_APIVersion (dc_rule rule)) (rr_Resource (dc_rule rule));
  Some (selectorMapKey (ar_Group resource) (ar_Kind resource)).

(** A selector that is not given selects everything. *)
Definition selects (s : option LabelSelector) (labels : gmap string string) : bool :=
  match s with
  | None => Matches Everything labels
  | Some s => match LabelSelectorAsSelector s with Ok sel => Matches sel labels | _ => false end
  end.

Definition rule_selects (rule : DecoratorControllerResourceRule) (obj : object) : bool :=
  selects (dc_LabelSelector rule) (labels_of obj) &&
  selects ((λ s, {| MatchLabels := MatchAnnotations s; MatchExpressions := ann_MatchExpressions s |}) <$>
             dc_AnnotationSelector rule) (annotations_of obj).

(** The decision, read off the rules: the last one for the object's kind decides. *)
Definition selected_by (resources : ResourceMap) (rules : list DecoratorControllerResourceRule) (obj : object) : bool :=
  let key := selectorMapKey (ParseAPIVersion (GetAPIVersion obj)).1 (GetKind obj) in
  match last (filter (λ r, rule_key resources r = Some key) rules) with
  | Some rule => rule_selects rule obj
  | None => false
  end.

(** C35: the selector that a decorator compiles once, two tables of selectors by
    kind, decides every object as its rules do: the last rule for the
    object's group and kind decides, by labels and annotations both, whatever
    the version; an object of another kind is never selected. *)
Theorem decoratorSelector_equiv resources dc ds obj :
  newDecoratorSelector resources dc = Ok ds →
  decoratorSelector_Matches ds obj = selected_by resources (dc_Resources dc) obj.
Proof.
  unfold newDecoratorSelector, selected_by, decoratorSelector_Matches. cbv zeta.
  set (key := selectorMapKey _ _). revert ds.
  induction (dc_Resources dc) as [|r rules IH] using rev_ind; intros ds H.
  { injection H as <-. simpl. by rewrite lookup_empty. }
  rewrite filter_app, filter_cons, filter_nil.
  apply foldlM_snoc in H as (ds0 & H0 & H). apply IH in H0. clear IH. unfold rule_key in *.
  destruct (ResourceMap_Get _ _ _) as [resource|]; [|done]. simpl in *.
  apply bind_res_Ok in H as (l & Hl & H). apply bind_res_Ok in H as (a & Ha & [= <-]). simpl.
  assert (Hsel : ∀ labels, selects (dc_LabelSelector r) labels = Matches l labels).
  { intros labels. unfold selects. destruct (dc_LabelSelector r) as [s|]; [|by injection Hl as <-].
    by destruct (LabelSelectorAsSelector s); simplify_eq/=. }
  assert (Hann : ∀ labels, selects ((λ s, {| MatchLabels := MatchAnnotations s;
      MatchExpressions := ann_MatchExpressions s |}) <$> dc_AnnotationSelector r) labels = Matches a labels).
  { intros labels. unfold selects. destruct (dc_AnnotationSelector r) as [s|]; simpl in *; [|by injection Ha as <-].
    by destruct (LabelSelectorAsSelector _); simplify_eq/=. }
  case_decide as Hk.
  - injection Hk as ->. rewrite last_snoc, !lookup_insert_eq. unfold rule_selects. by rewrite Hsel, Hann.
  - rewrite app_nil_r, !lookup_insert_ne by congruence. done.
Qed.
End selector_properties.

(** ** The updated parent *)
Section parent_properties.
Context {RT : GoRuntime} {API : Apimachinery} {CL : Cluster} {RY : Retry} {XX : Xxhash}.
Context {NL : NestedFieldLaws} {NT : NestedTypeLaws} {AL : AnnotationLaws} {LL : LabelLaws}.
Implicit Types c : decoratorController.

Lemma updateStringMap_again dest updates :
  let dest' := (updateStringMap dest updates).1 in updateStringMap dest' updates = (dest', false).
Proof.
  intros dest'. destruct (updateStringMap_result dest' updates) as [Hlook Hch].
  assert (Heq : (updateStringMap dest' updates).1 = dest').
  { apply map_eq. intros k. rewrite Hlook. unfold dest'.
    rewrite (proj1 (updateStringMap_result dest updates)). by destruct (updates !! k). }
  destruct (updateStringMap dest' updates) as [d ch]. simpl in *. subst d. f_equal.
  destruct ch; [|done]. by destruct (proj1 Hch eq_refl).
Qed.

(** The fields of an object with new labels, annotations and status. *)
Lemma decorated_fields parent l a v u :
  metadata_ok parent → SetNestedField (SetAnnotations a (SetLabels l parent)) v ["status"] = Ok u →
  GetLabels u = Some l ∧ GetAnnotations u = Some a ∧ NestedFieldNoCopy u ["status"] = Ok (Some v).
Proof using All.
  intros Hok Hu. split_and!.
  - rewrite (GetLabels_field u (SetLabels l parent)); [by apply GetLabels_Set|].
    rewrite (NestedField_Set_disjoint _ _ _ _ _ Hu) by (by apply disjoint_heads).
    apply NestedField_SetAnnotations, disjoint_siblings; done.
  - rewrite (GetAnnotations_field u (SetAnnotations a (SetLabels l parent))).
    + by apply GetAnnotations_Set, SetLabels_metadata_ok.
    + apply (NestedField_Set_disjoint _ _ _ _ _ Hu), disjoint_heads; done.
  - by eapply NestedField_Set.
Qed.

(** When the answer of the hook asks for a change, the updated parent has
    the labels and annotations merged as [updateStringMap] says, and the
    status of the answer, or its own one when the answer has none; and once
    that is written, the same answer asks for no further write: a decorator
    does not chase its own updates. *)
Theorem decorated_spec c parent r u statusChanged :
  metadata_ok parent → decorated c parent r = Ok (Some (u, statusChanged)) →
  (∀ k, labels_of u !! k = match dr_Labels r !! k with Some v => v | None => labels_of parent !! k end) ∧
  (∀ k, annotations_of u !! k =
     match dr_Annotations r !! k with Some v => v | None => annotations_of parent !! k end) ∧
  (∀ s, dr_Status r = Some s → NestedFieldNoCopy u ["status"] = Ok (Some (VMap s))) ∧
  (dr_Status r = None → ∀ s, NestedFieldNoCopy parent ["status"] = Ok (Some (VMap s)) →
     NestedFieldNoCopy u ["status"] = Ok (Some (VMap s))) ∧
  (∀ s, NestedFieldNoCopy u ["status"] = Ok (Some (VMap s)) → canonical (VMap s) = true →
     dr_Finalized r = false → decorated c u r = Ok None).
Proof using All.
  intros Hok H. unfold decorated in H. apply bind_res_Ok in H as (parentStatus & Hps & H).
  set (status := match dr_Status r with None => parentStatus | Some s => Some s end) in *.
  destruct (updateStringMap (labels_of parent) (dr_Labels r)) as [l lch] eqn:Hl.
  destruct (updateStringMap (annotations_of parent) (dr_Annotations r)) as [a ach] eqn:Ha.
  match type of H with (if ?b then _ else _) = _ => destruct b; [|done] end.
  apply bind_res_Ok in H as (u' & Hu & [= -> _]).
  apply decorated_fields in Hu as (HL & HA & HS); [|done].
  pose proof (proj1 (updateStringMap_result (labels_of parent) (dr_Labels r))) as Hlook. rewrite Hl in Hlook.
  pose proof (proj1 (updateStringMap_result (annotations_of parent) (dr_Annotations r))) as Halook.
  rewrite Ha in Halook.
  split_and!.
  - unfold labels_of at 1. by rewrite HL.
  - unfold annotations_of at 1. by rewrite HA.
  - intros s Hs. unfold status in HS. by rewrite Hs in HS.
  - intros Hnone s Hs. unfold status in HS. rewrite Hnone in HS.
    apply NestedMap_map in Hs. rewrite Hs in Hps. by injection Hps as <-.
  - intros s Hs Hc Hfin. rewrite HS in Hs. destruct status as [s'|] eqn:Hst; [|done]. injection Hs as ->.
    assert (Hst' : match dr_Status r with None => Some s | Some st => Some st end = Some s)
      by (unfold status in Hst; by destruct (dr_Status r)).
    pose proof (updateStringMap_again (labels_of parent) (dr_Labels r)) as Hl2.
    pose proof (updateStringMap_again (annotations_of parent) (dr_Annotations r)) as Ha2.
    rewrite Hl in Hl2. rewrite Ha in Ha2. cbn [fst] in Hl2, Ha2.
    unfold decorated, labels_of, annotations_of. rewrite (NestedMap_map _ _ _ HS), HL, HA.
    cbn [mbind res_bind default]. rewrite Hst'. unfold id. rewrite Hl2, Ha2, DeepEqual_refl, Hfin by done. done.
Qed.
End parent_properties.

(** ** What a sync sends *)
Section sync_properties.
Context {RT : GoRuntime} {API : Apimachinery} {CL : Cluster} {RY : Retry} {XX : Xxhash}.
Implicit Types c : decoratorController.

(** Hooks, listers and the customize manager send the API server nothing. *)
Record quiet_decorator c : Prop := {
  quiet_c_syncHook req : emits no_event (hook_Call (c_syncHook c) req);
  quiet_c_finalizeHook req : emits no_event (hook_Call (c_finalizeHook c) req);
  quiet_c_related parent : emits no_event (c_GetRelatedObjects c parent);
  quiet_c_children gvr informer ns :
    c_childInformers c !! gvr = Some informer → emits no_event (lister_List informer ns);
}.

(** Every object of the map is an attachment of the parent that this decorator
    made, under its own kind and name. *)
Definition attachments_typed c (parent : object) (m : UniformObjectMap) : Prop :=
  ∀ gvk name obj, groups_lookup (uniform_groups m) gvk name = Some obj →
    gvk = obj_GroupVersionKind obj ∧ name = qualifiedName obj ∧ is_attachment c parent obj = true.

Lemma insert_attachments_typed c parent m all :
  attachments_typed c parent m →
  attachments_typed c parent
    (foldl (λ m obj, if is_attachment c parent obj then UniformObjectMap_Insert m parent obj else m) m all).
Proof using RT API CL.
  revert m. induction all as [|o all IH]; intros m Hm; simpl; [done|]. apply IH.
  destruct (is_attachment c parent o) eqn:Ho; [|done]. intros gvk name obj.
  rewrite uniform_Insert, groups_lookup_insert. case_decide as Hk; [|by apply Hm]. destruct Hk as [<- <-]. by intros [= <-].
Qed.

Lemma getChildren_result c parent w m w' :
  getChildren c parent w = (Ok m, w') → attachments_typed c parent m.
Proof using RT API CL.
  apply (foldlM_Ok_inv (λ m _, attachments_typed c parent m)).
  { intros gvk name obj. unfold groups_lookup. simpl. by rewrite lookup_empty. }
  intros m1 rule w1 m2 w2 _ Hm H. unfold get_kind in H.
  apply bind_Ok in H as (gv & w3 & _ & H). destruct (c_childInformers c !! _) as [informer|]; [|done].
  apply bind_Ok in H as (all & w4 & _ & H). destruct (ResourceMap_Get _ _ _) as [resource|]; [|done].
  apply bind_Ok in H as (gvk & w5 & _ & H). injection H as <- _.
  apply insert_attachments_typed. intros g n o.
  rewrite uniform_InitGroup, groups_lookup_init. apply Hm.
Qed.

(** Everything a sync may do to the world. *)
Inductive decorator_event c : event → Prop :=
  | decorate_parent parent parentClient e :
    Clientset_Kind (c_dynClient c) (GetAPIVersion parent) (GetKind parent) = Ok parentClient →
    resource_request parentClient e → decorator_event c e
  | decorate_later key delay : decorator_event c (EvQueue (QueueAddAfter key delay))
  | decorate_manage parent observed attachments e :
    being_deleted parent = false ∨ FinalizerManager_ShouldFinalize (c_finalizer c) parent = true →
    attachments_typed c parent observed →
    manage_request (c_dynClient c) (strategy_GetMethod (c_updateStrategy c)) parent (Some observed)
      (Some (mark_attachments c (MakeUniformObjectMap parent attachments))) (c_ssaOptions c) e →
    decorator_event c e.

Lemma getChildren_quiet c parent : quiet_decorator c → emits no_event (getChildren c parent).
Proof. intros Hq. unfold getChildren, get_kind. emits_auto. by eapply (quiet_c_children c). Qed.

Lemma decorator_callHook_quiet c parent observed related :
  quiet_decorator c → emits no_event (decorator_callHook c parent observed related).
Proof.
  intros Hq. unfold decorator_callHook, decorator_executeHook, decorator_callHookExecutor.
  emits_auto; apply Hq.
Qed.

Lemma write_parent_emits c client parent updated statusChanged finalized :
  emits (resource_request client) (write_parent c client parent updated statusChanged finalized).
Proof.
  unfold write_parent, rc_UpdateStatus, rc_Update. cbv zeta.
  emits_auto; apply ResourceClient_Namespace_GVR.
Qed.

End sync_properties.

(** ** A concrete decorator *)
Section examples.
#[local] Existing Instance treeAPI.
#[local] Existing Instance listRuntime.
#[local] Existing Instance fakeCluster.
#[local] Existing Instance fakeRetry.
#[local] Instance lengthHash : Xxhash := {| xxhash_Sum64 := λ s, Z.of_nat (String.length s) |}.

Definition demo_dc : DecoratorController := {|
  dc_Name := "demo";
  dc_Resources := [{| dc_rule := {| rr_APIVersion := "demo.io/v1"; rr_Resource := "parents" |};
                      dc_LabelSelector := None; dc_AnnotationSelector := None; dc_IgnoreStatusChanges := None |}];
  dc_Attachments := [{| attachment_rule := {| rr_APIVersion := "demo.io/v1"; rr_Resource := "things" |};
                        attachment_UpdateStrategy := Some ChildUpdateInPlace |}];
  dc_Hooks := Some {| dch_Customize := None; dch_Sync := None; dch_Finalize := None |};
  dc_EndpointConfigs := []; dc_ResyncPeriodSeconds := None |}.

Definition demo_resources : ResourceMap := {| rm_groupVersions := Some {[ "demo.io/v1" := things_group ]} |}.
Definition demo_answer : DecoratorHookResponse := {|
  dr_Labels := {[ "decorated" := Some "yes" ]}; dr_Annotations := ∅;
  dr_Status := Some {[ "ready" := VBool true ]}; dr_Attachments := [Some (labelled "a" "")];
  dr_ResyncAfterSeconds := 0; dr_Finalized := false |}.
Definition demo_parent_selector : decoratorSelector :=
  match newDecoratorSelector demo_resources demo_dc with
  | Ok ds => ds
  | _ => {| labelSelectors := ∅; annotationSelectors := ∅ |}
  end.

Definition demo_decorator : decoratorController := {|
  c_dc := demo_dc;
  c_resources := demo_resources;
  c_parentKinds := ∅;
  c_parentSelector := demo_parent_selector;
  c_dynClient := {| cs_resources := demo_resources |};
  c_updateStrategy := ∅;
  c_parentInformers := {[ parents_gvr := {|
    lister_Get := λ _ name, if name == "p" then mret live_parent else throw (fake_NotFound name);
    lister_List := λ _, mret [live_parent] |} ]};
  c_childInformers := {[ things_gvr := {|
    lister_Get := λ _ name, throw (fake_NotFound name);
    lister_List := λ _, mret [labelled "b" "uid-b"] |} ]};
  c_ssaOptions := {| ao_FieldManager := "demo"; ao_Strategy := ApplyStrategyDynamicApply |};
  c_finalizer := {| fm_Name := "demo.io/finalizer"; fm_Enabled := false |};
  c_GetRelatedObjects := λ _, mret NilObjectMap;
  c_syncHook := constant_hook demo_answer;
  c_finalizeHook := disabled_hook |}.

Lemma demo_decorator_quiet : quiet_decorator demo_decorator.
Proof.
  split; simpl; intros; try apply emits_ret; try apply emits_throw.
  apply lookup_singleton_Some in H as [_ <-]. apply emits_ret.
Qed.

Definition decorate_run : res unit * World := decorator_sync demo_decorator "demo.io/v1:Parent::p" things_world.


Lemma parentQueueKey_roundtrip_witness :
  ∃ key, parentQueueKey (Live live_parent) = Ok key ∧
    splitParentQueueKey key = Ok (GetAPIVersion live_parent, GetKind live_parent, GetNamespace live_parent,
                                  GetName live_parent).
Proof. apply (parentQueueKey_roundtrip live_parent); vm_compute; reflexivity. Defined.

Lemma tombstone_key_stuck_witness :
  w_log (decorator_processNextWorkItem demo_decorator (Some "ns/gone") things_world).2 =
    w_log things_world ++ [EvQueue (QueueAddRateLimited "ns/gone"); EvQueue (QueueDone "ns/gone")].
Proof. apply (tombstone_key_stuck demo_decorator "ns/gone" None things_world). reflexivity. Defined.

Lemma decoratorSelector_equiv_witness :
  match newDecoratorSelector demo_resources demo_dc with
  | Ok ds => decoratorSelector_Matches ds live_parent = selected_by demo_resources (dc_Resources demo_dc) live_parent ∧
             decoratorSelector_Matches ds live_parent = true
  | _ => False
  end.
Proof.
  assert (Hrun : match newDecoratorSelector demo_resources demo_dc with
                 | Ok ds => decoratorSelector_Matches ds live_parent | _ => false end = true)
    by (vm_compute; reflexivity).
  destruct (newDecoratorSelector demo_resources demo_dc) as [ds|e|s] eqn:E; [|discriminate..].
  split; [|exact Hrun]. apply (decoratorSelector_equiv demo_resources demo_dc ds live_parent E).
Defined.

Definition decorated_parent : res (option (object * bool)) := decorated demo_decorator live_parent demo_answer.

Lemma decorated_spec_witness :
  match decorated_parent with
  | Ok (Some (u, _)) => labels_of u !! "decorated" = Some "yes" ∧ decorated demo_decorator u demo_answer = Ok None
  | _ => False
  end.
Proof.
  assert (Hrun : match decorated_parent with Ok (Some _) => true | _ => false end = true) by (vm_compute; reflexivity).
  destruct decorated_parent as [[[u sc]|]|e|s] eqn:E; [|discriminate..].
  destruct (decorated_spec demo_decorator live_parent demo_answer u sc) as (Hl & _ & Hs & _ & Hq).
  - right. eexists. vm_compute. reflexivity.
  - exact E.
  - split; [rewrite Hl; reflexivity|].
    apply (Hq {[ "ready" := VBool true ]}); [apply Hs; reflexivity|vm_compute; reflexivity|reflexivity].
Defined.
End examples.
