(* ===== verification/Informer.v ===== *)
(** * Shared informers: [pkg/dynamic/informer]

    Three layers: the indexes of a cache and the lookups by owner and of
    orphans ([informer.go]); the handlers that share one informer, each removed
    with the subscription that added it; and the factory that counts the
    subscriptions of each informer and stops it with the last one
    ([factory.go]).  The cache itself is a library: an indexer is a function
    with its documented law. *)
From stdpp Require Import gmultiset.
From S2P Require Import Prelude Value K8s K8sInst ObjectMap Discovery Types World ClientSet FakeCluster ControllerRef.
From S2P Require Import Worker ParentController.
From stdpp Require Import options.

(** ** Indexes *)
Section indexes.
Context {API : Apimachinery} {CL : Cluster}.

Definition orphanIndexSentinel : string := "true".
Definition OwnerUIDIndex : string := "ownerUID".
Definition OrphanIndex : string := "orphan".

Definition ownerUIDIndexFunc (obj : object) : list string :=
  or_UID <$> filter (λ ref, is_controller_ref ref = true) (GetOwnerReferences obj).

Definition orphanIndexFunc (obj : object) : list string :=
  if existsb is_controller_ref (GetOwnerReferences obj) then [] else [orphanIndexSentinel].

(** The indexers that the informer is created with. *)
Definition index_func (indexName : string) : option (object → list string) :=
  if indexName == OwnerUIDIndex then Some ownerUIDIndexFunc
  else if indexName == OrphanIndex then Some orphanIndexFunc
  else None.

(** [informer.GetIndexer()]: the objects it holds, and [ByIndex]. *)
Record Indexer := {
  ix_objects : list object;
  ByIndex : string → string → res (list object);
}.

(** "ByIndex returns the stored objects whose set of indexed values for the
    named index includes the given indexed value" *)
Class IndexerLaw (ix : Indexer) : Prop := {
  ByIndex_spec indexName key f :
    index_func indexName = Some f →
    ∃ l, ByIndex ix indexName key = Ok l ∧ l ≡ₚ filter (λ o, key ∈ f o) (ix_objects ix);
}.

Definition byIndexAndNamespace (ix : Indexer) (indexName key namespace : string) : res (list object) :=
  items ← ByIndex ix indexName key;
  mret (filter (λ u, namespace = "" ∨ GetNamespace u = namespace) items).

Definition informer_ListByOwnerUID (ix : Indexer) (uid namespace : string) : res (list object) :=
  byIndexAndNamespace ix OwnerUIDIndex uid namespace.
Definition informer_ListOrphans (ix : Indexer) (namespace : string) : res (list object) :=
  byIndexAndNamespace ix OrphanIndex orphanIndexSentinel namespace.

(** The child informer of a controller, over this cache. *)
Definition indexed_informer (ix : Indexer) : ChildInformer := {|
  ListByOwnerUID := λ uid ns, lift (informer_ListByOwnerUID ix uid ns);
  ListOrphans := λ ns, lift (informer_ListOrphans ix ns);
|}.
End indexes.

(** ** Event handlers that can be removed *)
Inductive notification :=
  | OnAdd (obj : informer_object) (isInInitialList : bool)
  | OnUpdate (same_pointer : bool) (old new : informer_object)
  | OnDelete (obj : informer_object).

(** A handler: which one it is, and the period of its own timer, if it has one. *)
Record eventHandler := { eh_handler : string; eh_timer : option Z }.

(** The handlers by the wrapper they were added through. *)
Record sharedEventHandler := {
  seh_relistPeriod : Z;
  seh_handlers : gmap nat (list eventHandler);
}.

(** What is delivered to whom. *)
Definition delivery : Type := string * notification.

(** [resync]: the cached objects as updates of each by itself. *)
Definition resync (cached : list object) (eh : eventHandler) : list delivery :=
  (λ obj, (eh_handler eh, OnUpdate true (Live obj) (Live obj))) <$> cached.

Definition addHandler (seh : sharedEventHandler) (cached : list object) (iw : nat) (handler : string) (resyncPeriod : Z)
    : sharedEventHandler * list delivery :=
  let eh := {| eh_handler := handler;
               eh_timer := if (resyncPeriod <? seh_relistPeriod seh)%Z then Some resyncPeriod else None |} in
  ({| seh_relistPeriod := seh_relistPeriod seh;
      seh_handlers := <[iw := default [] (seh_handlers seh !! iw) ++ [eh]]> (seh_handlers seh) |},
   resync cached eh).

Definition newSharedEventHandler (relistPeriod : Z) : sharedEventHandler :=
  {| seh_relistPeriod := relistPeriod; seh_handlers := ∅ |}.

(** The timers of the handlers stop with them. *)
Definition removeHandlers (seh : sharedEventHandler) (iw : nat) : sharedEventHandler :=
  {| seh_relistPeriod := seh_relistPeriod seh; seh_handlers := delete iw (seh_handlers seh) |}.

(** [OnAdd], [OnUpdate] and [OnDelete]: one loop over all handlers. *)
Definition broadcast {RT : GoRuntime} (seh : sharedEventHandler) (n : notification) : list delivery :=
  range (seh_handlers seh) ≫= λ '(_, handlers), (λ eh, (eh_handler eh, n)) <$> handlers.

(** ** The factory *)
Definition resourceKey (apiVersion resource : string) : string := resource +:+ "." +:+ apiVersion.

(** A subscription: the key, the shared informer behind it, and the wrapper
    through which its own handlers are added. *)
Record ResourceInformer := { ri_key : string; ri_informer : nat; ri_wrapper : nat }.
#[global] Instance ResourceInformer_eq_dec : EqDecision ResourceInformer.
Proof. solve_decision. Defined.

(** [f_running] are the informers whose stop channel is open; [f_handlers] what
    each informer broadcasts to; [f_next] names the next informer and the next
    wrapper. *)
Record SharedInformerFactory := {
  f_clientset : Clientset;
  f_defaultResync : Z;
  f_refCount : gmap string Z;
  f_sharedInformers : gmap string nat;
  f_running : gset nat;
  f_handlers : gmap nat sharedEventHandler;
  f_next : nat;
}.
Definition set_handlers (handlers : gmap nat sharedEventHandler) (f : SharedInformerFactory) : SharedInformerFactory := {|
  f_clientset := f_clientset f; f_defaultResync := f_defaultResync f; f_refCount := f_refCount f;
  f_sharedInformers := f_sharedInformers f; f_running := f_running f; f_handlers := handlers; f_next := f_next f |}.

Section factory.
Context {API : Apimachinery}.
(** [informer.AddEventHandler] of the shared handler. *)
Variable AddEventHandler : res unit.

Definition NewSharedInformerFactory (clientset : Clientset) (defaultResync : Z) : SharedInformerFactory := {|
  f_clientset := clientset; f_defaultResync := defaultResync; f_refCount := ∅; f_sharedInformers := ∅;
  f_running := ∅; f_handlers := ∅; f_next := 0 |}.

Definition factory_Resource (apiVersion resource : string) : M SharedInformerFactory ResourceInformer := λ f,
  let key := resourceKey apiVersion resource in
  match f_sharedInformers f !! key with
  | Some sharedInformer =>
    let count := (default 0 (f_refCount f !! key) + 1)%Z in
    (Ok {| ri_key := key; ri_informer := sharedInformer; ri_wrapper := f_next f |},
     {| f_clientset := f_clientset f; f_defaultResync := f_defaultResync f; f_refCount := <[key := count]> (f_refCount f);
        f_sharedInformers := f_sharedInformers f; f_running := f_running f; f_handlers := f_handlers f; f_next := S (f_next f) |})
  | None =>
    let created :=
      client ← Clientset_Resource (f_clientset f) apiVersion resource;
      AddEventHandler in
    match wrap_err ("can't create client for " +:+ key +:+ " shared informer") created with
    | Err e => (Err e, f)
    | Panic s => (Panic s, f)
    | Ok _ =>
      (Ok {| ri_key := key; ri_informer := f_next f; ri_wrapper := f_next f |},
       {| f_clientset := f_clientset f; f_defaultResync := f_defaultResync f; f_refCount := <[key := 1%Z]> (f_refCount f);
          f_sharedInformers := <[key := f_next f]> (f_sharedInformers f);
          f_running := {[ f_next f ]} ∪ f_running f;
          f_handlers := <[f_next f := newSharedEventHandler (f_defaultResync f)]> (f_handlers f); f_next := S (f_next f) |})
    end
  end.

(** [closeFn]; closing a stop channel twice panics. *)
Definition ri_Close (ri : ResourceInformer) : M SharedInformerFactory unit := λ f,
  let key := ri_key ri in
  let count := (default 0 (f_refCount f !! key) - 1)%Z in
  if (0 <? count)%Z then
    (Ok (), {| f_clientset := f_clientset f; f_defaultResync := f_defaultResync f; f_refCount := <[key := count]> (f_refCount f);
               f_sharedInformers := f_sharedInformers f; f_running := f_running f; f_handlers := f_handlers f; f_next := f_next f |})
  else if bool_decide (ri_informer ri ∈ f_running f) then
    (Ok (), {| f_clientset := f_clientset f; f_defaultResync := f_defaultResync f; f_refCount := delete key (f_refCount f);
               f_sharedInformers := delete key (f_sharedInformers f);
               f_running := f_running f ∖ {[ ri_informer ri ]}; f_handlers := f_handlers f; f_next := f_next f |})
  else (Panic "close of closed channel", f).

(** The methods of [informerWrapper]; neither returns an error.  The cached
    objects are those of the informer, and the result is what the handler is
    sent at once. *)
Definition AddEventHandlerWithResyncPeriod (ri : ResourceInformer) (cached : list object) (handler : string) (resyncPeriod : Z)
    : M SharedInformerFactory (list delivery) := λ f,
  match f_handlers f !! ri_informer ri with
  | None => (Panic "nil pointer dereference", f)
  | Some seh =>
    let '(seh, sent) := addHandler seh cached (ri_wrapper ri) handler resyncPeriod in
    (Ok sent, set_handlers (<[ri_informer ri := seh]> (f_handlers f)) f)
  end.
Definition iw_AddEventHandler (ri : ResourceInformer) (cached : list object) (handler : string)
    : M SharedInformerFactory (list delivery) := λ f,
  AddEventHandlerWithResyncPeriod ri cached handler (f_defaultResync f) f.
Definition RemoveEventHandlers (ri : ResourceInformer) : M SharedInformerFactory unit := λ f,
  match f_handlers f !! ri_informer ri with
  | None => (Panic "nil pointer dereference", f)
  | Some seh => (Ok (), set_handlers (<[ri_informer ri := removeHandlers seh (ri_wrapper ri)]> (f_handlers f)) f)
  end.
End factory.

(** ** The indexes find every object a parent may claim *)
Section index_properties.
Context {API : Apimachinery} {CL : Cluster} {RY : Retry} {OL : OwnerReferenceLaws}.

(** The object has no controller, or this one. *)
Definition candidate (uid : string) (obj : object) : Prop :=
  uid ∈ ownerUIDIndexFunc obj ∨ orphanIndexSentinel ∈ orphanIndexFunc obj.
#[global] Instance candidate_dec uid obj : Decision (candidate uid obj).
Proof. unfold candidate. apply _. Defined.

Lemma elem_of_owner_index uid obj :
  uid ∈ ownerUIDIndexFunc obj ↔
    ∃ ref, ref ∈ GetOwnerReferences obj ∧ is_controller_ref ref = true ∧ or_UID ref = uid.
Proof.
  unfold ownerUIDIndexFunc. rewrite list_elem_of_fmap. setoid_rewrite list_elem_of_filter. naive_solver.
Qed.

Lemma elem_of_orphan_index obj :
  orphanIndexSentinel ∈ orphanIndexFunc obj ↔ Forall (λ r, is_controller_ref r = false) (GetOwnerReferences obj).
Proof using All.
  unfold orphanIndexFunc. rewrite Forall_forall.
  destruct (existsb is_controller_ref (GetOwnerReferences obj)) eqn:E.
  - apply existsb_exists in E as (r & Hr & Hc). split; [intros H; by apply not_elem_of_nil in H|].
    intros H. apply list_elem_of_In in Hr. by rewrite H in Hc.
  - split; [|set_solver]. intros _ r Hr. destruct (is_controller_ref r) eqn:Hc; [|done].
    rewrite <-E. symmetry. apply existsb_exists. exists r. by rewrite <-list_elem_of_In.
Qed.

(** An orphan is in nobody's index. *)
Lemma candidate_disjoint uid obj :
  uid ∈ ownerUIDIndexFunc obj → orphanIndexSentinel ∈ orphanIndexFunc obj → False.
Proof using All.
  rewrite elem_of_owner_index, elem_of_orphan_index, Forall_forall.
  intros (ref & Hin & Hc & _) H. by rewrite H in Hc.
Qed.

Lemma lookups_candidates ix uid namespace owned orphans :
  IndexerLaw ix →
  informer_ListByOwnerUID ix uid namespace = Ok owned → informer_ListOrphans ix namespace = Ok orphans →
  owned ++ orphans ≡ₚ
    filter (λ o, candidate uid o) (filter (λ o, namespace = "" ∨ GetNamespace o = namespace) (ix_objects ix)).
Proof using All.
  intros Hix. unfold informer_ListByOwnerUID, informer_ListOrphans, byIndexAndNamespace.
  destruct (ByIndex_spec OwnerUIDIndex uid ownerUIDIndexFunc) as (l1 & -> & H1); [done|].
  destruct (ByIndex_spec OrphanIndex orphanIndexSentinel orphanIndexFunc) as (l2 & -> & H2); [done|].
  simpl. intros [= <-] [= <-]. rewrite H1, H2, <-filter_app. rewrite (filter_or _ _ (candidate uid)).
  - by rewrite filter_comm.
  - done.
  - intros a. apply candidate_disjoint.
Qed.

Lemma claim_skips m child w :
  ¬ candidate (GetUID (crm_Controller (um_base m))) child →
  ClaimObject (um_base m) child (λ obj, Matches (crm_Selector (um_base m)) (mo_Labels obj)) (adoptChild m)
    (releaseChild m) w = (Ok false, w).
Proof using All.
  intros Hc. unfold ClaimObject. simpl.
  destruct (GetControllerOf (GetOwnerReferences child)) as [ref|] eqn:Href.
  - case_bool_decide as Hu; [|done]. exfalso. apply Hc. left. apply elem_of_owner_index. exists ref.
    apply GetControllerOf_Some in Href as [? ?]. by rewrite Hu.
  - exfalso. apply Hc. right. apply elem_of_orphan_index. by apply GetControllerOf_None.
Qed.

Lemma ClaimChildren_candidates m children w :
  ClaimChildren m (filter (candidate (GetUID (crm_Controller (um_base m)))) children) w = ClaimChildren m children w.
Proof using All.
  unfold ClaimChildren, run_claim, claim_all. cbv zeta.
  match goal with |- context [foldlM ?g ([], []) (filter ?P children)] =>
    assert (Hloop : ∀ s, foldlM g ([], []) (filter P children) s = foldlM g ([], []) children s) end.
  { intros s. apply foldlM_filter. intros [claimed errs] child s' Hc. unfold mbind, M_bind, try.
    by rewrite claim_skips. }
  unfold mbind at 1, M_bind. rewrite Hloop. done.
Qed.

(** C28: looking children up by owner and among the orphans finds everything a
    parent may claim: claiming from the two lookups does, request for request,
    what claiming from a scan of all objects of the cache in the parent's
    namespace does. *)
Theorem indexed_claim_equiv ix m namespace owned orphans w :
  IndexerLaw ix →
  informer_ListByOwnerUID ix (GetUID (crm_Controller (um_base m))) namespace = Ok owned →
  informer_ListOrphans ix namespace = Ok orphans →
  ∃ scan, scan ≡ₚ filter (λ o, namespace = "" ∨ GetNamespace o = namespace) (ix_objects ix) ∧
    ClaimChildren m (owned ++ orphans) w = ClaimChildren m scan w.
Proof using All.
  intros Hix H1 H2. set (uid := GetUID _) in *.
  set (all := filter (λ o, namespace = "" ∨ GetNamespace o = namespace) (ix_objects ix)).
  pose proof (lookups_candidates ix uid namespace owned orphans Hix H1 H2) as Hperm. fold all in Hperm.
  exists ((owned ++ orphans) ++ filter (λ o, ¬ candidate uid o) all). split.
  - rewrite Hperm. apply filter_app_complement.
  - rewrite <-(ClaimChildren_candidates m (owned ++ orphans)), <-(ClaimChildren_candidates m ((owned ++ orphans) ++ _)).
    rewrite (filter_app _ (owned ++ orphans)). fold uid. by rewrite filter_complement, app_nil_r.
Qed.
End index_properties.

(** ** The factory's life *)
Section factory_properties.
Context {API : Apimachinery}.
Variable AddEventHandler : res unit.
Implicit Types (f : SharedInformerFactory) (open : list ResourceInformer) (ri : ResourceInformer).

(** The factory, and the subscriptions its users have not closed yet; a user
    closes each subscription once. *)
Inductive factory_step : SharedInformerFactory * list ResourceInformer →
    SharedInformerFactory * list ResourceInformer → Prop :=
  | step_subscribe f open apiVersion resource ri f' :
    factory_Resource AddEventHandler apiVersion resource f = (Ok ri, f') →
    factory_step (f, open) (f', ri :: open)
  | step_refused f open apiVersion resource e f' :
    factory_Resource AddEventHandler apiVersion resource f = (Err e, f') →
    factory_step (f, open) (f', open)
  | step_close f open1 ri open2 f' :
    ri_Close ri f = (Ok (), f') →
    factory_step (f, open1 ++ ri :: open2) (f', open1 ++ open2).

Definition subscribers (key : string) (open : list ResourceInformer) : nat :=
  length (filter (λ ri, ri_key ri = key) open).

Record factory_ok f open : Prop := {
  ok_count key : default 0%Z (f_refCount f !! key) = Z.of_nat (subscribers key open);
  ok_open ri : ri ∈ open → f_sharedInformers f !! ri_key ri = Some (ri_informer ri);
  ok_shared key i : f_sharedInformers f !! key = Some i → 0 < subscribers key open ∧ i ∈ f_running f;
  ok_inj key1 key2 i :
    f_sharedInformers f !! key1 = Some i → f_sharedInformers f !! key2 = Some i → key1 = key2;
  ok_running i : i ∈ f_running f → i < f_next f ∧ ∃ key, f_sharedInformers f !! key = Some i;
  ok_handlers i : i ∈ f_running f → is_Some (f_handlers f !! i);
  ok_wrappers : NoDup (ri_wrapper <$> open);
  ok_wrapper ri : ri ∈ open → ri_wrapper ri < f_next f;
}.

Lemma subscribers_cons key ri open :
  subscribers key (ri :: open) = (if decide (ri_key ri = key) then 1 else 0) + subscribers key open.
Proof. unfold subscribers. rewrite filter_cons. by case_decide. Qed.

Lemma subscribers_app key open1 open2 :
  subscribers key (open1 ++ open2) = subscribers key open1 + subscribers key open2.
Proof. unfold subscribers. by rewrite filter_app, length_app. Qed.

Lemma subscribers_pos key open : 0 < subscribers key open ↔ ∃ ri, ri ∈ open ∧ ri_key ri = key.
Proof.
  unfold subscribers. rewrite <-Nat.neq_0_lt_0, length_zero_iff_nil. split.
  - intros H. destruct (filter _ open) as [|ri l] eqn:E; [done|]. exists ri.
    assert (Hin : ri ∈ filter (λ ri, ri_key ri = key) open) by (rewrite E; by left).
    apply list_elem_of_filter in Hin. naive_solver.
  - intros (ri & Hin & Hk) E. assert (H : ri ∈ filter (λ ri, ri_key ri = key) open) by (by apply list_elem_of_filter).
    rewrite E in H. by apply not_elem_of_nil in H.
Qed.

(** A key without an informer has no subscribers. *)
Lemma ok_unshared f open key :
  factory_ok f open → f_sharedInformers f !! key = None → subscribers key open = 0.
Proof.
  intros Hok Hnone. destruct (subscribers key open) as [|n] eqn:E; [done|]. exfalso.
  assert (H : 0 < subscribers key open) by lia. apply subscribers_pos in H as (ri & Hin & <-).
  by rewrite (ok_open f open Hok ri Hin) in Hnone.
Qed.

Lemma factory_ok_subscribe f open apiVersion resource ri f' :
  factory_ok f open → factory_Resource AddEventHandler apiVersion resource f = (Ok ri, f') →
  factory_ok f' (ri :: open).
Proof.
  intros Hok. unfold factory_Resource. set (key := resourceKey apiVersion resource).
  assert (Hfresh : ∀ key i, NoDup (ri_wrapper <$> {| ri_key := key; ri_informer := i; ri_wrapper := f_next f |} :: open) ∧
    ∀ r, r ∈ {| ri_key := key; ri_informer := i; ri_wrapper := f_next f |} :: open → ri_wrapper r < S (f_next f)).
  { intros k i. split.
    - simpl. apply NoDup_cons. split; [|apply (ok_wrappers f open Hok)].
      intros (r & Hw & Hr)%list_elem_of_fmap. apply (ok_wrapper f open Hok) in Hr. lia.
    - intros r [->|Hr]%elem_of_cons; simpl; [lia|]. apply (ok_wrapper f open Hok) in Hr. lia. }
  destruct (f_sharedInformers f !! key) as [i|] eqn:Hi.
  - intros [= <- <-]. split; simpl.
    + intros k. rewrite subscribers_cons. simpl. case_decide as Hk.
      * subst k. rewrite lookup_insert_eq. simpl. rewrite (ok_count f open Hok). lia.
      * rewrite lookup_insert_ne by done. apply (ok_count f open Hok).
    + intros r [->|Hr]%elem_of_cons; [done|]. by apply (ok_open f open Hok).
    + intros k j Hj. destruct (ok_shared f open Hok k j Hj). rewrite subscribers_cons. split; [lia|done].
    + apply (ok_inj f open Hok).
    + intros j Hj. destruct (ok_running f open Hok j Hj). split; [lia|done].
    + apply (ok_handlers f open Hok).
    + exact (proj1 (Hfresh key 0)).
    + exact (proj2 (Hfresh _ _)).
  - destruct (wrap_err _ _) as [u|e|s]; [|done..]. intros [= <- <-].
    pose proof (ok_unshared f open key Hok Hi) as Hzero. split; simpl.
    + intros k. rewrite subscribers_cons. simpl. case_decide as Hk.
      * subst k. rewrite lookup_insert_eq, Hzero. done.
      * rewrite lookup_insert_ne by done. apply (ok_count f open Hok).
    + intros r [->|Hr]%elem_of_cons; [by rewrite lookup_insert_eq|].
      rewrite lookup_insert_ne; [by apply (ok_open f open Hok)|].
      intros Hk. pose proof (ok_open f open Hok r Hr). congruence.
    + intros k j Hj. rewrite subscribers_cons. simpl. apply lookup_insert_Some in Hj as [[<- <-]|[Hne Hj]].
      * rewrite decide_True by done. split; [lia|set_solver].
      * destruct (ok_shared f open Hok k j Hj). split; [lia|set_solver].
    + intros k1 k2 j H1 H2. apply lookup_insert_Some in H1 as [[<- <-]|[? H1]];
        apply lookup_insert_Some in H2 as [[<- Hj]|[? H2]]; try done.
      * destruct (ok_shared f open Hok _ _ H2) as [_ Hr]. apply (ok_running f open Hok) in Hr. lia.
      * subst j. destruct (ok_shared f open Hok _ _ H1) as [_ Hr]. apply (ok_running f open Hok) in Hr. lia.
      * by apply (ok_inj f open Hok k1 k2 j).
    + intros j [->%elem_of_singleton|Hj]%elem_of_union.
      * split; [lia|]. exists key. by rewrite lookup_insert_eq.
      * apply (ok_running f open Hok) in Hj as [Hlt [k Hk]]. split; [lia|]. exists k.
        rewrite lookup_insert_ne; [done|]. intros ->. congruence.
    + intros j [->%elem_of_singleton|Hj]%elem_of_union; [by rewrite lookup_insert_eq|].
      rewrite lookup_insert_is_Some'. right. by apply (ok_handlers f open Hok).
    + exact (proj1 (Hfresh key 0)).
    + exact (proj2 (Hfresh _ _)).
Qed.

Lemma factory_ok_close f open1 ri open2 :
  factory_ok f (open1 ++ ri :: open2) →
  ∃ f', ri_Close ri f = (Ok (), f') ∧ factory_ok f' (open1 ++ open2).
Proof.
  intros Hok. set (open := open1 ++ ri :: open2) in *.
  assert (Hri : ri ∈ open) by set_solver.
  pose proof (ok_open f open Hok ri Hri) as Hi.
  destruct (ok_shared f open Hok _ _ Hi) as [Hpos Hrun].
  assert (Hsub : ∀ k, subscribers k open = (if decide (ri_key ri = k) then 1 else 0) + subscribers k (open1 ++ open2)).
  { intros k. unfold open. rewrite !subscribers_app, subscribers_cons. lia. }
  assert (Hrest : ∀ r, r ∈ open1 ++ open2 → r ∈ open) by (unfold open; set_solver).
  assert (Hwrap : NoDup (ri_wrapper <$> open1 ++ open2) ∧ ∀ r, r ∈ open1 ++ open2 → ri_wrapper r < f_next f).
  { split; [|intros r Hr; by apply (ok_wrapper f open Hok), Hrest]. pose proof (ok_wrappers f open Hok) as Hn.
    unfold open in Hn. rewrite <-Permutation_middle in Hn. by apply NoDup_cons in Hn as [_ Hn]. }
  unfold ri_Close. rewrite (ok_count f open Hok).
  destruct (Z.ltb_spec 0 (Z.of_nat (subscribers (ri_key ri) open) - 1)) as [Hlt|Hle].
  - eexists. split; [done|]. split; simpl.
    + intros k. destruct (decide (ri_key ri = k)) as [<-|Hne].
      * rewrite lookup_insert_eq. simpl. specialize (Hsub (ri_key ri)). rewrite decide_True in Hsub by done. lia.
      * rewrite lookup_insert_ne by done. rewrite (ok_count f open Hok), Hsub, decide_False by done. done.
    + intros r Hr. by apply (ok_open f open Hok), Hrest.
    + intros k j Hj. destruct (ok_shared f open Hok k j Hj) as [Hp ?]. split; [|done].
      specialize (Hsub k). case_decide; [subst k|]; lia.
    + apply (ok_inj f open Hok).
    + apply (ok_running f open Hok).
    + apply (ok_handlers f open Hok).
    + apply Hwrap.
    + apply Hwrap.
  - rewrite bool_decide_true by done. eexists. split; [done|].
    assert (Hlast : subscribers (ri_key ri) (open1 ++ open2) = 0).
    { specialize (Hsub (ri_key ri)). rewrite decide_True in Hsub by done. lia. }
    split; simpl.
    + intros k. destruct (decide (ri_key ri = k)) as [<-|Hne].
      * by rewrite lookup_delete_eq, Hlast.
      * rewrite lookup_delete_ne by done. rewrite (ok_count f open Hok), Hsub, decide_False by done. done.
    + intros r Hr. rewrite lookup_delete_ne; [by apply (ok_open f open Hok), Hrest|].
      intros Hk. assert (0 < subscribers (ri_key ri) (open1 ++ open2)) by (apply subscribers_pos; by exists r). lia.
    + intros k j [Hne Hj]%lookup_delete_Some. destruct (ok_shared f open Hok k j Hj) as [Hp Hr].
      specialize (Hsub k). rewrite decide_False in Hsub by done. split; [lia|].
      apply elem_of_difference. split; [done|]. intros ->%elem_of_singleton. apply Hne.
      by apply (ok_inj f open Hok _ _ (ri_informer ri)).
    + intros k1 k2 j [_ H1]%lookup_delete_Some [_ H2]%lookup_delete_Some. by apply (ok_inj f open Hok k1 k2 j).
    + intros j [Hj Hne]%elem_of_difference. apply (ok_running f open Hok) in Hj as [Hlt [k Hk]].
      split; [done|]. exists k. rewrite lookup_delete_ne; [done|]. intros <-. apply Hne. apply elem_of_singleton. congruence.
    + intros j [Hj _]%elem_of_difference. by apply (ok_handlers f open Hok).
    + apply Hwrap.
    + apply Hwrap.
Qed.

Lemma subscribers_perm key open open' : open ≡ₚ open' → subscribers key open = subscribers key open'.
Proof. intros Hp. unfold subscribers. by rewrite Hp. Qed.

(** The order of the subscriptions does not matter. *)
#[global] Instance factory_ok_proper f : Proper ((≡ₚ) ==> iff) (factory_ok f).
Proof.
  assert (∀ open open', open ≡ₚ open' → factory_ok f open → factory_ok f open') as Himp.
  { intros open open' Hp [H1 H2 H3 H4 H5 H6 H7 H8]. split; try done.
    - intros key. by rewrite <-(subscribers_perm key open open' Hp).
    - intros ri. rewrite <-Hp. apply H2.
    - intros key i. rewrite <-(subscribers_perm key open open' Hp). apply H3.
    - by rewrite <-Hp.
    - intros ri. rewrite <-Hp. apply H8. }
  intros open open' Hp. split; apply Himp; by rewrite Hp.
Qed.

Lemma factory_Resource_Err f apiVersion resource e f' :
  factory_Resource AddEventHandler apiVersion resource f = (Err e, f') → f' = f.
Proof.
  unfold factory_Resource. destruct (f_sharedInformers f !! _); [done|].
  destruct (wrap_err _ _); by intros [= _ <-].
Qed.

Lemma factory_Resource_key f apiVersion resource ri f' :
  factory_Resource AddEventHandler apiVersion resource f = (Ok ri, f') → ri_key ri = resourceKey apiVersion resource.
Proof.
  unfold factory_Resource. destruct (f_sharedInformers f !! _); [by intros [= <- _]|].
  destruct (wrap_err _ _); [by intros [= <- _]|done..].
Qed.

Lemma factory_ok_step s s' : factory_step s s' → factory_ok s.1 s.2 → factory_ok s'.1 s'.2.
Proof.
  intros [f open av r ri f' H|f open av r e f' H|f open1 ri open2 f' H] Hok; simpl in *.
  - by eapply factory_ok_subscribe.
  - by apply factory_Resource_Err in H as ->.
  - destruct (factory_ok_close f open1 ri open2 Hok) as (f'' & H' & Hok').
    rewrite H in H'. by injection H' as ->.
Qed.

Lemma factory_ok_new clientset defaultResync : factory_ok (NewSharedInformerFactory clientset defaultResync) [].
Proof. split; simpl; try done; [set_solver..|apply NoDup_nil_2|set_solver]. Qed.

Lemma factory_ok_reachable clientset defaultResync s :
  rtc factory_step (NewSharedInformerFactory clientset defaultResync, []) s → factory_ok s.1 s.2.
Proof.
  intros H. pose proof (factory_ok_new clientset defaultResync) as Hok.
  change (factory_ok (NewSharedInformerFactory clientset defaultResync, @nil ResourceInformer).1
    (NewSharedInformerFactory clientset defaultResync, @nil ResourceInformer).2) in Hok.
  induction H as [s|s1 s2 s3 Hstep _ IH]; [done|]. apply IH. by eapply factory_ok_step.
Qed.

(** *** Handlers

    The handlers of a subscription, and the condition that only these
    subscriptions have any. *)
Definition listeners f (ri : ResourceInformer) : list eventHandler :=
  match f_handlers f !! ri_informer ri with
  | Some seh => default [] (seh_handlers seh !! ri_wrapper ri)
  | None => []
  end.
Definition only_heard f (heard : list ResourceInformer) : Prop :=
  ∀ i iw seh handlers, f_handlers f !! i = Some seh → seh_handlers seh !! iw = Some handlers →
    ∃ ri, ri ∈ heard ∧ ri_informer ri = i ∧ ri_wrapper ri = iw.

#[global] Instance only_heard_proper f : Proper ((≡ₚ) ==> iff) (only_heard f).
Proof. intros l l' Hl. unfold only_heard. by setoid_rewrite Hl. Qed.

Lemma only_heard_subscribe f heard apiVersion resource ri f' :
  only_heard f heard → factory_Resource AddEventHandler apiVersion resource f = (Ok ri, f') → only_heard f' heard.
Proof.
  intros Hh. unfold factory_Resource. destruct (f_sharedInformers f !! _); [by intros [= _ <-]|].
  destruct (wrap_err _ _); [|done..]. intros [= _ <-] i iw seh handlers. simpl.
  intros [[_ <-]|[_ Hi]]%lookup_insert_Some; [by intros H|]. by apply Hh.
Qed.

Lemma ri_Close_handlers ri f r f' : ri_Close ri f = (r, f') → f_handlers f' = f_handlers f.
Proof. unfold ri_Close. repeat case_match; by intros [= _ <-]. Qed.

Lemma factory_ok_set_handlers f open i seh :
  factory_ok f open → factory_ok (set_handlers (<[i := seh]> (f_handlers f)) f) open.
Proof.
  intros [H1 H2 H3 H4 H5 H6 H7 H8]. split; try done. intros j Hj. simpl. rewrite lookup_insert_is_Some'. right. by apply H6.
Qed.

Lemma open_handlers f open ri : factory_ok f open → ri ∈ open → is_Some (f_handlers f !! ri_informer ri).
Proof.
  intros Hok Hri. apply (ok_handlers f open Hok). by apply (ok_shared f open Hok (ri_key ri)), (ok_open f open Hok).
Qed.

Lemma AddEventHandler_ok f open heard ri cached handler resyncPeriod :
  factory_ok f open → only_heard f heard → ri ∈ open →
  ∃ seh f', AddEventHandlerWithResyncPeriod ri cached handler resyncPeriod f =
      (Ok ((λ obj, (handler, OnUpdate true (Live obj) (Live obj))) <$> cached), f') ∧
    f_handlers f !! ri_informer ri = Some seh ∧
    f_handlers f' = <[ri_informer ri := (addHandler seh cached (ri_wrapper ri) handler resyncPeriod).1]> (f_handlers f) ∧
    factory_ok f' open ∧ only_heard f' (ri :: heard).
Proof.
  intros Hok Hh Hri. destruct (open_handlers f open ri Hok Hri) as [seh Hseh].
  exists seh. unfold AddEventHandlerWithResyncPeriod. rewrite Hseh. simpl. eexists. split; [done|]. split; [done|]. split; [done|].
  split; [by apply factory_ok_set_handlers|]. intros i iw seh' handlers. simpl.
  intros [[<- <-]|[_ Hi]]%lookup_insert_Some; simpl.
  - intros [[<- _]|[_ H]]%lookup_insert_Some; [exists ri; by split; [left|]|].
    destruct (Hh _ _ _ _ Hseh H) as (ri' & Hin & H'). exists ri'. split; [by right|done].
  - intros H. destruct (Hh _ _ _ _ Hi H) as (ri' & Hin & H'). exists ri'. split; [by right|done].
Qed.

Lemma RemoveEventHandlers_ok f open heard ri :
  factory_ok f open → only_heard f (ri :: heard) → ri ∈ open →
  ∃ f', RemoveEventHandlers ri f = (Ok (), f') ∧ factory_ok f' open ∧ only_heard f' heard.
Proof.
  intros Hok Hh Hri. destruct (open_handlers f open ri Hok Hri) as [seh Hseh].
  unfold RemoveEventHandlers. rewrite Hseh. eexists. split; [done|]. split; [by apply factory_ok_set_handlers|].
  intros i iw seh' handlers. simpl. intros [[<- <-]|[Hne Hi]]%lookup_insert_Some; simpl.
  - intros [Hne H]%lookup_delete_Some. destruct (Hh _ _ _ _ Hseh H) as (ri' & [->|Hin]%elem_of_cons & H1 & H2); [done|eauto].
  - intros H. destruct (Hh _ _ _ _ Hi H) as (ri' & [->|Hin]%elem_of_cons & H1 & H2); [done|eauto].
Qed.

Lemma only_heard_new clientset defaultResync : only_heard (NewSharedInformerFactory clientset defaultResync) [].
Proof. by intros i iw seh handlers. Qed.

(** Both conditions, and the operations as triples. *)
Definition factory_holds (open heard : list ResourceInformer) f : Prop := factory_ok f open ∧ only_heard f heard.
#[global] Instance factory_holds_proper : Proper ((≡ₚ) ==> (≡ₚ) ==> (=) ==> iff) factory_holds.
Proof. intros l1 l1' H1 l2 l2' H2 f f' <-. unfold factory_holds. by rewrite H1, H2. Qed.

Lemma factory_Resource_holds open heard apiVersion resource :
  hoare (factory_holds open heard) (factory_Resource AddEventHandler apiVersion resource)
    (λ ri f, ri_key ri = resourceKey apiVersion resource ∧ factory_holds (ri :: open) heard f) (factory_holds open heard).
Proof.
  intros f [Hok Hh]. destruct (factory_Resource AddEventHandler apiVersion resource f) as [[ri|e|s] f'] eqn:E; [| |done].
  - split; [by apply factory_Resource_key in E|].
    split; [exact (factory_ok_subscribe _ _ _ _ _ _ Hok E)|exact (only_heard_subscribe _ _ _ _ _ _ Hh E)].
  - by apply factory_Resource_Err in E as ->.
Qed.

Lemma ri_Close_holds open heard ri :
  total (factory_holds (ri :: open) heard) (ri_Close ri) (λ _, factory_holds open heard).
Proof.
  intros f [Hok Hh]. destruct (factory_ok_close f [] ri open Hok) as (f' & E & Hok'). exists (), f'.
  split; [done|]. split; [done|]. unfold only_heard. by rewrite (ri_Close_handlers _ _ _ _ E).
Qed.

Lemma AddEventHandler_holds open heard ri cached handler resyncPeriod :
  ri ∈ open →
  total (factory_holds open heard) (AddEventHandlerWithResyncPeriod ri cached handler resyncPeriod)
    (λ sent f, sent = ((λ obj, (handler, OnUpdate true (Live obj) (Live obj))) <$> cached) ∧
       factory_holds open (ri :: heard) f).
Proof.
  intros Hri f [Hok Hh].
  destruct (AddEventHandler_ok f open heard ri cached handler resyncPeriod Hok Hh Hri) as (seh & f' & E & _ & _ & H1 & H2).
  by eexists _, f'.
Qed.

Lemma iw_AddEventHandler_holds open heard ri cached handler :
  ri ∈ open →
  total (factory_holds open heard) (iw_AddEventHandler ri cached handler)
    (λ sent f, sent = ((λ obj, (handler, OnUpdate true (Live obj) (Live obj))) <$> cached) ∧
       factory_holds open (ri :: heard) f).
Proof. intros Hri f. by apply AddEventHandler_holds. Qed.

Lemma RemoveEventHandlers_holds open heard ri :
  ri ∈ open →
  total (factory_holds open (ri :: heard)) (RemoveEventHandlers ri) (λ _, factory_holds open heard).
Proof.
  intros Hri f [Hok Hh]. destruct (RemoveEventHandlers_ok f open heard ri Hok Hh Hri) as (f' & E & H1 & H2).
  by exists (), f'.
Qed.

Lemma factory_holds_new clientset defaultResync : factory_holds [] [] (NewSharedInformerFactory clientset defaultResync).
Proof. split; [apply factory_ok_new|apply only_heard_new]. Qed.

(** *** The contract: a set of subscriptions

    What the factory promises: a multiset of keys, one for each subscription;
    a key is watched as long as somebody subscribes to it. *)
Inductive subscription_step : gmultiset string → gmultiset string → Prop :=
  | spec_subscribe S key : subscription_step S ({[+ key +]} ⊎ S)
  | spec_refused S : subscription_step S S
  | spec_close S key : subscription_step ({[+ key +]} ⊎ S) S.

Definition subscriptions (open : list ResourceInformer) : gmultiset string := list_to_set_disj (ri_key <$> open).

(** The informer of this key runs. *)
Definition watched f (key : string) (i : nat) : Prop := f_sharedInformers f !! key = Some i ∧ i ∈ f_running f.

Lemma subscriptions_close open1 ri open2 :
  subscriptions (open1 ++ ri :: open2) = {[+ ri_key ri +]} ⊎ subscriptions (open1 ++ open2).
Proof.
  unfold subscriptions. rewrite !fmap_app, fmap_cons, !list_to_set_disj_app, list_to_set_disj_cons.
  by rewrite (assoc_L (⊎)), (comm_L (⊎) (list_to_set_disj _) {[+ _ +]}), <-(assoc_L (⊎)).
Qed.

Lemma factory_step_refines s s' :
  factory_step s s' → subscription_step (subscriptions s.2) (subscriptions s'.2).
Proof.
  intros [f open av r ri f' H|f open av r e f' H|f open1 ri open2 f' H]; simpl.
  - apply spec_subscribe.
  - apply spec_refused.
  - rewrite subscriptions_close. apply spec_close.
Qed.

(** C27: the factory implements its contract: every history of subscribing and
    closing is one of a multiset of subscriptions; a key has a running
    informer exactly when somebody subscribes to it, every subscription is to
    that one informer, no other informer runs, and closing an open
    subscription never panics. *)
Theorem factory_refines clientset defaultResync f open :
  rtc factory_step (NewSharedInformerFactory clientset defaultResync, []) (f, open) →
  rtc subscription_step ∅ (subscriptions open) ∧
  (∀ key, (∃ i, watched f key i) ↔ key ∈ subscriptions open) ∧
  (∀ ri, ri ∈ open → watched f (ri_key ri) (ri_informer ri)) ∧
  (∀ i, i ∈ f_running f → ∃ key, watched f key i) ∧
  (∀ ri, ri ∈ open → ∃ f', ri_Close ri f = (Ok (), f')).
Proof.
  intros Hreach. pose proof (factory_ok_reachable _ _ _ Hreach) as Hok. simpl in Hok.
  assert (Hopen : ∀ ri, ri ∈ open → watched f (ri_key ri) (ri_informer ri)).
  { intros ri Hri. pose proof (ok_open f open Hok ri Hri) as Hi. split; [done|]. by apply (ok_shared f open Hok _ _ Hi). }
  split_and!; [| |done| |].
  - change ∅ with (subscriptions (@nil ResourceInformer)).
    change (subscriptions open) with (subscriptions (f, open).2).
    change (subscriptions []) with (subscriptions (NewSharedInformerFactory clientset defaultResync, @nil ResourceInformer).2).
    apply (rtc_congruence (λ s, subscriptions s.2) (R:=factory_step)); [|done]. apply factory_step_refines.
  - intros key. unfold subscriptions. rewrite elem_of_list_to_set_disj, list_elem_of_fmap. split.
    + intros (i & Hi & _). apply (ok_shared f open Hok) in Hi as [Hpos _].
      apply subscribers_pos in Hpos as (ri & Hin & <-). by exists ri.
    + intros (ri & -> & Hin). eauto.
  - intros i Hi. pose proof Hi as Hr. apply (ok_running f open Hok) in Hi as [_ [key Hk]]. by exists key.
  - intros ri Hri. apply list_elem_of_split in Hri as (open1 & open2 & ->).
    destruct (factory_ok_close f open1 ri open2 Hok) as (f' & H & _). by exists f'.
Qed.
End factory_properties.

(** ** Handlers come and go *)
Section handler_properties.
Context {RT : GoRuntime}.

(** What a group of handlers is told. *)
Definition told (n : notification) (handlers : list eventHandler) : list delivery :=
  (λ eh, (eh_handler eh, n)) <$> handlers.

Lemma broadcast_groups seh n :
  broadcast seh n ≡ₚ map_to_list (seh_handlers seh) ≫= (λ '(_, handlers), told n handlers).
Proof. unfold broadcast. by rewrite (range_perm (seh_handlers seh)). Qed.

Lemma broadcast_delete seh iw n :
  broadcast seh n ≡ₚ told n (default [] (seh_handlers seh !! iw)) ++ broadcast (removeHandlers seh iw) n.
Proof.
  rewrite !broadcast_groups. simpl. destruct (seh_handlers seh !! iw) as [l|] eqn:Hl; simpl.
  - by rewrite <-(map_to_list_delete _ _ _ Hl).
  - by rewrite delete_id.
Qed.

(** A new handler hears every later event once, beside the ones that were
    there, and first of all an update of every cached object by itself; once
    a subscription removes its handlers they hear nothing any more, and the
    handlers of all others hear what they heard before. *)
Theorem handlers_spec seh cached iw handler resyncPeriod n :
  let '(seh', initial) := addHandler seh cached iw handler resyncPeriod in
  broadcast seh' n ≡ₚ (handler, n) :: broadcast seh n ∧
  initial = (λ obj, (handler, OnUpdate true (Live obj) (Live obj))) <$> cached ∧
  broadcast (removeHandlers seh' iw) n = broadcast (removeHandlers seh iw) n ∧
  broadcast seh n ≡ₚ told n (default [] (seh_handlers seh !! iw)) ++ broadcast (removeHandlers seh iw) n.
Proof.
  simpl. set (eh := {| eh_handler := handler; eh_timer := _ |}).
  assert (Hrm : removeHandlers {| seh_relistPeriod := seh_relistPeriod seh;
      seh_handlers := <[iw := default [] (seh_handlers seh !! iw) ++ [eh]]> (seh_handlers seh) |} iw =
    removeHandlers seh iw).
  { unfold removeHandlers. simpl. by rewrite delete_insert_eq. }
  split_and!; [|done|by rewrite Hrm|apply broadcast_delete].
  rewrite (broadcast_delete _ iw), Hrm. simpl. rewrite lookup_insert_eq. simpl.
  unfold told at 1. rewrite fmap_app. fold (told n (default [] (seh_handlers seh !! iw))). simpl.
  rewrite (broadcast_delete seh iw). rewrite <-app_assoc. simpl. by rewrite <-Permutation_middle.
Qed.
End handler_properties.

(** ** A concrete cache and factory *)
Section examples.
#[local] Existing Instance treeAPI.
#[local] Existing Instance listRuntime.
#[local] Existing Instance fakeCluster.
#[local] Existing Instance fakeRetry.

Definition list_indexer (l : list object) : Indexer := {|
  ix_objects := l;
  ByIndex := λ indexName key,
    match index_func indexName with
    | Some f => Ok (filter (λ o, key ∈ f o) l)
    | None => Err (ErrorString ("Index with name " +:+ indexName +:+ " does not exist"))
    end;
|}.
#[local] Instance list_indexer_law l : IndexerLaw (list_indexer l).
Proof. split. intros indexName key f Hf. simpl. rewrite Hf. by eexists. Qed.

Definition cached_things : list object := [labelled "a" "uid-a"; labelled "b" "uid-b"].
Definition things_manager : UnstructuredManager := {|
  um_base := {| crm_Controller := live_parent; crm_Selector := demo_selector; crm_CanAdoptFunc := None |};
  um_parentKind := {| gvk_Group := "demo.io"; gvk_Version := "v1"; gvk_Kind := "Parent" |};
  um_childKind := {| gvk_Group := "demo.io"; gvk_Version := "v1"; gvk_Kind := "Thing" |};
  um_client := configmaps_client |}.

Lemma indexed_claim_equiv_witness :
  match informer_ListByOwnerUID (list_indexer cached_things) (GetUID live_parent) "",
        informer_ListOrphans (list_indexer cached_things) "" with
  | Ok owned, Ok orphans =>
    length orphans = 2 ∧
    ∃ scan, scan ≡ₚ filter (λ o, "" = "" ∨ GetNamespace o = "") cached_things ∧
      ClaimChildren things_manager (owned ++ orphans) things_world = ClaimChildren things_manager scan things_world
  | _, _ => False
  end.
Proof.
  assert (Hrun : match informer_ListByOwnerUID (list_indexer cached_things) (GetUID live_parent) "",
      informer_ListOrphans (list_indexer cached_things) "" with
    | Ok owned, Ok orphans => (length orphans =? 2)%nat | _, _ => false end = true) by (vm_compute; reflexivity).
  destruct (informer_ListByOwnerUID (list_indexer cached_things) (GetUID live_parent) "") as [owned|e|s] eqn:E1;
    [|discriminate..].
  destruct (informer_ListOrphans (list_indexer cached_things) "") as [orphans|e|s] eqn:E2; [|discriminate..].
  split; [by apply Nat.eqb_eq|].
  exact (indexed_claim_equiv (list_indexer cached_things) things_manager "" owned orphans things_world
    (list_indexer_law cached_things) E1 E2).
Defined.

Definition demo_clientset : Clientset :=
  {| cs_resources := {| rm_groupVersions := Some {[ "demo.io/v1" := things_group ]} |} |}.
Definition subscribed : res ResourceInformer * SharedInformerFactory :=
  factory_Resource (Ok ()) "demo.io/v1" "things" (NewSharedInformerFactory demo_clientset 0).

Lemma factory_refines_witness :
  match subscribed with
  | (Ok ri, f) => watched f (ri_key ri) (ri_informer ri) ∧ ∃ f', ri_Close ri f = (Ok (), f')
  | _ => False
  end.
Proof.
  assert (Hrun : is_Ok subscribed.1 = true) by (vm_compute; reflexivity).
  destruct subscribed as [[ri|e|s] f] eqn:E; [|discriminate..].
  destruct (factory_refines (Ok ()) demo_clientset 0 f [ri]) as (_ & _ & Hw & _ & Hclose).
  - apply rtc_once, (step_subscribe _ _ _ _ _ _ _ E).
  - split; [apply Hw; by left|apply Hclose; by left].
Defined.
End examples.
