(* ===== verification/Resync.v ===== *)
(** * The goroutines behind a shared informer: [sharedEventHandler] and the resync
      timers of [pkg/dynamic/informer/informer.go]

    [Informer] has what adding and removing handlers and notifying them does
    when one call follows the other.  Here they overlap: the informer notifies
    from its own goroutine, holding the mutex for reading; [addHandler] and
    [removeHandlers] hold it for writing, the second while it waits for the
    timers of the handlers to end; and a timer calls its handler without the
    mutex.  The model is a step relation, a step of the code or of its
    environment.  A call of a handler is one step: what the controllers register
    enqueues keys, and does not come back to this mutex. *)
From S2P Require Import Prelude Value K8s Types World Informer.
From stdpp Require Import options.

(** ** The state *)

(** A handler in the map; the number stands for the pointer. *)
Record entry := { e_id : nat; e_handler : eventHandler }.

(** The goroutine of [start]: in its [select], or in [resync] with so many
    objects to go, or ended, with [doneCh] closed.  And whether [stopCh] is closed. *)
Inductive timer_state := Selecting | Resyncing (left : nat) | Finished.
#[global] Instance timer_state_eq_dec : EqDecision timer_state.
Proof. solve_decision. Defined.
Record timer := { t_state : timer_state; t_stopped : bool }.

(** Who holds the mutex for writing: [addHandler] in its [resync];
    [removeHandlers] about to stop the next handler, or waiting for its [doneCh]. *)
Inductive writer :=
  | Adding (e : entry) (left : nat)
  | Removing (iw : nat) (todo : list entry)
  | Joining (iw : nat) (e : entry) (todo : list entry).

(** The goroutine of the informer: without a notification, in front of
    [RLock], or with the mutex and so many handlers to go. *)
Inductive broadcaster := Silent | Locking | Notifying (todo : list nat).

(** Calls in front of [Lock]. *)
Inductive request := Add (iw h : nat) (handler : string) (resyncPeriod : Z) | Remove (iw : nat).

Record hub := {
  h_cached : nat;
  h_handlers : gmap nat (list entry);
  h_writer : option writer;
  h_waiting : list request;
  h_broadcaster : broadcaster;
  h_timers : gmap nat timer;
  h_next : nat;
  (** to whom something was delivered, the latest first *)
  h_log : list nat;
}.
Definition set_lock (handlers : gmap nat (list entry)) (w : option writer) (waiting : list request) (s : hub) : hub :=
  {| h_cached := h_cached s; h_handlers := handlers; h_writer := w; h_waiting := waiting;
     h_broadcaster := h_broadcaster s; h_timers := h_timers s; h_next := h_next s; h_log := h_log s |}.
Definition set_writer (w : option writer) (s : hub) : hub := set_lock (h_handlers s) w (h_waiting s) s.
Definition set_timers (timers : gmap nat timer) (s : hub) : hub :=
  {| h_cached := h_cached s; h_handlers := h_handlers s; h_writer := h_writer s; h_waiting := h_waiting s;
     h_broadcaster := h_broadcaster s; h_timers := timers; h_next := h_next s; h_log := h_log s |}.
Definition set_broadcaster (b : broadcaster) (s : hub) : hub :=
  {| h_cached := h_cached s; h_handlers := h_handlers s; h_writer := h_writer s; h_waiting := h_waiting s;
     h_broadcaster := b; h_timers := h_timers s; h_next := h_next s; h_log := h_log s |}.
Definition deliver (h : nat) (s : hub) : hub :=
  {| h_cached := h_cached s; h_handlers := h_handlers s; h_writer := h_writer s; h_waiting := h_waiting s;
     h_broadcaster := h_broadcaster s; h_timers := h_timers s; h_next := h_next s; h_log := h :: h_log s |}.

(** [resync] goes through the cache, or finds that it can't be listed. *)
Definition resync_size (s : hub) (n : nat) : Prop := n = h_cached s ∨ n = 0.
(** A handler with a period of its own has a timer. *)
Definition timer_of (e : entry) (timers : gmap nat timer) : gmap nat timer :=
  match eh_timer (e_handler e) with
  | Some _ => <[e_id e := {| t_state := Selecting; t_stopped := false |}]> timers
  | None => timers
  end.

Section steps.
Context {RT : GoRuntime}.
Variable relistPeriod : Z.
Definition new_entry (h : nat) (handler : string) (resyncPeriod : Z) : entry := {|
  e_id := h;
  e_handler := {| eh_handler := handler; eh_timer := if (resyncPeriod <? relistPeriod)%Z then Some resyncPeriod else None |} |}.

(** ** The steps of the code *)
Inductive code_step : hub → hub → Prop :=
  (** [addHandler] *)
  | add_locks s l1 iw h handler resyncPeriod l2 n :
    h_waiting s = l1 ++ Add iw h handler resyncPeriod :: l2 → h_writer s = None → (∀ l, h_broadcaster s ≠ Notifying l) →
    resync_size s n →
    let e := new_entry h handler resyncPeriod in
    code_step s (set_lock (<[iw := default [] (h_handlers s !! iw) ++ [e]]> (h_handlers s)) (Some (Adding e n)) (l1 ++ l2) s)
  | add_resyncs s e n :
    h_writer s = Some (Adding e (S n)) → code_step s (deliver (e_id e) (set_writer (Some (Adding e n)) s))
  | add_returns s e :
    h_writer s = Some (Adding e 0) → code_step s (set_timers (timer_of e (h_timers s)) (set_writer None s))
  (** [removeHandlers]; [stop] does something once, for a timer that was started *)
  | remove_locks s l1 iw l2 :
    h_waiting s = l1 ++ Remove iw :: l2 → h_writer s = None → (∀ l, h_broadcaster s ≠ Notifying l) →
    code_step s (set_lock (h_handlers s) (Some (Removing iw (default [] (h_handlers s !! iw)))) (l1 ++ l2) s)
  | remove_skips s iw e todo :
    h_writer s = Some (Removing iw (e :: todo)) →
    (∀ t, h_timers s !! e_id e = Some t → t_stopped t = true) →
    code_step s (set_writer (Some (Removing iw todo)) s)
  | remove_stops s iw e todo t :
    h_writer s = Some (Removing iw (e :: todo)) → h_timers s !! e_id e = Some t → t_stopped t = false →
    code_step s (set_timers (<[e_id e := {| t_state := t_state t; t_stopped := true |}]> (h_timers s))
                   (set_writer (Some (Joining iw e todo)) s))
  | remove_joins s iw e todo t :
    h_writer s = Some (Joining iw e todo) → h_timers s !! e_id e = Some t → t_state t = Finished →
    code_step s (set_writer (Some (Removing iw todo)) s)
  | remove_returns s iw :
    h_writer s = Some (Removing iw []) → code_step s (set_lock (delete iw (h_handlers s)) None (h_waiting s) s)
  (** [OnAdd], [OnUpdate] and [OnDelete] *)
  | broadcast_locks s :
    h_broadcaster s = Locking → h_writer s = None →
    code_step s (set_broadcaster (Notifying (range (h_handlers s) ≫= λ '(_, handlers), e_id <$> handlers)) s)
  | broadcast_notifies s h todo :
    h_broadcaster s = Notifying (h :: todo) → code_step s (deliver h (set_broadcaster (Notifying todo) s))
  | broadcast_returns s :
    h_broadcaster s = Notifying [] → code_step s (set_broadcaster Silent s)
  (** the goroutine of [start] *)
  | timer_resyncs s h n stopped :
    h_timers s !! h = Some {| t_state := Resyncing (S n); t_stopped := stopped |} →
    code_step s (deliver h (set_timers (<[h := {| t_state := Resyncing n; t_stopped := stopped |}]> (h_timers s)) s))
  | timer_resynced s h stopped :
    h_timers s !! h = Some {| t_state := Resyncing 0; t_stopped := stopped |} →
    code_step s (set_timers (<[h := {| t_state := Selecting; t_stopped := stopped |}]> (h_timers s)) s)
  | timer_ends s h :
    h_timers s !! h = Some {| t_state := Selecting; t_stopped := true |} →
    code_step s (set_timers (<[h := {| t_state := Finished; t_stopped := true |}]> (h_timers s)) s).

(** ** The steps of the environment

    Handlers are added and removed, something happens in the cluster, a ticker
    fires; when [stopCh] is closed as well, [select] may still take the tick. *)
Inductive world_step : hub → hub → Prop :=
  | world_adds s iw handler resyncPeriod :
    world_step s {| h_cached := h_cached s; h_handlers := h_handlers s; h_writer := h_writer s;
                    h_waiting := h_waiting s ++ [Add iw (h_next s) handler resyncPeriod];
                    h_broadcaster := h_broadcaster s; h_timers := h_timers s; h_next := S (h_next s); h_log := h_log s |}
  | world_removes s iw :
    world_step s (set_lock (h_handlers s) (h_writer s) (h_waiting s ++ [Remove iw]) s)
  | world_notifies s :
    h_broadcaster s = Silent → world_step s (set_broadcaster Locking s)
  | world_changes s n :
    world_step s {| h_cached := n; h_handlers := h_handlers s; h_writer := h_writer s; h_waiting := h_waiting s;
                    h_broadcaster := h_broadcaster s; h_timers := h_timers s; h_next := h_next s; h_log := h_log s |}
  | world_ticks s h stopped n :
    h_timers s !! h = Some {| t_state := Selecting; t_stopped := stopped |} → resync_size s n →
    world_step s (set_timers (<[h := {| t_state := Resyncing n; t_stopped := stopped |}]> (h_timers s)) s).

(** [newSharedEventHandler] *)
Definition new_hub : hub := {|
  h_cached := 0; h_handlers := ∅; h_writer := None; h_waiting := []; h_broadcaster := Silent; h_timers := ∅;
  h_next := 0; h_log := [] |}.
Abbreviation step := (any code_step world_step).
Definition hub_reachable (s : hub) : Prop := rtc step new_hub s.

(** ** What holds at any time *)
Definition handles (s : hub) (h : nat) : Prop := ∃ iw es, h_handlers s !! iw = Some es ∧ h ∈ e_id <$> es.
Definition request_id (r : request) : option nat := match r with Add _ h _ _ => Some h | Remove _ => None end.
Definition requested (s : hub) : list nat := omap request_id (h_waiting s).
(** No timer of the handler will call it again. *)
Definition no_timer (s : hub) (h : nat) : Prop := ∀ t, h_timers s !! h = Some t → t_state t = Finished.

Record hub_invariant (s : hub) : Prop := {
  hi_requested : NoDup (requested s) ∧ ∀ h, h ∈ requested s → h < h_next s ∧ ¬ handles s h ∧ h_timers s !! h = None;
  hi_handled h : handles s h → h < h_next s;
  hi_unique h iw1 es1 iw2 es2 :
    h_handlers s !! iw1 = Some es1 → h_handlers s !! iw2 = Some es2 → h ∈ e_id <$> es1 → h ∈ e_id <$> es2 → iw1 = iw2;
  hi_timers h t : h_timers s !! h = Some t → h < h_next s ∧ (t_state t ≠ Finished → handles s h);
  hi_stopped h t :
    h_timers s !! h = Some t → t_stopped t = true →
    t_state t = Finished ∨ ∃ iw e todo, h_writer s = Some (Joining iw e todo) ∧ e_id e = h;
  hi_writer :
    match h_writer s with
    | None => True
    | Some (Adding e n) => handles s (e_id e) ∧ h_timers s !! e_id e = None
    | Some (Removing iw todo) =>
      ∃ before, default [] (h_handlers s !! iw) = before ++ todo ∧ Forall (no_timer s) (e_id <$> before)
    | Some (Joining iw e todo) =>
      (∃ before, default [] (h_handlers s !! iw) = before ++ e :: todo ∧ Forall (no_timer s) (e_id <$> before)) ∧
      ∃ t, h_timers s !! e_id e = Some t ∧ t_stopped t = true
    end;
  hi_broadcaster l : h_broadcaster s = Notifying l → h_writer s = None ∧ ∀ h, h ∈ l → handles s h;
}.

Lemma invariant_new : hub_invariant new_hub.
Proof.
  split; [split; [apply NoDup_nil_2|set_solver]|..]; try done.
  intros h (iw & es & H & _). done.
Qed.

Lemma not_handled_timer s h t : hub_invariant s → h_timers s !! h = Some t → ¬ handles s h → t_state t = Finished.
Proof.
  intros HI Ht Hh. destruct (decide (t_state t = Finished)) as [|Hne]; [done|].
  destruct Hh. by apply (hi_timers s HI h t Ht).
Qed.

Lemma invariant_deliver h s : hub_invariant s → hub_invariant (deliver h s).
Proof. by intros []. Qed.

Lemma invariant_broadcaster b s :
  hub_invariant s → (∀ l, b = Notifying l → h_writer s = None ∧ ∀ h, h ∈ l → handles s h) →
  hub_invariant (set_broadcaster b s).
Proof. by intros [] Hb. Qed.

(** A timer that is not ended takes a step. *)
Lemma invariant_timer s h t t' :
  hub_invariant s → h_timers s !! h = Some t → t_state t ≠ Finished → t_stopped t' = t_stopped t →
  hub_invariant (set_timers (<[h := t']> (h_timers s)) s).
Proof.
  intros [Hreq Hhd Huniq Htim Hstop Hw Hb] Ht Hne Hs.
  assert (Hbefore : ∀ l, Forall (no_timer s) l → Forall (no_timer (set_timers (<[h := t']> (h_timers s)) s)) l).
  { intros l Hl. apply Forall_forall. intros h' Hh' t1. simpl. destruct (decide (h' = h)) as [->|Hd].
    - rewrite Forall_forall in Hl. by destruct (Hne (Hl h Hh' t Ht)).
    - rewrite lookup_insert_ne by done. rewrite Forall_forall in Hl. by apply Hl. }
  split; simpl; [|done|done| | | |done].
  - split; [apply Hreq|]. intros h' Hh'. destruct (proj2 Hreq h' Hh') as (H1 & H2 & H3). split_and!; [done..|].
    rewrite lookup_insert_ne; [done|congruence].
  - intros h' t1. destruct (decide (h' = h)) as [->|Hd]; [rewrite lookup_insert_eq; intros [= <-]|by rewrite lookup_insert_ne by done; apply Htim].
    destruct (Htim h t Ht). auto.
  - intros h' t1. destruct (decide (h' = h)) as [->|Hd]; [rewrite lookup_insert_eq; intros [= <-]|by rewrite lookup_insert_ne by done; apply Hstop].
    rewrite Hs. intros H. destruct (Hstop h t Ht H) as [?|?]; [done|by right].
  - destruct (h_writer s) as [[e n|iw todo|iw e todo]|]; [|naive_solver| |done].
    + destruct Hw as [H1 H2]. split; [done|]. rewrite lookup_insert_ne; [done|congruence].
    + destruct Hw as [(before & ? & ?) (t1 & H1 & H2)]. split; [exists before; auto|].
      destruct (decide (e_id e = h)) as [<-|Hd].
      * exists t'. rewrite lookup_insert_eq. split; [done|]. congruence.
      * exists t1. by rewrite lookup_insert_ne.
Qed.

(** [addHandler] *)
Lemma handles_insert s iw e iw' es' h :
  <[iw := default [] (h_handlers s !! iw) ++ [e]]> (h_handlers s) !! iw' = Some es' → h ∈ e_id <$> es' →
  (h = e_id e ∧ iw' = iw) ∨ ∃ es, h_handlers s !! iw' = Some es ∧ h ∈ e_id <$> es.
Proof.
  intros [[<- <-]|[Hne H]]%lookup_insert_Some Hh; [|by right; exists es'].
  rewrite fmap_app, elem_of_app in Hh. destruct Hh as [Hh|Hh]; [right|left; set_solver].
  destruct (h_handlers s !! iw) as [es|]; [by exists es|set_solver].
Qed.

Lemma invariant_add_locks s l1 iw e handler period l2 n :
  hub_invariant s → h_waiting s = l1 ++ Add iw (e_id e) handler period :: l2 → h_writer s = None → (∀ l, h_broadcaster s ≠ Notifying l) →
  hub_invariant (set_lock (<[iw := default [] (h_handlers s !! iw) ++ [e]]> (h_handlers s)) (Some (Adding e n)) (l1 ++ l2) s).
Proof.
  intros [[Hnd Hreq] Hhd Huniq Htim Hstop Hw Hb] Hwait Hnone Hbc.
  unfold requested in Hnd, Hreq. rewrite Hwait, omap_app in Hnd, Hreq. simpl in Hnd, Hreq.
  assert (He : ∀ h, h ∈ omap request_id (l1 ++ l2) → h ≠ e_id e ∧ h ∈ omap request_id l1 ++ e_id e :: omap request_id l2).
  { intros h. rewrite omap_app. apply NoDup_app in Hnd as (H1 & H2 & [H3 H4]%NoDup_cons). set_solver. }
  destruct (Hreq (e_id e)) as (He1 & He2 & He3); [set_solver|].
  set (s' := set_lock _ _ _ _).
  assert (Hsub : ∀ h, handles s h → handles s' h).
  { intros h (iw' & es & Hes & Hh). destruct (decide (iw' = iw)) as [->|Hne].
    - exists iw, (es ++ [e]). simpl. rewrite Hes, lookup_insert_eq. split; [done|]. rewrite fmap_app. set_solver.
    - exists iw', es. simpl. by rewrite lookup_insert_ne. }
  split; simpl.
  - split; [unfold requested; simpl; rewrite omap_app; apply NoDup_app in Hnd as (H1 & H2 & [H3 H4]%NoDup_cons);
      apply NoDup_app; split_and!; set_solver|].
    intros h Hh. destruct (He h Hh) as [Hne Hin]. destruct (Hreq h Hin) as (H1 & H2 & H3). split_and!; [done| |done].
    intros (iw' & es' & Hes & Hh'). destruct (handles_insert s iw e iw' es' h Hes Hh') as [[? _]|(es & ? & ?)]; [done|].
    apply H2. by exists iw', es.
  - intros h (iw' & es' & Hes & Hh'). destruct (handles_insert s iw e iw' es' h Hes Hh') as [[-> _]|(es & ? & ?)]; [done|].
    apply Hhd. by exists iw', es.
  - intros h iw1 es1 iw2 es2 H1 H2 Hh1 Hh2.
    destruct (handles_insert s iw e iw1 es1 h H1 Hh1) as [[-> ->]|(es & Hes & Hh)];
      destruct (handles_insert s iw e iw2 es2 _ H2 Hh2) as [[E ->]|(es' & Hes' & Hh')]; [done|..].
    + destruct He2. by exists iw2, es'.
    + subst h. destruct He2. by exists iw1, es.
    + by eapply Huniq.
  - intros h t Ht. destruct (Htim h t Ht). auto.
  - intros h t Ht Hs. destruct (Hstop h t Ht Hs) as [?|(? & ? & ? & ? & _)]; [by left|congruence].
  - split; [|done]. exists iw, (default [] (h_handlers s !! iw) ++ [e]). simpl. rewrite lookup_insert_eq.
    split; [done|]. rewrite fmap_app. set_solver.
  - intros l Hl. by destruct (Hbc l).
Qed.

Lemma not_notifying s e : hub_invariant s → h_writer s = Some e → ∀ l, h_broadcaster s ≠ Notifying l.
Proof. intros HI He l Hl. apply (hi_broadcaster s HI) in Hl as [? _]. congruence. Qed.

Lemma invariant_add_returns s e :
  hub_invariant s → h_writer s = Some (Adding e 0) →
  hub_invariant (set_timers (timer_of e (h_timers s)) (set_writer None s)).
Proof.
  intros HI Hadd. pose proof (not_notifying _ _ HI Hadd) as Hbc.
  destruct HI as [Hreq Hhd Huniq Htim Hstop Hw Hb]. rewrite Hadd in Hw. destruct Hw as [He Hnone].
  assert (Hlook : ∀ h t, timer_of e (h_timers s) !! h = Some t →
    h = e_id e ∧ t_stopped t = false ∨ h_timers s !! h = Some t).
  { intros h t. unfold timer_of. destruct (eh_timer (e_handler e)); [|by right].
    intros [[<- <-]|[_ ?]]%lookup_insert_Some; [by left|by right]. }
  split; simpl; [|done..| | |done|].
  - split; [apply Hreq|]. intros h Hh. destruct (proj2 Hreq h Hh) as (H1 & H2 & H3). split_and!; [done..|].
    destruct (timer_of e (h_timers s) !! h) as [t|] eqn:Ht; [|done].
    destruct (Hlook h t Ht) as [[-> _]|?]; [done|congruence].
  - intros h t Ht. destruct (Hlook h t Ht) as [[-> _]|H]; [auto|by apply Htim].
  - intros h t Ht Hs. destruct (Hlook h t Ht) as [[_ ?]|H]; [congruence|].
    destruct (Hstop h t H Hs) as [?|(? & ? & ? & ? & _)]; [by left|congruence].
  - intros l Hl. by destruct (Hbc l).
Qed.

(** The writer starts or goes on with [removeHandlers]. *)
Lemma invariant_removing s waiting before iw todo :
  hub_invariant s → (∀ l, h_broadcaster s ≠ Notifying l) → omap request_id waiting = requested s →
  (∀ iw' e l, h_writer s = Some (Joining iw' e l) → no_timer s (e_id e)) →
  default [] (h_handlers s !! iw) = before ++ todo → Forall (no_timer s) (e_id <$> before) →
  hub_invariant (set_lock (h_handlers s) (Some (Removing iw todo)) waiting s).
Proof.
  intros [Hreq Hhd Huniq Htim Hstop Hw Hb] Hbc Hwait Hjoin Hbefore Hquiet. split; simpl; [|done..| | |].
  - unfold requested. simpl. by rewrite Hwait.
  - intros h t Ht Hs. destruct (Hstop h t Ht Hs) as [?|(iw' & e & l & Hj & <-)]; left; [done|].
    by apply (Hjoin iw' e l Hj).
  - by exists before.
  - intros l' Hl. by destruct (Hbc l').
Qed.

Lemma invariant_remove_stops s iw e todo t :
  hub_invariant s → h_writer s = Some (Removing iw (e :: todo)) → h_timers s !! e_id e = Some t → t_stopped t = false →
  hub_invariant (set_timers (<[e_id e := {| t_state := t_state t; t_stopped := true |}]> (h_timers s))
                   (set_writer (Some (Joining iw e todo)) s)).
Proof.
  intros HI Hrem Ht Hs. pose proof (not_notifying _ _ HI Hrem) as Hbc.
  destruct HI as [Hreq Hhd Huniq Htim Hstop Hw Hb]. rewrite Hrem in Hw. destruct Hw as (before & Hbefore & Hquiet).
  set (t' := {| t_state := t_state t; t_stopped := true |}).
  assert (Hlook : ∀ h t1, <[e_id e := t']> (h_timers s) !! h = Some t1 → ∃ t0, h_timers s !! h = Some t0 ∧ t_state t0 = t_state t1 ∧
    (h = e_id e ∨ t0 = t1)).
  { intros h t1 [[<- <-]|[_ ?]]%lookup_insert_Some; [by exists t; auto|by exists t1; auto]. }
  split; simpl; [|done..| | | |].
  - split; [apply Hreq|]. intros h Hh. destruct (proj2 Hreq h Hh) as (H1 & H2 & H3). split_and!; [done..|].
    apply eq_None_not_Some. intros (t1 & (t0 & H0 & _)%Hlook). congruence.
  - intros h t1 (t0 & H0 & <- & _)%Hlook. by apply Htim.
  - intros h t1 (t0 & H0 & <- & Heq)%Hlook Hs1. destruct Heq as [->|<-]; [right; by exists iw, e, todo|].
    destruct (Hstop h t0 H0 Hs1) as [?|(? & ? & ? & ? & _)]; [by left|congruence].
  - split; [exists before; split; [done|]|exists t'; by rewrite lookup_insert_eq].
    eapply Forall_impl; [exact Hquiet|]. intros h Hh t1 (t0 & H0 & <- & _)%Hlook. by apply Hh.
  - intros l' Hl. by destruct (Hbc l').
Qed.

Lemma invariant_remove_returns s iw :
  hub_invariant s → h_writer s = Some (Removing iw []) →
  hub_invariant (set_lock (delete iw (h_handlers s)) None (h_waiting s) s).
Proof.
  intros HI Hrem. pose proof (not_notifying _ _ HI Hrem) as Hbc.
  destruct HI as [Hreq Hhd Huniq Htim Hstop Hw Hb]. rewrite Hrem in Hw. destruct Hw as (before & Hbefore & Hquiet).
  rewrite app_nil_r in Hbefore.
  assert (Hsub : ∀ h, handles (set_lock (delete iw (h_handlers s)) None (h_waiting s) s) h → handles s h).
  { intros h (iw' & es & Hes & Hh). simpl in Hes. apply lookup_delete_Some in Hes as [_ Hes]. by exists iw', es. }
  split; simpl; [| | | | |done|].
  - split; [apply Hreq|]. intros h Hh. destruct (proj2 Hreq h Hh) as (H1 & H2 & H3). split_and!; [done| |done].
    intros H. by apply H2, Hsub.
  - auto.
  - intros h iw1 es1 iw2 es2 [_ H1]%lookup_delete_Some [_ H2]%lookup_delete_Some. by eapply Huniq.
  - intros h t Ht. destruct (Htim h t Ht) as [Hlt Hal]. split; [done|]. intros Hne.
    destruct (Hal Hne) as (iw' & es & Hes & Hh). exists iw', es. split; [|done].
    apply lookup_delete_Some. split; [|done]. intros <-. rewrite Hes in Hbefore. simpl in Hbefore. subst before.
    rewrite Forall_forall in Hquiet. by apply Hne, (Hquiet h Hh).
  - intros h t Ht Hs. destruct (Hstop h t Ht Hs) as [?|(? & ? & ? & ? & _)]; [by left|congruence].
  - intros l' Hl. by destruct (Hbc l').
Qed.

Lemma invariant_code s s' : hub_invariant s → code_step s s' → hub_invariant s'.
Proof.
  intros HI Hstep. destruct Hstep as [s l1 iw h handler period l2 n Hwait Hw Hbc _ e|s e n Hw|s e Hw|s l1 iw l2 Hwait Hw Hbc|s iw e todo Hw Hskip|
    s iw e todo t Hw Ht Hs|s iw e todo t Hw Ht Hf|s iw Hw|s Hb Hw|s h todo Hb|s Hb|s h n b Ht|s h b Ht|s h Ht].
  - by eapply invariant_add_locks.
  - apply invariant_deliver. pose proof (not_notifying _ _ HI Hw) as Hbc. destruct HI as [? ? ? ? Hstop Hw' ?]. rewrite Hw in Hw'.
    split; simpl; [done..| | |]; [|done|].
    + intros h t Ht Hs. destruct (Hstop h t Ht Hs) as [?|(? & ? & ? & ? & _)]; [by left|congruence].
    + intros l Hl. by destruct (Hbc l).
  - by apply invariant_add_returns.
  - apply (invariant_removing s (l1 ++ l2) []); [done..| | |done|constructor].
    + unfold requested. by rewrite Hwait, !omap_app.
    + congruence.
  - pose proof (hi_writer s HI) as Hwr. rewrite Hw in Hwr. destruct Hwr as (before & Hbefore & Hquiet).
    apply (invariant_removing s _ (before ++ [e])); [done|by eapply not_notifying|done|congruence|by rewrite <- app_assoc|].
    rewrite fmap_app, Forall_app. split; [done|]. constructor; [|constructor]. intros t Ht.
    destruct (hi_stopped s HI _ t Ht (Hskip t Ht)) as [?|(? & ? & ? & ? & _)]; [done|congruence].
  - by apply invariant_remove_stops.
  - pose proof (hi_writer s HI) as Hwr. rewrite Hw in Hwr. destruct Hwr as ((before & Hbefore & Hquiet) & _).
    assert (He : no_timer s (e_id e)) by (intros t' Ht'; congruence).
    apply (invariant_removing s _ (before ++ [e])); [done|by eapply not_notifying|done|congruence|by rewrite <- app_assoc|].
    rewrite fmap_app, Forall_app. split; [done|]. by repeat constructor.
  - by apply invariant_remove_returns.
  - apply invariant_broadcaster; [done|]. intros l [= <-]. split; [done|]. intros h Hh.
    apply list_elem_of_bind in Hh as ([iw es] & Hh & Hes). rewrite range_perm, elem_of_map_to_list in Hes. by exists iw, es.
  - apply invariant_deliver, invariant_broadcaster; [done|]. intros l [= <-].
    destruct (hi_broadcaster s HI _ Hb) as [? H]. split; [done|]. intros h' Hh'. apply H. by right.
  - by apply invariant_broadcaster.
  - apply invariant_deliver. by eapply invariant_timer.
  - by eapply invariant_timer.
  - by eapply invariant_timer.
Qed.

Lemma invariant_world s s' : hub_invariant s → world_step s s' → hub_invariant s'.
Proof.
  intros HI Hstep. destruct Hstep as [s iw handler period|s iw|s Hb|s n|s h b n Ht _].
  - destruct HI as [[Hnd Hreq] Hhd Huniq Htim Hstop Hw Hb].
    assert (E : requested s ++ [h_next s] = omap request_id (h_waiting s ++ [Add iw (h_next s) handler period]))
      by (unfold requested; by rewrite omap_app).
    split; simpl; [|intros h Hh%Hhd; lia|done| |done..].
    + unfold requested. simpl. rewrite <- E. split.
      * apply NoDup_app. split_and!; [done| |apply NoDup_singleton]. intros h Hh ->%list_elem_of_singleton.
        destruct (Hreq _ Hh). lia.
      * intros h [Hh| ->%list_elem_of_singleton]%elem_of_app; [destruct (Hreq _ Hh) as (? & ? & ?); auto|].
        split_and!; [lia|intros Hh%Hhd; lia|]. destruct (h_timers s !! h_next s) as [t|] eqn:Ht; [|done].
        destruct (Htim _ t Ht). lia.
    + intros h t Ht. destruct (Htim h t Ht). auto.
  - destruct HI as [Hreq Hhd Huniq Htim Hstop Hw Hb]. split; try done. unfold requested. simpl.
    by rewrite omap_app, app_nil_r.
  - by apply invariant_broadcaster.
  - by destruct HI.
  - by eapply invariant_timer.
Qed.
Lemma invariant_step s s' : hub_invariant s → step s s' → hub_invariant s'.
Proof. intros HI [H|H]; [by eapply invariant_code|by eapply invariant_world]. Qed.
Lemma invariant_hub s : hub_reachable s → hub_invariant s.
Proof. intros H. eapply (rtc_invariant code_step world_step); [apply invariant_step|exact H|apply invariant_new]. Qed.

(** ** A handler that is not registered, and never will be *)
Definition gone (s : hub) (h : nat) : Prop :=
  h < h_next s ∧ ¬ handles s h ∧ h ∉ requested s ∧ no_timer s h.
(** A step calls nobody, or a registered handler. *)
Definition calls (s s' : hub) : Prop := h_log s' = h_log s ∨ ∃ h, handles s h ∧ h_log s' = h :: h_log s.

Lemma calls_registered s s' : hub_invariant s → step s s' → calls s s'.
Proof.
  intros HI [Hstep|Hstep]; destruct Hstep as [| s e n Hw | | | | | | | | s h todo Hb | | s h n b Ht | |] || destruct Hstep;
    try (by left); right.
  - exists (e_id e). split; [|done]. pose proof (hi_writer s HI) as H. rewrite Hw in H. by destruct H.
  - exists h. split; [|done]. apply (hi_broadcaster s HI _ Hb). by left.
  - exists h. split; [|done]. by apply (hi_timers s HI h _ Ht).
Qed.

Lemma gone_step s s' h : hub_invariant s → gone s h → step s s' → gone s' h.
Proof.
  intros HI (Hlt & Hh & Hreq & Hno) Hstep.
  assert (Hkeep : ∀ t k, h_timers s !! k = Some t → t_state t ≠ Finished → ∀ t', no_timer (set_timers (<[k := t']> (h_timers s)) s) h).
  { intros t k Ht Hne t' t1. simpl. destruct (decide (k = h)) as [->|Hd]; [by destruct (Hne (Hno t Ht))|].
    rewrite lookup_insert_ne by done. apply Hno. }
  destruct Hstep as [Hstep|Hstep].
  - destruct Hstep as [s l1 iw h' handler period l2 n Hwait Hw Hbc _ e|s e n Hw|s e Hw|s l1 iw l2 Hwait Hw Hbc|s iw e todo Hw Hskip|
      s iw e todo t Hw Ht Hs|s iw e todo t Hw Ht Hf|s iw Hw|s Hb Hw|s h' todo Hb|s Hb|s h' n b Ht|s h' b Ht|s h' Ht];
      try (by split_and!); try (split_and!; [done..|]; by eapply Hkeep).
    + unfold requested in Hreq. rewrite Hwait, omap_app in Hreq. simpl in Hreq.
      split_and!; [done| |unfold requested; simpl; rewrite omap_app; set_solver|done].
      intros (iw' & es' & Hes & Hh'). destruct (handles_insert s iw e iw' es' h Hes Hh') as [[-> _]|(es & ? & ?)]; [set_solver|].
      apply Hh. by exists iw', es.
    + split_and!; [done..|]. intros t. simpl. unfold timer_of. destruct (eh_timer (e_handler e)); [|apply Hno].
      intros [[<- <-]|[_ ?]]%lookup_insert_Some; [|by apply Hno]. destruct Hh.
      pose proof (hi_writer s HI) as H. rewrite Hw in H. by destruct H.
    + split_and!; [done..| |done]. unfold requested in *. rewrite Hwait, omap_app in Hreq. simpl in *. by rewrite omap_app.
    + split_and!; [done..|]. intros t1. simpl. intros [[<- <-]|[_ ?]]%lookup_insert_Some; [|by apply Hno]. simpl. by apply Hno.
    + split_and!; [done| |done..]. intros (iw' & es' & Hes & Hh'). simpl in Hes.
      apply lookup_delete_Some in Hes as [_ Hes]. apply Hh. by exists iw', es'.
  - destruct Hstep as [s iw handler period|s iw|s Hb|s n|s h' b n Ht _]; try (by split_and!); try (split_and!; [done..|]; by eapply Hkeep).
    + split_and!; [simpl; lia|done| |done]. unfold requested in *. simpl. rewrite omap_app. simpl.
      rewrite elem_of_app, list_elem_of_singleton. intros [?|?]; [done|lia].
    + split_and!; [done..| |done]. unfold requested in *. simpl. by rewrite omap_app, app_nil_r.
Qed.

Lemma gone_silent s s' h :
  hub_invariant s → gone s h → rtc step s s' → ∃ l, h_log s' = l ++ h_log s ∧ h ∉ l.
Proof.
  intros HI Hg Hsteps. revert HI Hg. induction Hsteps as [s|s s1 s' Hstep _ IH]; intros HI Hg; [exists []; set_solver|].
  destruct IH as (l & Hl & Hh); [by eapply invariant_step|by eapply gone_step|].
  destruct (calls_registered s s1 HI Hstep) as [E|(h' & Hh' & E)]; rewrite E in Hl; [by exists l|].
  exists (l ++ [h']). split; [by rewrite <- app_assoc|]. rewrite elem_of_app, list_elem_of_singleton.
  intros [?| <-]; [done|]. by destruct Hg as (_ & ? & _).
Qed.

(** ** What is left to do *)
Definition timer_cost (t : timer) : nat :=
  match t_state t with Selecting => if t_stopped t then 1 else 0 | Resyncing n => 2 + n | Finished => 0 end.
Definition writer_cost (w : option writer) : nat :=
  match w with
  | None => 0
  | Some (Adding _ n) => 1 + n
  | Some (Removing _ todo) => 1 + 3 * length todo
  | Some (Joining _ _ todo) => 2 + 3 * length todo
  end.
Definition broadcaster_cost (handlers : gmap nat (list entry)) (b : broadcaster) : nat :=
  match b with Silent => 0 | Locking => 2 + map_sum length handlers | Notifying todo => 1 + length todo end.
Definition hub_work (s : hub) : nat :=
  writer_cost (h_writer s) + broadcaster_cost (h_handlers s) (h_broadcaster s) + map_sum timer_cost (h_timers s).

Lemma notified_length m : length (range m ≫= λ '(_, handlers), e_id <$> (handlers : list entry)) = map_sum length (m : gmap nat _).
Proof.
  rewrite range_perm. unfold map_sum. generalize (map_to_list m). intros l.
  induction l as [|[iw es] l IH]; [done|]. rewrite bind_cons, length_app, IH. simpl. by rewrite length_fmap.
Qed.

Lemma timer_cost_insert s h t t' :
  h_timers s !! h = Some t → timer_cost t' < timer_cost t →
  map_sum timer_cost (<[h := t']> (h_timers s)) < map_sum timer_cost (h_timers s).
Proof. intros Ht Hlt. pose proof (map_sum_insert timer_cost (h_timers s) h t t' Ht). lia. Qed.

Lemma hub_work_code s s' :
  hub_invariant s → code_step s s' →
  length (h_waiting s') < length (h_waiting s) ∨ length (h_waiting s') ≤ length (h_waiting s) ∧ hub_work s' < hub_work s.
Proof.
  intros HI Hstep. unfold hub_work.
  destruct Hstep as [s l1 iw h handler period l2 n Hwait Hw Hbc _ e|s e n Hw|s e Hw|s l1 iw l2 Hwait Hw Hbc|s iw e todo Hw Hskip|
    s iw e todo t Hw Ht Hs|s iw e todo t Hw Ht Hf|s iw Hw|s Hb Hw|s h todo Hb|s Hb|s h n b Ht|s h b Ht|s h Ht]; simpl;
    try (right; split; [done|]; rewrite ?Hw, ?Hb; simpl; rewrite ?notified_length; lia).
  - left. rewrite Hwait, !length_app. simpl. lia.
  - right. split; [done|]. pose proof (hi_writer s HI) as H. rewrite Hw in *. destruct H as [_ Hnone]. simpl.
    unfold timer_of. destruct (eh_timer (e_handler e)); [rewrite map_sum_insert_new by done; simpl|]; lia.
  - left. rewrite Hwait, !length_app. simpl. lia.
  - right. split; [done|]. rewrite Hw. simpl.
    pose proof (map_sum_insert timer_cost (h_timers s) (e_id e) t {| t_state := t_state t; t_stopped := true |} Ht) as H.
    assert (timer_cost {| t_state := t_state t; t_stopped := true |} ≤ 1 + timer_cost t)
      by (unfold timer_cost; simpl; destruct (t_state t), (t_stopped t); lia).
    lia.
  - right. split; [done|]. rewrite Hw. simpl. pose proof (map_sum_delete_le length (h_handlers s) iw).
    destruct (h_broadcaster s); simpl; lia.
  - right. split; [done|]. apply Nat.add_lt_mono_l. eapply timer_cost_insert; [exact Ht|]. unfold timer_cost. simpl. lia.
  - right. split; [done|]. apply Nat.add_lt_mono_l. eapply timer_cost_insert; [exact Ht|]. unfold timer_cost. simpl.
    destruct b; lia.
  - right. split; [done|]. apply Nat.add_lt_mono_l. eapply timer_cost_insert; [exact Ht|]. unfold timer_cost. simpl. lia.
Qed.

(** A goroutine that holds the mutex can go on, unless it waits for a timer
    which can. *)
Lemma timer_at_rest s h t :
  nf code_step s → h_timers s !! h = Some t → t_state t = Finished ∨ t_state t = Selecting ∧ t_stopped t = false.
Proof.
  intros Hnf Ht. destruct t as [[|[|n]|] [|]]; simpl; auto; exfalso; apply Hnf; eexists;
    first [by eapply timer_ends|by eapply timer_resynced|by eapply timer_resyncs].
Qed.
Lemma writer_at_rest s : hub_invariant s → nf code_step s → h_writer s = None.
Proof.
  intros HI Hnf. pose proof (hi_writer s HI) as Hw. destruct (h_writer s) as [[e n|iw [|e todo]|iw e todo]|] eqn:E; [exfalso..|done].
  - apply Hnf. destruct n as [|n]; eexists; [by apply add_returns|by apply add_resyncs].
  - apply Hnf. eexists. by apply remove_returns.
  - apply Hnf. destruct (h_timers s !! e_id e) as [t|] eqn:Ht.
    + destruct (t_stopped t) eqn:Hs; eexists; [eapply remove_skips|by eapply remove_stops]; [exact E|]. congruence.
    + eexists. eapply remove_skips; [exact E|]. congruence.
  - destruct Hw as (_ & t & Ht & Hs). destruct (timer_at_rest s _ t Hnf Ht) as [Hf|[_ ?]]; [|congruence].
    apply Hnf. eexists. by eapply remove_joins.
Qed.

(** ** The theorems *)

(** C17: once [RemoveEventHandlers] has returned, none of the handlers it removed
    is called again: neither by a notification of the informer, under way or
    later, nor by a resync, of its own timer or the one that adding it starts
    with; whatever else is added, removed or notified meanwhile. *)
Theorem removed_handlers_silent s s' iw e :
  hub_reachable s → h_writer s = Some (Removing iw []) → e ∈ default [] (h_handlers s !! iw) →
  rtc step (set_lock (delete iw (h_handlers s)) None (h_waiting s) s) s' →
  ∃ l, h_log s' = l ++ h_log s ∧ e_id e ∉ l.
Proof.
  intros HI%invariant_hub Hw He Hsteps.
  destruct (h_handlers s !! iw) as [es|] eqn:Hes; [|by apply not_elem_of_nil in He]. simpl in He.
  assert (Hid : e_id e ∈ e_id <$> es) by (apply list_elem_of_fmap; by exists e).
  assert (Hh : handles s (e_id e)) by (by exists iw, es).
  apply (gone_silent (set_lock (delete iw (h_handlers s)) None (h_waiting s) s)); [by apply invariant_remove_returns| |done].
  split_and!; [by apply (hi_handled s HI)| | |].
  - intros (iw' & es' & Hes' & Hid'). simpl in Hes'. apply lookup_delete_Some in Hes' as [Hne Hes'].
    apply Hne. by eapply (hi_unique s HI).
  - intros Hreq. by destruct (proj2 (hi_requested s HI) _ Hreq) as (_ & ? & _).
  - pose proof (hi_writer s HI) as H. rewrite Hw, Hes in H. destruct H as (before & Hb & Hq). simpl in Hb.
    rewrite app_nil_r in Hb. subst before. rewrite Forall_forall in Hq. by apply Hq.
Qed.

(** C18: nobody waits for ever: left to itself the code takes finitely many steps,
    and when it rests no call of [AddEventHandler] or [RemoveEventHandlers] is
    under way, no notification is, and no timer that was stopped still runs. *)
Theorem hub_rests s :
  hub_reachable s →
  sn code_step s ∧
  (nf code_step s → h_waiting s = [] ∧ h_writer s = None ∧ h_broadcaster s = Silent ∧
     ∀ h t, h_timers s !! h = Some t → t_state t = Finished ∨ t_state t = Selecting ∧ handles s h).
Proof.
  intros HI%invariant_hub. split.
  { apply (own_sn_lex code_step world_step hub_invariant) with (a := λ s, length (h_waiting s)) (b := hub_work);
      [apply invariant_step|apply hub_work_code|done]. }
  intros Hnf. pose proof (writer_at_rest s HI Hnf) as Hw.
  assert (Hb : h_broadcaster s = Silent).
  { destruct (h_broadcaster s) as [| |[|h todo]] eqn:Hb; [done|exfalso; apply Hnf; eexists..];
      [by apply broadcast_locks|by apply broadcast_returns|by apply broadcast_notifies]. }
  split_and!; [|done..|].
  - destruct (h_waiting s) as [|[iw h handler period|iw] l] eqn:Hwait; [done|exfalso; apply Hnf; eexists..].
    + eapply (add_locks s []); [exact Hwait|done|congruence|by left].
    + eapply (remove_locks s []); [exact Hwait|done|congruence].
  - intros h t Ht. destruct (timer_at_rest s h t Hnf Ht) as [?|[Hs _]]; [by left|right]. split; [done|].
    apply (hi_timers s HI h t Ht). congruence.
Qed.

(** The handlers as the sequential model has them. *)
Definition as_shared (s : hub) : sharedEventHandler :=
  {| seh_relistPeriod := relistPeriod; seh_handlers := (λ es : list entry, e_handler <$> es) <$> h_handlers s |}.

(** Every step leaves the map of handlers alone, or does what one call of
    [addHandler] that is waiting does, or what the call of [removeHandlers] under
    way does, as if the calls came one after the other. *)
Theorem hub_refines s s' cached :
  step s s' →
  as_shared s' = as_shared s ∨
  (∃ iw h handler resyncPeriod, Add iw h handler resyncPeriod ∈ h_waiting s ∧
     as_shared s' = (addHandler (as_shared s) cached iw handler resyncPeriod).1) ∨
  (∃ iw, h_writer s = Some (Removing iw []) ∧ h_writer s' = None ∧ as_shared s' = removeHandlers (as_shared s) iw).
Proof.
  intros [Hstep|Hstep]; [|by destruct Hstep; left].
  destruct Hstep as [s l1 iw h handler period l2 n Hwait Hw Hbc _ e| | | | | | |s iw Hw| | | | | |]; try (by left); right.
  - left. exists iw, h, handler, period. rewrite Hwait. split; [set_solver|]. unfold as_shared, addHandler. simpl. f_equal.
    rewrite fmap_insert, lookup_fmap, fmap_app. by destruct (h_handlers s !! iw).
  - right. exists iw. split_and!; [done..|]. unfold as_shared, removeHandlers. simpl. by rewrite fmap_delete.
Qed.
End steps.

(** ** A concrete run: a handler with a timer is added, its timer fires, and it is
    removed while the timer is in a resync *)
Section examples.
#[local] Existing Instance listRuntime.
Abbreviation run_step := (any (code_step 10) world_step).

Definition demo_entry : entry := {| e_id := 0; e_handler := {| eh_handler := "parents"; eh_timer := Some 5%Z |} |}.
Definition demo_removing : hub := {|
  h_cached := 2; h_handlers := {[7 := [demo_entry]]}; h_writer := Some (Removing 7 []); h_waiting := [];
  h_broadcaster := Silent; h_timers := {[0 := {| t_state := Finished; t_stopped := true |}]}; h_next := 1; h_log := [0; 0; 0; 0] |}.

Lemma demo_removing_reachable : hub_reachable 10 demo_removing.
Proof.
  unfold hub_reachable.
  eapply rtc_l; [right; apply (world_changes _ 2)|]. eapply rtc_l; [right; apply (world_adds _ 7 "parents" 5)|].
  eapply rtc_l; [left; apply (add_locks 10 _ [] 7 0 "parents" 5 [] 2); [reflexivity|done|done|by left]|].
  eapply rtc_l; [left; apply (add_resyncs 10 _ demo_entry 1); reflexivity|].
  eapply rtc_l; [left; apply (add_resyncs 10 _ demo_entry 0); reflexivity|].
  eapply rtc_l; [left; apply (add_returns 10 _ demo_entry); reflexivity|].
  eapply rtc_l; [right; apply (world_ticks _ 0 false 2); [reflexivity|by left]|].
  eapply rtc_l; [left; apply (timer_resyncs 10 _ 0 1 false); reflexivity|].
  eapply rtc_l; [right; apply (world_removes _ 7)|].
  eapply rtc_l; [left; apply (remove_locks 10 _ [] 7 []); [reflexivity|done|done]|].
  eapply rtc_l; [left; eapply (remove_stops 10 _ 7 demo_entry []); reflexivity|].
  eapply rtc_l; [left; apply (timer_resyncs 10 _ 0 0 true); reflexivity|].
  eapply rtc_l; [left; apply (timer_resynced 10 _ 0 true); reflexivity|].
  eapply rtc_l; [left; apply (timer_ends 10 _ 0); reflexivity|].
  eapply rtc_l; [left; eapply (remove_joins 10 _ 7 demo_entry []); reflexivity|].
  apply rtc_refl.
Qed.

Lemma removed_handlers_silent_witness :
  let removed := set_lock ∅ None [] demo_removing in
  ∃ l, h_log (set_broadcaster (Notifying []) removed) = l ++ [0; 0; 0; 0] ∧ 0 ∉ l.
Proof.
  intros removed. apply (removed_handlers_silent 10 demo_removing (set_broadcaster (Notifying []) removed) 7 demo_entry
    demo_removing_reachable eq_refl); [by left|].
  eapply rtc_l; [right; by apply world_notifies|]. eapply rtc_l; [left; by apply broadcast_locks|]. apply rtc_refl.
Defined.

Lemma hub_rests_witness :
  sn (code_step 10) demo_removing ∧ h_writer demo_removing ≠ None ∧
  (nf (code_step 10) demo_removing → h_waiting demo_removing = [] ∧ h_writer demo_removing = None ∧
     h_broadcaster demo_removing = Silent ∧
     ∀ h t, h_timers demo_removing !! h = Some t → t_state t = Finished ∨ t_state t = Selecting ∧ handles demo_removing h).
Proof.
  destruct (hub_rests 10 demo_removing demo_removing_reachable) as [Hsn Hnf]. split; [exact Hsn|]. split; [done|exact Hnf].
Defined.

Lemma hub_refines_witness :
  let removed := set_lock ∅ None [] demo_removing in
  as_shared 10 removed = as_shared 10 demo_removing ∨
  (∃ iw h handler resyncPeriod, Add iw h handler resyncPeriod ∈ h_waiting demo_removing ∧
     as_shared 10 removed = (addHandler (as_shared 10 demo_removing) [] iw handler resyncPeriod).1) ∨
  (∃ iw, h_writer demo_removing = Some (Removing iw []) ∧ h_writer removed = None ∧
     as_shared 10 removed = removeHandlers (as_shared 10 demo_removing) iw).
Proof.
  intros removed. apply (hub_refines 10 demo_removing removed []). left. by apply (remove_returns 10 demo_removing 7).
Defined.
End examples.
