(* ===== verification/Endpoint.v ===== *)
(** * Webhook endpoints: [pkg/hooks/endpoint_config.go], [auth.go] and
      [cabundle.go], and [webhookURL] of [webhook.go]

    Where a webhook is, and which credentials and certificates its requests
    carry: those of the webhook itself or, when it has none, those of the first
    configuration for its host.  Secrets are read through the Kubernetes client;
    parsing URLs and key pairs is the library's. *)
From S2P Require Import Prelude Value K8s Types.
From stdpp Require Import options.
From Stdlib Require Import ZifyNat.

(** ** Base64 *)
Definition base64_alphabet : string := "ABCDEFGHIJKLMNOPQRSTUVWXYZabcdefghijklmnopqrstuvwxyz0123456789+/".
Definition base64_char (n : nat) : Ascii.ascii := default "="%char (String.get n base64_alphabet).

(** [base64.StdEncoding.EncodeToString] *)
Fixpoint base64_EncodeToString (src : string) : string :=
  match src with
  | EmptyString => ""
  | String a EmptyString =>
    let a := Ascii.nat_of_ascii a in
    String (base64_char (a / 4)) (String (base64_char (a mod 4 * 16)) "==")
  | String a (String b EmptyString) =>
    let a := Ascii.nat_of_ascii a in
    let b := Ascii.nat_of_ascii b in
    String (base64_char (a / 4)) (String (base64_char (a mod 4 * 16 + b / 16))
      (String (base64_char (b mod 16 * 4)) "="))
  | String a (String b (String c src)) =>
    let a := Ascii.nat_of_ascii a in
    let b := Ascii.nat_of_ascii b in
    let c := Ascii.nat_of_ascii c in
    String (base64_char (a / 4)) (String (base64_char (a mod 4 * 16 + b / 16))
      (String (base64_char (b mod 16 * 4 + c / 64)) (String (base64_char (c mod 64))
        (base64_EncodeToString src))))
  end.

(** ** URLs *)

(** [url.URL], as far as it is looked at. *)
Record URL := { u_Scheme : string; u_Host : string }.

Definition is_digit (c : Ascii.ascii) : bool :=
  let n := Ascii.nat_of_ascii c in (48 <=? n)%nat && (n <=? 57)%nat.
Fixpoint all_digits (s : string) : bool :=
  match s with EmptyString => true | String c s => is_digit c && all_digits s end.

(** The text before and after the last [:]. *)
Fixpoint cut_last_colon (s : string) : option (string * string) :=
  match s with
  | EmptyString => None
  | String c s' =>
    match cut_last_colon s' with
    | Some (a, b) => Some (String c a, b)
    | None => if c == ":"%char then Some (EmptyString, s') else None
    end
  end.

(** [splitHostPort] of [net/url]: the host without brackets, and the port. *)
Definition splitHostPort (hostPort : string) : string * string :=
  let '(host, port) :=
    match cut_last_colon hostPort with
    | Some (host, port) => if all_digits port then (host, port) else (hostPort, "")
    | None => (hostPort, "")
    end in
  match host with
  | String c rest =>
    match String.rev rest with
    | String d inner => if (c == "["%char) && (d == "]"%char) then (String.rev inner, port) else (host, port)
    | EmptyString => (host, port)
    end
  | EmptyString => (host, port)
  end.
Definition u_Hostname (u : URL) : string := (splitHostPort (u_Host u)).1.
Definition u_Port (u : URL) : string := (splitHostPort (u_Host u)).2.

(** What is used of Go's libraries: [url.Parse], [tls.X509KeyPair]. *)
Class NetLib := {
  url_Parse : string → option URL;
  Certificate : Type;
  X509KeyPair : string → string → res Certificate;
}.

(** [client.Client], for the two kinds that are read: the data of a secret or of
    a config map. *)
Record K8sClient (W : Type) := {
  client_Get_Secret : string → string → M W (gmap string string);
  client_Get_ConfigMap : string → string → M W (gmap string string);
}.
#[global] Arguments client_Get_Secret {W}.
#[global] Arguments client_Get_ConfigMap {W}.

Record ResolvedEndpointConfig `{!NetLib} := {
  rec_CABundle : string;
  rec_AuthHeader : string;
  rec_ClientCert : option Certificate;
}.

Definition webhookURL (webhook : Webhook) : res string :=
  match wh_URL webhook with
  | Some url => mret url
  | None =>
    match wh_Service webhook, wh_Path webhook with
    | Some service, Some path =>
      if (svc_Name service == "") || (svc_Namespace service == "")
      then Err (ErrorString "invalid webhook config: 'service' must specify both 'name' and 'namespace'")
      else
        let port := default 80%Z (svc_Port service) in
        let protocol := default "http" (svc_Protocol service) in
        mret (protocol +:+ "://" +:+ svc_Name service +:+ "." +:+ svc_Namespace service +:+ ":" +:+
              pretty port +:+ path)
    | _, _ =>
      Err (ErrorString "invalid webhook config: must specify either a full 'url', or both 'service' and 'path'")
    end
  end.

Definition or_default (key dflt : string) : string := if key == "" then dflt else key.

Section resolve.
Context {NL : NetLib} {W : Type}.
Variable k8sClient : K8sClient W.

Definition get_secret_data (what namespace name : string) : M W (gmap string string) :=
  wrap_errM ("can't get " +:+ what +:+ " secret " +:+ namespace +:+ "/" +:+ name)
    (client_Get_Secret k8sClient namespace name).

(** [data[key]], or an error. *)
Definition secret_key (what namespace name : string) (data : gmap string string) (key : string) : res string :=
  match data !! key with
  | Some value => mret value
  | None => Err (ErrorString (what +:+ " secret " +:+ namespace +:+ "/" +:+ name +:+ " does not contain key " +:+ quote key))
  end.

Definition ResolveAuthorization (spec : option Authorization) : M W string :=
  match spec with
  | None => mret ""
  | Some spec =>
    if strings_EqualFold (strings_TrimSpace (auth_Type spec)) "basic"
    then throw (ErrorString ("authorization type " +:+ quote (auth_Type spec) +:+
                             " is not supported; use the basicAuth field instead"))
    else
      let ref := auth_SecretRef spec in
      data ← get_secret_data "authorization" (skr_Namespace ref) (skr_Name ref);
      value ← lift (secret_key "authorization" (skr_Namespace ref) (skr_Name ref) data (skr_Key ref));
      mret (or_default (strings_TrimSpace (auth_Type spec)) "Bearer" +:+ " " +:+ strings_TrimSpace value)
  end.

Definition ResolveBasicAuth (spec : option BasicAuth) : M W string :=
  match spec with
  | None => mret ""
  | Some spec =>
    let ref := basic_SecretRef spec in
    data ← get_secret_data "basicAuth" (sr_Namespace ref) (sr_Name ref);
    username ← lift (secret_key "basicAuth" (sr_Namespace ref) (sr_Name ref) data
                       (or_default (basic_UsernameKey spec) "username"));
    password ← lift (secret_key "basicAuth" (sr_Namespace ref) (sr_Name ref) data
                       (or_default (basic_PasswordKey spec) "password"));
    if strings_Contains username ":" then throw (ErrorString "basicAuth username must not contain ':'")
    else mret ("Basic " +:+
               base64_EncodeToString (strings_TrimSpace username +:+ ":" +:+ strings_TrimSpace password))
  end.

Definition ResolveClientTLS (spec : option ClientTLS) : M W (option Certificate) :=
  match spec with
  | None => mret None
  | Some spec =>
    let ref := tls_SecretRef spec in
    data ← get_secret_data "clientTLS" (sr_Namespace ref) (sr_Name ref);
    certPEM ← lift (secret_key "clientTLS" (sr_Namespace ref) (sr_Name ref) data (or_default (tls_CertKey spec) "tls.crt"));
    keyPEM ← lift (secret_key "clientTLS" (sr_Namespace ref) (sr_Name ref) data
                     (or_default (tls_PrivateKeyKey spec) "tls.key"));
    cert ← lift (wrap_err ("can't parse clientTLS certificate from secret " +:+ sr_Namespace ref +:+ "/" +:+ sr_Name ref)
                   (X509KeyPair certPEM keyPEM));
    mret (Some cert)
  end.

(** [resolveFromSecret] and [resolveFromConfigMap] differ in what they read. *)
Definition ca_data (kind : string) (ref : ResourceKeyRef) (data : gmap string string) : res string :=
  let key := or_default (rkr_Key ref) "ca.crt" in
  let where_ := kind +:+ " " +:+ rkr_Namespace ref +:+ "/" +:+ rkr_Name ref in
  match data !! key with
  | None => Err (ErrorString ("caBundle: key " +:+ quote key +:+ " not found in " +:+ where_))
  | Some pem =>
    if pem == "" then Err (ErrorString ("caBundle: key " +:+ quote key +:+ " in " +:+ where_ +:+ " is empty")) else mret pem
  end.

Definition resolveFromSecret (ref : ResourceKeyRef) : M W string :=
  data ← wrap_errM ("caBundle: failed to get Secret " +:+ rkr_Namespace ref +:+ "/" +:+ rkr_Name ref)
           (client_Get_Secret k8sClient (rkr_Namespace ref) (rkr_Name ref));
  lift (ca_data "Secret" ref data).

Definition resolveFromConfigMap (ref : ResourceKeyRef) : M W string :=
  data ← wrap_errM ("caBundle: failed to get ConfigMap " +:+ rkr_Namespace ref +:+ "/" +:+ rkr_Name ref)
           (client_Get_ConfigMap k8sClient (rkr_Namespace ref) (rkr_Name ref));
  lift (ca_data "ConfigMap" ref data).

(** Nil bytes are an empty string. *)
Definition ResolveCABundle (spec : option CABundle) : M W string :=
  match spec with
  | None => mret ""
  | Some spec =>
    match ca_Inline spec, ca_SecretRef spec, ca_ConfigMapRef spec with
    | None, None, None =>
      throw (ErrorString "caBundle is set but none of inline, secretRef, or configMapRef is specified")
    | Some pem, None, None => mret pem
    | None, Some ref, None => resolveFromSecret ref
    | None, None, Some ref => resolveFromConfigMap ref
    | _, _, _ =>
      throw (ErrorString ("caBundle has more than one source set: exactly one of inline, secretRef, or configMapRef" +:+
                          " must be specified"))
    end
  end.

Definition resolveFields (caBundle : option CABundle) (clientTLS : option ClientTLS)
    (authorization : option Authorization) (basicAuth : option BasicAuth) : M W (option ResolvedEndpointConfig) :=
  match authorization, basicAuth with
  | Some _, Some _ => throw (ErrorString "authorization and basicAuth are mutually exclusive")
  | _, _ =>
    ca ← wrap_errM "can't resolve caBundle" (ResolveCABundle caBundle);
    cert ← wrap_errM "can't resolve clientTLS" (ResolveClientTLS clientTLS);
    header ←
      match authorization, basicAuth with
      | Some _, _ => wrap_errM "can't resolve authorization" (ResolveAuthorization authorization)
      | None, Some _ => wrap_errM "can't resolve basicAuth" (ResolveBasicAuth basicAuth)
      | None, None => mret ""
      end;
    mret (if (ca == "") && (header == "") && negb (bool_decide (is_Some cert)) then None
          else Some {| rec_CABundle := ca; rec_AuthHeader := header; rec_ClientCert := cert |})
  end.

(** The loop body of [matchEndpointConfig]. *)
Definition endpoint_matches (u : URL) (c : EndpointConfig) : bool :=
  let urlHost := u_Host u in
  let canonicalHost :=
    if u_Port u == "" then
      if u_Scheme u == "https" then u_Hostname u +:+ ":443"
      else if u_Scheme u == "http" then u_Hostname u +:+ ":80"
      else urlHost
    else urlHost in
  (strings_EqualFold (ec_Host c) urlHost || strings_EqualFold (ec_Host c) canonicalHost) ||
  ((u_Port u != "") && strings_EqualFold (ec_Host c) (u_Hostname u) &&
   (((u_Scheme u == "https") && (u_Port u == "443")) || ((u_Scheme u == "http") && (u_Port u == "80")))).

Definition matchEndpointConfig (webhookURL : string) (endpointConfigs : list EndpointConfig) : option EndpointConfig :=
  match url_Parse webhookURL with
  | None => None
  | Some u => head (filter (λ c, endpoint_matches u c = true) endpointConfigs)
  end.

Definition has_override (webhook : Webhook) : bool :=
  bool_decide (is_Some (wh_CABundle webhook)) || bool_decide (is_Some (wh_ClientTLS webhook)) ||
  bool_decide (is_Some (wh_Authorization webhook)) || bool_decide (is_Some (wh_BasicAuth webhook)).

Definition ResolveEndpointConfig (webhook : option Webhook) (endpointConfigs : list EndpointConfig)
    : M W (option ResolvedEndpointConfig) :=
  match webhook with
  | None => mret None
  | Some webhook =>
    if has_override webhook then
      resolveFields (wh_CABundle webhook) (wh_ClientTLS webhook) (wh_Authorization webhook) (wh_BasicAuth webhook)
    else if bool_decide (endpointConfigs = []) then mret None
    else
      match webhookURL webhook with
      | Ok effectiveURL =>
        match matchEndpointConfig effectiveURL endpointConfigs with
        | None => mret None
        | Some cfg => resolveFields (ec_CABundle cfg) (ec_ClientTLS cfg) (ec_Authorization cfg) (ec_BasicAuth cfg)
        end
      | Err _ => mret None
      | Panic s => lift (Panic s)
      end
  end.
End resolve.

(** ** Basic authentication, read back *)

(** The inverse of [base64_char], and a decoder for what the encoder writes. *)
Definition base64_value (c : Ascii.ascii) : option nat := String.index 0 (String c "") base64_alphabet.

Definition byte (n : nat) : Ascii.ascii := Ascii.ascii_of_nat n.
Fixpoint base64_DecodeString (s : string) : option string :=
  match s with
  | EmptyString => Some ""
  | String w (String x (String y (String z s))) =>
    w ← base64_value w;
    x ← base64_value x;
    match base64_value y, base64_value z with
    | Some y, Some z =>
      rest ← base64_DecodeString s;
      Some (String (byte (w * 4 + x / 16)) (String (byte (x mod 16 * 16 + y / 4)) (String (byte (y mod 4 * 64 + z)) rest)))
    | Some y, None => Some (String (byte (w * 4 + x / 16)) (String (byte (x mod 16 * 16 + y / 4)) ""))
    | None, _ => Some (String (byte (w * 4 + x / 16)) "")
    end
  | _ => None
  end.

(** The user and the password a server reads from an [Authorization] header. *)
Definition basic_credentials (header : string) : option (string * string) :=
  match header with
  | String "B" (String "a" (String "s" (String "i" (String "c" (String " " encoded))))) =>
    decoded ← base64_DecodeString encoded; strings_Cut ":" decoded
  | _ => None
  end.

Lemma base64_value_char n : n < 64 → base64_value (base64_char n) = Some n.
Proof.
  intros Hn. assert (Hall : forallb (λ n, bool_decide (base64_value (base64_char n) = Some n)) (seq 0 64) = true)
    by (vm_compute; reflexivity).
  rewrite forallb_forall in Hall. specialize (Hall n). rewrite bool_decide_eq_true in Hall.
  apply Hall, in_seq. lia.
Qed.

Lemma base64_value_pad : base64_value "=" = None.
Proof. reflexivity. Qed.

Lemma byte_ascii a n : n = Ascii.nat_of_ascii a → byte n = a.
Proof. intros ->. apply Ascii.ascii_nat_embedding. Qed.

(** Four characters carry three bytes. *)
Ltac sextets :=
  repeat match goal with
  | |- context [Ascii.nat_of_ascii ?a] =>
    lazymatch goal with
    | _ : Ascii.nat_of_ascii a < 256 |- _ => fail
    | _ => pose proof (Ascii.nat_ascii_bounded a)
    end
  end.

Lemma base64_roundtrip s : base64_DecodeString (base64_EncodeToString s) = Some s.
Proof.
  induction s as [s IH] using (induction_ltof1 _ String.length).
  destruct s as [|a [|b [|c s]]]; [done|..]; cbn [base64_EncodeToString base64_DecodeString]; sextets;
    rewrite ?base64_value_char, ?base64_value_pad by lia; cbn [mbind option_bind].
  - do 2 f_equal. apply byte_ascii. lia.
  - f_equal. f_equal; [apply byte_ascii; lia|]. f_equal. apply byte_ascii. lia.
  - rewrite IH by (unfold ltof; simpl; lia). cbn [mbind option_bind]. f_equal.
    f_equal; [apply byte_ascii; lia|]. f_equal; [apply byte_ascii; lia|]. f_equal. apply byte_ascii. lia.
Qed.

Lemma basic_credentials_encoded user password :
  strings_Contains user ":" = false →
  basic_credentials ("Basic " +:+ base64_EncodeToString (user +:+ ":" +:+ password)) = Some (user, password).
Proof.
  intros Hu.
  change ((decoded ← base64_DecodeString (base64_EncodeToString (user +:+ ":" +:+ password)); strings_Cut ":" decoded) =
    Some (user, password)).
  rewrite base64_roundtrip. cbn [mbind option_bind].
  exact (strings_Cut_app ":" user password Hu).
Qed.

Section basic_auth.
Context {W : Type}.
Variable k8sClient : K8sClient W.

(** A header for basic authentication always carries the credentials of the
    secret: a server that decodes it reads the trimmed user name and password
    that the secret holds under the configured keys, and a user name with a
    colon, which no server could tell from the password, is refused. *)
Theorem ResolveBasicAuth_roundtrip spec header w w' :
  ResolveBasicAuth k8sClient (Some spec) w = (Ok header, w') →
  ∃ data username password,
    client_Get_Secret k8sClient (sr_Namespace (basic_SecretRef spec)) (sr_Name (basic_SecretRef spec)) w = (Ok data, w') ∧
    data !! or_default (basic_UsernameKey spec) "username" = Some username ∧
    data !! or_default (basic_PasswordKey spec) "password" = Some password ∧
    strings_Contains username ":" = false ∧
    basic_credentials header = Some (strings_TrimSpace username, strings_TrimSpace password).
Proof.
  unfold ResolveBasicAuth, get_secret_data. intros (data & w1 & Hdata%wrap_errM_Ok & H)%bind_Ok.
  apply bind_Ok in H as (username & w2 & [Hu ->]%lift_Ok & H).
  apply bind_Ok in H as (password & w3 & [Hp ->]%lift_Ok & H).
  unfold secret_key in Hu, Hp.
  destruct (data !! or_default (basic_UsernameKey spec) "username") as [user|] eqn:Hdu; [|done].
  destruct (data !! or_default (basic_PasswordKey spec) "password") as [pass|] eqn:Hdp; [|done].
  injection Hu as ->. injection Hp as ->.
  destruct (strings_Contains username ":") eqn:Hc; [done|]. injection H as <- <-.
  exists data, username, password. split_and!; [done..|].
  apply basic_credentials_encoded. by apply strings_Contains_TrimSpace.
Qed.
End basic_auth.

(** ** The configuration of a host *)

(** A host name, with or without a port.  The brackets of a literal IPv6
    address are left out: [matchEndpointConfig] drops them from the URL and then
    finds no configuration with the default port. *)
Inductive plain_host : string → string → option string → Prop :=
  | plain_name name : strings_Contains name ":" = false → String.get 0 name ≠ Some "["%char → plain_host name name None
  | plain_port name port :
      strings_Contains name ":" = false → String.get 0 name ≠ Some "["%char → all_digits port = true → port ≠ "" →
      plain_host (name +:+ ":" +:+ port) name (Some port).

Definition default_port (scheme : string) : string := if scheme == "https" then "443" else "80".

(** A host with its port spelt out. *)
Definition canonical_host (scheme host : string) : string :=
  match strings_Cut ":" host with
  | Some _ => host
  | None => host +:+ ":" +:+ default_port scheme
  end.

Lemma ToLower_app a b : strings_ToLower (a +:+ b) = strings_ToLower a +:+ strings_ToLower b.
Proof. induction a as [|c a IH]; simpl; [done|]. by rewrite IH. Qed.

Lemma ascii_lower_id c : is_digit c = true ∨ c = ":"%char → ascii_lower c = c.
Proof.
  intros [Hd| ->]; [|done]. unfold is_digit, ascii_lower in *.
  apply andb_prop in Hd as [_ Hd%Nat.leb_le]. by rewrite (proj2 (Nat.leb_gt 65 _)) by lia.
Qed.

Lemma ascii_lower_colon c : (ascii_lower c == ":"%char) = (c == ":"%char).
Proof. by destruct c as [[] [] [] [] [] [] [] []]. Qed.

Lemma ToLower_digits s : all_digits s = true → strings_ToLower s = s.
Proof.
  induction s as [|c s IH]; simpl; [done|]. intros [Hc Hs]%andb_prop.
  rewrite IH by done. by rewrite ascii_lower_id by auto.
Qed.

Lemma Contains_ToLower s : strings_Contains (strings_ToLower s) ":" = strings_Contains s ":".
Proof. induction s as [|c s IH]; simpl; [done|]. by rewrite IH, ascii_lower_colon. Qed.

Lemma digits_no_colon s : all_digits s = true → strings_Contains s ":" = false.
Proof.
  induction s as [|c s IH]; simpl; [done|]. intros [Hc Hs]%andb_prop. rewrite (IH Hs), orb_false_r.
  apply bool_decide_eq_false. by intros ->.
Qed.

Lemma default_port_digits scheme : all_digits (default_port scheme) = true.
Proof. unfold default_port. by case_bool_decide. Qed.

(** The name and the port are determined by the host. *)
Lemma colon_inj a b a' b' :
  strings_Contains a ":" = false → strings_Contains a' ":" = false →
  a +:+ ":" +:+ b = a' +:+ ":" +:+ b' ↔ a = a' ∧ b = b'.
Proof.
  intros Ha Ha'. split; [|by intros [-> ->]]. intros H.
  assert (Some (a, b) = Some (a', b')) as [= -> ->]; [|done].
  rewrite <-(strings_Cut_app ":" a b Ha), <-(strings_Cut_app ":" a' b' Ha'). by f_equal.
Qed.

Lemma colon_absurd a a' b' : strings_Contains a ":" = false → a ≠ a' +:+ ":" +:+ b'.
Proof. intros Ha ->. rewrite !strings_Contains_app in Ha. by rewrite orb_true_r in Ha. Qed.

Lemma cut_last_colon_None s : strings_Contains s ":" = false → cut_last_colon s = None.
Proof.
  induction s as [|c s IH]; simpl; [done|]. intros [Hc Hs]%orb_false_iff. by rewrite (IH Hs), Hc.
Qed.

Lemma cut_last_colon_app a b : strings_Contains b ":" = false → cut_last_colon (a +:+ ":" +:+ b) = Some (a, b).
Proof.
  intros Hb. induction a as [|c a IH].
  - change (match cut_last_colon b with Some (a, b) => Some (String ":" a, b) | None => Some ("", b) end = Some ("", b)).
    by rewrite (cut_last_colon_None _ Hb).
  - change (match cut_last_colon (a +:+ ":" +:+ b) with
            | Some (a, b) => Some (String c a, b)
            | None => if c == ":"%char then Some ("", a +:+ ":" +:+ b) else None
            end = Some (String c a, b)). by rewrite IH.
Qed.

Lemma splitHostPort_plain h name port :
  plain_host h name port → splitHostPort h = (name, default "" port).
Proof.
  assert (∀ name (port : string), String.get 0 name ≠ Some "["%char →
    match name with
    | String c rest =>
      match String.rev rest with
      | String d inner => if (c == "["%char) && (d == "]"%char) then (String.rev inner, port) else (name, port)
      | EmptyString => (name, port)
      end
    | EmptyString => (name, port)
    end = (name, port)) as Hbracket.
  { clear. intros [|c rest] port Hc; [done|]. destruct (String.rev rest); [done|].
    rewrite bool_decide_false; [done|]. intros ->. by apply Hc. }
  intros [name' Hn Hb|name' port' Hn Hb Hd Hne]; unfold splitHostPort.
  - rewrite cut_last_colon_None by done. by apply Hbracket.
  - rewrite cut_last_colon_app by (by apply digits_no_colon). rewrite Hd. by apply Hbracket.
Qed.

Lemma canonical_plain scheme h name port :
  plain_host h name port →
  canonical_host scheme h = name +:+ ":" +:+ default (default_port scheme) port.
Proof.
  intros [name' Hn Hb|name' port' Hn Hb Hd Hne]; unfold canonical_host.
  - by rewrite strings_Cut_None.
  - change (name' +:+ ":" +:+ port') with (name' +:+ String ":" port'). by rewrite (strings_Cut_app ":" name' port' Hn).
Qed.

Lemma plain_lower h name port :
  plain_host h name port → strings_ToLower h = match port with
    | None => strings_ToLower name | Some p => strings_ToLower name +:+ ":" +:+ p end.
Proof.
  intros [name' Hn Hb|name' port' Hn Hb Hd Hne]; [done|]. rewrite !ToLower_app.
  by rewrite (ToLower_digits port').
Qed.

Lemma fold_host_iff scheme h name port h' name' port' :
  plain_host h name port → plain_host h' name' port' →
  strings_EqualFold (canonical_host scheme h) (canonical_host scheme h') = true ↔
  strings_ToLower name = strings_ToLower name' ∧
  default (default_port scheme) port = default (default_port scheme) port'.
Proof.
  intros Hh Hh'. unfold strings_EqualFold. rewrite bool_decide_eq_true.
  rewrite (canonical_plain _ _ _ _ Hh), (canonical_plain _ _ _ _ Hh'), !ToLower_app.
  assert (∀ h name port, plain_host h name port →
    strings_ToLower (default (default_port scheme) port) = default (default_port scheme) port ∧
    strings_Contains (strings_ToLower name) ":" = false) as Hlow.
  { clear. intros h name port []; rewrite Contains_ToLower; split; try done; apply ToLower_digits;
      [apply default_port_digits|done]. }
  destruct (Hlow _ _ _ Hh) as [-> Hc], (Hlow _ _ _ Hh') as [-> Hc'].
  change (strings_ToLower ":") with ":". by apply colon_inj.
Qed.

Lemma endpoint_matches_canonical u c name port name' port' :
  u_Scheme u = "https" ∨ u_Scheme u = "http" →
  plain_host (u_Host u) name port → plain_host (ec_Host c) name' port' →
  endpoint_matches u c = strings_EqualFold (canonical_host (u_Scheme u) (ec_Host c)) (canonical_host (u_Scheme u) (u_Host u)).
Proof.
  intros Hscheme Hu Hc. apply eq_true_iff_eq. rewrite (fold_host_iff _ _ _ _ _ _ _ Hc Hu).
  assert (Hn : strings_Contains (strings_ToLower name) ":" = false) by (rewrite Contains_ToLower; by destruct Hu).
  assert (Hn' : strings_Contains (strings_ToLower name') ":" = false) by (rewrite Contains_ToLower; by destruct Hc).
  assert (Hp : ∀ p, port = Some p → p ≠ "") by (intros p ->; by inversion Hu).
  assert (Hdp : strings_ToLower (default_port (u_Scheme u)) = default_port (u_Scheme u))
    by apply ToLower_digits, default_port_digits.
  assert (Hdef : (if u_Scheme u == "https" then name +:+ ":443"
                  else if u_Scheme u == "http" then name +:+ ":80" else u_Host u) =
                 name +:+ ":" +:+ default_port (u_Scheme u)) by (destruct Hscheme as [-> | ->]; done).
  assert (Hdef2 : ∀ p, ((u_Scheme u == "https") && (p == "443")) || ((u_Scheme u == "http") && (p == "80")) =
                 (p == default_port (u_Scheme u))) by (intros p; destruct Hscheme as [-> | ->]; unfold default_port; simpl; by rewrite ?orb_false_r).
  unfold endpoint_matches, u_Port, u_Hostname. rewrite (splitHostPort_plain _ _ _ Hu). simpl.
  rewrite Hdef, Hdef2. unfold strings_EqualFold.
  destruct port as [p|]; simpl.
  - specialize (Hp p eq_refl). rewrite (bool_decide_false (p = "")) by done. simpl.
    rewrite !orb_true_iff, andb_true_iff, !bool_decide_eq_true, (plain_lower _ _ _ Hu), (plain_lower _ _ _ Hc).
    destruct port' as [p'|]; simpl.
    + rewrite colon_inj by done. split; [|by intros [-> ->]; auto].
      intros [[?|?]|[H%eq_sym _]]; [done..|]. by apply colon_absurd in H.
    + split; [|by intros [-> <-]; auto]. intros [[H|H]|[-> ->]]; [by apply colon_absurd in H..|done].
  - rewrite !orb_true_iff, !bool_decide_eq_true, ToLower_app, ToLower_app, Hdp, (plain_lower _ _ _ Hu), (plain_lower _ _ _ Hc).
    change (strings_ToLower ":") with ":".
    destruct port' as [p'|]; simpl.
    + rewrite colon_inj by done. split; [|by intros [-> ->]; auto].
      intros [[H%eq_sym|?]|?]; [by apply colon_absurd in H|done..].
    + split; [|by intros [-> _]; auto]. intros [[->|H]|?]; [done|by apply colon_absurd in H|done].
Qed.


(** The brackets are lost: a configuration for [\[::1\]:443] is not found. *)
Example ipv6_default_port_missed :
  endpoint_matches {| u_Scheme := "https"; u_Host := "[::1]" |}
    {| ec_Host := "[::1]:443"; ec_CABundle := None; ec_ClientTLS := None; ec_Authorization := None;
       ec_BasicAuth := None |} = false.
Proof. reflexivity. Qed.

(** ** Which secrets are read *)

(** The four settings of a webhook or of an endpoint configuration. *)
Record connection := {
  conn_CABundle : option CABundle;
  conn_ClientTLS : option ClientTLS;
  conn_Authorization : option Authorization;
  conn_BasicAuth : option BasicAuth;
}.
Definition webhook_connection (wh : Webhook) : connection := {|
  conn_CABundle := wh_CABundle wh; conn_ClientTLS := wh_ClientTLS wh;
  conn_Authorization := wh_Authorization wh; conn_BasicAuth := wh_BasicAuth wh |}.
Definition config_connection (c : EndpointConfig) : connection := {|
  conn_CABundle := ec_CABundle c; conn_ClientTLS := ec_ClientTLS c;
  conn_Authorization := ec_Authorization c; conn_BasicAuth := ec_BasicAuth c |}.

(** The settings in force: those of the webhook, if it has any. *)
Definition selected {NL : NetLib} (wh : Webhook) (cfgs : list EndpointConfig) : option connection :=
  if has_override wh then Some (webhook_connection wh)
  else match webhookURL wh with
       | Ok url => config_connection <$> matchEndpointConfig url cfgs
       | _ => None
       end.

(** The secrets and the config map that the settings name. *)
Definition secrets_named (c : connection) : list (string * string) :=
  (match conn_CABundle c with
   | Some ca => match ca_SecretRef ca with Some ref => [(rkr_Namespace ref, rkr_Name ref)] | None => [] end
   | None => []
   end) ++
  (match conn_ClientTLS c with
   | Some tls => [(sr_Namespace (tls_SecretRef tls), sr_Name (tls_SecretRef tls))] | None => [] end) ++
  (match conn_Authorization c with
   | Some a => [(skr_Namespace (auth_SecretRef a), skr_Name (auth_SecretRef a))] | None => [] end) ++
  (match conn_BasicAuth c with
   | Some a => [(sr_Namespace (basic_SecretRef a), sr_Name (basic_SecretRef a))] | None => [] end).
Definition configmap_named (c : connection) : option (string * string) :=
  ca ← conn_CABundle c; ref ← ca_ConfigMapRef ca; Some (rkr_Namespace ref, rkr_Name ref).

Section isolation.
Context {NL : NetLib} {W : Type}.

(** The two clients hold the same under the names the settings mention. *)
Definition agree (k1 k2 : K8sClient W) (c : connection) : Prop :=
  (∀ ns name, (ns, name) ∈ secrets_named c → client_Get_Secret k1 ns name = client_Get_Secret k2 ns name) ∧
  (∀ ns name, configmap_named c = Some (ns, name) → client_Get_ConfigMap k1 ns name = client_Get_ConfigMap k2 ns name).

Lemma ResolveCABundle_agree k1 k2 c : agree k1 k2 c → ResolveCABundle k1 (conn_CABundle c) = ResolveCABundle k2 (conn_CABundle c).
Proof.
  intros [Hs Hm]. unfold secrets_named, configmap_named in *. destruct (conn_CABundle c) as [[inline secret cm]|]; [|done].
  simpl in *. unfold resolveFromSecret, resolveFromConfigMap. destruct inline, secret, cm; simpl; try done.
  - by rewrite Hs by (by left).
  - by rewrite Hm.
Qed.

Lemma ResolveClientTLS_agree k1 k2 c : agree k1 k2 c → ResolveClientTLS k1 (conn_ClientTLS c) = ResolveClientTLS k2 (conn_ClientTLS c).
Proof.
  intros [Hs _]. unfold secrets_named in *. destruct (conn_ClientTLS c) as [tls|]; [|done].
  simpl. unfold get_secret_data. by rewrite Hs by set_solver.
Qed.

Lemma ResolveAuthorization_agree k1 k2 c :
  agree k1 k2 c → ResolveAuthorization k1 (conn_Authorization c) = ResolveAuthorization k2 (conn_Authorization c).
Proof.
  intros [Hs _]. unfold secrets_named in *. destruct (conn_Authorization c) as [a|]; [|done].
  simpl. unfold get_secret_data. by rewrite Hs by set_solver.
Qed.

Lemma ResolveBasicAuth_agree k1 k2 c :
  agree k1 k2 c → ResolveBasicAuth k1 (conn_BasicAuth c) = ResolveBasicAuth k2 (conn_BasicAuth c).
Proof.
  intros [Hs _]. unfold secrets_named in *. destruct (conn_BasicAuth c) as [a|]; [|done].
  simpl. unfold get_secret_data. by rewrite Hs by set_solver.
Qed.

Lemma resolveFields_agree k1 k2 c :
  agree k1 k2 c →
  resolveFields k1 (conn_CABundle c) (conn_ClientTLS c) (conn_Authorization c) (conn_BasicAuth c) =
  resolveFields k2 (conn_CABundle c) (conn_ClientTLS c) (conn_Authorization c) (conn_BasicAuth c).
Proof.
  intros Hc. unfold resolveFields.
  by rewrite (ResolveCABundle_agree _ _ _ Hc), (ResolveClientTLS_agree _ _ _ Hc),
    (ResolveAuthorization_agree _ _ _ Hc), (ResolveBasicAuth_agree _ _ _ Hc).
Qed.

Lemma webhookURL_total wh : (∃ url, webhookURL wh = Ok url) ∨ ∃ e, webhookURL wh = Err e.
Proof. unfold webhookURL. repeat case_match; eauto. Qed.

Lemma ResolveEndpointConfig_selected k (webhook : Webhook) cfgs :
  ResolveEndpointConfig k (Some webhook) cfgs =
  match selected webhook cfgs with
  | Some c => resolveFields k (conn_CABundle c) (conn_ClientTLS c) (conn_Authorization c) (conn_BasicAuth c)
  | None => mret (M:=M W) None
  end.
Proof.
  unfold ResolveEndpointConfig, selected. destruct (has_override webhook); [done|].
  destruct (webhookURL_total webhook) as [[url ->]|[e ->]]; case_bool_decide as Hn; subst; try done.
  - unfold matchEndpointConfig. by destruct (url_Parse url).
  - by destruct (matchEndpointConfig url cfgs).
Qed.

(** A webhook's requests depend on no secret and no config map but those its
    own settings name, or when it has no settings of its own those of the first
    configuration for its host: clients of the cluster that agree on these
    resolve to the same credentials, whatever else they hold, and the other
    configurations are not looked at. *)
Theorem ResolveEndpointConfig_isolated k1 k2 webhook cfgs cfgs' :
  selected webhook cfgs = selected webhook cfgs' →
  (∀ c, selected webhook cfgs = Some c → agree k1 k2 c) →
  ResolveEndpointConfig k1 (Some webhook) cfgs = ResolveEndpointConfig k2 (Some webhook) cfgs'.
Proof.
  intros Hsel Hagree. rewrite !ResolveEndpointConfig_selected, <-Hsel.
  destruct (selected webhook cfgs) as [c|]; [|done]. by apply resolveFields_agree, Hagree.
Qed.
End isolation.

(** ** Concrete endpoints *)
Section examples.

(** A parser for [scheme://host/path]. *)
Definition simple_url_Parse (s : string) : option URL :=
  '(scheme, rest) ← strings_Cut ":" s;
  match rest with
  | String "/" (String "/" rest) =>
    Some {| u_Scheme := scheme; u_Host := match strings_Cut "/" rest with Some (host, _) => host | None => rest end |}
  | _ => None
  end.
#[local] Instance simple_net : NetLib :=
  {| url_Parse := simple_url_Parse; Certificate := string; X509KeyPair := λ cert _, Ok cert |}.

Definition secrets_client (secrets : gmap (string * string) (gmap string string)) : K8sClient unit := {|
  client_Get_Secret := λ ns name,
    match secrets !! (ns, name) with
    | Some data => mret data
    | None => throw (StatusError "NotFound" name)
    end;
  client_Get_ConfigMap := λ _ name, throw (StatusError "NotFound" name);
|}.
Definition demo_secrets : gmap (string * string) (gmap string string) :=
  {[ ("ns", "login") := {[ "username" := "anne"; "password" := "secret " ]} ]}.
Definition login : BasicAuth :=
  {| basic_SecretRef := {| sr_Name := "login"; sr_Namespace := "ns" |};
     basic_UsernameKey := ""; basic_PasswordKey := "" |}.

Lemma ResolveBasicAuth_roundtrip_witness :
  ∃ header, (ResolveBasicAuth (secrets_client demo_secrets) (Some login) ()).1 = Ok header ∧
    basic_credentials header = Some ("anne", "secret").
Proof.
  destruct (ResolveBasicAuth (secrets_client demo_secrets) (Some login) ()) as [r []] eqn:E.
  assert (Hok : is_Ok r = true) by (change (is_Ok (r, ()).1 = true); rewrite <-E; by vm_compute).
  destruct r as [header| |]; [|done..]. exists header. split; [done|].
  destruct (ResolveBasicAuth_roundtrip _ _ _ _ _ E) as (data & user & pass & Hd & Hu & Hp & _ & Hc).
  assert (Some data = Some {[ "username" := "anne"; "password" := "secret " ]}) as [= ->].
  { assert (Hd' := f_equal fst Hd). unfold secrets_client in Hd'. simpl in Hd'. by injection Hd' as <-. }
  assert (Some user = Some "anne") as [= ->] by (rewrite <-Hu; reflexivity).
  assert (Some pass = Some "secret ") as [= ->] by (rewrite <-Hp; reflexivity).
  exact Hc.
Defined.

Definition host_config (host : string) : EndpointConfig :=
  {| ec_Host := host; ec_CABundle := None; ec_ClientTLS := None; ec_Authorization := None;
     ec_BasicAuth := Some login |}.


Definition demo_webhook : Webhook := {|
  wh_URL := Some "https://hooks.example.com/sync"; wh_Timeout := None; wh_Etag := None; wh_Path := None;
  wh_Service := None; wh_ResponseUnmarshallMode := None; wh_CABundle := None; wh_ClientTLS := None;
  wh_Authorization := None; wh_BasicAuth := None |}.

(** Another secret, and another configuration, change nothing. *)
Lemma ResolveEndpointConfig_isolated_witness :
  ResolveEndpointConfig (secrets_client demo_secrets) (Some demo_webhook) [host_config "hooks.example.com"] =
  ResolveEndpointConfig (secrets_client (<[("ns", "other") := ∅]> demo_secrets)) (Some demo_webhook)
    [host_config "other"; host_config "hooks.example.com"].
Proof.
  apply (ResolveEndpointConfig_isolated (W:=unit)).
  - reflexivity.
  - intros c Hc. assert (Some c = Some (config_connection (host_config "hooks.example.com"))) as [= ->]
      by (rewrite <-Hc; reflexivity).
    split; [|by intros ns name]. intros ns name Hin.
    change ((ns, name) ∈ [("ns", "login")]) in Hin. apply list_elem_of_singleton in Hin as [= -> ->]. reflexivity.
Defined.
End examples.
