(* ===== verification/Webhook.v ===== *)
(** * Calling webhooks: [pkg/hooks/webhook.go], [webhook_etag.go],
      [webhook_plain.go], [errors.go] and [hooks.go]

    An executor sends one request per call: it adds the headers, classifies the
    status of the response (429 becomes a retry after some seconds), takes the
    body from the response or from the cache of tagged responses, and decodes
    it.  [NewHook] wraps an executor into the interface of the controllers.  The
    HTTP client, the cache, the clock and the JSON encoding are the libraries';
    between the two accesses to the cache of one call, others may run. *)
From Stdlib Require Import SpecFloat.
From S2P Require Import Prelude Value K8s K8sInst Types World Worker Endpoint ParentController.
From stdpp Require Import options.

(** ** Headers *)
Definition ascii_upper (c : Ascii.ascii) : Ascii.ascii :=
  let n := Ascii.nat_of_ascii c in
  if (97 <=? n)%nat && (n <=? 122)%nat then Ascii.ascii_of_nat (n - 32) else c.

(** [textproto.CanonicalMIMEHeaderKey]: upper case at the start of a word. *)
Fixpoint canonical_key (start : bool) (s : string) : string :=
  match s with
  | EmptyString => EmptyString
  | String c s => String (if start then ascii_upper c else ascii_lower c) (canonical_key (c == "-"%char) s)
  end.

(** [http.Header], with one value per key. *)
Abbreviation Header := (gmap string string).
Definition Header_Set (key value : string) (h : Header) : Header := <[canonical_key true key := value]> h.
Definition Header_Get (h : Header) (key : string) : string := default "" (h !! canonical_key true key).

Definition headerIfNoneMatch : string := "If-None-Match".
Definition headerETag : string := "ETag".

Record http_Request := {
  req_Method : string;
  req_URL : string;
  req_Header : Header;
  req_Body : string;
}.
Record http_Response := {
  resp_StatusCode : Z;
  resp_Header : Header;
  (** [io.ReadAll(response.Body)] *)
  resp_Body : res string;
}.
Definition StatusOK : Z := 200.
Definition StatusNotModified : Z := 304.
Definition StatusPreconditionFailed : Z := 412.

(** [HttpClientInterface] *)
Record HttpClient (W : Type) := { Do : http_Request → M W http_Response }.
#[global] Arguments Do {W}.

(** [http.RoundTripper], and the fields of [http.Client] that somebody sets; a
    nil transport is the default one. *)
Record RoundTripper (W : Type) := { RoundTrip : http_Request → M W http_Response }.
#[global] Arguments RoundTrip {W}.
Record http_Client (W : Type) := { Timeout : Z; Transport : option (RoundTripper W) }.
#[global] Arguments Timeout {W}.
#[global] Arguments Transport {W}.
#[global] Arguments Build_http_Client {W}.

(** [cache.Cache]: an entry may expire at any time. *)
Record Cache (K V W : Type) := {
  cache_Get : K → M W (option V);
  cache_Set : K → V → M W unit;
}.
#[global] Arguments cache_Get {K V W}.
#[global] Arguments cache_Set {K V W}.

(** ** Seconds until a retry *)

(** [strconv.Atoi] with the error ignored: 0 for what is no number, the nearest
    [int64] for a number out of range. *)
Fixpoint parse_digits (acc : Z) (s : string) : option Z :=
  match s with
  | EmptyString => Some acc
  | String c s =>
    if is_digit c then parse_digits (acc * 10 + (Z.of_nat (Ascii.nat_of_ascii c) - 48)) s else None
  end.
Definition Atoi (s : string) : Z :=
  let '(sign, digits) :=
    match s with
    | String "-" s => ((-1)%Z, s)
    | String "+" s => (1%Z, s)
    | _ => (1%Z, s)
    end in
  if digits == "" then 0%Z
  else match parse_digits 0 digits with
       | None => 0%Z
       | Some n => Z.max (- 2 ^ 63) (Z.min (2 ^ 63 - 1) (sign * n))
       end.

(** Binary64 arithmetic: [float64(n)], and [int(math.Ceil(f))]. *)
Definition float64_of_Z (z : Z) : spec_float := binary_normalize 53 1024 z 0 false.
Definition ceil_float64 (f : spec_float) : Z :=
  match f with
  | S754_finite s m e =>
    let v := if s then Zneg m else Zpos m in
    if (0 <=? e)%Z then (v * 2 ^ e)%Z else (- ((- v) / 2 ^ (- e)))%Z
  | _ => 0%Z
  end.

(** [d.Seconds()] *)
Definition Duration_Seconds (d : Z) : spec_float :=
  SFadd 53 1024 (float64_of_Z (Z.quot d time_Second))
    (SFdiv 53 1024 (float64_of_Z (Z.rem d time_Second)) (float64_of_Z time_Second)).
(** [t.Sub(u)], for times in nanoseconds: it saturates. *)
Definition Time_Sub (t u : Z) : Z := Z.max (- 2 ^ 63) (Z.min (2 ^ 63 - 1) (t - u)).

Example ceil_examples :
  ceil_float64 (Duration_Seconds 1500000000) = 2%Z ∧ ceil_float64 (Duration_Seconds (-1500000000)) = (-1)%Z ∧
  ceil_float64 (Duration_Seconds 30000000000) = 30%Z.
Proof. repeat split. Qed.

(** ** Configuration *)
Definition ResponseUnmarshallModeLoose : string := "loose".
Definition ResponseUnmarshallModeStrict : string := "strict".

Definition responseUnmarshallMode (mode : option string) (version : option HookVersion) : string :=
  match mode with
  | None =>
    match version with
    | Some v => if v == HookVersionV2 then ResponseUnmarshallModeStrict else ResponseUnmarshallModeLoose
    | None => ResponseUnmarshallModeLoose
    end
  | Some mode => mode
  end.

Definition isEtagEnabled (webhook : Webhook) : bool :=
  match wh_Etag webhook with Some e => default false (etag_Enabled e) | None => false end.

(** The timeout in nanoseconds; an invalid one is reported, and the default used. *)
Definition webhookTimeout (webhook : Webhook) : Z * option error :=
  match wh_Timeout webhook with
  | None => ((10 * time_Second)%Z, None)
  | Some d =>
    if (d <=? 0)%Z
    then ((10 * time_Second)%Z, Some (ErrorString ("invalid client config: timeout must be a non-zero positive duration." +:+
                                                   " Defaulting to 10 seconds")))
    else (d, None)
  end.

Record tlsConfig `{!NetLib} := {
  tls_MinVersion : Z;
  tls_RootCAs : option string;
  tls_Certificates : list Certificate;
}.
Definition VersionTLS12 : Z := 771.

Record eTagEntry := { e_Etag : string; e_Response : string }.
Record eTagKey := { k_kind : string; k_namespace : string; k_name : string }.
#[global] Instance eTagKey_eq_dec : EqDecision eTagKey.
Proof. solve_decision. Defined.
#[global] Instance eTagKey_countable : Countable eTagKey.
Proof.
  refine (inj_countable' (λ k, (k_kind k, k_namespace k, k_name k))
    (λ p, {| k_kind := p.1.1; k_namespace := p.1.2; k_name := p.2 |}) _). by intros [].
Defined.

(** What is used of Go's libraries and of the cache's: the default transport
    with its minimal TLS version, its clone with a TLS configuration, the [Do] of
    an [http.Client], [AppendCertsFromPEM], [time.Parse(time.RFC1123, s)] in
    nanoseconds, and [cache.New]. *)
Class HttpLib (W : Type) `{!NetLib} := {
  DefaultTransport_MinVersion : Z;
  AppendCertsFromPEM : string → bool;
  DefaultTransport : RoundTripper W;
  tls_Transport : tlsConfig → RoundTripper W;
  Client_Do : http_Client W → HttpClient W;
  time_Parse_RFC1123 : string → option Z;
  time_Now : M W Z;
  cache_New : Z → Z → Cache eTagKey eTagEntry W;
}.

(** ** The executor *)
Inductive webhookAbstract (W : Type) :=
  | webhookExecutorPlain
  | webhookExecutorEtag (etagCache : Cache eTagKey eTagEntry W).
#[global] Arguments webhookExecutorPlain {W}.
#[global] Arguments webhookExecutorEtag {W}.

Record webhookExecutor (W : Type) := {
  we_client : HttpClient W;
  we_url : string;
  we_hookType : string;
  we_hookVersion : option HookVersion;
  we_webhookAbstract : webhookAbstract W;
  we_responseUnmarshallMode : string;
  we_authHeader : string;
  we_now : M W Z;
}.
#[global] Arguments we_client {W}.
#[global] Arguments we_url {W}.
#[global] Arguments we_hookType {W}.
#[global] Arguments we_hookVersion {W}.
#[global] Arguments we_webhookAbstract {W}.
#[global] Arguments we_responseUnmarshallMode {W}.
#[global] Arguments we_authHeader {W}.
#[global] Arguments we_now {W}.

Section executor.
Context {API : Apimachinery} {NL : NetLib} {W : Type} {HL : HttpLib W}.
Context {Request Response : Type}.
(** [k8sjson.Marshal] and [GetRootObject] of the request type, and
    [kjson.UnmarshalStrict] into the response type: the response with the
    strictness errors, or the error. *)
Variable Marshal : Request → res string.
Variable GetRootObject : Request → option object.
Variable UnmarshalStrict : string → res (Response * list error).
(** [metrics.InstrumentClientWithConstLabels]; see [Metrics.v] *)
Variable InstrumentClient : string → string → string → http_Client W → string → M W (http_Client W).

(** A nil object panics. *)
Definition getKeyFromObject (obj : option object) : res eTagKey :=
  obj ← deref obj;
  mret {| k_kind := GetKind obj; k_namespace := GetNamespace obj; k_name := GetName obj |}.

Definition enrichHeaders (w : webhookAbstract W) (header : Header) (webhookRequest : Request) : M W Header :=
  match w with
  | webhookExecutorPlain => mret header
  | webhookExecutorEtag etagCache =>
    cacheKey ← lift (getKeyFromObject (GetRootObject webhookRequest));
    cacheEntry ← cache_Get etagCache cacheKey;
    mret (match cacheEntry with
          | Some entry => Header_Set headerIfNoneMatch (e_Etag entry) header
          | None => header
          end)
  end.

Definition isStatusSupported (w : webhookAbstract W) (request : http_Request) (response : http_Response) : bool :=
  match w with
  | webhookExecutorPlain => resp_StatusCode response == StatusOK
  | webhookExecutorEtag _ =>
    if resp_StatusCode response == StatusOK then true
    else if (resp_StatusCode response == StatusNotModified) || (resp_StatusCode response == StatusPreconditionFailed)
    then Header_Get (req_Header request) headerIfNoneMatch != ""
    else false
  end.

Definition adjustResponse (w : webhookAbstract W) (request : http_Request) (webhookRequest : Request)
    (responseBody : string) (response : http_Response) : M W string :=
  match w with
  | webhookExecutorPlain => mret responseBody
  | webhookExecutorEtag etagCache =>
    cacheKey ← lift (getKeyFromObject (GetRootObject webhookRequest));
    if (Header_Get (req_Header request) headerIfNoneMatch != "") &&
       ((resp_StatusCode response == StatusNotModified) || (resp_StatusCode response == StatusPreconditionFailed))
    then
      cacheEntry ← cache_Get etagCache cacheKey;
      match cacheEntry with
      | None => throw (ErrorString ("cannot find cached response for cache key: {" +:+ k_kind cacheKey +:+ " " +:+
                                    k_namespace cacheKey +:+ " " +:+ k_name cacheKey +:+ "}"))
      | Some entry => mret (e_Response entry)
      end
    else
      let eTag := Header_Get (resp_Header response) headerETag in
      (if eTag != "" then cache_Set etagCache cacheKey {| e_Etag := eTag; e_Response := responseBody |} else mret ()) ;;
      mret responseBody
  end.

Definition effectiveHookVersion (w : webhookExecutor W) : HookVersion :=
  match we_hookVersion w with
  | Some v => if v != "" then v else HookVersionV1
  | None => HookVersionV1
  end.

Definition shouldReportStrictErrors (w : webhookExecutor W) : bool :=
  we_responseUnmarshallMode w == ResponseUnmarshallModeStrict.

(** The seconds of a [Retry-After] header: a date, or a number. *)
Definition retry_after (w : webhookExecutor W) (retryAfter : string) : M W Z :=
  match time_Parse_RFC1123 retryAfter with
  | None => mret (Atoi retryAfter)
  | Some nextTime =>
    now ← we_now w;
    mret (ceil_float64 (Duration_Seconds (Time_Sub nextTime now)))
  end.

(** [http.NewRequestWithContext], with the headers. *)
Definition build_request (w : webhookExecutor W) (webhookRequest : Request) (requestBody : string) : M W http_Request :=
  match url_Parse (we_url w) with
  | None => throw (ErrorString ("parse " +:+ quote (we_url w)))
  | Some _ =>
    let header := Header_Set "Content-Type" "application/json" ∅ in
    let header := if we_authHeader w != "" then Header_Set "Authorization" (we_authHeader w) header else header in
    header ← enrichHeaders (we_webhookAbstract w) header webhookRequest;
    mret {| req_Method := "POST"; req_URL := we_url w; req_Header := header; req_Body := requestBody |}
  end.

Definition decode_response (w : webhookExecutor W) (responseBody : string) : res Response :=
  '(webhookResponse, strictErrs) ←
     wrap_err ("can't unmarshal webhookResponse (version: " +:+ effectiveHookVersion w +:+ ", type: " +:+
               we_hookType w +:+ ")") (UnmarshalStrict responseBody);
  match NewAggregate strictErrs with
  | Err strictAggregateErr =>
    if shouldReportStrictErrors w
    then Err (WrapError ("strict validation failed for " +:+ effectiveHookVersion w +:+ " webhookResponse (type: " +:+
                         we_hookType w +:+ ", mode: " +:+ we_responseUnmarshallMode w +:+ ")") strictAggregateErr)
    else mret webhookResponse
  | _ => mret webhookResponse
  end.

Definition Call (w : webhookExecutor W) (webhookRequest : Request) : M W Response :=
  requestBody ← lift (wrap_err "can't marshal request" (Marshal webhookRequest));
  request ← build_request w webhookRequest requestBody;
  response ← wrap_errM "http error" (Do (we_client w) request);
  if resp_StatusCode response == 429%Z then
    afterSecond ← retry_after w (Header_Get (resp_Header response) "Retry-After");
    throw (TooManyRequestError afterSecond)
  else
    responseBody ← lift (wrap_err "can't read response body" (resp_Body response));
    if negb (isStatusSupported (we_webhookAbstract w) request response)
    then throw (ErrorString ("unsupported status code: " +:+ pretty (resp_StatusCode response) +:+ " body: " +:+ responseBody))
    else
      responseBody ← adjustResponse (we_webhookAbstract w) request webhookRequest responseBody response;
      lift (decode_response w responseBody).

(** ** Construction *)
Definition buildTLSTransport (caBundle : string) (clientCert : option Certificate) : res tlsConfig :=
  let minVersion := Z.max DefaultTransport_MinVersion VersionTLS12 in
  if (caBundle != "") && negb (AppendCertsFromPEM caBundle)
  then Err (ErrorString "caBundle: no valid PEM-encoded certificates found in the provided CA bundle")
  else mret {| tls_MinVersion := minVersion;
               tls_RootCAs := if caBundle != "" then Some caBundle else None;
               tls_Certificates := match clientCert with Some c => [c] | None => [] end |}.

Definition newWebhookExecutor (client : HttpClient W) (url hookType : string) (hookVersion : option HookVersion)
    (unmarshallMode : option string) (abstract_ : webhookAbstract W) (authHeader : string) (now : M W Z)
    : webhookExecutor W := {|
  we_client := client;
  we_url := url;
  we_hookType := hookType;
  we_hookVersion := hookVersion;
  we_webhookAbstract := abstract_;
  we_responseUnmarshallMode := responseUnmarshallMode unmarshallMode hookVersion;
  we_authHeader := authHeader;
  we_now := now;
|}.

(** Both durations are guarded by the first field. *)
Definition new_abstract (webhook : Webhook) : res (webhookAbstract W) :=
  if isEtagEnabled webhook then
    etag ← deref (wh_Etag webhook);
    defaultExpiration ←
      (match etag_CacheTimeoutSeconds etag with Some timeout => mret (seconds timeout) | None => mret 0%Z end);
    cleanupInterval ←
      (match etag_CacheTimeoutSeconds etag with
       | Some _ => cleanup ← deref (etag_CacheCleanupSeconds etag); mret (seconds cleanup)
       | None => mret 0%Z
       end);
    mret (webhookExecutorEtag (cache_New defaultExpiration cleanupInterval))
  else mret webhookExecutorPlain.

Definition new_transport (caBundle : string) (clientCert : option Certificate) : res (option tlsConfig) :=
  if (caBundle != "") || bool_decide (is_Some clientCert)
  then Some <$> buildTLSTransport caBundle clientCert else mret None.

Definition NewWebhookExecutor (webhook : option Webhook) (hookVersion : option HookVersion)
    (controllerName controllerType hookType : string) (conn : option ResolvedEndpointConfig)
    : M W (option (webhookExecutor W)) :=
  match webhook with
  | None => mret None
  | Some webhook =>
    url ← lift (webhookURL webhook);
    let '(hookTimeout, _) := webhookTimeout webhook in
    let caBundle := match conn with Some c => rec_CABundle c | None => "" end in
    let clientCert := match conn with Some c => rec_ClientCert c | None => None end in
    let authHeader := match conn with Some c => rec_AuthHeader c | None => "" end in
    transport ← lift (new_transport caBundle clientCert);
    let client := {| Timeout := hookTimeout; Transport := tls_Transport <$> transport |} in
    client ← InstrumentClient controllerName controllerType hookType client url;
    abstract_ ← lift (new_abstract webhook);
    mret (Some (newWebhookExecutor (Client_Do client) url hookType hookVersion (wh_ResponseUnmarshallMode webhook) abstract_
                  authHeader time_Now))
  end.

(** [hookExecutorImpl]: an executor, or nil. *)
Record hookExecutorImpl := { hei_webhookExecutor : option (webhookExecutor W) }.

Definition NewHook (hook : option Hook) (controllerName controllerType hookType : string)
    (conn : option ResolvedEndpointConfig) : M W hookExecutorImpl :=
  match hook with
  | Some hook =>
    executor ← NewWebhookExecutor (hook_Webhook hook) (hook_Version hook) controllerName controllerType hookType conn;
    mret {| hei_webhookExecutor := executor |}
  | None => mret {| hei_webhookExecutor := None |}
  end.

Definition hookExecutorImpl_IsEnabled (h : hookExecutorImpl) : bool := bool_decide (is_Some (hei_webhookExecutor h)).
Definition hookExecutorImpl_GetVersion (h : hookExecutorImpl) : HookVersion :=
  match hei_webhookExecutor h with Some w => effectiveHookVersion w | None => HookVersionV1 end.
Definition hookExecutorImpl_Call (h : hookExecutorImpl) (request : Request) : M W Response :=
  executor ← lift (deref (hei_webhookExecutor h)); Call executor request.
End executor.

(** ** What a call returns *)
Section calls.
Context {API : Apimachinery} {NL : NetLib} {W : Type} {HL : HttpLib W}.
Context {Request Response : Type}.
Variable Marshal : Request → res string.
Variable GetRootObject : Request → option object.
Variable UnmarshalStrict : string → res (Response * list error).
Abbreviation Call := (Call Marshal GetRootObject UnmarshalStrict).
Implicit Types ex : webhookExecutor W.

Lemma build_request_Ok ex r body s request s' :
  build_request GetRootObject ex r body s = (Ok request, s') →
  req_Body request = body ∧ req_URL request = we_url ex ∧
  ∃ header, enrichHeaders GetRootObject (we_webhookAbstract ex) header r s = (Ok (req_Header request), s') ∧
    header !! "If-None-Match" = None ∧
    header !! "Authorization" = (if we_authHeader ex == "" then None else Some (we_authHeader ex)).
Proof.
  unfold build_request. destruct (url_Parse (we_url ex)); [|done].
  intros (header & s1 & Hh & H)%bind_Ok. injection H as <- <-. simpl. split_and!; [done..|].
  eexists. split; [exact Hh|]. unfold Header_Set.
  by destruct (we_authHeader ex == "").
Qed.

Lemma decode_response_Ok ex body resp :
  decode_response UnmarshalStrict ex body = Ok resp →
  ∃ errs, UnmarshalStrict body = Ok (resp, errs) ∧ (shouldReportStrictErrors ex = true → errs = []).
Proof.
  unfold decode_response. intros ([resp' errs] & Hu & H)%bind_res_Ok. exists errs.
  destruct (UnmarshalStrict body) as [p| |]; [|done..]. injection Hu as ->.
  destruct errs as [|e errs]; simpl in H; [by injection H as ->|].
  destruct (shouldReportStrictErrors ex); [done|]. by injection H as ->.
Qed.

(** The steps of a call that succeeds. *)
Lemma Call_Ok ex r s resp s' :
  Call ex r s = (Ok resp, s') →
  ∃ body request response raw s1 s2 final,
    Marshal r = Ok body ∧ build_request GetRootObject ex r body s = (Ok request, s1) ∧
    Do (we_client ex) request s1 = (Ok response, s2) ∧ resp_StatusCode response ≠ 429%Z ∧
    resp_Body response = Ok raw ∧ isStatusSupported (we_webhookAbstract ex) request response = true ∧
    adjustResponse GetRootObject (we_webhookAbstract ex) request r raw response s2 = (Ok final, s') ∧
    decode_response UnmarshalStrict ex final = Ok resp.
Proof.
  unfold Webhook.Call. intros (body & s0 & [Hm ->]%lift_Ok & H)%bind_Ok.
  apply bind_Ok in H as (request & s1 & Hreq & H).
  apply bind_Ok in H as (response & s2 & Hdo%wrap_errM_Ok & H).
  case_bool_decide as H429.
  { apply bind_Ok in H as (n & s3 & _ & H). done. }
  apply bind_Ok in H as (raw & s3 & [Hraw <-]%lift_Ok & H).
  destruct (isStatusSupported _ _ _) eqn:Hst; simpl in H; [|done].
  apply bind_Ok in H as (final & s4 & Hadj & [Hdec ->]%lift_Ok).
  exists body, request, response, raw, s1, s2, final. split_and!; try done.
  - by destruct (Marshal r); [injection Hm as ->|..].
  - by destruct (resp_Body response); [injection Hraw as ->|..].
Qed.



(** ** Cached responses *)

(** The cache as a map: a read finds the entry or, once it has expired,
    nothing; a write stores one entry; and no entry appears by itself. *)
Class CacheLaws {K V} `{Countable K} (cache : Cache K V W) (view : W → gmap K V) : Prop := {
  cache_Get_spec k s : ∃ v s', cache_Get cache k s = (Ok v, s') ∧ (v = None ∨ v = view s !! k) ∧ view s' ⊆ view s;
  cache_Set_spec k v s : ∃ s', cache_Set cache k v s = (Ok (), s') ∧ view s' ⊆ <[k := v]> (view s);
}.

(** Entity tags name the representations of a resource: [tagged k t] is the body
    that the server has tagged [t] for the object [k]. *)
Variable tagged : eTagKey → string → string.

(** What the cache holds are tagged bodies. *)
Definition honest (cached : gmap eTagKey eTagEntry) : Prop :=
  ∀ k e, cached !! k = Some e → e_Response e = tagged k (e_Etag e).

(** The server tags its answers truthfully. *)
Definition truthful (k : eTagKey) (response : http_Response) : Prop :=
  resp_StatusCode response = StatusOK → ∀ body, resp_Body response = Ok body →
  Header_Get (resp_Header response) headerETag ≠ "" →
  body = tagged k (Header_Get (resp_Header response) headerETag).

(** The body that a response stands for. *)
Definition intended (k : eTagKey) (request : http_Request) (response : http_Response) : res string :=
  if resp_StatusCode response == StatusOK then resp_Body response
  else Ok (tagged k (Header_Get (req_Header request) headerIfNoneMatch)).

Lemma honest_subseteq c c' : honest c → c' ⊆ c → honest c'.
Proof. intros Hc Hsub k e Hk. apply Hc. by eapply lookup_weaken. Qed.

Section etag.
Context (etagCache : Cache eTagKey eTagEntry W) (view : W → gmap eTagKey eTagEntry) {CaL : CacheLaws etagCache view}.

(** The tag that was sent is that of the cached entry, if it is still there. *)
Lemma enrichHeaders_etag header r k s header' s' :
  getKeyFromObject (GetRootObject r) = Ok k →
  header !! "If-None-Match" = None →
  enrichHeaders GetRootObject (webhookExecutorEtag etagCache) header r s = (Ok header', s') →
  view s' ⊆ view s ∧
  (Header_Get header' headerIfNoneMatch ≠ "" →
   ∃ e, view s !! k = Some e ∧ e_Etag e = Header_Get header' headerIfNoneMatch).
Proof using All.
  intros Hk Hnone. unfold enrichHeaders. rewrite Hk. intros H.
  destruct (cache_Get_spec (cache:=etagCache) (view:=view) k s) as (v & s1 & Hget & Hv & Hsub).
  unfold mbind, M_bind, lift in H. rewrite Hget in H. cbn [mret M_ret] in H. injection H as <- <-. split; [done|].
  unfold Header_Get, Header_Set. change (canonical_key true headerIfNoneMatch) with "If-None-Match".
  destruct v as [e|]; [|by rewrite Hnone]. intros _. exists e. rewrite lookup_insert_eq.
  destruct Hv as [?|<-]; done.
Qed.

Lemma adjustResponse_etag request r k raw response s final s' :
  getKeyFromObject (GetRootObject r) = Ok k →
  honest (view s) →
  truthful k response →
  resp_Body response = Ok raw →
  isStatusSupported (webhookExecutorEtag etagCache) request response = true →
  (∀ e, view s !! k = Some e → Header_Get (req_Header request) headerIfNoneMatch ≠ "" →
        e_Etag e = Header_Get (req_Header request) headerIfNoneMatch) →
  adjustResponse GetRootObject (webhookExecutorEtag etagCache) request r raw response s = (Ok final, s') →
  intended k request response = Ok final ∧ honest (view s').
Proof using All.
  intros Hk Hhon Htruth Hraw Hst Hsent. unfold adjustResponse. rewrite Hk. unfold mbind at 1, M_bind, lift. simpl.
  unfold isStatusSupported in Hst. unfold intended, StatusNotModified, StatusPreconditionFailed, StatusOK in *.
  case_bool_decide as H200.
  - rewrite H200. simpl. rewrite andb_false_r.
    destruct (decide (Header_Get (resp_Header response) headerETag = "")) as [->|Hne]; simpl.
    { intros [= <- <-]. done. }
    rewrite bool_decide_false by done. simpl.
    destruct (cache_Set_spec (cache:=etagCache) (view:=view) k
      {| e_Etag := Header_Get (resp_Header response) headerETag; e_Response := raw |} s) as (s1 & Hset & Hsub).
    unfold mbind, M_bind. rewrite Hset. intros [= <- <-]. split; [done|].
    eapply honest_subseteq; [|exact Hsub]. intros k' e. destruct (decide (k' = k)) as [->|].
    + rewrite lookup_insert_eq. intros [= <-]. by apply Htruth.
    + rewrite lookup_insert_ne by done. apply Hhon.
  - destruct (_ || _); [|done]. apply negb_true_iff, bool_decide_eq_false in Hst.
    rewrite bool_decide_false by done. simpl.
    destruct (cache_Get_spec (cache:=etagCache) (view:=view) k s) as (v & s1 & Hget & Hv & Hsub).
    unfold mbind, M_bind. rewrite Hget. destruct v as [e|]; [|done]. intros [= <- <-].
    destruct Hv as [|He]; [done|]. symmetry in He. split; [|by eapply honest_subseteq].
    f_equal. rewrite (Hhon _ _ He). by rewrite (Hsent _ He Hst).
Qed.

(** With an honest server, and when nobody else calls about the same object
    meanwhile, a call through the cache of tagged responses decodes the body
    that the response stands for, as if it had been sent in full, and leaves
    only such bodies in the cache, however entries expire. *)
Theorem etag_Call_intended ex r k s resp s' :
  we_webhookAbstract ex = webhookExecutorEtag etagCache →
  getKeyFromObject (GetRootObject r) = Ok k →
  honest (view s) →
  (∀ request t response t', Do (we_client ex) request t = (Ok response, t') →
    truthful k response ∧ view t' ⊆ view t) →
  Call ex r s = (Ok resp, s') →
  ∃ request s1 response s2 final,
    Do (we_client ex) request s1 = (Ok response, s2) ∧
    intended k request response = Ok final ∧
    decode_response UnmarshalStrict ex final = Ok resp ∧
    honest (view s').
Proof using All.
  intros Hex Hk Hhon Hserver
    (body & request & response & raw & s1 & s2 & final & _ & Hreq & Hdo & _ & Hraw & Hst & Hadj & Hdec)%Call_Ok.
  apply build_request_Ok in Hreq as (_ & _ & header & Hh & Hnone & _). rewrite Hex in *.
  destruct (enrichHeaders_etag _ _ _ _ _ _ Hk Hnone Hh) as [Hsub1 Hsent].
  destruct (Hserver _ _ _ _ Hdo) as [Htruth Hsub2].
  assert (Hsub : view s2 ⊆ view s) by (by etransitivity).
  destruct (adjustResponse_etag request r k raw response s2 final s') as [Hint Hhon']; try done.
  - by eapply honest_subseteq.
  - intros e He Hne. destruct (Hsent Hne) as (e' & He' & <-).
    pose proof (lookup_weaken _ _ _ _ He Hsub) as He2. by rewrite He' in He2; injection He2 as ->.
  - exists request, s1, response, s2, final. split_and!; done.
Qed.
End etag.
End calls.

(** ** Construction *)
Section construction.
Context {API : Apimachinery} {NL : NetLib} {W : Type} {HL : HttpLib W}.
Variable InstrumentClient : string → string → string → http_Client W → string → M W (http_Client W).

Lemma new_transport_no_panic ca cert s : new_transport ca cert ≠ Panic s.
Proof. unfold new_transport, buildTLSTransport. repeat (case_match; simpl); done. Qed.

Lemma new_abstract_cases webhook :
  (∃ a, new_abstract webhook = Ok a) ∨
  (∃ s, new_abstract webhook = Panic s) ∧
  ∃ etag timeout, wh_Etag webhook = Some etag ∧ etag_Enabled etag = Some true ∧
    etag_CacheTimeoutSeconds etag = Some timeout ∧ etag_CacheCleanupSeconds etag = None.
Proof.
  unfold new_abstract, isEtagEnabled. destruct (wh_Etag webhook) as [[[[]|] [timeout|] [cleanup|]]|]; simpl; eauto.
  right. split; [by eexists|]. by eexists _, _.
Qed.

(** The one way to crash the construction of a hook is a cache configuration
    that sets the timeout of the entries but not the interval of their cleanup:
    the guard of the second looks at the first.  A hook without a webhook is
    disabled, and any other configuration gives an executor or an error. *)
Theorem NewHook_panics hook name kind hookType conn w :
  (∀ c k h client url w s, (InstrumentClient c k h client url w).1 ≠ Panic s) →
  (∃ s, (NewHook InstrumentClient hook name kind hookType conn w).1 = Panic s) →
  ∃ h webhook etag timeout, hook = Some h ∧ hook_Webhook h = Some webhook ∧ wh_Etag webhook = Some etag ∧
    etag_Enabled etag = Some true ∧ etag_CacheTimeoutSeconds etag = Some timeout ∧
    etag_CacheCleanupSeconds etag = None.
Proof.
  intros Hinst [s H]. destruct hook as [[version [webhook|]]|]; [|done..].
  unfold NewHook, NewWebhookExecutor, mbind, M_bind, lift in H. simpl in H.
  destruct (webhookURL_total webhook) as [[url E]|[e E]]; rewrite E in H; [|done]. simpl in H.
  destruct (webhookTimeout webhook) as [timeout e]. simpl in H.
  destruct (new_transport _ _) as [t|e'|s'] eqn:Et; [|done|by destruct (new_transport_no_panic _ _ _ Et)]. simpl in H.
  specialize (Hinst name kind hookType (Build_http_Client timeout (tls_Transport <$> t)) url w).
  destruct (InstrumentClient _ _ _ _ _ w) as [[client|e'|s'] w1]; simpl in *; [|done|by destruct (Hinst s')].
  destruct (new_abstract_cases webhook) as [[a Ha]|[_ (etag & t' & ? & ? & ? & ?)]]; [by rewrite Ha in H|].
  by eexists _, _, _, _.
Qed.
End construction.

(** ** Concrete calls *)
Section examples.
#[local] Existing Instance treeAPI.
#[local] Existing Instance simple_net.

(** The cache of tagged responses is the whole state. *)
Abbreviation CacheState := (gmap eTagKey eTagEntry).
Definition map_cache : Cache eTagKey eTagEntry CacheState := {|
  cache_Get := λ k s, (Ok (s !! k), s);
  cache_Set := λ k e s, (Ok (), <[k := e]> s);
|}.
#[local] Instance map_cache_laws : CacheLaws map_cache (λ s : CacheState, s).
Proof. split; intros; simpl; eauto 10. Qed.

Definition status_client (status : Z) (header : Header) (body : string) : HttpClient CacheState :=
  {| Do := λ _, mret {| resp_StatusCode := status; resp_Header := header; resp_Body := Ok body |} |}.
#[local] Instance demo_http : HttpLib CacheState := {|
  DefaultTransport_MinVersion := 0;
  AppendCertsFromPEM := λ _, true;
  DefaultTransport := {| RoundTrip := Do (status_client 200 ∅ "{}") |};
  tls_Transport := λ _, {| RoundTrip := Do (status_client 200 ∅ "{}") |};
  Client_Do := λ _, status_client 200 ∅ "{}";
  time_Parse_RFC1123 := λ _, None;
  time_Now := mret 0%Z;
  cache_New := λ _ _, map_cache;
|}.

(** A request about a parent, with a body. *)
Definition demo_request : Type := object * string.
Definition demo_executor (abstract_ : webhookAbstract CacheState) (client : HttpClient CacheState)
    : webhookExecutor CacheState := {|
  we_client := client; we_url := "http://hooks.ns/sync"; we_hookType := "sync"; we_hookVersion := Some "v2";
  we_webhookAbstract := abstract_; we_responseUnmarshallMode := ResponseUnmarshallModeStrict;
  we_authHeader := "Bearer t"; we_now := mret 0%Z |}.
Definition demo_call (ex : webhookExecutor CacheState) (r : demo_request) : M CacheState string :=
  Call (λ r : demo_request, Ok r.2) (λ r, Some r.1) (λ s, Ok (s, [])) ex r.

(** ** Two calls about one object *)
Definition race_parent : object :=
  {[ "kind" := VString "Parent"; "metadata" := VMap {[ "name" := VString "p" ]} ]}.
Definition race_key : eTagKey := {| k_kind := "Parent"; k_namespace := ""; k_name := "p" |}.
Definition race_tags (k : eTagKey) (tag : string) : string :=
  if tag == "1" then "children of revision a" else "children of revision b".
Definition race_cache : CacheState := {[ race_key := {| e_Etag := "1"; e_Response := "children of revision a" |} ]}.

(** The server knows the answer for revision [a] and tags that for [b]. *)
Definition unchanged : http_Response := {| resp_StatusCode := 304; resp_Header := ∅; resp_Body := Ok "" |}.
Definition fresh_b : http_Response :=
  {| resp_StatusCode := 200; resp_Header := {[ "Etag" := "2" ]}; resp_Body := Ok "children of revision b" |}.
Definition call_b : M CacheState string :=
  demo_call (demo_executor (webhookExecutorEtag map_cache) {| Do := λ _, mret fresh_b |}) (race_parent, "revision b").
(** While the request for [a] is under way, the whole call for [b] runs. *)
Definition call_a : M CacheState string :=
  demo_call (demo_executor (webhookExecutorEtag map_cache) {| Do := λ _, call_b ;; mret unchanged |})
    (race_parent, "revision a").

Lemma race_cache_honest : honest race_tags race_cache.
Proof. intros k e. unfold race_cache. rewrite lookup_singleton_Some. by intros [<- <-]. Qed.

(** The cache of tagged responses is keyed by the parent alone, so two calls
    about one parent that overlap, as those for the revisions of a rollout do,
    can mix their answers up even when the server is honest: the answer "not
    changed" to the request for one revision is taken to mean the children of
    the other. *)
Theorem etag_race :
  honest race_tags race_cache ∧ truthful race_tags race_key unchanged ∧ truthful race_tags race_key fresh_b ∧
  (∀ request, Header_Get (req_Header request) headerIfNoneMatch = "1" →
     intended race_tags race_key request unchanged = Ok "children of revision a") ∧
  (call_a race_cache).1 = Ok "children of revision b".
Proof.
  split_and!.
  - apply race_cache_honest.
  - done.
  - intros _ body [= <-] _. reflexivity.
  - intros request Hr. unfold intended. rewrite Hr. reflexivity.
  - vm_compute. reflexivity.
Qed.

Definition sync_webhook : Webhook := {|
  wh_URL := Some "http://hooks.ns/sync"; wh_Timeout := None;
  wh_Etag := Some {| etag_Enabled := Some true; etag_CacheTimeoutSeconds := Some 60%Z; etag_CacheCleanupSeconds := None |};
  wh_Path := None; wh_Service := None; wh_ResponseUnmarshallMode := None; wh_CABundle := None; wh_ClientTLS := None;
  wh_Authorization := None; wh_BasicAuth := None |}.

Lemma NewHook_panics_witness :
  let hook := Some {| hook_Version := None; hook_Webhook := Some sync_webhook |} in
  (∃ s, (NewHook (W:=CacheState) (λ _ _ _ client _, mret client) hook "c" "CompositeController" "sync" None ∅).1 = Panic s) ∧
  ∃ h webhook etag timeout, hook = Some h ∧ hook_Webhook h = Some webhook ∧ wh_Etag webhook = Some etag ∧
    etag_Enabled etag = Some true ∧ etag_CacheTimeoutSeconds etag = Some timeout ∧
    etag_CacheCleanupSeconds etag = None.
Proof.
  intros hook.
  assert (∃ s, (NewHook (W:=CacheState) (λ _ _ _ client _, mret client) hook "c" "CompositeController" "sync" None ∅).1 = Panic s)
    as Hp by (eexists; reflexivity).
  split; [exact Hp|].
  apply (NewHook_panics (λ _ _ _ client _, mret client) hook "c" "CompositeController" "sync" None ∅); [done|exact Hp].
Defined.



Lemma etag_Call_intended_witness :
  let ex := demo_executor (webhookExecutorEtag map_cache) (status_client 304 ∅ "") in
  ∃ request response final, intended race_tags race_key request response = Ok final ∧
    (demo_call ex (race_parent, "revision a") race_cache).1 = Ok final.
Proof.
  intros ex.
  assert (E1 : (demo_call ex (race_parent, "revision a") race_cache).1 = Ok "children of revision a")
    by (vm_compute; reflexivity).
  destruct (demo_call ex (race_parent, "revision a") race_cache) as [r s'] eqn:E. simpl in E1. subst r.
  destruct (etag_Call_intended (API:=treeAPI) (λ r : demo_request, Ok r.2) (λ r, Some r.1) (λ s, Ok (s, [])) race_tags map_cache
    (λ s : CacheState, s) ex (race_parent, "revision a") race_key race_cache _ _ eq_refl eq_refl race_cache_honest
    ltac:(intros request t response t' [= <- <-]; split; [intros Hs; by vm_compute in Hs|done]) E)
    as (request & s1 & response & s2 & final & _ & Hint & Hdec & _).
  exists request, response, final. split; [exact Hint|]. symmetry. exact Hdec.
Defined.
End examples.
