(* ===== verification/Customize.v ===== *)
(** * Related objects: [pkg/controller/common/customize]

    The manager of a controller's customize hook: the hook's answer for a
    parent, cached by the parent's generation, is a list of rules; the objects
    that the rules select go to the sync hook, and an event about one of them
    wakes up the parents whose rules match it.  The two decisions, [GetRelatedObjects]
    and [matchesRelatedRule], are separate code.  The informers of related kinds
    are subscribed to on demand and shared by concurrent syncs. *)
From S2P Require Import Prelude Value K8s K8sInst ObjectMap Types Discovery World ClientSet Worker ParentController.
From S2P Require Import Informer Webhook.
From stdpp Require Import options.

(** ** Rules *)
Inductive relatedObjectsSelectionType :=
  | selectByLabels
  | selectByNamespaceAndNames
  | selectByNamespaceAndLabels
  | selectByNamespaceSelector
  | invalid.

Definition err_names : string :=
  "related rule cannot have both names and labelSelector/namespaceSelector specified".
Definition err_namespace : string :=
  "related rule cannot have both namespace and namespaceSelector specified".

(** The type, and the error of an invalid rule. *)
Definition determineSelectionType (relatedRule : RelatedResourceRule) : relatedObjectsSelectionType * option error :=
  let hasLabelSelector := bool_decide (is_Some (related_LabelSelector relatedRule)) in
  let hasNamespaceSelector := bool_decide (is_Some (related_NamespaceSelector relatedRule)) in
  let hasNamespace := related_Namespace relatedRule != "" in
  let hasNames := negb (bool_decide (related_Names relatedRule = [])) in
  if hasNames && (hasLabelSelector || hasNamespaceSelector) then (invalid, Some (ErrorString err_names))
  else if hasNamespace && hasNamespaceSelector then (invalid, Some (ErrorString err_namespace))
  else if hasNamespaceSelector then (selectByNamespaceSelector, None)
  else if hasLabelSelector && hasNamespace then (selectByNamespaceAndLabels, None)
  else if hasNamespace || hasNames then (selectByNamespaceAndNames, None)
  else (selectByLabels, None).

Definition stringInArray (toMatch : string) (array : list string) : bool :=
  existsb (λ element, toMatch == element) array.

Record customizeKey := { ck_uid : string; ck_parentGeneration : Z }.
#[global] Instance customizeKey_eq_dec : EqDecision customizeKey.
Proof. solve_decision. Defined.
#[global] Instance customizeKey_countable : Countable customizeKey.
Proof.
  refine (inj_countable' (λ k, (ck_uid k, ck_parentGeneration k))
    (λ p, {| ck_uid := p.1; ck_parentGeneration := p.2 |}) _). by intros [].
Defined.

(** Both versions have this request and this response; a rule may be null. *)
Record CustomizeHookRequest (C : Type) := { czr_Controller : C; czr_Parent : object }.
#[global] Arguments czr_Controller {C}.
#[global] Arguments czr_Parent {C}.
Record CustomizeHookResponse := {
  czr_Version : HookVersion;
  czr_RelatedResourceRules : list (option RelatedResourceRule);
}.
(** The request builders of the two packages build the same request. *)
Definition customize_Build {C} (controller : C) (parent : object) : CustomizeHookRequest C :=
  {| czr_Controller := controller; czr_Parent := parent |}.

Section customize.
Context {RT : GoRuntime} {API : Apimachinery} {CL : Cluster}.

Definition toSelector (labelSelector : option LabelSelector) : res Selector :=
  match labelSelector with
  | None => mret Everything
  | Some s => LabelSelectorAsSelector s
  end.

(** The informer of a related kind: whether its cache is filled, a get by name,
    and the list of a namespace ([""]: all) by labels. *)
Record RelatedInformer := {
  ri_HasSynced : M World bool;
  ri_Get : string → M World object;
  ri_List : string → Selector → M World (list object);
}.

(** [selector.Matches(labels.Set(obj.GetLabels()))] *)
Definition selects (selector : Selector) (obj : object) : bool := Matches selector (labels_of obj).

(** ** One rule, one object *)
Definition namespace_mismatch (parent : object) (relatedRule : RelatedResourceRule) : error :=
  ErrorString (GetKind parent +:+ ": Namespace of parent " +:+ GetName parent +:+
               " does not match with namespace " +:+ related_Namespace relatedRule +:+
               " of related rule for " +:+ rr_APIVersion (related_rule relatedRule) +:+ "/" +:+
               rr_Resource (related_rule relatedRule)).

Definition matches_namespace_selector (nsInformer : option RelatedInformer) (related : object)
    (relatedRule : RelatedResourceRule) : M World bool :=
  match nsInformer with
  | None => throw (ErrorString "namespace informer is not initialized, cannot use namespaceSelector")
  | Some nsInformer =>
    synced ← ri_HasSynced nsInformer;
    if negb synced then throw ErrRelatedInformerNotSynced
    else
      r ← try (ri_Get nsInformer (GetNamespace related));
      match r with
      | inr err => if IsNotFound err then mret false else throw err
      | inl nsObj =>
        nsSelector ← lift (toSelector (related_NamespaceSelector relatedRule));
        mret (selects nsSelector nsObj)
      end
  end.

Definition matchesRelatedRule (nsInformer : option RelatedInformer) (hookVersion : HookVersion)
    (parentIsNamespaced : bool) (parent related : object) (relatedRule : RelatedResourceRule)
    (relatedRuleKind : string) (relatedIsNamespaced : bool) : M World bool :=
  let v1_namespaced := (hookVersion == HookVersionV1) && parentIsNamespaced in
  let same_namespace := GetNamespace parent == GetNamespace related in
  if (GetAPIVersion related != rr_APIVersion (related_rule relatedRule)) || (GetKind related != relatedRuleKind)
  then mret false
  else
    match determineSelectionType relatedRule with
    | (selectByLabels, _) =>
      selector ← lift (toSelector (related_LabelSelector relatedRule));
      if negb (selects selector related) then mret false
      else if v1_namespaced && relatedIsNamespaced && negb same_namespace then mret false
      else mret true
    | (selectByNamespaceAndLabels, _) =>
      if v1_namespaced && (related_Namespace relatedRule != "") && (GetNamespace parent != related_Namespace relatedRule)
      then throw (namespace_mismatch parent relatedRule)
      else if v1_namespaced && relatedIsNamespaced && negb same_namespace then mret false
      else
        selector ← lift (toSelector (related_LabelSelector relatedRule));
        if negb (selects selector related) then mret false
        else if relatedIsNamespaced && (GetNamespace related != related_Namespace relatedRule) then mret false
        else mret true
    | (selectByNamespaceSelector, _) =>
      if v1_namespaced then throw (ErrorString "namespaceSelector cannot be used by namespaced parent in v1 hook")
      else if negb relatedIsNamespaced
      then throw (ErrorString "namespaceSelector is only supported for namespaced related resources")
      else
        selector ← lift (toSelector (related_LabelSelector relatedRule));
        if negb (selects selector related) then mret false
        else matches_namespace_selector nsInformer related relatedRule
    | (selectByNamespaceAndNames, _) =>
      let matches_name :=
        mret (if bool_decide (related_Names relatedRule = []) then true
              else stringInArray (GetName related) (related_Names relatedRule)) in
      if v1_namespaced then
        if (related_Namespace relatedRule != "") && (GetNamespace parent != related_Namespace relatedRule)
        then throw (namespace_mismatch parent relatedRule)
        else if relatedIsNamespaced && negb same_namespace then mret false
        else matches_name
      else if relatedIsNamespaced && (related_Namespace relatedRule != "") &&
              (GetNamespace related != related_Namespace relatedRule) then mret false
      else matches_name
    | (invalid, err) => match err with Some err => throw err | None => mret false end
    end.

(** ** One rule, all objects *)
Definition listObjects (selector : Selector) (namespace : string) (informer : RelatedInformer) (namespaced : bool)
    : M World (list object) :=
  if namespaced && (namespace != "") then ri_List informer namespace selector else ri_List informer "" selector.

Definition cant_list (kind : string) : string := "can't list " +:+ kind +:+ " related objects".

Definition namespace_differs (relatedRule : RelatedResourceRule) (parentNamespace : string) : error :=
  ErrorString ("requested related object namespace " +:+ related_Namespace relatedRule +:+
               " differs from parent object namespace " +:+ parentNamespace).

(** The loop body of [GetRelatedObjects] after the client and the informer of
    the rule have been found. *)
Definition add_related (nsInformer : option RelatedInformer) (version : HookVersion) (parentResource : APIResource)
    (parent : object) (relatedRule : RelatedResourceRule) (relatedClient : APIResource) (informer : RelatedInformer)
    (childMap : UniformObjectMap) : M World UniformObjectMap :=
  let parentNamespace := GetNamespace parent in
  let v1_namespaced := (version == HookVersionV1) && ar_Namespaced parentResource && ar_Namespaced relatedClient in
  match determineSelectionType relatedRule with
  | (selectByLabels, _) =>
    selector ← lift (toSelector (related_LabelSelector relatedRule));
    all ← wrap_errM (cant_list (ar_Kind relatedClient))
            (ri_List informer (if v1_namespaced then parentNamespace else "") selector);
    gvk ← lift (APIResource_GroupVersionKind relatedClient);
    mret (UniformObjectMap_InsertAll (UniformObjectMap_InitGroup childMap gvk) parent all)
  | (selectByNamespaceAndLabels, _) =>
    if v1_namespaced && (related_Namespace relatedRule != "") && (parentNamespace != related_Namespace relatedRule)
    then throw (namespace_differs relatedRule parentNamespace)
    else
      selector ← lift (toSelector (related_LabelSelector relatedRule));
      all ← wrap_errM (cant_list (ar_Kind relatedClient))
              (listObjects selector (related_Namespace relatedRule) informer (ar_Namespaced relatedClient));
      gvk ← lift (APIResource_GroupVersionKind relatedClient);
      mret (UniformObjectMap_InsertAll (UniformObjectMap_InitGroup childMap gvk) parent all)
  | (selectByNamespaceSelector, _) =>
    if v1_namespaced
    then throw (ErrorString "namespaceSelector is not supported for namespaced parent in v1 hook version")
    else if negb (ar_Namespaced relatedClient)
    then throw (ErrorString "namespaceSelector is only supported for namespaced related resources")
    else
      match nsInformer with
      | None => throw (ErrorString "namespace informer is not initialized, cannot use namespaceSelector")
      | Some nsInformer =>
        synced ← ri_HasSynced nsInformer;
        if negb synced then throw ErrRelatedInformerNotSynced
        else
          nsSelector ← lift (toSelector (related_NamespaceSelector relatedRule));
          matchingNamespaces ← wrap_errM "can't list namespaces for namespaceSelector" (ri_List nsInformer "" nsSelector);
          labelSelector ← lift (toSelector (related_LabelSelector relatedRule));
          gvk ← lift (APIResource_GroupVersionKind relatedClient);
          foldlM (λ childMap ns,
            all ← wrap_errM (cant_list (ar_Kind relatedClient) +:+ " in namespace " +:+ GetName ns)
                    (listObjects labelSelector (GetName ns) informer (ar_Namespaced relatedClient));
            mret (UniformObjectMap_InsertAll childMap parent all))
            (UniformObjectMap_InitGroup childMap gvk) matchingNamespaces
      end
  | (selectByNamespaceAndNames, _) =>
    if v1_namespaced && (related_Namespace relatedRule != "") && (parentNamespace != related_Namespace relatedRule)
    then throw (namespace_differs relatedRule parentNamespace)
    else
      all ← wrap_errM (cant_list (ar_Kind relatedClient))
              (listObjects Everything (related_Namespace relatedRule) informer (ar_Namespaced relatedClient));
      gvk ← lift (APIResource_GroupVersionKind relatedClient);
      let childMap := UniformObjectMap_InitGroup childMap gvk in
      mret (if bool_decide (related_Names relatedRule = []) then UniformObjectMap_InsertAll childMap parent all
            else foldl (λ m obj, if stringInArray (GetName obj) (related_Names relatedRule)
                                 then UniformObjectMap_Insert m parent obj else m) childMap all)
  | (invalid, err) => match err with Some err => throw err | None => mret childMap end
  end.
End customize.

(** ** [common.SyncMap], used by one goroutine at a time *)
Section sync_map.
Context {RT : GoRuntime} {K V : Type} `{Countable K}.
Implicit Types m : gmap K V.

Definition SyncMap_Load m (key : K) : option V := m !! key.
Definition SyncMap_LoadOrStore (key : K) (val : V) : M (gmap K V) (V * bool) := λ m,
  match m !! key with
  | Some v => (Ok (v, true), m)
  | None => (Ok (val, false), <[key := val]> m)
  end.
Definition SyncMap_LoadAndDelete (key : K) : M (gmap K V) (option V) := λ m, (Ok (m !! key), delete key m).
Definition SyncMap_Store (key : K) (val : V) : M (gmap K V) unit := modify (<[key := val]>).
Definition SyncMap_Delete (key : K) : M (gmap K V) unit := modify (delete key).
(** The entries that [Range] and [ForEach] visit, and [Len]. *)
Definition SyncMap_Range m : list (K * V) := range m.
Definition SyncMap_Len m : nat := foldl (λ length _, S length) 0 (SyncMap_Range m).
End sync_map.

(** ** The manager *)
Abbreviation InformerMap := (gmap GroupVersionResource ResourceInformer).

Section manager.
Context {RT : GoRuntime} {API : Apimachinery} {CL : Cluster}.
(** the memory of the response cache *)
Context {CacheSt : Type}.
(** [v1alpha1.CustomizableController] *)
Context {Controller : Type}.

(** What a manager works on: the cluster, its cache of responses, its informers
    of related kinds, and the factory that all controllers share. *)
Record CustomizeState := {
  cz_world : World;
  cz_cache : CacheSt;
  cz_relatedInformers : InformerMap;
  cz_factory : SharedInformerFactory;
}.

Definition on_world {A} : M World A → M CustomizeState A :=
  zoom {| view := cz_world; put := λ w s, {| cz_world := w; cz_cache := cz_cache s;
          cz_relatedInformers := cz_relatedInformers s; cz_factory := cz_factory s |} |}.
Definition on_cache {A} : M CacheSt A → M CustomizeState A :=
  zoom {| view := cz_cache; put := λ c s, {| cz_world := cz_world s; cz_cache := c;
          cz_relatedInformers := cz_relatedInformers s; cz_factory := cz_factory s |} |}.
Definition on_informers {A} : M InformerMap A → M CustomizeState A :=
  zoom {| view := cz_relatedInformers; put := λ i s, {| cz_world := cz_world s; cz_cache := cz_cache s;
          cz_relatedInformers := i; cz_factory := cz_factory s |} |}.
Definition on_factory {A} : M SharedInformerFactory A → M CustomizeState A :=
  zoom {| view := cz_factory; put := λ f s, {| cz_world := cz_world s; cz_cache := cz_cache s;
          cz_relatedInformers := cz_relatedInformers s; cz_factory := f |} |}.

(** [Manager]; the hook is [None] when the controller has no customize hook. *)
Record Manager := {
  rm_controller : Controller;
  rm_parentKinds : gmap GroupKind APIResource;
  rm_dynClient : Clientset;
  rm_parentInformers : gmap GroupVersionResource Lister;
  rm_nsInformer : option RelatedInformer;
  rm_customizeCache : Cache customizeKey CustomizeHookResponse CacheSt;
  rm_enqueueParent : object → M World unit;
  rm_customizeHook : option (Hook_I (CustomizeHookRequest Controller) (list (option RelatedResourceRule)));
  (** whether [Start] was called or a context given *)
  rm_started : bool;
  (** [name], which stands for the three handlers of related objects; what the
      cache of an informer holds, and the view of an informer *)
  rm_name : string;
  rm_cached : ResourceInformer → list object;
  rm_view : ResourceInformer → RelatedInformer;
}.
Variable rm : Manager.

Definition IsEnabled : bool :=
  match rm_customizeHook rm with Some hook => hook_IsEnabled hook | None => false end.

Definition cache_key (parent : object) : customizeKey :=
  {| ck_uid := GetUID parent; ck_parentGeneration := GetGeneration parent |}.

Definition getCachedCustomizeHookResponse (parent : object) : M CustomizeState (option CustomizeHookResponse) :=
  on_cache (cache_Get (rm_customizeCache rm) (cache_key parent)).

(** [None] is the nil response of a controller without the hook.  The responses
    of both versions have the same rules. *)
Definition getCustomizeHookResponse (parent : object) : M CustomizeState (option CustomizeHookResponse) :=
  match rm_customizeHook rm with
  | None => mret None
  | Some hook =>
    if negb (hook_IsEnabled hook) then mret None
    else
      cached ← getCachedCustomizeHookResponse parent;
      match cached with
      | Some response => mret (Some response)
      | None =>
        let hookVersion := hook_GetVersion hook in
        rules ← on_world (hook_Call hook (customize_Build (rm_controller rm) parent));
        let v1Response := {| czr_Version := hookVersion; czr_RelatedResourceRules := rules |} in
        on_cache (cache_Set (rm_customizeCache rm) (cache_key parent) v1Response) ;;
        mret (Some v1Response)
      end
  end.

(** The second half of [getOrCreateRelatedInformer], after this goroutine found
    no informer and subscribed to one: another may have stored its own since.
    The new handlers are sent every cached object as an update by itself, which
    [onRelatedUpdate] drops ([onRelatedUpdate_resync]). *)
Definition install_related (gvr : GroupVersionResource) (informer : ResourceInformer) : M CustomizeState ResourceInformer :=
  '(actual, loaded) ← on_informers (SyncMap_LoadOrStore gvr informer);
  if (loaded : bool) then on_factory (ri_Close informer) ;; mret actual
  else
    r ← try (on_factory (iw_AddEventHandler actual (rm_cached rm actual) (rm_name rm)));
    match r with
    | inl _ => mret actual
    | inr err =>
      on_informers (SyncMap_Delete gvr) ;;
      on_factory (ri_Close actual) ;;
      throw (WrapError "can't add event handlers for related resource" err)
    end.

Definition subscribe_related (apiVersion resource : string) : M CustomizeState ResourceInformer :=
  wrap_errM "can't create informer for related resource"
    (on_factory (factory_Resource (Ok ()) apiVersion resource)).

Definition getOrCreateRelatedInformer (apiVersion resource : string) (gvr : GroupVersionResource)
    : M CustomizeState ResourceInformer :=
  s ← get_state;
  match SyncMap_Load (cz_relatedInformers s) gvr with
  | Some informer => mret informer
  | None => informer ← subscribe_related apiVersion resource; install_related gvr informer
  end.

Definition getRelatedClient (apiVersion resource : string) : M CustomizeState (ResourceClient * RelatedInformer) :=
  if negb (rm_started rm) then throw (ErrorString "customize Manager not started")
  else
    client ← lift (Clientset_Resource (rm_dynClient rm) apiVersion resource);
    groupVersion ← lift (ParseGroupVersion_or_zero apiVersion);
    informer ← getOrCreateRelatedInformer apiVersion resource (gv_WithResource groupVersion resource);
    synced ← on_world (ri_HasSynced (rm_view rm informer));
    if negb synced then throw ErrRelatedInformerNotSynced else mret (client, rm_view rm informer).

(** [rm.parentKinds.Get(...)] for the kind of a parent. *)
Definition parent_resource (parent : object) : res (GroupVersion * option APIResource) :=
  parentGroup ← ParseGroupVersion_or_zero (GetAPIVersion parent);
  mret (parentGroup, rm_parentKinds rm !! {| gk_Group := gv_Group parentGroup; gk_Kind := GetKind parent |}).

Definition GetRelatedObjects (parent : object) : M CustomizeState UniformObjectMap :=
  let childMap := Uniform ∅ in
  if negb IsEnabled then mret childMap
  else
    '(parentGroup, parentResource) ← lift (parent_resource parent);
    match parentResource with
    | None => throw (ErrorString ("unknown parent " +:+ GroupVersion_String parentGroup +:+ "/" +:+ GetKind parent))
    | Some parentResource =>
      customizeHookResponse ← getCustomizeHookResponse parent;
      customizeHookResponse ← lift (deref customizeHookResponse);
      foldlM (λ childMap relatedRule,
        relatedRule ← lift (deref relatedRule);
        '(relatedClient, informer) ←
          getRelatedClient (rr_APIVersion (related_rule relatedRule)) (rr_Resource (related_rule relatedRule));
        on_world (add_related (rm_nsInformer rm) (czr_Version customizeHookResponse) parentResource parent relatedRule
                    (rc_APIResource relatedClient) informer childMap))
        childMap (czr_RelatedResourceRules customizeHookResponse)
    end.

(** ** Waking up parents *)

(** One rule and one object, for one parent; the errors are only logged. *)
Definition rule_matches (response : CustomizeHookResponse) (parent : object) (relatedRule : option RelatedResourceRule)
    (related : object) : M CustomizeState bool :=
  '(_, parentResource) ← lift (parent_resource parent);
  match parentResource with
  | None => mret false
  | Some parentResource =>
    relatedRule ← lift (deref relatedRule);
    match Clientset_Resource (rm_dynClient rm) (rr_APIVersion (related_rule relatedRule)) (rr_Resource (related_rule relatedRule)) with
    | Ok relatedRuleClient =>
      r ← try (on_world (matchesRelatedRule (rm_nsInformer rm) (czr_Version response) (ar_Namespaced parentResource)
                 parent related relatedRule (ar_Kind (rc_APIResource relatedRuleClient))
                 (ar_Namespaced (rc_APIResource relatedRuleClient))));
      mret (match r with inl matches => matches | inr _ => false end)
    | Err _ => mret false
    | Panic s => lift (Panic s)
    end
  end.

(** Whether some rule matches some object: the first match ends the search. *)
Fixpoint any_matches (response : CustomizeHookResponse) (parent : object)
    (candidates : list (option RelatedResourceRule * object)) : M CustomizeState bool :=
  match candidates with
  | [] => mret false
  | (relatedRule, related) :: candidates =>
    matches ← rule_matches response parent relatedRule related;
    if (matches : bool) then mret true else any_matches response parent candidates
  end.

Definition parent_matches (relatedSlice : list object) (parent : object) : M CustomizeState bool :=
  r ← try (getCustomizeHookResponse parent);
  match r with
  | inl (Some response) =>
    any_matches response parent (relatedRule ← czr_RelatedResourceRules response; related ← relatedSlice; [(relatedRule, related)])
  | _ => mret false
  end.

Definition findRelatedParents (relatedSlice : list object) : M CustomizeState (list object) :=
  foldlM (λ matchingParents '(_, parentInformer),
    r ← try (on_world (lister_List parentInformer ""));
    match r with
    | inr _ => mret matchingParents
    | inl parents =>
      foldlM (λ matchingParents parent,
        matches ← parent_matches relatedSlice parent;
        mret (if (matches : bool) then matchingParents ++ [parent] else matchingParents)) matchingParents parents
    end) [] (SyncMap_Range (rm_parentInformers rm)).

Definition notifyRelatedParents (related : list object) : M CustomizeState unit :=
  parents ← findRelatedParents related;
  foldlM (λ _ parent, on_world (rm_enqueueParent rm parent)) () parents.

Definition onRelatedDelete (obj : informer_object) : M CustomizeState unit :=
  match obj with
  | Live related => notifyRelatedParents [related]
  | Tombstone _ (Some related) => notifyRelatedParents [related]
  | _ => mret ()
  end.

(** The type assertion of the first line panics. *)
Definition onRelatedAdd (obj : informer_object) : M CustomizeState unit :=
  match obj with
  | Live related => if being_deleted related then onRelatedDelete (Live related) else notifyRelatedParents [related]
  | _ => lift (Panic "interface conversion")
  end.

Definition onRelatedUpdate (old cur : informer_object) : M CustomizeState unit :=
  match old, cur with
  | Live oldRelated, Live curRelated =>
    if GetResourceVersion oldRelated == GetResourceVersion curRelated then mret ()
    else notifyRelatedParents [oldRelated; curRelated]
  | _, _ => lift (Panic "interface conversion")
  end.

Lemma onRelatedUpdate_resync obj : onRelatedUpdate (Live obj) (Live obj) = mret ().
Proof. unfold onRelatedUpdate. by rewrite bool_decide_true. Qed.

(** [Stop]: the subscriptions of the related kinds, and that of the namespaces. *)
Definition customize_Stop (nsSubscription : option ResourceInformer) : M CustomizeState unit :=
  s ← get_state;
  foldlM (λ _ '(_, informer), on_factory (RemoveEventHandlers informer) ;; on_factory (ri_Close informer)) ()
    (SyncMap_Range (cz_relatedInformers s)) ;;
  match nsSubscription with Some ri => on_factory (ri_Close ri) | None => mret () end.
End manager.

(** ** The subscriptions of a manager *)
Definition owned (informers : InformerMap) : list ResourceInformer := (map_to_list informers).*2.

Lemma owned_insert (informers : InformerMap) gvr ri :
  informers !! gvr = None → owned (<[gvr:=ri]> informers) ≡ₚ ri :: owned informers.
Proof. intros Hnone. unfold owned. by rewrite map_to_list_insert by done. Qed.
Lemma owned_empty : owned ∅ = [].
Proof. unfold owned. by rewrite map_to_list_empty. Qed.
Lemma elem_of_owned (informers : InformerMap) ri : ri ∈ owned informers ↔ ∃ gvr, informers !! gvr = Some ri.
Proof.
  unfold owned. rewrite list_elem_of_fmap. split.
  - intros ([gvr ri'] & -> & H%elem_of_map_to_list). by exists gvr.
  - intros (gvr & H%elem_of_map_to_list). by exists (gvr, ri).
Qed.

Section related_subscriptions.
Context {RT : GoRuntime} {API : Apimachinery} {CL : Cluster} {CacheSt Controller : Type}.
Variable rm : Manager (CacheSt:=CacheSt) (Controller:=Controller).
Implicit Types s : CustomizeState (CacheSt:=CacheSt).

(** The factory's open subscriptions are those of the manager's related kinds,
    which have handlers, and others. *)
Definition related_holds (open heard : list ResourceInformer) s : Prop :=
  factory_holds (owned (cz_relatedInformers s) ++ open) (owned (cz_relatedInformers s) ++ heard) (cz_factory s).

Lemma install_related_holds open heard gvr informer :
  hoare (λ s, factory_holds (informer :: owned (cz_relatedInformers s) ++ open) (owned (cz_relatedInformers s) ++ heard) (cz_factory s))
    (install_related rm gvr informer) (λ _, related_holds open heard) (related_holds open heard).
Proof.
  intros s Hs. unfold install_related, on_informers, on_factory, zoom, SyncMap_LoadOrStore, mbind, M_bind. simpl.
  destruct (cz_relatedInformers s !! gvr) as [ri|] eqn:Hg; simpl.
  - destruct (ri_Close_holds _ _ _ _ Hs) as ([] & f & -> & Hf). exact Hf.
  - destruct (iw_AddEventHandler_holds _ _ informer (rm_cached rm informer) (rm_name rm) ltac:(by left) _ Hs)
      as (sent & f & E & _ & Hf). unfold try. simpl. rewrite E. simpl. unfold related_holds. simpl. by rewrite owned_insert.
Qed.

Lemma getOrCreate_preserves open heard apiVersion resource gvr :
  preserves (related_holds open heard) (getOrCreateRelatedInformer rm apiVersion resource gvr).
Proof.
  unfold getOrCreateRelatedInformer. apply preserves_bind; [apply preserves_get_state|]. intros s0.
  destruct (SyncMap_Load _ _); [apply preserves_ret|].
  eapply hoare_bind; [|intros informer; apply install_related_holds].
  apply hoare_wrap. intros s Hs. unfold on_factory, zoom. simpl.
  pose proof (factory_Resource_holds (Ok ()) _ _ apiVersion resource _ Hs) as H.
  destruct (factory_Resource (Ok ()) apiVersion resource (cz_factory s)) as [[ri|e|p] f]; [exact (proj2 H)|exact H|done].
Qed.
#[local] Hint Resolve getOrCreate_preserves : preserves.

Lemma on_world_preserves {A} open heard (m : M World A) : preserves (related_holds open heard) (on_world (CacheSt:=CacheSt) m).
Proof. by apply preserves_zoom. Qed.
Lemma on_cache_preserves {A} open heard (m : M CacheSt A) : preserves (related_holds open heard) (on_cache m).
Proof. by apply preserves_zoom. Qed.
#[local] Hint Resolve on_world_preserves on_cache_preserves : preserves.

(** A sync's lookup of related objects keeps the manager's subscriptions and
    its map in step, also when it fails half way. *)
Lemma GetRelatedObjects_preserves open heard parent : preserves (related_holds open heard) (GetRelatedObjects rm parent).
Proof.
  unfold GetRelatedObjects, getRelatedClient, getCustomizeHookResponse, getCachedCustomizeHookResponse. preserves_auto.
Qed.
End related_subscriptions.

(** ** Concurrent subscriptions *)
Section related_race.
Context {RT : GoRuntime} {API : Apimachinery} {CL : Cluster} {CacheSt Controller : Type}.
Variable rm : Manager (CacheSt:=CacheSt) (Controller:=Controller).
Context (apiVersion resource : string) (gvr : GroupVersionResource).
Implicit Types s : CustomizeState (CacheSt:=CacheSt).

(** [n] goroutines look for the same informer at once: each finds none and
    subscribes to one, and then each stores its own, in any order. *)
Fixpoint subscribe_all (n : nat) : M (CustomizeState (CacheSt:=CacheSt)) (list ResourceInformer) :=
  match n with
  | 0 => mret []
  | S n => informer ← subscribe_related apiVersion resource; informers ← subscribe_all n; mret (informer :: informers)
  end.
Fixpoint install_all (informers : list ResourceInformer) : M CustomizeState (list ResourceInformer) :=
  match informers with
  | [] => mret []
  | informer :: informers =>
    actual ← install_related rm gvr informer; actuals ← install_all informers; mret (actual :: actuals)
  end.
Definition concurrent_getOrCreate (n : nat) : M CustomizeState (list ResourceInformer) :=
  informers ← subscribe_all n; install_all (schedule informers).

Lemma subscribe_all_ok n s informers s' open heard :
  factory_holds open heard (cz_factory s) → subscribe_all n s = (Ok informers, s') →
  factory_holds (informers ++ open) heard (cz_factory s') ∧ length informers = n ∧
  cz_relatedInformers s' = cz_relatedInformers s.
Proof.
  revert s informers s' open. induction n as [|n IH]; intros s informers s' open Hok; simpl.
  - by intros [= <- <-].
  - intros (ri & s1 & Hri%wrap_errM_Ok & H)%bind_Ok. apply bind_Ok in H as (ris & s2 & Hris & H). injection H as <- <-.
    unfold on_factory, zoom in Hri. simpl in Hri. destruct (factory_Resource _ _ _ _) as [r f] eqn:Hf. injection Hri as -> <-.
    apply (hoare_run _ _ _ _ _ _ _ (factory_Resource_holds _ open heard _ _) Hok) in Hf as [_ Hf].
    apply IH with (open:=ri :: open) in Hris as (Hok' & Hlen & Hrel); [|exact Hf].
    simpl. split_and!; [|by f_equal|done].
    by rewrite (Permutation_middle ris open ri).
Qed.

Lemma install_loaded ri s open heard informer :
  cz_relatedInformers s !! gvr = Some ri → factory_holds (informer :: open) heard (cz_factory s) →
  ∃ s', install_related rm gvr informer s = (Ok ri, s') ∧ cz_relatedInformers s' = cz_relatedInformers s ∧
    factory_holds open heard (cz_factory s').
Proof.
  intros Hri Hok. destruct (ri_Close_holds _ _ _ _ Hok) as ([] & f & Hclose & Hok').
  eexists. unfold install_related, on_informers, zoom, SyncMap_LoadOrStore, mbind, M_bind. simpl. rewrite Hri. simpl.
  unfold on_factory, zoom. simpl. rewrite Hclose. simpl. done.
Qed.

Lemma install_all_loaded ri informers s open heard actuals s' :
  cz_relatedInformers s !! gvr = Some ri → factory_holds (informers ++ open) heard (cz_factory s) →
  install_all informers s = (Ok actuals, s') →
  Forall (λ a, a = ri) actuals ∧ length actuals = length informers ∧
  cz_relatedInformers s' = cz_relatedInformers s ∧ factory_holds open heard (cz_factory s').
Proof.
  revert s actuals. induction informers as [|informer informers IH]; intros s actuals Hri Hok; simpl.
  - intros [= <- <-]. by split_and!.
  - intros (actual & s1 & H1 & H)%bind_Ok. apply bind_Ok in H as (rest & s2 & H2 & H). injection H as <- <-.
    destruct (install_loaded ri s _ _ informer Hri Hok) as (s1' & E & Hrel & Hok'). rewrite H1 in E. injection E as -> ->.
    destruct (IH s1' rest) as (Hall & Hlen & Hrel' & Hok2); [by rewrite Hrel|done|done|].
    split_and!; [by constructor|by simpl; f_equal|by rewrite Hrel', Hrel|done].
Qed.

Lemma install_first s open heard informer :
  cz_relatedInformers s !! gvr = None → informer ∈ open → factory_holds open heard (cz_factory s) →
  ∃ s', install_related rm gvr informer s = (Ok informer, s') ∧
    cz_relatedInformers s' = <[gvr := informer]> (cz_relatedInformers s) ∧ factory_holds open (informer :: heard) (cz_factory s').
Proof.
  intros Hnone Hin Hok.
  destruct (iw_AddEventHandler_holds _ _ informer (rm_cached rm informer) (rm_name rm) Hin _ Hok) as (sent & f & E & _ & Hf).
  eexists. unfold install_related, on_informers, zoom, SyncMap_LoadOrStore, mbind, M_bind. simpl. rewrite Hnone. simpl.
  unfold try, on_factory, zoom. simpl. rewrite E. simpl. done.
Qed.

(** C24: however many goroutines find at once that there is no informer of a
    related kind yet, and in whichever order they store theirs, they all end up
    with the same one: it is stored, handlers were added to it alone, and the
    manager holds one subscription to it more than before, those of the others
    having been closed. *)
Theorem related_informer_shared n s open heard actuals s' :
  0 < n → cz_relatedInformers s !! gvr = None → factory_holds open heard (cz_factory s) →
  concurrent_getOrCreate n s = (Ok actuals, s') →
  ∃ ri, actuals = replicate n ri ∧ cz_relatedInformers s' = <[gvr := ri]> (cz_relatedInformers s) ∧
    factory_holds (ri :: open) (ri :: heard) (cz_factory s').
Proof.
  intros Hn Hnone Hok (informers & s1 & Hsub & H)%bind_Ok.
  destruct (subscribe_all_ok _ _ _ _ _ _ Hok Hsub) as (Hok1 & Hlen & Hrel).
  rewrite <-(schedule_perm informers) in Hok1. rewrite <-(schedule_perm informers) in Hlen.
  destruct (schedule informers) as [|ri rest] eqn:Hsched; [simpl in Hlen; lia|]. simpl in H.
  apply bind_Ok in H as (actual & s2 & H1 & H). apply bind_Ok in H as (rest' & s3 & H2 & H). injection H as <- <-.
  destruct (install_first s1 _ heard ri ltac:(by rewrite Hrel) ltac:(by left) Hok1) as (s2' & E & Hrel2 & Hok2).
  rewrite H1 in E. injection E as -> ->.
  apply (install_all_loaded ri _ _ (ri :: open) (ri :: heard)) in H2 as (Hall & Hlen' & Hrel' & Hok').
  - exists ri. split_and!; [|by rewrite Hrel', Hrel2, Hrel|done].
    simpl in Hlen. rewrite <-Hlen. simpl. f_equal.
    rewrite <-Hlen'. clear -Hall. induction Hall as [|a l -> _ IH]; [done|]. simpl. by f_equal.
  - rewrite Hrel2. by rewrite lookup_insert_eq.
  - by rewrite <-Permutation_middle.
Qed.
End related_race.

(** ** What a rule selects *)
Section selection.
Context {RT : GoRuntime} {API : Apimachinery} {CL : Cluster} {SL : SelectorLaws}.
Implicit Types rule : RelatedResourceRule.

(** The cache of an informer holds [contents] while it is asked; a lister
    returns the objects of a namespace, or all, that match a selector. *)
Class InformerLaws (ri : RelatedInformer) (contents : list object) : Prop := {
  ri_HasSynced_spec w : ∃ b, ri_HasSynced ri w = (Ok b, w);
  ri_List_spec ns sel w : ∃ l, ri_List ri ns sel w = (Ok l, w) ∧
    ∀ o, o ∈ l ↔ o ∈ contents ∧ (ns = "" ∨ GetNamespace o = ns) ∧ selects sel o = true;
  ri_Get_spec name w :
    (∃ o, ri_Get ri name w = (Ok o, w) ∧ o ∈ contents ∧ GetName o = name) ∨
    (∃ e, ri_Get ri name w = (Err e, w) ∧ IsNotFound e = true ∧ ∀ o, o ∈ contents → GetName o ≠ name);
}.

(** The documented meaning of a rule: every criterion it has must hold, and with
    version 1 a namespaced parent sees its own namespace only. *)
Record rule_selects (v1_namespaced relatedNamespaced : bool) (namespaces : list object) (parent : object) rule
    (obj : object) : Prop := {
  rs_labels : ∃ sel, toSelector (related_LabelSelector rule) = Ok sel ∧ selects sel obj = true;
  rs_names : related_Names rule = [] ∨ GetName obj ∈ related_Names rule;
  rs_namespace : relatedNamespaced = true → related_Namespace rule ≠ "" → GetNamespace obj = related_Namespace rule;
  rs_namespaceSelector s : related_NamespaceSelector rule = Some s →
    ∃ sel nsObj, LabelSelectorAsSelector s = Ok sel ∧ nsObj ∈ namespaces ∧ GetName nsObj = GetNamespace obj ∧
      selects sel nsObj = true;
  rs_scope : v1_namespaced = true → relatedNamespaced = true → GetNamespace obj = GetNamespace parent;
}.

(** A rule with names alone. *)
Definition names_only rule : bool :=
  negb (bool_decide (related_Names rule = [])) && (related_Namespace rule == "").

(** What each type says of the rule. *)
Lemma determineSelectionType_spec rule :
  match determineSelectionType rule with
  | (selectByLabels, None) =>
    related_Names rule = [] ∧ related_Namespace rule = "" ∧ related_NamespaceSelector rule = None
  | (selectByNamespaceAndLabels, None) =>
    related_Names rule = [] ∧ related_Namespace rule ≠ "" ∧ related_NamespaceSelector rule = None ∧
    is_Some (related_LabelSelector rule)
  | (selectByNamespaceSelector, None) =>
    related_Names rule = [] ∧ related_Namespace rule = "" ∧ is_Some (related_NamespaceSelector rule)
  | (selectByNamespaceAndNames, None) =>
    related_LabelSelector rule = None ∧ related_NamespaceSelector rule = None ∧
    (related_Namespace rule ≠ "" ∨ related_Names rule ≠ [])
  | (invalid, Some _) =>
    related_Names rule ≠ [] ∧ (is_Some (related_LabelSelector rule) ∨ is_Some (related_NamespaceSelector rule)) ∨
    related_Namespace rule ≠ "" ∧ is_Some (related_NamespaceSelector rule)
  | _ => False
  end.
Proof using All.
  unfold determineSelectionType. destruct rule as [r [ls|] [nss|] ns names]; simpl;
    repeat case_bool_decide; simpl; try done; eauto; naive_solver.
Qed.

Lemma selects_everything o : selects Everything o = true.
Proof using All. apply Matches_Everything. Qed.

Lemma stringInArray_spec x l : stringInArray x l = true ↔ x ∈ l.
Proof using All.
  unfold stringInArray. rewrite existsb_exists. split.
  - intros (y & Hy & ->%bool_decide_eq_true). by apply list_elem_of_In.
  - intros Hx. exists x. rewrite bool_decide_eq_true, <-list_elem_of_In. done.
Qed.

(** The meaning of a rule, type by type. *)
Section by_type.
Context (v rn : bool) (namespaces : list object) (parent : object) (rule : RelatedResourceRule) (o : object).

Definition labels_select (s : option LabelSelector) (o : object) : Prop :=
  ∃ sel, toSelector s = Ok sel ∧ selects sel o = true.
Definition in_scope : Prop := v = true → rn = true → GetNamespace o = GetNamespace parent.

Lemma labels_select_Ok s sel : toSelector s = Ok sel → labels_select s o ↔ selects sel o = true.
Proof. intros Hs. unfold labels_select. rewrite Hs. split; [by intros (? & [= <-] & ?)|eauto]. Qed.

Lemma selects_by_labels :
  related_Names rule = [] → related_Namespace rule = "" → related_NamespaceSelector rule = None →
  rule_selects v rn namespaces parent rule o ↔ labels_select (related_LabelSelector rule) o ∧ in_scope.
Proof.
  intros Hn He Hs. split; [by intros []|]. intros [Hl Hscope]. split; [done|by left|done| |done].
  intros s. by rewrite Hs.
Qed.

Lemma selects_by_names :
  related_LabelSelector rule = None → related_NamespaceSelector rule = None →
  rule_selects v rn namespaces parent rule o ↔
  (related_Names rule = [] ∨ GetName o ∈ related_Names rule) ∧
  (rn = true → related_Namespace rule ≠ "" → GetNamespace o = related_Namespace rule) ∧ in_scope.
Proof using All.
  intros Hl Hs. split; [by intros []|]. intros (Hn & Hns & Hscope). split; [|done|done| |done].
  - rewrite Hl. exists Everything. split; [done|]. apply selects_everything.
  - intros s. by rewrite Hs.
Qed.

Lemma selects_by_namespace_and_labels :
  related_Names rule = [] → related_Namespace rule ≠ "" → related_NamespaceSelector rule = None →
  rule_selects v rn namespaces parent rule o ↔
  labels_select (related_LabelSelector rule) o ∧ (rn = true → GetNamespace o = related_Namespace rule) ∧ in_scope.
Proof.
  intros Hn He Hs. split; [intros []; auto|]. intros (Hl & Hns & Hscope). split; [done|by left|auto| |done].
  intros s. by rewrite Hs.
Qed.

Lemma selects_by_namespace_selector s sel :
  related_Names rule = [] → related_Namespace rule = "" → related_NamespaceSelector rule = Some s →
  LabelSelectorAsSelector s = Ok sel →
  rule_selects v rn namespaces parent rule o ↔
  labels_select (related_LabelSelector rule) o ∧
  (∃ n, n ∈ namespaces ∧ GetName n = GetNamespace o ∧ selects sel n = true) ∧ in_scope.
Proof.
  intros Hn He Hs Hsel. split.
  - intros [Hl _ _ Hns Hscope]. split_and!; [done| |done]. destruct (Hns s Hs) as (sel' & n & Hsel' & ?).
    rewrite Hsel in Hsel'. injection Hsel' as <-. by exists n.
  - intros (Hl & (n & ?) & Hscope). split; [done|by left|done| |done].
    intros s'. rewrite Hs. intros [= <-]. by exists sel, n.
Qed.
End by_type.

(** What an informer's contents have to do with the kind it watches. *)
Definition well_scoped (client : APIResource) (contents : list object) : Prop :=
  ∀ o, o ∈ contents → GetNamespace o = "" ↔ ar_Namespaced client = false.

Context (client : APIResource) (informer : RelatedInformer) (contents : list object).
Context {IL : InformerLaws informer contents} (Hscoped : well_scoped client contents).
Context (parent : object).

Lemma listObjects_spec sel ns w :
  ∃ l, listObjects sel ns informer (ar_Namespaced client) w = (Ok l, w) ∧
    ∀ o, o ∈ l ↔ o ∈ contents ∧ (ar_Namespaced client = true → ns ≠ "" → GetNamespace o = ns) ∧ selects sel o = true.
Proof using All.
  unfold listObjects. destruct (ar_Namespaced client) eqn:Hn; simpl.
  - case_bool_decide as He; simpl.
    + destruct (ri_List_spec (ri:=informer) (contents:=contents) "" sel w) as (l & Hl & Hspec). exists l. split; [done|].
      intros o. rewrite Hspec. naive_solver.
    + destruct (ri_List_spec (ri:=informer) (contents:=contents) ns sel w) as (l & Hl & Hspec). exists l. split; [done|].
      intros o. rewrite Hspec. naive_solver.
  - destruct (ri_List_spec (ri:=informer) (contents:=contents) "" sel w) as (l & Hl & Hspec). exists l. split; [done|].
    intros o. rewrite Hspec. naive_solver.
Qed.

(** The objects of the namespaces that a selector matches, one list after the other. *)
Lemma list_namespaces_spec sel ns m w m' w' :
  ar_Namespaced client = true → (∀ n, n ∈ ns → GetName n ≠ "") →
  foldlM (λ childMap n,
    all ← wrap_errM (cant_list (ar_Kind client) +:+ " in namespace " +:+ GetName n)
            (listObjects sel (GetName n) informer true);
    mret (UniformObjectMap_InsertAll childMap parent all)) m ns w = (Ok m', w') →
  w' = w ∧ ∃ all, m' = UniformObjectMap_InsertAll m parent all ∧
    ∀ o, o ∈ all ↔ o ∈ contents ∧ (∃ n, n ∈ ns ∧ GetName n = GetNamespace o) ∧ selects sel o = true.
Proof using All.
  intros Hn. revert m. induction ns as [|n ns IH]; intros m Hnames; simpl.
  - intros [= <- <-]. split; [done|]. exists []. split; [done|]. set_solver.
  - intros (m1 & w1 & H & Hrest)%bind_Ok. apply bind_Ok in H as (l & w2 & Hl%wrap_errM_Ok & H). injection H as <- <-.
    destruct (listObjects_spec sel (GetName n) w) as (l' & Hl' & Hspec). rewrite Hn, Hl in Hl'. injection Hl' as -> ->.
    apply IH in Hrest as (-> & all & -> & Hall); [|set_solver]. split; [done|].
    exists (l' ++ all). split; [by unfold UniformObjectMap_InsertAll; rewrite foldl_app|].
    assert (Hn0 : GetName n ≠ "") by (apply Hnames; set_solver).
    intros o. rewrite elem_of_app, Hspec, Hall, Hn. set_solver.
Qed.

Lemma foldl_insert_filter (P : object → bool) m l :
  foldl (λ m obj, if P obj then UniformObjectMap_Insert m parent obj else m) m l =
  UniformObjectMap_InsertAll m parent (filter (λ o, P o = true) l).
Proof using All.
  unfold UniformObjectMap_InsertAll. revert m. induction l as [|o l IH]; intros m; [done|].
  rewrite filter_cons. simpl. rewrite IH. by destruct (P o).
Qed.

Context (nsInformer : option RelatedInformer) (namespaces : list object).
Context (Hns : ∀ i, nsInformer = Some i → InformerLaws i namespaces).
Context (Hnamed : ∀ n, n ∈ namespaces → GetName n ≠ "").
Context (Hunique : ∀ n n', n ∈ namespaces → n' ∈ namespaces → GetName n = GetName n' → n = n').
Context (version : HookVersion) (parentResource : APIResource).
Context (Hparent : ar_Namespaced parentResource = true → GetNamespace parent ≠ "").

Let v1_namespaced : bool := (version == HookVersionV1) && ar_Namespaced parentResource.

(** The check that precedes the lists of a namespace. *)
Lemma namespace_checked rn rule :
  v1_namespaced && rn && (related_Namespace rule != "") && (GetNamespace parent != related_Namespace rule) = false →
  v1_namespaced = true → rn = true → related_Namespace rule ≠ "" → GetNamespace parent = related_Namespace rule.
Proof using All.
  intros H Hv Hrn Hne. rewrite Hv, Hrn in H. rewrite (bool_decide_false (related_Namespace rule = "")) in H by done.
  simpl in H. by apply negb_false_iff, bool_decide_eq_true in H.
Qed.

(** What is inserted for a rule: [all], in the group of the kind. *)
Definition adds (v : bool) rule childMap (w : World) (m : UniformObjectMap) (w' : World) : Prop :=
  w' = w ∧ ∃ gvk all, APIResource_GroupVersionKind client = Ok gvk ∧
    m = UniformObjectMap_InsertAll (UniformObjectMap_InitGroup childMap gvk) parent all ∧
    ∀ o, o ∈ all ↔ o ∈ contents ∧ rule_selects v (ar_Namespaced client) namespaces parent rule o.
Abbreviation add := (add_related nsInformer version parentResource parent).

Lemma add_by_labels rule childMap w m w' :
  determineSelectionType rule = (selectByLabels, None) →
  add rule client informer childMap w = (Ok m, w') → adds v1_namespaced rule childMap w m w'.
Proof using All.
  intros Htype. pose proof (determineSelectionType_spec rule) as Hspec. unfold add_related. rewrite Htype in *.
  destruct Hspec as (Hnames & Hnamespace & Hnss). intros (sel & w1 & [Hsel <-]%lift_Ok & H)%bind_Ok.
  apply bind_Ok in H as (l & w1 & Hl%wrap_errM_Ok & H).
  apply bind_Ok in H as (gvk & w2 & [Hgvk <-]%lift_Ok & H). injection H as <- <-.
  edestruct (ri_List_spec (ri:=informer) (contents:=contents)) as (l' & Hl' & Hspec). rewrite Hl in Hl'. injection Hl' as -> ->.
  split; [done|]. exists gvk, l'. split_and!; [done..|]. intros o.
  rewrite Hspec, (selects_by_labels _ _ _ _ _ _ Hnames Hnamespace Hnss), (labels_select_Ok _ _ _ Hsel).
  change ((version == HookVersionV1) && ar_Namespaced parentResource) with v1_namespaced. unfold in_scope.
  assert (Hv1 : v1_namespaced = true → GetNamespace parent ≠ "") by (intros [_ ?]%andb_prop; by apply Hparent).
  destruct v1_namespaced, (ar_Namespaced client); simpl; [|naive_solver..].
  specialize (Hv1 eq_refl). split; [|naive_solver]. intros (Ho & [?|?] & Hm); [done|]. done.
Qed.

Lemma add_by_names rule childMap w m w' :
  determineSelectionType rule = (selectByNamespaceAndNames, None) →
  add rule client informer childMap w = (Ok m, w') → adds (v1_namespaced && negb (names_only rule)) rule childMap w m w'.
Proof using All.
  intros Htype. pose proof (determineSelectionType_spec rule) as Hspec. unfold add_related. rewrite Htype in *.
  destruct Hspec as (Hls & Hnss & Hor). destruct (_ && (GetNamespace parent != _)) eqn:Hmis; [done|].
  intros (l & w1 & Hl%wrap_errM_Ok & H)%bind_Ok.
  apply bind_Ok in H as (gvk & w2 & [Hgvk <-]%lift_Ok & H). injection H as <- <-.
  destruct (listObjects_spec Everything (related_Namespace rule) w) as (l' & Hl' & Hspec).
  rewrite Hl in Hl'. injection Hl' as -> ->. split; [done|].
  exists gvk, (filter (λ o, related_Names rule = [] ∨ GetName o ∈ related_Names rule) l'). split_and!; [done| |].
  - destruct (decide (related_Names rule = [])) as [Hn|Hn].
    + rewrite (bool_decide_true (related_Names rule = [])) by done.
      f_equal. symmetry. apply list_filter_true. auto.
    + rewrite (bool_decide_false (related_Names rule = [])) by done. rewrite foldl_insert_filter. f_equal.
      apply list_filter_ext, Forall_forall. intros o _. rewrite stringInArray_spec. naive_solver.
  - intros o. rewrite list_elem_of_filter, Hspec, selects_everything, (selects_by_names _ _ _ _ _ _ Hls Hnss).
    split; [|naive_solver]. intros (Hname & Ho & Hns' & _). split_and!; [done..|].
    intros [Hv Hno]%andb_prop Hrn. unfold names_only in Hno.
    destruct (decide (related_Namespace rule = "")) as [He|He].
    + rewrite He in Hno. destruct Hor as [?|Hn]; [done|]. by rewrite bool_decide_false in Hno.
    + rewrite (Hns' Hrn He). symmetry. by apply (namespace_checked (ar_Namespaced client) rule Hmis).
Qed.

Lemma add_by_namespace_and_labels rule childMap w m w' :
  determineSelectionType rule = (selectByNamespaceAndLabels, None) →
  add rule client informer childMap w = (Ok m, w') → adds v1_namespaced rule childMap w m w'.
Proof using All.
  intros Htype. pose proof (determineSelectionType_spec rule) as Hspec. unfold add_related. rewrite Htype in *.
  destruct Hspec as (Hnames & Hne & Hnss & _). destruct (_ && (GetNamespace parent != _)) eqn:Hmis; [done|].
  intros (sel & w1 & [Hsel <-]%lift_Ok & H)%bind_Ok.
  apply bind_Ok in H as (l & w1 & Hl%wrap_errM_Ok & H).
  apply bind_Ok in H as (gvk & w2 & [Hgvk <-]%lift_Ok & H). injection H as <- <-.
  destruct (listObjects_spec sel (related_Namespace rule) w) as (l' & Hl' & Hspec).
  rewrite Hl in Hl'. injection Hl' as -> ->. split; [done|]. exists gvk, l'. split_and!; [done..|].
  intros o. rewrite Hspec, (selects_by_namespace_and_labels _ _ _ _ _ _ Hnames Hne Hnss), (labels_select_Ok _ _ _ Hsel).
  split; [|naive_solver]. intros (Ho & Hns' & Hm). split_and!; [done|done|auto|].
  intros Hv Hrn. rewrite (Hns' Hrn Hne). symmetry. by apply (namespace_checked (ar_Namespaced client) rule Hmis).
Qed.

Lemma add_by_namespace_selector rule childMap w m w' :
  determineSelectionType rule = (selectByNamespaceSelector, None) →
  add rule client informer childMap w = (Ok m, w') → adds v1_namespaced rule childMap w m w'.
Proof using All.
  intros Htype. pose proof (determineSelectionType_spec rule) as Hspec. unfold add_related. rewrite Htype in *.
  destruct Hspec as (Hnames & Hnamespace & [nss Hnss]).
  destruct (_ && ar_Namespaced client) eqn:Hv; [done|]. destruct (ar_Namespaced client) eqn:Hrn; [|done].
  simpl. rewrite andb_true_r in Hv. destruct nsInformer as [nsi|] eqn:Hnsi; [|done]. pose proof (Hns nsi eq_refl) as NL.
  intros (synced & w1 & Hsync & H)%bind_Ok.
  destruct (ri_HasSynced_spec (ri:=nsi) (contents:=namespaces) w) as [b Hb]. rewrite Hb in Hsync. injection Hsync as <- <-.
  destruct b; [|done]. simpl in H. apply bind_Ok in H as (nssel & w1 & [Hnssel <-]%lift_Ok & H).
  apply bind_Ok in H as (ns & w1 & Hlns%wrap_errM_Ok & H).
  destruct (ri_List_spec (ri:=nsi) (contents:=namespaces) "" nssel w) as (ns' & Hns' & Hnsspec).
  rewrite Hlns in Hns'. injection Hns' as -> ->. apply bind_Ok in H as (sel & w1 & [Hsel <-]%lift_Ok & H).
  apply bind_Ok in H as (gvk & w1 & [Hgvk <-]%lift_Ok & H).
  apply list_namespaces_spec in H as (-> & all & -> & Hall); [|done|intros n [Hn _]%Hnsspec; by apply Hnamed].
  split; [done|]. exists gvk, all. split_and!; [done..|]. intros o. rewrite Hnss in Hnssel. simpl in Hnssel.
  rewrite Hall, (selects_by_namespace_selector _ _ _ _ _ _ _ _ Hnames Hnamespace Hnss Hnssel), (labels_select_Ok _ _ _ Hsel).
  change ((version == HookVersionV1) && ar_Namespaced parentResource) with v1_namespaced in Hv.
  unfold in_scope. rewrite Hv. setoid_rewrite Hnsspec. naive_solver.
Qed.

Lemma add_related_spec rule childMap w m w' :
  add rule client informer childMap w = (Ok m, w') →
  adds (v1_namespaced && negb (names_only rule)) rule childMap w m w'.
Proof using All.
  intros H. pose proof (determineSelectionType_spec rule) as Hspec. destruct (determineSelectionType rule) as [t err] eqn:Ht.
  assert (t ≠ selectByNamespaceAndNames → t ≠ invalid → v1_namespaced && negb (names_only rule) = v1_namespaced) as Hno.
  { intros. unfold names_only. destruct t, err; try done; destruct Hspec as [-> _]; by rewrite andb_true_r. }
  destruct t, err; try done; rewrite ?Hno by done.
  - by apply add_by_labels.
  - by apply add_by_names.
  - by apply add_by_namespace_and_labels.
  - by apply add_by_namespace_selector.
  - unfold add_related in H. by rewrite Ht in H.
Qed.

(** ** Which objects an event is about *)
Section one_object.
Context (rule : RelatedResourceRule) (obj : object) (Ho : obj ∈ contents).
Context (Hav : GetAPIVersion obj = rr_APIVersion (related_rule rule)) (Hkind : GetKind obj = ar_Kind client).
Abbreviation matches :=
  (matchesRelatedRule nsInformer version (ar_Namespaced parentResource) parent obj rule (ar_Kind client)
     (ar_Namespaced client)).

Definition decides (w : World) (b : bool) (w' : World) : Prop :=
  w' = w ∧ (b = true ↔ rule_selects v1_namespaced (ar_Namespaced client) namespaces parent rule obj).

Lemma matches_right_kind :
  (GetAPIVersion obj != rr_APIVersion (related_rule rule)) || (GetKind obj != ar_Kind client) = false.
Proof using All. by rewrite Hav, Hkind, !bool_decide_true. Qed.

Lemma out_of_scope (v rn : bool) :
  v && rn && negb (GetNamespace parent == GetNamespace obj) = false ↔ in_scope v rn parent obj.
Proof using All.
  clear. unfold in_scope. destruct v, rn; simpl; [|by split; [intros|]..].
  rewrite negb_false_iff, bool_decide_eq_true. by split; [intros ->|intros ->].
Qed.

Lemma matches_by_labels w b w' :
  determineSelectionType rule = (selectByLabels, None) → matches w = (Ok b, w') → decides w b w'.
Proof using All.
  intros Htype. pose proof (determineSelectionType_spec rule) as Hspec.
  unfold matchesRelatedRule. rewrite Htype in *. rewrite matches_right_kind.
  destruct Hspec as (Hnames & Hnamespace & Hnss). intros (sel & w1 & [Hsel <-]%lift_Ok & H)%bind_Ok. unfold decides.
  rewrite (selects_by_labels _ _ _ _ _ _ Hnames Hnamespace Hnss), (labels_select_Ok _ _ _ Hsel), <-out_of_scope.
  change ((version == HookVersionV1) && ar_Namespaced parentResource) with v1_namespaced in H.
  destruct (selects sel obj); [|injection H as <- <-; split; [done|]; naive_solver]. simpl in H.
  destruct (v1_namespaced && _ && _); injection H as <- <-; split; [done|naive_solver|done|naive_solver].
Qed.

Lemma matches_by_names w b w' :
  determineSelectionType rule = (selectByNamespaceAndNames, None) → matches w = (Ok b, w') → decides w b w'.
Proof using All.
  intros Htype. pose proof (determineSelectionType_spec rule) as Hspec.
  unfold matchesRelatedRule. rewrite Htype in *. rewrite matches_right_kind.
  destruct Hspec as (Hls & Hnss & Hor). unfold decides. rewrite (selects_by_names _ _ _ _ _ _ Hls Hnss), <-out_of_scope.
  change ((version == HookVersionV1) && ar_Namespaced parentResource) with v1_namespaced.
  assert (Hname : (if bool_decide (related_Names rule = []) then true
                   else stringInArray (GetName obj) (related_Names rule)) = true ↔
                  related_Names rule = [] ∨ GetName obj ∈ related_Names rule).
  { rewrite <-stringInArray_spec. destruct (decide (related_Names rule = [])) as [->|Hn]; [by split; auto|].
    rewrite bool_decide_false by done. split; [by right|by intros [?|?]]. }
  destruct v1_namespaced eqn:Hv; simpl.
  - destruct (_ && (GetNamespace parent != related_Namespace rule)) eqn:Hmis; [done|].
    destruct (ar_Namespaced client && _) eqn:Hsame; intros [= <- <-]; split; try done; [naive_solver|].
    rewrite Hname. split; [|naive_solver]. intros Hn. split_and!; [done| |done]. intros Hrn Hne.
    rewrite <-(namespace_checked true rule) by (done || by rewrite Hv). symmetry.
    rewrite Hrn in Hsame. by apply negb_false_iff, bool_decide_eq_true in Hsame.
  - destruct (ar_Namespaced client), (decide (related_Namespace rule = "")) as [He|He]; simpl.
    + rewrite bool_decide_true by done. intros [= <- <-]. split; [done|]. rewrite Hname. naive_solver.
    + rewrite (bool_decide_false (related_Namespace rule = "")) by done. simpl.
      destruct (decide (GetNamespace obj = related_Namespace rule)) as [Hs|Hs];
        [rewrite (bool_decide_true (GetNamespace obj = _)) by done|rewrite (bool_decide_false (GetNamespace obj = _)) by done];
        intros [= <- <-]; (split; [done|]); [rewrite Hname|]; naive_solver.
    + intros [= <- <-]. split; [done|]. rewrite Hname. naive_solver.
    + intros [= <- <-]. split; [done|]. rewrite Hname. naive_solver.
Qed.

Lemma matches_by_namespace_and_labels w b w' :
  determineSelectionType rule = (selectByNamespaceAndLabels, None) → matches w = (Ok b, w') → decides w b w'.
Proof using All.
  intros Htype. pose proof (determineSelectionType_spec rule) as Hspec.
  unfold matchesRelatedRule. rewrite Htype in *. rewrite matches_right_kind.
  destruct Hspec as (Hnames & Hne & Hnss & _). unfold decides.
  rewrite (selects_by_namespace_and_labels _ _ _ _ _ _ Hnames Hne Hnss), <-out_of_scope.
  change ((version == HookVersionV1) && ar_Namespaced parentResource) with v1_namespaced.
  destruct (_ && (GetNamespace parent != related_Namespace rule)); [done|].
  destruct (v1_namespaced && _ && _) eqn:Hsame; [intros [= <- <-]; split; [done|]; naive_solver|].
  intros (sel & w1 & [Hsel <-]%lift_Ok & H)%bind_Ok. rewrite (labels_select_Ok _ _ _ Hsel).
  destruct (selects sel obj); simpl in H; [|injection H as <- <-; split; [done|]; naive_solver].
  destruct (ar_Namespaced client); simpl in H; [|injection H as <- <-; split; [done|]; naive_solver].
  case_bool_decide; injection H as <- <-; (split; [done|]); naive_solver.
Qed.

Lemma matches_by_namespace_selector w b w' :
  determineSelectionType rule = (selectByNamespaceSelector, None) → matches w = (Ok b, w') → decides w b w'.
Proof using All.
  intros Htype. pose proof (determineSelectionType_spec rule) as Hspec.
  unfold matchesRelatedRule. rewrite Htype in *. rewrite matches_right_kind.
  destruct Hspec as (Hnames & Hnamespace & [nss Hnss]). unfold decides.
  change ((version == HookVersionV1) && ar_Namespaced parentResource) with v1_namespaced.
  destruct v1_namespaced; [done|]. destruct (negb (ar_Namespaced client)); [done|].
  intros (sel & w1 & [Hsel <-]%lift_Ok & H)%bind_Ok.
  destruct (selects sel obj) eqn:Hm; simpl in H.
  2: { injection H as <- <-. split; [done|]. split; [done|]. intros [Hl _ _ _ _].
       apply (labels_select_Ok _ _ _ Hsel) in Hl. by rewrite Hm in Hl. }
  unfold matches_namespace_selector in H. destruct nsInformer as [nsi|] eqn:Hnsi; [|done]. pose proof (Hns nsi eq_refl) as NL.
  apply bind_Ok in H as (synced & w1 & Hsync & H).
  destruct (ri_HasSynced_spec (ri:=nsi) (contents:=namespaces) w) as [b' Hb]. rewrite Hb in Hsync. injection Hsync as <- <-.
  destruct b'; [|done]. apply bind_Ok in H as (r & w1 & Hget%try_Ok & H).
  destruct (ri_Get_spec (ri:=nsi) (contents:=namespaces) (GetNamespace obj) w) as [(n & E & Hn & Hname)|(e & E & He & Hnone)];
    rewrite E in Hget; destruct r as [n'|e']; try done; injection Hget as <- <-.
  - apply bind_Ok in H as (nssel & w1 & [Hnssel <-]%lift_Ok & H). injection H as <- <-. split; [done|].
    rewrite Hnss in Hnssel. simpl in Hnssel.
    rewrite (selects_by_namespace_selector _ _ _ _ _ _ _ _ Hnames Hnamespace Hnss Hnssel), (labels_select_Ok _ _ _ Hsel).
    split; [intros; split_and!; [done|by exists n|done]|]. intros (_ & (n' & Hn' & Hname' & Hnm) & _).
    rewrite (Hunique n n'); [done..|]. by rewrite Hname, Hname'.
  - rewrite He in H. injection H as <- <-. split; [done|]. split; [done|].
    intros [_ _ _ Hs _]. destruct (Hs nss Hnss) as (nssel' & n' & _ & Hn' & Hname' & _). by destruct (Hnone n' Hn').
Qed.

Lemma matchesRelatedRule_spec w b w' : matches w = (Ok b, w') → decides w b w'.
Proof using All.
  intros H. pose proof (determineSelectionType_spec rule) as Hspec. destruct (determineSelectionType rule) as [[] [err|]] eqn:Ht;
    try done.
  - by apply matches_by_labels.
  - by apply matches_by_names.
  - by apply matches_by_namespace_and_labels.
  - by apply matches_by_namespace_selector.
  - unfold matchesRelatedRule in H. by rewrite matches_right_kind, Ht in H.
Qed.
End one_object.

(** ** Selection and notification *)



(** With version 1, a rule that gives nothing but names hands a namespaced
    parent the objects of that name of every namespace, and an event about
    one of another namespace does not wake the parent up. *)
Theorem names_only_leaks rule childMap w m w' :
  version = HookVersionV1 → ar_Namespaced parentResource = true → ar_Namespaced client = true →
  names_only rule = true →
  add rule client informer childMap w = (Ok m, w') →
  ∃ gvk all, m = UniformObjectMap_InsertAll (UniformObjectMap_InitGroup childMap gvk) parent all ∧
    (∀ obj, obj ∈ all ↔ obj ∈ contents ∧ GetName obj ∈ related_Names rule) ∧
    ∀ obj w1, obj ∈ all → GetNamespace obj ≠ GetNamespace parent →
      GetAPIVersion obj = rr_APIVersion (related_rule rule) → GetKind obj = ar_Kind client →
      matchesRelatedRule nsInformer version (ar_Namespaced parentResource) parent obj rule (ar_Kind client)
        (ar_Namespaced client) w1 = (Ok false, w1).
Proof using All.
  intros Hv Hp Hrn Hno H. assert (Hno' := Hno). unfold names_only in Hno'.
  apply andb_prop in Hno' as [Hn%negb_true_iff%bool_decide_eq_false He%bool_decide_eq_true].
  pose proof (determineSelectionType_spec rule) as Hspec.
  destruct (determineSelectionType rule) as [t err] eqn:Ht.
  assert (t = selectByNamespaceAndNames ∧ err = None) as [-> ->].
  { destruct t, err; try done; try (by destruct Hspec). unfold add_related in H. by rewrite Ht in H. }
  destruct Hspec as (Hls & Hnss & _).
  apply add_related_spec in H as (_ & gvk & all & _ & Hm & Hall). rewrite Hno, andb_false_r in Hall.
  exists gvk, all. split_and!; [done| |].
  - intros obj. rewrite Hall, (selects_by_names _ _ _ _ _ _ Hls Hnss), He. unfold in_scope. naive_solver.
  - intros obj w1 Hobj Hne Hav Hk. unfold matchesRelatedRule. rewrite Ht, Hav, Hk, !bool_decide_true by done. simpl.
    rewrite He, Hp, Hrn. simpl. by rewrite bool_decide_false by (by apply not_eq_sym).
Qed.
End selection.

(** ** Concrete related objects *)
Section related_examples.
#[local] Existing Instance treeAPI.
#[local] Existing Instance listRuntime.
#[local] Existing Instance FakeCluster.fakeCluster.

Definition list_informer (contents : list object) : RelatedInformer := {|
  ri_HasSynced := mret true;
  ri_Get := λ name,
    match head (filter (λ o, GetName o = name) contents) with
    | Some o => mret o
    | None => throw (StatusError "NotFound" name)
    end;
  ri_List := λ ns sel, mret (filter (λ o, (ns = "" ∨ GetNamespace o = ns) ∧ selects sel o = true) contents);
|}.

#[local] Instance list_informer_laws contents : InformerLaws (list_informer contents) contents.
Proof.
  split; unfold list_informer; cbn [ri_HasSynced ri_Get ri_List].
  - by eexists.
  - intros ns sel w. eexists. split; [done|]. intros o. rewrite list_elem_of_filter. naive_solver.
  - intros name w. destruct (filter _ contents) as [|o l] eqn:E; cbn [head].
    + right. eexists. split_and!; [done|done|]. intros o Ho Hn. by apply (list_filter_nil_inv _ _ o E Ho).
    + left. exists o. split; [done|]. assert (o ∈ filter (λ o, GetName o = name) contents) as Ho by (rewrite E; by left).
      apply list_elem_of_filter in Ho as []. done.
Qed.

Definition config (ns name : string) : object :=
  {[ "apiVersion" := VString "demo.io/v1"; "kind" := VString "Config";
     "metadata" := VMap {[ "namespace" := VString ns; "name" := VString name ]} ]}.
Definition configs : list object := [config "a" "shared"; config "b" "shared"; config "a" "own"].
Definition config_resource : APIResource := demo_resource "configs" "Config" true.
Definition scoped_parents : APIResource := demo_resource "parents" "Parent" true.
Definition scoped_parent : object :=
  {[ "kind" := VString "Parent"; "metadata" := VMap {[ "namespace" := VString "a"; "name" := VString "p" ]} ]}.
Definition config_rule (names : list string) : RelatedResourceRule := {|
  related_rule := {| rr_APIVersion := "demo.io/v1"; rr_Resource := "configs" |};
  related_LabelSelector := None; related_NamespaceSelector := None; related_Namespace := ""; related_Names := names |}.
Definition related_configs (rule : RelatedResourceRule) : res UniformObjectMap * World :=
  add_related None HookVersionV1 scoped_parents scoped_parent rule config_resource (list_informer configs) (Uniform ∅)
    things_world.

Lemma configs_scoped : well_scoped config_resource configs.
Proof.
  intros o Ho. unfold configs in Ho.
  repeat (apply elem_of_cons in Ho as [-> |Ho]; [split; intros H; by vm_compute in H|]). by apply not_elem_of_nil in Ho.
Qed.

Lemma related_configs_Ok rule :
  is_Ok (related_configs rule).1 = true → ∃ m w, related_configs rule = (Ok m, w).
Proof. destruct (related_configs rule) as [[m|e|s] w]; [by exists m, w|done..]. Qed.



(** The config of the other namespace is handed out, and its events are not. *)
Lemma names_only_leaks_witness :
  ∃ m (all : list object), (related_configs (config_rule ["shared"])).1 = Ok m ∧ config "b" "shared" ∈ all ∧
    (matchesRelatedRule None HookVersionV1 true scoped_parent (config "b" "shared") (config_rule ["shared"]) "Config" true
       things_world).1 = Ok false.
Proof.
  destruct (related_configs_Ok (config_rule ["shared"]) ltac:(vm_compute; reflexivity)) as (m & w & E).
  destruct (names_only_leaks config_resource (list_informer configs) configs configs_scoped scoped_parent None []
    ltac:(done) ltac:(set_solver) ltac:(set_solver) HookVersionV1 scoped_parents ltac:(intros _; by vm_compute)
    (config_rule ["shared"]) _ _ _ _ eq_refl eq_refl eq_refl eq_refl E) as (gvk & all & _ & Hall & Hmatch).
  assert (Hb : config "b" "shared" ∈ all).
  { apply Hall. split; [by right; left|]. by left. }
  exists m, all. rewrite E. split_and!; [reflexivity|exact Hb|].
  exact (f_equal fst (Hmatch (config "b" "shared") things_world Hb ltac:(by vm_compute) eq_refl eq_refl)).
Defined.

(** Three syncs at once ask for the things. *)
Definition customize_manager : Manager (CacheSt:=unit) (Controller:=unit) := {|
  rm_controller := (); rm_parentKinds := ∅; rm_dynClient := demo_clientset; rm_parentInformers := ∅;
  rm_nsInformer := None; rm_customizeCache := {| cache_Get := λ _, mret None; cache_Set := λ _ _, mret () |};
  rm_enqueueParent := λ _, mret (); rm_customizeHook := None; rm_started := true; rm_name := "demo"; rm_cached := λ _, [];
  rm_view := λ _, list_informer [] |}.
Definition customize_state : CustomizeState (CacheSt:=unit) := {|
  cz_world := things_world; cz_cache := (); cz_relatedInformers := ∅;
  cz_factory := NewSharedInformerFactory demo_clientset 0 |}.

Lemma related_informer_shared_witness :
  ∃ ri s', concurrent_getOrCreate customize_manager "demo.io/v1" "things" things_gvr 3 customize_state =
    (Ok [ri; ri; ri], s') ∧ factory_holds [ri] [ri] (cz_factory s').
Proof.
  assert (Hok : is_Ok (concurrent_getOrCreate customize_manager "demo.io/v1" "things" things_gvr 3 customize_state).1 = true)
    by (vm_compute; reflexivity).
  destruct (concurrent_getOrCreate customize_manager "demo.io/v1" "things" things_gvr 3 customize_state)
    as [[actuals|e|p] s'] eqn:E; [|discriminate..].
  destruct (related_informer_shared customize_manager "demo.io/v1" "things" things_gvr 3 customize_state [] []
    actuals s' ltac:(lia) eq_refl (factory_holds_new demo_clientset 0) E) as (ri & -> & _ & Hf).
  exists ri, s'. split; [reflexivity|exact Hf].
Defined.
End related_examples.
