(* ===== verification/Metrics.v ===== *)
(** * Metrics of webhooks: [pkg/metrics/http.go] and [pkg/cache/cache.go]

    The client of a webhook is wrapped in counters and histograms, which are
    created once per key and registered with the process-wide registry.  The
    collectors, the registry and the wrappers of round trippers are
    Prometheus's; the cache wraps zcache.  The theorems say that a hook cannot
    tell whether its client is instrumented, and which metrics it reports to. *)
From S2P Require Import Prelude Value K8s K8sInst Types World Endpoint ParentController Webhook.
From stdpp Require Import options.

(** ** [pkg/cache] *)

(** [zcache.Cache] *)
Record zcache (K V W : Type) := {
  z_Get : K → M W (option V);
  z_Set : K → V → M W unit;
  z_SetWithExpire : K → V → Z → M W unit;
}.
#[global] Arguments z_Get {K V W}.
#[global] Arguments z_Set {K V W}.
#[global] Arguments z_SetWithExpire {K V W}.

(** [zcache.NoExpiration] *)
Definition NoExpiration : Z := -1.

Definition Cache_of {K V W} (z : zcache K V W) : Cache K V W := {|
  cache_Get := z_Get z;
  cache_Set := z_Set z;
|}.
Definition SetNoExpiration {K V W} (z : zcache K V W) (key : K) (val : V) : M W unit :=
  z_SetWithExpire z key val NoExpiration.

(** ** Prometheus *)
Record Opts := {
  Namespace : string;
  Subsystem : string;
  Name : string;
  Help : string;
  ConstLabels : gmap string string;
}.

(** [prometheus.Collector], with the channels as lists. *)
Record Collector (Desc Metric W : Type) := {
  Describe : list Desc;
  Collect : M W (list Metric);
}.
#[global] Arguments Describe {Desc Metric W}.
#[global] Arguments Collect {Desc Metric W}.

(** [promhttp.InstrumentTrace]: its functions pass a duration to an observer. *)
Record InstrumentTrace (Observer : Type) := {
  DNSStart : Observer;
  DNSDone : Observer;
  TLSHandshakeStart : Observer;
  TLSHandshakeDone : Observer;
}.
#[global] Arguments DNSStart {Observer}.
#[global] Arguments DNSDone {Observer}.
#[global] Arguments TLSHandshakeStart {Observer}.
#[global] Arguments TLSHandshakeDone {Observer}.

(** What the source takes from Prometheus's client library; the bounds of
    buckets are in thousandths. *)
Class Prometheus (W : Type) := {
  Desc : Type;
  Metric : Type;
  CounterVec : Type;
  HistogramVec : Type;
  Gauge : Type;
  Observer : Type;
  DefBuckets : list Z;
  NewCounterVec : Opts → list string → M W CounterVec;
  NewHistogramVec : Opts → list Z → list string → M W HistogramVec;
  NewGauge : Opts → M W Gauge;
  CounterVec_Collector : CounterVec → Collector Desc Metric W;
  HistogramVec_Collector : HistogramVec → Collector Desc Metric W;
  Gauge_Collector : Gauge → Collector Desc Metric W;
  WithLabelValues : HistogramVec → list string → Observer;
  (** [registerer.Register] *)
  Register : Collector Desc Metric W → M W unit;
  InstrumentRoundTripperInFlight : Gauge → RoundTripper W → RoundTripper W;
  InstrumentRoundTripperCounter : CounterVec → RoundTripper W → RoundTripper W;
  InstrumentRoundTripperTrace : InstrumentTrace Observer → RoundTripper W → RoundTripper W;
  InstrumentRoundTripperDuration : HistogramVec → RoundTripper W → RoundTripper W;
}.

(** ** Instrumentation *)
Definition metacontrollerPrefix : string := "metacontroller".

Record instrumentation {W} `{!Prometheus W} := {
  duration : HistogramVec;
  requests : CounterVec;
  dnsDuration : HistogramVec;
  tlsDuration : HistogramVec;
  inflight : Gauge;
}.
#[global] Arguments instrumentation W {_}.
Record cachedInstrumentation {W} `{!Prometheus W} := {
  ci_Collector : instrumentation W;
  ci_Trace : InstrumentTrace Observer;
}.
#[global] Arguments cachedInstrumentation W {_}.

Section metrics.
Context {W : Type} {PR : Prometheus W} {NL : NetLib} {HL : HttpLib W}.
Variable metricsCache : zcache string (cachedInstrumentation W) W.

Definition instrumentation_Describe (i : instrumentation W) : list Desc :=
  Describe (HistogramVec_Collector (duration i)) ++
  Describe (CounterVec_Collector (requests i)) ++
  Describe (HistogramVec_Collector (dnsDuration i)) ++
  Describe (HistogramVec_Collector (tlsDuration i)) ++
  Describe (Gauge_Collector (inflight i)).
Definition instrumentation_Collect (i : instrumentation W) : M W (list Metric) :=
  l1 ← Collect (HistogramVec_Collector (duration i));
  l2 ← Collect (CounterVec_Collector (requests i));
  l3 ← Collect (HistogramVec_Collector (dnsDuration i));
  l4 ← Collect (HistogramVec_Collector (tlsDuration i));
  l5 ← Collect (Gauge_Collector (inflight i));
  mret (l1 ++ l2 ++ l3 ++ l4 ++ l5).
Definition instrumentation_Collector (i : instrumentation W) : Collector Desc Metric W :=
  {| Describe := instrumentation_Describe i; Collect := instrumentation_Collect i |}.

Definition createNewMetrics (hookType : string) (constLabels : gmap string string)
    : M W (instrumentation W * InstrumentTrace Observer) :=
  let opts name help := {| Namespace := metacontrollerPrefix; Subsystem := hookType; Name := name; Help := help;
                           ConstLabels := constLabels |} in
  requests ← NewCounterVec (opts "requests_total" "A counter for outgoing requests from the wrapped client.")
               ["code"; "method"];
  duration ← NewHistogramVec (opts "request_duration_histogram_seconds" "A histogram of outgoing request latencies.")
               DefBuckets ["method"];
  dnsDuration ← NewHistogramVec (opts "dns_duration_histogram_seconds" "Trace dns latency histogram.")
                  [5%Z; 10%Z; 25%Z; 50%Z] ["event"];
  tlsDuration ← NewHistogramVec (opts "tls_duration_histogram_seconds" "Trace tls latency histogram.")
                  [50%Z; 100%Z; 250%Z; 500%Z] ["event"];
  inflight ← NewGauge (opts "in_flight_requests" "A gauge of in-flight outgoing requests for the wrapped client.");
  let outgoingInstrumentation :=
    {| duration := duration; requests := requests; dnsDuration := dnsDuration; tlsDuration := tlsDuration;
       inflight := inflight |} in
  mret (outgoingInstrumentation, {|
    DNSStart := WithLabelValues dnsDuration ["dns_start"];
    DNSDone := WithLabelValues dnsDuration ["dns_done"];
    TLSHandshakeStart := WithLabelValues tlsDuration ["tls_handshake_start"];
    TLSHandshakeDone := WithLabelValues tlsDuration ["tls_handshake_done"];
  |}).

Definition getOrCreateMetrics (key hookType : string) (constLabels : gmap string string) : M W (cachedInstrumentation W) :=
  found ← cache_Get (Cache_of metricsCache) key;
  match found with
  | Some instrumentation => mret instrumentation
  | None =>
    '(collector, trace) ← createNewMetrics hookType constLabels;
    let instrumentation := {| ci_Collector := collector; ci_Trace := trace |} in
    SetNoExpiration metricsCache key instrumentation ;;
    Register (instrumentation_Collector (ci_Collector instrumentation)) ;;
    mret instrumentation
  end.

Definition metrics_key (controllerName hookType url : string) : string :=
  controllerName +:+ "/" +:+ hookType +:+ "/" +:+ url.
Definition transport_of (c : http_Client W) : RoundTripper W := default DefaultTransport (Transport c).
Definition instrumented (i : cachedInstrumentation W) (transport : RoundTripper W) : RoundTripper W :=
  InstrumentRoundTripperInFlight (inflight (ci_Collector i))
    (InstrumentRoundTripperCounter (requests (ci_Collector i))
       (InstrumentRoundTripperTrace (ci_Trace i)
          (InstrumentRoundTripperDuration (duration (ci_Collector i)) transport))).

Definition InstrumentClientWithConstLabels (controllerName controllerType hookType : string) (c : http_Client W)
    (url : string) : M W (http_Client W) :=
  let constLabels : gmap string string :=
    <["url" := url]> (<["controller_name" := controllerName]> {[ "controller_type" := controllerType ]}) in
  instrumentation ← getOrCreateMetrics (metrics_key controllerName hookType url) hookType constLabels;
  mret {| Timeout := Timeout c; Transport := Some (instrumented instrumentation (transport_of c)) |}.
End metrics.

(** ** The registry *)

(** Documented behaviour: an entry set without expiration stays; creating a
    collector does not register it; [Register] takes a collector or returns an
    error.  The registry is seen by the descriptions of what it holds. *)
Class MetricsLaws {W} `{PR : !Prometheus W} (metricsCache : zcache string (cachedInstrumentation W) W)
    (cached : W → gmap string (cachedInstrumentation W)) (registered : W → list (list Desc)) : Prop := {
  z_Get_spec key s : ∃ s', z_Get metricsCache key s = (Ok (cached s !! key), s') ∧
    cached s' = cached s ∧ registered s' = registered s;
  z_Set_spec key i s : ∃ s', z_SetWithExpire metricsCache key i NoExpiration s = (Ok (), s') ∧
    cached s' = <[key := i]> (cached s) ∧ registered s' = registered s;
  NewCounterVec_spec opts labels s : ∃ c s', NewCounterVec opts labels s = (Ok c, s') ∧
    cached s' = cached s ∧ registered s' = registered s;
  NewHistogramVec_spec opts buckets labels s : ∃ h s', NewHistogramVec opts buckets labels s = (Ok h, s') ∧
    cached s' = cached s ∧ registered s' = registered s;
  NewGauge_spec opts s : ∃ g s', NewGauge opts s = (Ok g, s') ∧
    cached s' = cached s ∧ registered s' = registered s;
  Register_spec c s : ∃ r s', Register c s = (r, s') ∧ cached s' = cached s ∧
    (r = Ok () ∧ registered s' = Describe c :: registered s ∨ (∃ e, r = Err e) ∧ registered s' = registered s);
}.

Section registry.
Context {W : Type} {PR : Prometheus W} {NL : NetLib} {HL : HttpLib W}.
Context (metricsCache : zcache string (cachedInstrumentation W) W).
Context (cached : W → gmap string (cachedInstrumentation W)) (registered : W → list (list Desc)).
Context {ML : MetricsLaws metricsCache cached registered}.
Abbreviation InstrumentClient := (InstrumentClientWithConstLabels metricsCache).

Lemma createNewMetrics_total hookType labels s :
  ∃ i trace s', createNewMetrics hookType labels s = (Ok (i, trace), s') ∧
    cached s' = cached s ∧ registered s' = registered s.
Proof using All.
  unfold createNewMetrics, mbind, M_bind.
  edestruct (NewCounterVec_spec (MetricsLaws:=ML)) as (c & s1 & -> & <- & <-).
  edestruct (NewHistogramVec_spec (MetricsLaws:=ML)) as (h1 & s2 & -> & <- & <-).
  edestruct (NewHistogramVec_spec (MetricsLaws:=ML)) as (h2 & s3 & -> & <- & <-).
  edestruct (NewHistogramVec_spec (MetricsLaws:=ML)) as (h3 & s4 & -> & <- & <-).
  edestruct (NewGauge_spec (MetricsLaws:=ML)) as (g & s5 & -> & <- & <-).
  by eexists _, _, s5.
Qed.

Lemma getOrCreateMetrics_found key hookType labels i s :
  cached s !! key = Some i →
  ∃ s', getOrCreateMetrics metricsCache key hookType labels s = (Ok i, s') ∧
    cached s' = cached s ∧ registered s' = registered s.
Proof using All.
  intros Hi. unfold getOrCreateMetrics, mbind, M_bind. simpl.
  destruct (z_Get_spec (MetricsLaws:=ML) key s) as (s1 & -> & ? & ?). rewrite Hi. by exists s1.
Qed.

(** Metrics are remembered before they are registered. *)
Lemma getOrCreateMetrics_new key hookType labels s :
  cached s !! key = None →
  ∃ i r s', getOrCreateMetrics metricsCache key hookType labels s = (r, s') ∧
    cached s' = <[key := i]> (cached s) ∧
    (r = Ok i ∧ registered s' = instrumentation_Describe (ci_Collector i) :: registered s ∨
     (∃ e, r = Err e) ∧ registered s' = registered s).
Proof using All.
  intros Hi. unfold getOrCreateMetrics, mbind, M_bind. simpl.
  destruct (z_Get_spec (MetricsLaws:=ML) key s) as (s1 & -> & Hc1 & Hr1). rewrite Hi, <- Hc1, <- Hr1. clear Hi Hc1 Hr1.
  destruct (createNewMetrics_total hookType labels s1) as (i & trace & s2 & -> & <- & <-).
  exists {| ci_Collector := i; ci_Trace := trace |}. unfold SetNoExpiration. simpl.
  destruct (z_Set_spec (MetricsLaws:=ML) key {| ci_Collector := i; ci_Trace := trace |} s2) as (s3 & -> & <- & <-).
  destruct (Register_spec (MetricsLaws:=ML) (instrumentation_Collector i) s3) as (r & s4 & -> & <- & Hr).
  destruct Hr as [[-> ?]|[[e ->] ?]]; eexists _, s4; eauto 10.
Qed.

Abbreviation instrumented_client i c :=
  {| Timeout := Timeout c; Transport := Some (instrumented i (transport_of c)) |}.

(** What one call does: it finds the metrics of its key, or leaves some there. *)
Lemma InstrumentClient_cases name kind hookType c url s :
  ∃ i r s', InstrumentClient name kind hookType c url s = (r, s') ∧
    cached s' !! metrics_key name hookType url = Some i ∧
    (r = Ok (instrumented_client i c) ∨ (∃ e, r = Err e) ∧ registered s' = registered s) ∧
    (cached s !! metrics_key name hookType url ≠ None →
     cached s !! metrics_key name hookType url = Some i ∧ r = Ok (instrumented_client i c) ∧ registered s' = registered s).
Proof using All.
  unfold InstrumentClientWithConstLabels, mbind, M_bind.
  destruct (cached s !! metrics_key name hookType url) as [i|] eqn:Hi.
  - edestruct getOrCreateMetrics_found as (s' & -> & Hc & ?); [exact Hi|].
    exists i. eexists _, s'. rewrite Hc. eauto 10.
  - edestruct getOrCreateMetrics_new as (i & r & s' & -> & Hc & Hr); [exact Hi|]. exists i.
    destruct Hr as [[-> ?]|[[e ->] ?]]; eexists _, s'; rewrite Hc, lookup_insert_eq; split_and!; eauto; done.
Qed.

(** The metrics of a hook are those of the first controller with its name,
    hook and URL, whose kind they carry in a label: the key leaves the kind out,
    and what is found under it is used as it is.  A composite and a decorator
    controller of one name report to the same metrics, under one kind. *)
Theorem metrics_shared name kind kind' hookType c c' url s client s1 :
  InstrumentClient name kind hookType c url s = (Ok client, s1) →
  ∃ i s2, client = instrumented_client i c ∧
    InstrumentClient name kind' hookType c' url s1 = (Ok (instrumented_client i c'), s2) ∧
    registered s2 = registered s1.
Proof using All.
  intros H. destruct (InstrumentClient_cases name kind hookType c url s) as (i & r & s1' & E & Hi & Hr & _).
  rewrite H in E. injection E as <- <-.
  destruct Hr as [[= ->]|[[e ?] _]]; [|done].
  destruct (InstrumentClient_cases name kind' hookType c' url s1) as (i' & r' & s2 & E' & _ & _ & Hfound).
  destruct Hfound as (Hi' & -> & Hreg); [by rewrite Hi|]. rewrite Hi in Hi'. injection Hi' as <-. by exists i, s2.
Qed.

(** A hook whose metrics the registry refuses cannot be constructed, but only
    the first time: the refused metrics are remembered, so that the next
    attempt uses them, and nobody ever collects them. *)
Theorem refused_metrics_reused name kind hookType c url s e s1 :
  InstrumentClient name kind hookType c url s = (Err e, s1) →
  ∃ i, ∀ kind' c', ∃ s2,
    InstrumentClient name kind' hookType c' url s1 = (Ok (instrumented_client i c'), s2) ∧
    registered s2 = registered s.
Proof using All.
  intros H. destruct (InstrumentClient_cases name kind hookType c url s) as (i & r & s1' & E & Hi & Hr & _).
  rewrite H in E. injection E as <- <-. destruct Hr as [?|[_ Hreg]]; [done|]. exists i. intros kind' c'.
  destruct (InstrumentClient_cases name kind' hookType c' url s1) as (i' & r' & s2 & E' & _ & _ & Hfound).
  destruct Hfound as (Hi' & -> & Hreg'); [by rewrite Hi|]. rewrite Hi in Hi'. injection Hi' as <-.
  exists s2. by rewrite Hreg', Hreg.
Qed.

(** No configuration crashes it. *)
Lemma InstrumentClient_no_panic name kind hookType c url s p :
  (InstrumentClient name kind hookType c url s).1 ≠ Panic p.
Proof using All.
  destruct (InstrumentClient_cases name kind hookType c url s) as (i & r & s' & -> & _ & Hr & _).
  by destruct Hr as [->|[[e ->] _]].
Qed.
End registry.

(** ** Instrumentation is transparent *)

(** Two computations that agree, as far as a part of the state goes that they
    take from and leave to the rest of the program. *)
Definition agree {W O A} (obs : W → O) : relation (M W A) := λ m m',
  ∀ s s', obs s = obs s' → (m s).1 = (m' s').1 ∧ obs (m s).2 = obs (m' s').2.

#[global] Instance agree_bind {W O A B} (obs : W → O) :
  Proper (pointwise_relation A (agree obs) ==> agree obs ==> agree obs) (mbind (M:=M W) (A:=A) (B:=B)).
Proof.
  intros f f' Hf m m' Hm s s' Hs. specialize (Hm s s' Hs). unfold mbind, M_bind.
  destruct (m s) as [r s1], (m' s') as [r' s1']. destruct Hm as [Hr Hs1]. simpl in *. subst r'.
  destruct r as [a|e|p]; [by apply Hf|done..].
Qed.
#[global] Instance agree_wrap {W O A} (obs : W → O) msg : Proper (agree obs ==> agree obs) (wrap_errM (W:=W) (A:=A) msg).
Proof.
  intros m m' Hm s s' Hs. specialize (Hm s s' Hs). unfold wrap_errM.
  destruct (m s) as [r s1], (m' s') as [r' s1']. destruct Hm as [Hr Hs1]. simpl in *. by subst r'.
Qed.
Lemma agree_lift {W O A} (obs : W → O) (r : res A) : agree obs (lift r) (lift r).
Proof. done. Qed.
Lemma agree_ret {W O A} (obs : W → O) (a : A) : agree obs (mret a) (mret a).
Proof. done. Qed.
Lemma agree_throw {W O A} (obs : W → O) e : agree obs (throw (A:=A) e) (throw e).
Proof. done. Qed.
Create HintDb agree discriminated.
#[export] Hint Resolve agree_lift agree_ret agree_throw : agree.
Ltac agree_step :=
  match goal with
  | |- agree _ (_ ≫= _) (_ ≫= _) => apply agree_bind; [intros ?|]
  | |- agree _ (wrap_errM _ _) (wrap_errM _ _) => apply agree_wrap
  | |- agree _ (match ?x with _ => _ end) _ => destruct x
  | |- agree _ _ _ => solve [eauto with agree]
  end.
Ltac agree_auto := repeat agree_step.

Definition transport_agree {W O} (obs : W → O) (t t' : RoundTripper W) : Prop :=
  ∀ request, agree obs (RoundTrip t request) (RoundTrip t' request).
Definition client_agree {W O} (obs : W → O) (c c' : HttpClient W) : Prop :=
  ∀ request, agree obs (Do c request) (Do c' request).

(** Documented behaviour, for what the program sees but its metrics: the
    wrappers measure the request and pass it on; a client depends on what its
    transport answers, and a nil transport is the default one. *)
Class Transparent {W O} `{PR : !Prometheus W, !NetLib, !HttpLib W} (obs : W → O) : Prop := {
  InFlight_transparent g t t' : transport_agree obs t t' → transport_agree obs (InstrumentRoundTripperInFlight g t) t';
  Counter_transparent c t t' : transport_agree obs t t' → transport_agree obs (InstrumentRoundTripperCounter c t) t';
  Trace_transparent tr t t' : transport_agree obs t t' → transport_agree obs (InstrumentRoundTripperTrace tr t) t';
  Duration_transparent h t t' : transport_agree obs t t' → transport_agree obs (InstrumentRoundTripperDuration h t) t';
  Client_Do_agree c c' : Timeout c = Timeout c' → transport_agree obs (transport_of c) (transport_of c') →
    client_agree obs (Client_Do c) (Client_Do c');
}.

Section transparency.
Context {API : Apimachinery} {W O : Type} {PR : Prometheus W} {NL : NetLib} {HL : HttpLib W}.
Context (obs : W → O) {TL : Transparent obs}.
Context (metricsCache : zcache string (cachedInstrumentation W) W).
Context {Request Response : Type}.
Variable Marshal : Request → res string.
Variable GetRootObject : Request → option object.
Variable UnmarshalStrict : string → res (Response * list error).

(** What an executor uses besides its client does not see the metrics. *)
Definition etag_agree (a : webhookAbstract W) : Prop :=
  match a with
  | webhookExecutorPlain => True
  | webhookExecutorEtag etagCache =>
    (∀ k, agree obs (cache_Get etagCache k) (cache_Get etagCache k)) ∧
    (∀ k e, agree obs (cache_Set etagCache k e) (cache_Set etagCache k e))
  end.
Definition set_client (client : HttpClient W) (w : webhookExecutor W) : webhookExecutor W := {|
  we_client := client; we_url := we_url w; we_hookType := we_hookType w; we_hookVersion := we_hookVersion w;
  we_webhookAbstract := we_webhookAbstract w; we_responseUnmarshallMode := we_responseUnmarshallMode w;
  we_authHeader := we_authHeader w; we_now := we_now w |}.

Lemma Call_agree ex client client' r :
  etag_agree (we_webhookAbstract ex) → agree obs (we_now ex) (we_now ex) → client_agree obs client client' →
  agree obs (Call Marshal GetRootObject UnmarshalStrict (set_client client ex) r)
            (Call Marshal GetRootObject UnmarshalStrict (set_client client' ex) r).
Proof.
  intros Hetag Hnow Hclient.
  assert (Hdo : ∀ request, agree obs (Do client request) (Do client' request)) by done.
  unfold Call, build_request, retry_after, enrichHeaders, adjustResponse. simpl.
  destruct (we_webhookAbstract ex) as [|etagCache]; [|destruct Hetag as [Hget Hset]]; agree_auto.
Qed.

(** A hook with an instrumented client answers what it answers with the client
    alone, and leaves the same behind but for the metrics. *)
Theorem instrumentation_transparent name kind hookType c url s client s' ex r :
  InstrumentClientWithConstLabels metricsCache name kind hookType c url s = (Ok client, s') →
  transport_agree obs (transport_of c) (transport_of c) →
  etag_agree (we_webhookAbstract ex) → agree obs (we_now ex) (we_now ex) →
  agree obs (Call Marshal GetRootObject UnmarshalStrict (set_client (Client_Do client) ex) r)
            (Call Marshal GetRootObject UnmarshalStrict (set_client (Client_Do c) ex) r).
Proof using All.
  intros (i & s1 & _ & H)%bind_Ok Ht Hetag Hnow. injection H as <- <-. apply Call_agree; [done..|].
  apply Client_Do_agree; [done|]. unfold instrumented.
  by apply InFlight_transparent, Counter_transparent, Trace_transparent, Duration_transparent.
Qed.
End transparency.

(** ** A concrete registry *)
Section examples.
#[local] Existing Instance simple_net.

(** A metric is its description with a serial number.  The registry accepts a
    collector unless it holds one of the same description. *)
Definition metric : Type := string * nat.
Record books := {
  b_next : nat;
  b_cached : gmap string (list metric * list (metric * list string));
  b_registered : list (list string);
}.
Definition new_metric (opts : Opts) (labels : list string) : M books metric := λ b,
  (Ok (Subsystem opts +:+ "_" +:+ Name opts +:+ default "" (ConstLabels opts !! "controller_type"), b_next b),
   {| b_next := S (b_next b); b_cached := b_cached b; b_registered := b_registered b |}).
Definition metric_collector (m : metric) : Collector string string books :=
  {| Describe := [m.1]; Collect := mret [m.1] |}.
#[local] Instance demo_prometheus : Prometheus books := {
  Desc := string; Metric := string; CounterVec := metric; HistogramVec := metric; Gauge := metric;
  Observer := metric * list string; DefBuckets := [];
  NewCounterVec := new_metric; NewHistogramVec := λ opts _, new_metric opts; NewGauge := λ opts, new_metric opts [];
  CounterVec_Collector := metric_collector; HistogramVec_Collector := metric_collector;
  Gauge_Collector := metric_collector; WithLabelValues := λ h labels, (h, labels);
  Register := λ c b,
    if decide (Describe c ∈ b_registered b) then (Err (ErrorString "duplicate metrics collector registration attempted"), b)
    else (Ok (), {| b_next := b_next b; b_cached := b_cached b; b_registered := Describe c :: b_registered b |});
  InstrumentRoundTripperInFlight := λ _ t, t; InstrumentRoundTripperCounter := λ _ t, t;
  InstrumentRoundTripperTrace := λ _ t, t; InstrumentRoundTripperDuration := λ _ t, t;
}.

(** What the cache stores of an instrumentation, and back. *)
Definition flatten (i : cachedInstrumentation books) : list metric * list (metric * list string) :=
  let c := ci_Collector i in let t := ci_Trace i in
  ([duration c; requests c; dnsDuration c; tlsDuration c; inflight c],
   [DNSStart t; DNSDone t; TLSHandshakeStart t; TLSHandshakeDone t]).
Definition nothing : metric := ("", 0).
Definition unflatten (p : list metric * list (metric * list string)) : cachedInstrumentation books :=
  let m := λ n, nth n p.1 nothing in let o := λ n, nth n p.2 (nothing, []) in {|
  ci_Collector := {| duration := m 0 : HistogramVec; requests := m 1 : CounterVec; dnsDuration := m 2 : HistogramVec;
                     tlsDuration := m 3 : HistogramVec; inflight := m 4 : Gauge |};
  ci_Trace := {| DNSStart := o 0 : Observer; DNSDone := o 1 : Observer; TLSHandshakeStart := o 2 : Observer;
                 TLSHandshakeDone := o 3 : Observer |} |}.
Lemma unflatten_flatten i : unflatten (flatten i) = i.
Proof. by destruct i as [[] []]. Qed.

Definition books_cache : zcache string (cachedInstrumentation books) books := {|
  z_Get := λ k b, (Ok (unflatten <$> b_cached b !! k), b);
  z_Set := λ k i b,
    (Ok (), {| b_next := b_next b; b_cached := <[k := flatten i]> (b_cached b); b_registered := b_registered b |});
  z_SetWithExpire := λ k i _ b,
    (Ok (), {| b_next := b_next b; b_cached := <[k := flatten i]> (b_cached b); b_registered := b_registered b |});
|}.
#[local] Instance books_laws : MetricsLaws books_cache (λ b, unflatten <$> b_cached b) b_registered.
Proof.
  split; intros; simpl.
  - eexists. by rewrite lookup_fmap.
  - eexists. split_and!; [done| |done]. simpl. by rewrite fmap_insert, unflatten_flatten.
  - by eexists _, _.
  - by eexists _, _.
  - by eexists _, _.
  - case_decide; eexists _, _; split_and!; eauto.
Qed.

Definition books_transport : RoundTripper books :=
  {| RoundTrip := λ _, mret {| resp_StatusCode := 200; resp_Header := ∅; resp_Body := Ok "{}" |} |}.
#[local] Instance books_http : HttpLib books := {|
  DefaultTransport_MinVersion := 0; DefaultTransport := books_transport; tls_Transport := λ _, books_transport;
  Client_Do := λ c, {| Do := RoundTrip (default books_transport (Transport c)) |};
  AppendCertsFromPEM := λ _, true; time_Parse_RFC1123 := λ _, None; time_Now := mret 0%Z;
  cache_New := λ _ _, {| cache_Get := λ _, mret None; cache_Set := λ _ _, mret () |} |}.

Definition no_books : books := {| b_next := 0; b_cached := ∅; b_registered := [] |}.
Definition demo_client : http_Client books := {| Timeout := 0; Transport := None |}.
Definition instrument (name kind : string) (b : books) : res (http_Client books) * books :=
  InstrumentClientWithConstLabels books_cache name kind "sync" demo_client "http://hooks.ns/sync" b.

(** A composite and a decorator controller of one name: one collector, whose
    label says composite. *)
Example one_label_for_both :
  let b := (instrument "demo" "DecoratorController" (instrument "demo" "CompositeController" no_books).2).2 in
  length (b_registered b) = 1 ∧
  head (b_registered b) = Some ["sync_request_duration_histogram_secondsCompositeController";
    "sync_requests_totalCompositeController"; "sync_dns_duration_histogram_secondsCompositeController";
    "sync_tls_duration_histogram_secondsCompositeController"; "sync_in_flight_requestsCompositeController"].
Proof. vm_compute. done. Qed.

(** The descriptions of this registry leave the controller's name out, so it
    refuses a second controller; the retry succeeds, and registers nothing. *)
Example refused_once :
  let b := (instrument "first" "CompositeController" no_books).2 in
  let '(r, b1) := instrument "second" "CompositeController" b in
  let '(r2, b2) := instrument "second" "CompositeController" b1 in
  is_Ok r = false ∧ is_Ok r2 = true ∧ b_registered b2 = b_registered b.
Proof. vm_compute. done. Qed.
End examples.
