(* ===== verification/Lifecycle.v ===== *)
(** * Controllers that spawn controllers: [metacontroller.go], [newParentController],
      [newDecoratorController], [Start] and [Stop] of both kinds of controllers

    A metacontroller keeps one running controller for each CompositeController
    or DecoratorController object: reconciling the object constructs, restarts
    or stops it.  A controller is constructed by steps any of which can fail, and
    it holds subscriptions of the informer factory that all controllers share:
    for its parents, its children and the namespaces from the start, for the
    related kinds as its syncs ask for them.  [Start] adds handlers to some of
    them, [Stop] takes the handlers and the subscriptions back.  The theorems
    follow both from construction to [Stop], for one controller and for the
    whole process.

    The goroutine that [Start] launches, and how [Stop] waits for it before it
    does what is modelled here, is in [Goroutines].  A construction
    that panics is not cleaned up, and ends the histories. *)
From S2P Require Import Prelude Value K8s K8sInst ObjectMap Types Discovery World ClientSet FakeCluster Finalizer ManageChildren Status.
From S2P Require Import RollingUpdate Worker ParentController DecoratorController Informer Endpoint Webhook Customize.
From stdpp Require Import options.

(** ** The process *)

Section lifecycle.
Context {RT : GoRuntime} {API : Apimachinery} {CL : Cluster} {NL : NetLib} {HL : HttpLib World}.

(** The cluster, and the factory that all controllers share. *)
Record Host := { h_world : World; h_factory : SharedInformerFactory }.
Definition host_world : lens Host World :=
  {| view := h_world; put := λ w h, {| h_world := w; h_factory := h_factory h |} |}.
Definition host_factory : lens Host SharedInformerFactory :=
  {| view := h_factory; put := λ f h, {| h_world := h_world h; h_factory := f |} |}.
Definition subscribe (apiVersion resource : string) : M Host ResourceInformer :=
  zoom host_factory (factory_Resource (Ok ()) apiVersion resource).
Definition close (ri : ResourceInformer) : M Host unit := zoom host_factory (ri_Close ri).
Definition close_all (informers : InformerMap) : M Host unit :=
  foldlM (λ _ '(_, informer), close informer) () (SyncMap_Range informers).

(** What the construction of a controller is given. *)
Record Environment := {
  env_resources : ResourceMap;
  env_dynClient : Clientset;
  env_k8sClient : K8sClient World;
  (** [metrics.InstrumentClientWithConstLabels] *)
  env_InstrumentClient : string → string → string → http_Client World → string → M World (http_Client World);
  (** the reads of the cluster's objects by a reconcile *)
  env_Get_CompositeController : string → M World CompositeController;
  env_Get_DecoratorController : string → M World DecoratorController;
  env_Get_CRD : string → M World CustomResourceDefinition;
  (** what the cache of an informer holds *)
  env_cached : ResourceInformer → list object;
  (** [apiequality.Semantic.DeepEqual] on the specs *)
  env_composite_DeepEqual : CompositeController → CompositeController → bool;
  env_decorator_DeepEqual : DecoratorController → DecoratorController → bool;
}.
Variable env : Environment.

(** [AddEventHandler], or [AddEventHandlerWithResyncPeriod]; handlers are named
    after their controller and their part in it. *)
Definition add_handler (handler : string) (resyncPeriod : option Z) (ri : ResourceInformer) : M Host (list delivery) :=
  zoom host_factory
    (match resyncPeriod with
     | Some period => AddEventHandlerWithResyncPeriod ri (env_cached env ri) handler period
     | None => iw_AddEventHandler ri (env_cached env ri) handler
     end).
Definition add_all (handler : string) (resyncPeriod : option Z) (informers : InformerMap) : M Host (list delivery) :=
  foldlM (λ sent '(_, informer), more ← add_handler handler resyncPeriod informer; mret (sent ++ more)) []
    (SyncMap_Range informers).

(** A controller that stops removes its handlers and closes the subscription. *)
Definition release (ri : ResourceInformer) : M Host unit :=
  zoom host_factory (RemoveEventHandlers ri) ;; close ri.
Definition release_all (informers : InformerMap) : M Host unit :=
  foldlM (λ _ '(_, informer), release informer) () (SyncMap_Range informers).

(** ** Hooks *)
Definition webhook_of (hook : option Hook) : option Webhook := hook ← hook; hook_Webhook hook.

(** [ResolveEndpointConfig], then [NewHook]. *)
Definition resolve_hook (what : string) (hook : option Hook) (endpointConfigs : list EndpointConfig)
    (name controllerType hookType : string) : M Host (hookExecutorImpl (W:=World)) :=
  cfg ← wrap_errM ("can't resolve endpoint config for " +:+ what +:+ " hook")
          (zoom host_world (ResolveEndpointConfig (env_k8sClient env) (webhook_of hook) endpointConfigs));
  zoom host_world (NewHook (env_InstrumentClient env) hook name controllerType hookType cfg).

Record customizeManager := {
  cm_hook : option (hookExecutorImpl (W:=World));
  cm_nsInformer : option ResourceInformer;
}.

(** The factory of a running process is initialized. *)
Definition NewCustomizeManager (customizeHook : option Hook) (endpointConfigs : list EndpointConfig)
    (name controllerType : string) : M Host customizeManager :=
  hook ←
    (match customizeHook with
     | Some _ => Some <$> resolve_hook "customize" customizeHook endpointConfigs name controllerType "customize"
     | None => mret None
     end);
  nsInformer ← wrap_errM "can't create namespace informer for customize manager" (subscribe "v1" "namespaces");
  mret {| cm_hook := hook; cm_nsInformer := Some nsInformer |}.

(** ** Construction with deferred cleanup *)

(** A constructor fills maps of informers; [cleanup] is its deferred function,
    which looks at the maps when the constructor returns an error. *)
Definition deferring {L A} (locals : L) (body : M (Host * L) A) (cleanup : L → M Host unit) : M Host A := λ h,
  let '(r, (h1, locals)) := body (h, locals) in
  match r with
  | Err e =>
    match cleanup locals h1 with
    | (Panic s, h2) => (Panic s, h2)
    | (_, h2) => (Err e, h2)
    end
  | _ => (r, h1)
  end.

Definition on_host {L A} (m : M Host A) : M (Host * L) A := zoom {| view := fst; put := λ h p, (h, snd p) |} m.
Definition on_locals {L A} (m : M L A) : M (Host * L) A := zoom {| view := snd; put := λ l p, (fst p, l) |} m.

(** One informer for a rule, stored in one of the maps under its group, version
    and resource. *)
Definition acquire {L} (l : lens L InformerMap) (what : string) (rule : ResourceRule) : M (Host * L) unit :=
  informer ← on_host (wrap_errM ("can't create informer for " +:+ what +:+ " resource")
                        (subscribe (rr_APIVersion rule) (rr_Resource rule)));
  groupVersion ← lift (wrap_err ("can't parse " +:+ what +:+ " resource groupVersion") (ParseGroupVersion (rr_APIVersion rule)));
  on_locals (zoom l (SyncMap_Store (gv_WithResource groupVersion (rr_Resource rule)) informer)).
Definition acquire_all {L} (l : lens L InformerMap) (what : string) (rules : list ResourceRule) : M (Host * L) unit :=
  foldlM (λ _ rule, acquire l what rule) () rules.

(** ** The composite controller *)

(** [parentController], its informers as subscriptions. *)
Record compositeRuntime := {
  cr_cc : CompositeController;
  cr_parentResource : APIResource;
  cr_parentClient : ResourceClient;
  cr_parentSelector : Selector;
  cr_updateStrategy : updateStrategyMap;
  cr_parentInformer : ResourceInformer;
  cr_childInformers : InformerMap;
  cr_finalizer : FinalizerManager;
  cr_syncHook : hookExecutorImpl (W:=World);
  cr_finalizeHook : hookExecutorImpl (W:=World);
  cr_customize : customizeManager;
  cr_relatedInformers : InformerMap;
}.

Definition composite_body (cc : CompositeController) (parentClient : ResourceClient) (updateStrategy : updateStrategyMap)
    (parentInformer : ResourceInformer) : M (Host * InformerMap) compositeRuntime :=
  acquire_all {| view := λ m, m; put := λ m _, m |} "child" (child_rule <$> cc_ChildResources cc) ;;
  match cc_Hooks cc with
  | None => throw (ErrorString "no hooks defined")
  | Some hooks =>
    syncHook ← on_host (resolve_hook "sync" (cch_Sync hooks) (cc_EndpointConfigs cc) (cc_Name cc) "CompositeController" "sync");
    finalizeHook ← on_host (resolve_hook "finalize" (cch_Finalize hooks) (cc_EndpointConfigs cc) (cc_Name cc)
                              "CompositeController" "finalize");
    parentSelector ←
      (match parent_LabelSelector (cc_ParentResource cc) with
       | Some s => lift (LabelSelectorAsSelector s)
       | None => mret Everything
       end);
    customize ← on_host (NewCustomizeManager (CompositeController_GetCustomizeHook cc) (cc_EndpointConfigs cc) (cc_Name cc)
                           "CompositeController");
    locals ← get_state;
    mret {|
      cr_cc := cc;
      cr_parentResource := rc_APIResource parentClient;
      cr_parentClient := parentClient;
      cr_parentSelector := parentSelector;
      cr_updateStrategy := updateStrategy;
      cr_parentInformer := parentInformer;
      cr_childInformers := snd locals;
      cr_finalizer := {| fm_Name := "metacontroller.io/compositecontroller-" +:+ cc_Name cc;
                         fm_Enabled := bool_decide (is_Some (cch_Finalize hooks)) |};
      cr_syncHook := syncHook;
      cr_finalizeHook := finalizeHook;
      cr_customize := customize;
      cr_relatedInformers := ∅;
    |}
  end.

Definition newParentController (cc : CompositeController) : M Host compositeRuntime :=
  let parentRule := parent_rule (cc_ParentResource cc) in
  parentClient ← lift (Clientset_Resource (env_dynClient env) (rr_APIVersion parentRule) (rr_Resource parentRule));
  updateStrategy ← lift (makeUpdateStrategyMap (env_resources env) cc);
  parentInformer ← wrap_errM "can't create informer for parent resource"
                     (subscribe (rr_APIVersion parentRule) (rr_Resource parentRule));
  deferring ∅ (composite_body cc parentClient updateStrategy parentInformer)
    (λ childInformers, close_all childInformers ;; close parentInformer).

(** [customize.Stop] *)
Definition stop_customize (customize : customizeManager) (relatedInformers : InformerMap) : M Host unit :=
  release_all relatedInformers ;;
  match cm_nsInformer customize with Some informer => close informer | None => mret () end.

(** [parentController.Stop], once the workers have ended. *)
Definition composite_Stop (pc : compositeRuntime) : M Host unit :=
  release_all (cr_childInformers pc) ;;
  release (cr_parentInformer pc) ;;
  stop_customize (cr_customize pc) (cr_relatedInformers pc).

(** ** The decorator controller *)
Record decoratorRuntime := {
  dr_dc : DecoratorController;
  dr_parentKinds : gmap GroupKind APIResource;
  dr_parentSelector : decoratorSelector;
  dr_updateStrategy : gmap string ChildUpdateMethod;
  dr_parentInformers : InformerMap;
  dr_childInformers : InformerMap;
  dr_finalizer : FinalizerManager;
  dr_syncHook : hookExecutorImpl (W:=World);
  dr_finalizeHook : hookExecutorImpl (W:=World);
  dr_customize : customizeManager;
  dr_relatedInformers : InformerMap;
}.

Definition add_parentKind (kinds : gmap GroupKind APIResource) (parent : DecoratorControllerResourceRule)
    : res (gmap GroupKind APIResource) :=
  let rule := dc_rule parent in
  match ResourceMap_Get (env_resources env) (rr_APIVersion rule) (rr_Resource rule) with
  | None => Err (ErrorString ("can't find resource " +:+ quote (rr_Resource rule) +:+ " in apiVersion " +:+
                              quote (rr_APIVersion rule)))
  | Some resource => mret (<[{| gk_Group := ar_Group resource; gk_Kind := ar_Kind resource |} := resource]> kinds)
  end.

(** The informers of the parents, then those of the attachments. *)
Definition decorator_informers (dc : DecoratorController) : M (Host * (InformerMap * InformerMap)) (InformerMap * InformerMap) :=
  acquire_all {| view := fst; put := λ m p, (m, snd p) |} "parent" (dc_rule <$> dc_Resources dc) ;;
  acquire_all {| view := snd; put := λ m p, (fst p, m) |} "child" (attachment_rule <$> dc_Attachments dc) ;;
  locals ← get_state;
  mret (snd locals).

Definition newDecoratorController (dc : DecoratorController) : M Host decoratorRuntime :=
  match dc_Hooks dc with
  | None => throw (ErrorString "no hooks defined")
  | Some hooks =>
    syncHook ← resolve_hook "sync" (dch_Sync hooks) (dc_EndpointConfigs dc) (dc_Name dc) "DecoratorController" "sync";
    finalizeHook ← resolve_hook "finalize" (dch_Finalize hooks) (dc_EndpointConfigs dc) (dc_Name dc)
                     "DecoratorController" "finalize";
    customize ← NewCustomizeManager (DecoratorController_GetCustomizeHook dc) (dc_EndpointConfigs dc) (dc_Name dc)
                  "DecoratorController";
    parentSelector ← lift (newDecoratorSelector (env_resources env) dc);
    parentKinds ← lift (foldlM add_parentKind ∅ (dc_Resources dc));
    updateStrategy ← lift (decorator_makeUpdateStrategyMap (env_resources env) dc);
    '(parentInformers, childInformers) ←
      deferring (∅, ∅) (decorator_informers dc) (λ '(parents, children), close_all children ;; close_all parents);
    mret {|
      dr_dc := dc;
      dr_parentKinds := parentKinds;
      dr_parentSelector := parentSelector;
      dr_updateStrategy := updateStrategy;
      dr_parentInformers := parentInformers;
      dr_childInformers := childInformers;
      dr_finalizer := {| fm_Name := "metacontroller.io/decoratorcontroller-" +:+ dc_Name dc;
                         fm_Enabled := bool_decide (is_Some (dch_Finalize hooks)) |};
      dr_syncHook := syncHook;
      dr_finalizeHook := finalizeHook;
      dr_customize := customize;
      dr_relatedInformers := ∅;
    |}
  end.

Definition decorator_Stop (c : decoratorRuntime) : M Host unit :=
  release_all (dr_childInformers c) ;;
  release_all (dr_parentInformers c) ;;
  stop_customize (dr_customize c) (dr_relatedInformers c).

(** ** Start *)

(** The period of the parents' own resync: at least a second, if configured. *)
Definition resync_period (ResyncPeriodSeconds : option Z) : option Z :=
  (λ s, Z.max (seconds s) time_Second) <$> ResyncPeriodSeconds.

(** [Start] adds the controller's handlers, and the parent handler is sent every
    cached parent at once; the goroutine it starts waits for the caches, then
    runs the workers. *)
Definition composite_Start (pc : compositeRuntime) : M Host (list delivery) :=
  let handler := "CompositeController/" +:+ cc_Name (cr_cc pc) in
  parents ← add_handler (handler +:+ "/parent") (resync_period (cc_ResyncPeriodSeconds (cr_cc pc))) (cr_parentInformer pc);
  children ← add_all (handler +:+ "/child") None (cr_childInformers pc);
  mret (parents ++ children).
Definition decorator_Start (c : decoratorRuntime) : M Host (list delivery) :=
  let handler := "DecoratorController/" +:+ dc_Name (dr_dc c) in
  parents ← add_all (handler +:+ "/parent") (resync_period (dc_ResyncPeriodSeconds (dr_dc c))) (dr_parentInformers c);
  children ← add_all (handler +:+ "/child") None (dr_childInformers c);
  mret (parents ++ children).

(** ** The metacontrollers *)

(** Both, with the process they run in. *)
Record Process := {
  p_host : Host;
  p_parentControllers : gmap string compositeRuntime;
  p_decoratorControllers : gmap string decoratorRuntime;
}.
Definition on_process {A} : M Host A → M Process A :=
  zoom {| view := p_host; put := λ h p, {| p_host := h; p_parentControllers := p_parentControllers p;
                                            p_decoratorControllers := p_decoratorControllers p |} |}.
Definition on_composites {A} : M (gmap string compositeRuntime) A → M Process A :=
  zoom {| view := p_parentControllers; put := λ m p, {| p_host := p_host p; p_parentControllers := m;
                                                         p_decoratorControllers := p_decoratorControllers p |} |}.
Definition on_decorators {A} : M (gmap string decoratorRuntime) A → M Process A :=
  zoom {| view := p_decoratorControllers; put := λ m p, {| p_host := p_host p; p_parentControllers := p_parentControllers p;
                                                            p_decoratorControllers := m |} |}.
Definition on_cluster {A} (m : M World A) : M Process A := on_process (zoom host_world m).
Definition Eventf (reason message : string) : M Process unit := on_cluster (record_event (EvEventf reason message)).

(** [LoadAndDelete], then [Stop] if there was a controller. *)
Definition stop_composite (name : string) : M Process (option compositeRuntime) :=
  running ← on_composites (SyncMap_LoadAndDelete name);
  match running with
  | None => mret None
  | Some pc => on_process (composite_Stop pc) ;; mret (Some pc)
  end.

(** The controller is stopped and recreated. *)
Definition restart_composite (cc : CompositeController) : M Process unit :=
  stopped ← stop_composite (cc_Name cc);
  match stopped with
  | Some _ => Eventf "Stopped" ("Stopped controller: " +:+ cc_Name cc)
  | None => mret ()
  end ;;
  r ← try (on_process (newParentController cc));
  match r with
  | inr err => Eventf "CreateError" ("Cannot create new controller: " +:+ error_Error err) ;; throw err
  | inl pc =>
    on_process (composite_Start pc) ;;
    Eventf "Started" ("Started controller: " +:+ cc_Name cc) ;;
    on_composites (SyncMap_Store (cc_Name cc) pc)
  end.

Definition reconcileCompositeController (cc : CompositeController) : M Process unit :=
  on_cluster check_ctx ;;
  p ← get_state;
  let unchanged := match SyncMap_Load (p_parentControllers p) (cc_Name cc) with
                   | Some pc => env_composite_DeepEqual env cc (cr_cc pc)
                   | None => false
                   end in
  if unchanged then mret () else restart_composite cc.

(** The rest of [Reconcile], once the object was read. *)
Definition composite_Reconcile_existing (cc : CompositeController) : M Process unit :=
  let parentRule := parent_rule (cc_ParentResource cc) in
  groupVersion ← lift (ParseGroupVersion (rr_APIVersion parentRule));
  parentCRD ← on_cluster (env_Get_CRD env (rr_Resource parentRule +:+ "." +:+ gv_Group groupVersion));
  if negb (HasStatusSubresource parentCRD (gv_Version groupVersion)) then
    Eventf "SyncError" ("[" +:+ cc_Name cc +:+ "] Sync error - ignoring, CRD [" +:+ crd_GroupVersionKind parentCRD +:+
                        "] does not have subresource 'Status' enabled")
  else reconcileCompositeController cc.

Definition composite_Reconcile (name : string) : M Process unit :=
  r ← try (on_cluster (env_Get_CompositeController env name));
  match r with
  | inr err =>
    if IsNotFound err then
      stopped ← stop_composite name;
      match stopped with
      | Some pc => Eventf "Stopped" ("Stopped controller: " +:+ cc_Name (cr_cc pc))
      | None => mret ()
      end
    else
      Eventf "SyncError" ("[] Sync error - " +:+ error_Error err) ;; throw err
  | inl cc => composite_Reconcile_existing cc
  end.

Definition stop_decorator (name : string) : M Process (option decoratorRuntime) :=
  running ← on_decorators (SyncMap_LoadAndDelete name);
  match running with
  | None => mret None
  | Some c => on_process (decorator_Stop c) ;; mret (Some c)
  end.

(** The controller is stopped and recreated. *)
Definition restart_decorator (dc : DecoratorController) : M Process unit :=
  stopped ← stop_decorator (dc_Name dc);
  match stopped with
  | Some _ => Eventf "Stopped" ("Stopped controller: " +:+ dc_Name dc)
  | None => mret ()
  end ;;
  r ← try (on_process (newDecoratorController dc));
  match r with
  | inr err => Eventf "CreateError" ("Cannot create new controller: " +:+ error_Error err) ;; throw err
  | inl c =>
    on_process (decorator_Start c) ;;
    Eventf "Started" ("Started controller: " +:+ dc_Name dc) ;;
    on_decorators (SyncMap_Store (dc_Name dc) c)
  end.

Definition reconcileDecoratorController (dc : DecoratorController) : M Process unit :=
  on_cluster check_ctx ;;
  p ← get_state;
  let unchanged := match SyncMap_Load (p_decoratorControllers p) (dc_Name dc) with
                   | Some c => env_decorator_DeepEqual env dc (dr_dc c)
                   | None => false
                   end in
  if unchanged then mret () else restart_decorator dc.

Definition decorator_Reconcile (name : string) : M Process unit :=
  r ← try (on_cluster (env_Get_DecoratorController env name));
  match r with
  | inr err =>
    if IsNotFound err then
      stopped ← stop_decorator name;
      match stopped with
      | Some c => Eventf "Stopped" ("Stopped controller: " +:+ dc_Name (dr_dc c))
      | None => mret ()
      end
    else
      Eventf "SyncError" ("[] sync error - " +:+ error_Error err) ;; throw err
  | inl dc => reconcileDecoratorController dc
  end.

(** ** Who subscribes to what *)

(** The open subscriptions of the factory, and those that have handlers. *)
Definition host_holds (open heard : list ResourceInformer) (h : Host) : Prop := factory_holds open heard (h_factory h).
#[global] Instance host_holds_proper : Proper ((≡ₚ) ==> (≡ₚ) ==> (=) ==> iff) host_holds.
Proof. intros S S' HS H H' HH h h' <-. unfold host_holds. by rewrite HS, HH. Qed.

Definition ns_open (customize : customizeManager) : list ResourceInformer := option_list (cm_nsInformer customize).
Definition composite_subs (pc : compositeRuntime) : list ResourceInformer :=
  owned (cr_childInformers pc) ++ cr_parentInformer pc :: owned (cr_relatedInformers pc) ++ ns_open (cr_customize pc).
Definition decorator_subs (c : decoratorRuntime) : list ResourceInformer :=
  owned (dr_childInformers c) ++ owned (dr_parentInformers c) ++ owned (dr_relatedInformers c) ++ ns_open (dr_customize c).

(** Those to which [Start] and the syncs add handlers. *)
Definition composite_heard (pc : compositeRuntime) : list ResourceInformer :=
  owned (cr_childInformers pc) ++ cr_parentInformer pc :: owned (cr_relatedInformers pc).
Definition decorator_heard (c : decoratorRuntime) : list ResourceInformer :=
  owned (dr_childInformers c) ++ owned (dr_parentInformers c) ++ owned (dr_relatedInformers c).

(** The rules of a list name different resources, in versions that parse. *)
Definition rule_gvr (rule : ResourceRule) : res GroupVersionResource :=
  groupVersion ← ParseGroupVersion (rr_APIVersion rule); mret (gv_WithResource groupVersion (rr_Resource rule)).
Definition rule_key (rule : ResourceRule) : string := resourceKey (rr_APIVersion rule) (rr_Resource rule).
Definition distinct_rules (rules : list ResourceRule) : Prop :=
  ∃ gvrs, Forall2 (λ rule gvr, rule_gvr rule = Ok gvr) rules gvrs ∧ NoDup gvrs.

Section construction.
Context (heard : list ResourceInformer).
#[local] Abbreviation holds open := (host_holds open heard).

Lemma subscribe_holds open apiVersion resource :
  hoare (holds open) (subscribe apiVersion resource)
    (λ ri h, ri_key ri = resourceKey apiVersion resource ∧ holds (ri :: open) h) (holds open).
Proof. by eapply hoare_zoom; [apply factory_Resource_holds|..]. Qed.

Lemma close_holds open ri : total (holds (ri :: open)) (close ri) (λ _, holds open).
Proof. by eapply total_zoom; [apply ri_Close_holds|..]. Qed.

Lemma range_owned (informers : InformerMap) : owned informers ≡ₚ (range informers).*2.
Proof. unfold owned. by rewrite range_perm. Qed.

Lemma close_all_holds informers open : total (holds (owned informers ++ open)) (close_all informers) (λ _, holds open).
Proof.
  eapply total_conseq_pre; [intros h Hh; rewrite range_owned in Hh; exact Hh|].
  refine (total_each (λ '(_, informer), close informer) (λ l, holds (l.*2 ++ open)) _ (range informers)).
  intros [gvr ri] l. apply close_holds.
Qed.

(** The other effects of a construction leave the factory alone. *)
Lemma on_cluster_preserves {A} open (m : M World A) : preserves (holds open) (zoom host_world m).
Proof. by apply preserves_zoom. Qed.
Lemma resolve_hook_preserves open what hook endpointConfigs name controllerType hookType :
  preserves (holds open) (resolve_hook what hook endpointConfigs name controllerType hookType).
Proof. unfold resolve_hook. preserves_auto; apply on_cluster_preserves. Qed.

Definition ns_key : string := resourceKey "v1" "namespaces".
Lemma NewCustomizeManager_holds open customizeHook endpointConfigs name controllerType :
  hoare (holds open) (NewCustomizeManager customizeHook endpointConfigs name controllerType)
    (λ customize h, ∃ ns, cm_nsInformer customize = Some ns ∧ ri_key ns = ns_key ∧ holds (ns :: open) h) (holds open).
Proof.
  unfold NewCustomizeManager. eapply hoare_bind.
  - instantiate (1 := λ _, holds open). destruct customizeHook; [|apply hoare_ret].
    apply preserves_fmap, resolve_hook_preserves.
  - intros hook. eapply hoare_bind; [apply hoare_wrap, subscribe_holds|]. intros ri h [Hk Hh]. by exists ri.
Qed.

(** *** The maps of informers that a constructor fills *)
Record LensLaws {S P} (l : lens S P) : Prop := {
  view_put s p : view l (put l p s) = p;
  put_put s p q : put l p (put l q s) = put l p s;
  put_view s : put l (view l s) s = s;
}.

(** From the locals [L0] on, [new] was acquired for some of [rules]. *)
Definition acquired {L} (l : lens L InformerMap) (L0 : L) (open : list ResourceInformer) (rules : list ResourceRule)
    (new : InformerMap) (p : Host * L) : Prop :=
  holds (owned new ++ open) p.1 ∧ p.2 = put l (new ∪ view l L0) L0 ∧ new ##ₘ view l L0 ∧
  ∀ gvr ri, new !! gvr = Some ri → ∃ rule, rule ∈ rules ∧ rule_gvr rule = Ok gvr ∧ ri_key ri = rule_key rule.

Lemma acquire_holds {L} (l : lens L InformerMap) open what rule gvr L0 :
  LensLaws l → rule_gvr rule = Ok gvr → view l L0 !! gvr = None →
  hoare (λ p, p.2 = L0 ∧ holds open p.1) (acquire l what rule)
    (λ _ p, ∃ ri, ri_key ri = rule_key rule ∧ holds (ri :: open) p.1 ∧ p.2 = put l (<[gvr:=ri]> (view l L0)) L0)
    (λ p, p.2 = L0 ∧ holds open p.1).
Proof.
  intros Hl Hgvr Hnew. unfold acquire. eapply hoare_bind.
  - eapply hoare_zoom; [apply hoare_wrap, subscribe_holds|by intros p [_ Hp]| |by intros [h L1] h' [<- _] Hh'].
    instantiate (1 := λ ri p, p.2 = L0 ∧ ri_key ri = rule_key rule ∧ holds (ri :: open) p.1).
    by intros [h L1] ri h' [<- _] [Hk Hh'].
  - intros ri [h L1] (HL1 & Hk & Hh). simpl in HL1. subst L1. apply bind_res_Ok in Hgvr as (gv & Hgv & [= <-]).
    unfold mbind, M_bind, lift, on_locals, zoom, SyncMap_Store, modify. rewrite Hgv. simpl. by exists ri.
Qed.

Lemma acquired_nothing {L} (l : lens L InformerMap) L0 open rules p :
  LensLaws l → p.2 = L0 ∧ holds open p.1 → acquired l L0 open rules ∅ p.
Proof.
  intros Hl [HL0 Hh]. unfold acquired. rewrite owned_empty, (left_id_L ∅ (∪)), put_view by done.
  split_and!; [done..|by apply map_disjoint_empty_l|]. intros gvr ri H. by rewrite lookup_empty in H.
Qed.

Lemma acquired_cons {L} (l : lens L InformerMap) L0 open rule gvr ri rules new p :
  LensLaws l → view l L0 !! gvr = None → rule_gvr rule = Ok gvr → ri_key ri = rule_key rule →
  acquired l (put l (<[gvr:=ri]> (view l L0)) L0) (ri :: open) rules new p →
  acquired l L0 open (rule :: rules) (<[gvr:=ri]> new) p.
Proof.
  intros Hl Hnone Hgvr Hk (Hh & HL2 & Hdis & Hnew). rewrite view_put in HL2, Hdis by done. rewrite put_put in HL2 by done.
  apply map_disjoint_insert_r in Hdis as [Hng Hdis]. split_and!.
  - rewrite owned_insert by done. by rewrite <-Permutation_middle in Hh.
  - by rewrite <-insert_union_l, insert_union_r.
  - by apply map_disjoint_insert_l.
  - intros g r [[<- <-]|[_ Hr]]%lookup_insert_Some.
    + exists rule. split; [by left|done].
    + destruct (Hnew g r Hr) as (rule' & Hin & H). exists rule'. split; [by right|done].
Qed.

Lemma acquire_all_holds {L} (l : lens L InformerMap) open what rules gvrs L0 :
  LensLaws l → Forall2 (λ rule gvr, rule_gvr rule = Ok gvr) rules gvrs → NoDup gvrs →
  (∀ gvr, gvr ∈ gvrs → view l L0 !! gvr = None) →
  hoare (λ p, p.2 = L0 ∧ holds open p.1) (acquire_all l what rules)
    (λ _ p, ∃ new, acquired l L0 open rules new p ∧ dom new = list_to_set gvrs)
    (λ p, ∃ new, acquired l L0 open rules new p).
Proof.
  intros Hl Hgvrs. revert L0 open. induction Hgvrs as [|rule gvr rules gvrs Hgvr Hgvrs IH]; intros L0 open Hdup Hfresh.
  - intros p Hp. exists ∅. split; [by apply acquired_nothing|]. by rewrite dom_empty_L.
  - apply NoDup_cons in Hdup as [Hnin Hdup].
    assert (Hnone : view l L0 !! gvr = None) by (apply Hfresh; by left).
    unfold acquire_all. simpl. eapply hoare_bind.
    + eapply hoare_weaken_err; [by apply (acquire_holds l open what rule gvr L0)|].
      intros p Hp. exists ∅. by apply acquired_nothing.
    + intros [] p (ri & Hk & Hh & HL2). set (L2 := put l (<[gvr:=ri]> (view l L0)) L0) in *.
      assert (Hfresh1 : ∀ g, g ∈ gvrs → view l L2 !! g = None).
      { intros g Hg. unfold L2. rewrite view_put by done. rewrite lookup_insert_ne; [apply Hfresh; by right|]. by intros <-. }
      specialize (IH L2 (ri :: open) Hdup Hfresh1 p (conj HL2 Hh)). fold (acquire_all l what rules).
      destruct (acquire_all l what rules p) as [[[]|e|s] p']; [| |done].
      * destruct IH as (new & Hacq & Hdom). exists (<[gvr:=ri]> new).
        split; [by apply acquired_cons|]. rewrite dom_insert_L, Hdom. done.
      * destruct IH as (new & Hacq). exists (<[gvr:=ri]> new). by apply acquired_cons.
Qed.

(** An informer for each of the rules, and no other. *)
Definition wired (rules : list ResourceRule) (informers : InformerMap) : Prop :=
  (∀ gvr ri, informers !! gvr = Some ri → ∃ rule, rule ∈ rules ∧ rule_gvr rule = Ok gvr ∧ ri_key ri = rule_key rule) ∧
  (∀ rule, rule ∈ rules → ∃ gvr, rule_gvr rule = Ok gvr ∧ is_Some (informers !! gvr)).

Lemma acquired_wired {L} (l : lens L InformerMap) L0 open rules gvrs new p :
  Forall2 (λ rule gvr, rule_gvr rule = Ok gvr) rules gvrs → acquired l L0 open rules new p →
  dom new = list_to_set gvrs → wired rules new.
Proof.
  intros Hgvrs (_ & _ & _ & Hnew) Hdom. split; [done|]. intros rule Hrule.
  destruct (proj1 (list_elem_of_lookup _ _) Hrule) as [i Hi].
  destruct (Forall2_lookup_l _ _ _ _ _ Hgvrs Hi) as (gvr & Hg & Hr).
  exists gvr. split; [done|]. apply elem_of_dom. rewrite Hdom, elem_of_list_to_set. by eapply list_elem_of_lookup_2.
Qed.

(** *** Deferred cleanup *)
Lemma hoare_deferring {L A} P (locals : L) (body : M (Host * L) A) (cleanup : L → M Host unit) Q E EB :
  hoare (λ p, p.2 = locals ∧ P p.1) body (λ a p, Q a p.1) EB →
  (∀ L1, total (λ h, EB (h, L1)) (cleanup L1) (λ _, E)) →
  hoare P (deferring locals body cleanup) Q E.
Proof.
  intros Hbody Hclean h Hh. specialize (Hbody (h, locals) (conj eq_refl Hh)). unfold deferring.
  destruct (body (h, locals)) as [[a|e|s] [h1 L1]]; [done| |done].
  destruct (Hclean L1 h1 Hbody) as ([] & h2 & -> & HE). done.
Qed.

Lemma on_host_preserves {L A} (F : L → list ResourceInformer) (φ : L → Prop) (m : M Host A) :
  (∀ open, preserves (holds open) m) → preserves (λ p, φ p.2 ∧ holds (F p.2) p.1) (on_host m).
Proof.
  intros Hm [h L1] [Hφ Hh]. specialize (Hm (F L1) h Hh). unfold on_host, zoom. simpl.
  by destruct (m h) as [[a|e|s] h'].
Qed.

Lemma on_host_customize {L} (F : L → list ResourceInformer) (φ : L → Prop) customizeHook endpointConfigs name controllerType :
  hoare (λ p : Host * L, φ p.2 ∧ holds (F p.2) p.1) (on_host (NewCustomizeManager customizeHook endpointConfigs name controllerType))
    (λ customize p, ∃ ns, cm_nsInformer customize = Some ns ∧ ri_key ns = ns_key ∧ φ p.2 ∧ holds (ns :: F p.2) p.1)
    (λ p, φ p.2 ∧ holds (F p.2) p.1).
Proof.
  intros [h L1] [Hφ Hh]. pose proof (NewCustomizeManager_holds (F L1) customizeHook endpointConfigs name controllerType h Hh) as H.
  unfold on_host, zoom. simpl. destruct (NewCustomizeManager _ _ _ _ h) as [[a|e|s] h']; [|done..].
  destruct H as (ns & H1 & H2 & H3). by exists ns.
Qed.

(** ** The composite controller *)
Definition composite_wired (cc : CompositeController) (pc : compositeRuntime) : Prop :=
  cr_cc pc = cc ∧ ri_key (cr_parentInformer pc) = rule_key (parent_rule (cc_ParentResource cc)) ∧
  wired (child_rule <$> cc_ChildResources cc) (cr_childInformers pc) ∧
  ∃ ns, cm_nsInformer (cr_customize pc) = Some ns ∧ ri_key ns = ns_key.

Lemma composite_body_holds open cc parentClient updateStrategy parentInformer :
  distinct_rules (child_rule <$> cc_ChildResources cc) →
  ri_key parentInformer = rule_key (parent_rule (cc_ParentResource cc)) →
  hoare (λ p, p.2 = ∅ ∧ holds (parentInformer :: open) p.1) (composite_body cc parentClient updateStrategy parentInformer)
    (λ pc p, (composite_wired cc pc ∧ cr_relatedInformers pc = ∅) ∧ holds (composite_subs pc ++ open) p.1)
    (λ p, holds (owned p.2 ++ parentInformer :: open) p.1).
Proof.
  intros (gvrs & Hgvrs & Hdup) Hparent. unfold composite_body.
  set (F := λ m : InformerMap, owned m ++ parentInformer :: open).
  set (φ := wired (child_rule <$> cc_ChildResources cc)).
  eapply hoare_bind with (Q := λ _ p, φ p.2 ∧ holds (F p.2) p.1).
  - eapply hoare_weaken; [apply (acquire_all_holds _ (parentInformer :: open) "child" _ gvrs ∅); [by split|done..]|done| |].
    + intros [] p (new & Hacq & Hdom). pose proof (acquired_wired _ _ _ _ _ _ _ Hgvrs Hacq Hdom) as Hw.
      destruct Hacq as (Hh & Hp & _). simpl in Hp. rewrite (right_id_L ∅ (∪)) in Hp. by rewrite Hp.
    + intros p (new & Hh & Hp & _). simpl in Hp. rewrite (right_id_L ∅ (∪)) in Hp. by rewrite Hp.
  - intros []. eapply hoare_weaken_err with (E' := λ p, φ p.2 ∧ holds (F p.2) p.1); [|by intros p [_ Hp]].
    destruct (cc_Hooks cc) as [hooks|]; [|by apply hoare_throw].
    do 2 (eapply hoare_bind; [apply on_host_preserves; intros; apply resolve_hook_preserves|intros ?]).
    eapply hoare_bind with (Q := λ _ p, φ p.2 ∧ holds (F p.2) p.1).
    { destruct (parent_LabelSelector _); [apply preserves_lift|apply hoare_ret]. }
    intros parentSelector. eapply hoare_bind; [apply on_host_customize|].
    intros customize [h m] (ns & Hns & Hnk & Hφ & Hh). unfold mbind, M_bind, get_state. simpl. split.
    + split; [|done]. split_and!; [done..|]. by exists ns.
    + unfold composite_subs, ns_open. simpl. rewrite owned_empty, Hns. simpl.
      unfold F in Hh. simpl in Hh. rewrite <-app_assoc. simpl.
      eapply host_holds_proper; [|done|done|exact Hh]. solve_Permutation.
Qed.

Lemma newParentController_holds open cc :
  distinct_rules (child_rule <$> cc_ChildResources cc) →
  hoare (holds open) (newParentController cc)
    (λ pc h, (composite_wired cc pc ∧ cr_relatedInformers pc = ∅) ∧ holds (composite_subs pc ++ open) h) (holds open).
Proof.
  intros Hrules. unfold newParentController.
  do 2 (eapply hoare_bind; [apply preserves_lift|intros ?]).
  eapply hoare_bind; [apply hoare_wrap, subscribe_holds|]. intros parentInformer. apply hoare_pure. intros Hk.
  eapply hoare_deferring; [by apply composite_body_holds|].
  intros children. simpl. eapply total_bind; [apply close_all_holds|]. intros []. apply close_holds.
Qed.

(** ** The decorator controller *)
Definition decorator_wired (dc : DecoratorController) (c : decoratorRuntime) : Prop :=
  dr_dc c = dc ∧ wired (dc_rule <$> dc_Resources dc) (dr_parentInformers c) ∧
  wired (attachment_rule <$> dc_Attachments dc) (dr_childInformers c) ∧
  ∃ ns, cm_nsInformer (dr_customize c) = Some ns ∧ ri_key ns = ns_key.

Definition distinct_dc (dc : DecoratorController) : Prop :=
  distinct_rules (dc_rule <$> dc_Resources dc) ∧ distinct_rules (attachment_rule <$> dc_Attachments dc).

Lemma decorator_informers_holds open dc :
  distinct_dc dc →
  hoare (λ p, p.2 = (∅, ∅) ∧ holds open p.1) (decorator_informers dc)
    (λ locals p, wired (dc_rule <$> dc_Resources dc) locals.1 ∧ wired (attachment_rule <$> dc_Attachments dc) locals.2 ∧
       holds (owned locals.2 ++ owned locals.1 ++ open) p.1)
    (λ p, holds (owned p.2.2 ++ owned p.2.1 ++ open) p.1).
Proof.
  intros [(gvrs1 & Hgvrs1 & Hdup1) (gvrs2 & Hgvrs2 & Hdup2)]. unfold decorator_informers.
  set (l1 := {| view := fst; put := λ m p, (m, snd p) |} : lens (InformerMap * InformerMap) InformerMap).
  set (l2 := {| view := snd; put := λ m p, (fst p, m) |} : lens (InformerMap * InformerMap) InformerMap).
  assert (Hl1 : LensLaws l1) by (by split; intros []). assert (Hl2 : LensLaws l2) by (by split; intros []).
  eapply hoare_bind with (Q := λ _ p, ∃ new, wired (dc_rule <$> dc_Resources dc) new ∧ p.2 = (new, ∅) ∧ holds (owned new ++ open) p.1).
  - eapply hoare_weaken; [by apply (acquire_all_holds l1 open "parent" _ gvrs1 (∅, ∅))|done| |].
    + intros [] p (new & Hacq & Hdom). exists new. split; [by eapply acquired_wired|].
      destruct Hacq as (Hh & Hp & _). simpl in Hp. by rewrite (right_id_L ∅ (∪)) in Hp.
    + intros p (new & Hh & Hp & _). simpl in Hp. rewrite (right_id_L ∅ (∪)) in Hp. by rewrite Hp.
  - intros []. apply hoare_exists. intros parents. apply hoare_pure. intros Hw.
    eapply hoare_bind with (Q := λ _ p, ∃ new, wired (attachment_rule <$> dc_Attachments dc) new ∧ p.2 = (parents, new) ∧
      holds (owned new ++ owned parents ++ open) p.1).
    + eapply hoare_weaken; [by apply (acquire_all_holds l2 (owned parents ++ open) "child" _ gvrs2 (parents, ∅))|done| |].
      * intros [] p (new & Hacq & Hdom). exists new. split; [by eapply acquired_wired|].
        destruct Hacq as (Hh & Hp & _). simpl in Hp. by rewrite (right_id_L ∅ (∪)) in Hp.
      * intros p (new & Hh & Hp & _). simpl in Hp. rewrite (right_id_L ∅ (∪)) in Hp. by rewrite Hp.
    + intros [] [h locals] (children & Hw2 & HL2 & Hh). simpl in HL2. subst locals. done.
Qed.

(** A failed construction may leave one subscription behind, to the namespaces. *)
Definition namespaces_only (leaked : list ResourceInformer) : Prop := Forall (λ ri, ri_key ri = ns_key) leaked.

Lemma newDecoratorController_holds open dc :
  distinct_dc dc →
  hoare (holds open) (newDecoratorController dc)
    (λ c h, (decorator_wired dc c ∧ dr_relatedInformers c = ∅) ∧ holds (decorator_subs c ++ open) h)
    (λ h, ∃ leaked, namespaces_only leaked ∧ holds (leaked ++ open) h).
Proof.
  intros Hdc. unfold newDecoratorController.
  assert (Hnone : ∀ h, holds open h → ∃ leaked, namespaces_only leaked ∧ holds (leaked ++ open) h).
  { intros h Hh. exists []. split; [constructor|done]. }
  destruct (dc_Hooks dc) as [hooks|]; [|apply hoare_throw; exact Hnone].
  do 2 (eapply hoare_bind; [eapply hoare_weaken_err; [apply resolve_hook_preserves|exact Hnone]|intros ?]).
  eapply hoare_bind; [eapply hoare_weaken_err; [apply NewCustomizeManager_holds|exact Hnone]|]. intros customize.
  apply hoare_exists. intros ns. apply hoare_pure. intros Hns. apply hoare_pure. intros Hk.
  apply hoare_weaken_err with (E' := holds (ns :: open)).
  2: { intros h Hh. exists [ns]. split; [by repeat constructor|done]. }
  do 3 (eapply hoare_bind; [apply preserves_lift|intros ?]).
  eapply hoare_bind with (Q := λ locals h, wired (dc_rule <$> dc_Resources dc) locals.1 ∧
      wired (attachment_rule <$> dc_Attachments dc) locals.2 ∧ holds (owned locals.2 ++ owned locals.1 ++ ns :: open) h).
  - eapply hoare_deferring; [by apply decorator_informers_holds|]. intros [parents children]. simpl.
    eapply total_bind; [apply close_all_holds|]. intros []. apply close_all_holds.
  - intros [parents children] h (Hp & Hc & Hh). simpl in *. split.
    + split; [|done]. split_and!; [done..|]. by exists ns.
    + unfold decorator_subs, ns_open. simpl. rewrite owned_empty, Hns. simpl.
      by rewrite <-!app_assoc.
Qed.

End construction.

(** ** Start and stop *)
Lemma release_holds open heard ri :
  total (host_holds (ri :: open) (ri :: heard)) (release ri) (λ _, host_holds open heard).
Proof.
  unfold release. eapply total_bind with (Q := λ _, host_holds (ri :: open) heard); [|intros []; apply close_holds].
  by eapply total_zoom; [apply RemoveEventHandlers_holds; left|..].
Qed.
Lemma release_all_holds open heard informers :
  total (host_holds (owned informers ++ open) (owned informers ++ heard)) (release_all informers) (λ _, host_holds open heard).
Proof.
  eapply total_conseq_pre; [intros h Hh; rewrite range_owned in Hh; exact Hh|].
  refine (total_each (λ '(_, informer), release informer) (λ l, host_holds (l.*2 ++ open) (l.*2 ++ heard)) _ (range informers)).
  intros [gvr ri] l. apply release_holds.
Qed.

Lemma stop_customize_holds open heard customize related :
  total (host_holds (owned related ++ ns_open customize ++ open) (owned related ++ heard)) (stop_customize customize related)
    (λ _, host_holds open heard).
Proof.
  unfold stop_customize. eapply total_bind; [apply release_all_holds|]. intros []. unfold ns_open.
  destruct (cm_nsInformer customize); [apply close_holds|apply total_ret].
Qed.

Lemma composite_Stop_holds open heard pc :
  total (host_holds (composite_subs pc ++ open) (composite_heard pc ++ heard)) (composite_Stop pc) (λ _, host_holds open heard).
Proof.
  unfold composite_Stop, composite_subs, composite_heard. rewrite <-!app_assoc. simpl. rewrite <-!app_assoc.
  eapply total_bind; [apply release_all_holds|]. intros []. eapply total_bind; [apply release_holds|]. intros [].
  apply stop_customize_holds.
Qed.

Lemma decorator_Stop_holds open heard c :
  total (host_holds (decorator_subs c ++ open) (decorator_heard c ++ heard)) (decorator_Stop c) (λ _, host_holds open heard).
Proof.
  unfold decorator_Stop, decorator_subs, decorator_heard. rewrite <-!app_assoc.
  eapply total_bind; [apply release_all_holds|]. intros []. eapply total_bind; [apply release_all_holds|]. intros [].
  apply stop_customize_holds.
Qed.

(** What a new handler is sent: every cached object, as an update by itself. *)
Definition initial_updates (handler : string) (ri : ResourceInformer) : list delivery :=
  (λ obj, (handler, OnUpdate true (Live obj) (Live obj))) <$> env_cached env ri.

Lemma add_handler_holds open heard handler resyncPeriod ri :
  ri ∈ open →
  total (host_holds open heard) (add_handler handler resyncPeriod ri)
    (λ sent h, sent = initial_updates handler ri ∧ host_holds open (ri :: heard) h).
Proof.
  intros Hri. unfold add_handler. destruct resyncPeriod.
  - by eapply total_zoom; [by apply AddEventHandler_holds|..].
  - by eapply total_zoom; [by apply iw_AddEventHandler_holds|..].
Qed.

Lemma add_list_holds open handler resyncPeriod (l : list (GroupVersionResource * ResourceInformer)) heard sent0 :
  (∀ ri, ri ∈ l.*2 → ri ∈ open) →
  total (host_holds open heard)
    (foldlM (λ sent '(_, informer), more ← add_handler handler resyncPeriod informer; mret (sent ++ more)) sent0 l)
    (λ sent h, sent = sent0 ++ (l.*2 ≫= initial_updates handler) ∧ host_holds open (l.*2 ++ heard) h).
Proof.
  revert heard sent0. induction l as [|[gvr ri] l IH]; intros heard sent0 Hopen h Hh; simpl.
  - exists sent0, h. by rewrite app_nil_r.
  - destruct (add_handler_holds open heard handler resyncPeriod ri (Hopen ri ltac:(by left)) h Hh) as (more & h1 & E & -> & Hh1).
    destruct (IH (ri :: heard) (sent0 ++ initial_updates handler ri)) with (w := h1) as (sent & h2 & E2 & -> & Hh2); [|done|].
    { intros ri' Hri. apply Hopen. by right. }
    exists ((sent0 ++ initial_updates handler ri) ++ (l.*2 ≫= initial_updates handler)), h2.
    unfold mbind, M_bind in *. rewrite E. simpl. rewrite E2. split; [done|]. split; [by rewrite <-app_assoc|].
    by rewrite Permutation_middle.
Qed.

Lemma add_all_holds open heard handler resyncPeriod (informers : InformerMap) :
  (∀ ri, ri ∈ owned informers → ri ∈ open) →
  total (host_holds open heard) (add_all handler resyncPeriod informers)
    (λ sent h, sent ≡ₚ owned informers ≫= initial_updates handler ∧ host_holds open (owned informers ++ heard) h).
Proof.
  intros Hopen. pose proof (range_owned informers) as Hp. eapply total_weaken.
  - apply (add_list_holds open handler resyncPeriod (range informers) heard []). intros ri Hri. apply Hopen. by rewrite Hp.
  - intros sent h [-> Hh]. by rewrite Hp.
Qed.

Lemma composite_Start_holds open heard pc :
  cr_relatedInformers pc = ∅ → (∀ ri, ri ∈ composite_subs pc → ri ∈ open) →
  let handler := "CompositeController/" +:+ cc_Name (cr_cc pc) in
  total (host_holds open heard) (composite_Start pc)
    (λ sent h, sent ≡ₚ initial_updates (handler +:+ "/parent") (cr_parentInformer pc) ++
         (owned (cr_childInformers pc) ≫= initial_updates (handler +:+ "/child")) ∧
       host_holds open (composite_heard pc ++ heard) h).
Proof.
  intros Hrel Hopen handler. unfold composite_Start.
  eapply total_bind; [apply add_handler_holds, Hopen; unfold composite_subs; set_solver|]. intros parents h [-> Hh].
  destruct (add_all_holds open (cr_parentInformer pc :: heard) (handler +:+ "/child") None (cr_childInformers pc)) with (w := h)
    as (children & h' & E & Hc & Hh'); [intros ri Hri; apply Hopen; unfold composite_subs; set_solver|done|].
  eexists _, h'. unfold mbind, M_bind. fold handler. rewrite E. split; [done|]. split; [by rewrite Hc|].
  unfold composite_heard. rewrite Hrel, owned_empty. eapply host_holds_proper; [done| |done|exact Hh']. solve_Permutation.
Qed.

Lemma decorator_Start_holds open heard c :
  dr_relatedInformers c = ∅ → (∀ ri, ri ∈ decorator_subs c → ri ∈ open) →
  let handler := "DecoratorController/" +:+ dc_Name (dr_dc c) in
  total (host_holds open heard) (decorator_Start c)
    (λ sent h, sent ≡ₚ (owned (dr_parentInformers c) ≫= initial_updates (handler +:+ "/parent")) ++
         (owned (dr_childInformers c) ≫= initial_updates (handler +:+ "/child")) ∧
       host_holds open (decorator_heard c ++ heard) h).
Proof.
  intros Hrel Hopen handler h Hh. unfold decorator_Start. fold handler.
  set (period := resync_period _).
  destruct (add_all_holds open heard (handler +:+ "/parent") period (dr_parentInformers c)) with (w := h)
    as (parents & h1 & E1 & Hp & Hh1); [intros ri Hri; apply Hopen; unfold decorator_subs; set_solver|done|].
  destruct (add_all_holds open (owned (dr_parentInformers c) ++ heard) (handler +:+ "/child") None (dr_childInformers c)) with (w := h1)
    as (children & h2 & E2 & Hc & Hh2); [intros ri Hri; apply Hopen; unfold decorator_subs; set_solver|done|].
  eexists _, h2. unfold mbind, M_bind. rewrite E1, E2. split; [done|]. split; [by rewrite Hp, Hc|].
  unfold decorator_heard. rewrite Hrel, owned_empty. eapply host_holds_proper; [done| |done|exact Hh2]. solve_Permutation.
Qed.


(** ** The process *)
Definition group_subs {V} (f : V → list ResourceInformer) (m : gmap string V) : list ResourceInformer :=
  map_to_list m ≫= λ '(_, v), f v.
Definition all_subs (p : Process) : list ResourceInformer :=
  group_subs composite_subs (p_parentControllers p) ++ group_subs decorator_subs (p_decoratorControllers p).

Definition all_heard (p : Process) : list ResourceInformer :=
  group_subs composite_heard (p_parentControllers p) ++ group_subs decorator_heard (p_decoratorControllers p).

Lemma group_subs_insert {V} (f : V → list ResourceInformer) m name v :
  m !! name = None → group_subs f (<[name:=v]> m) ≡ₚ f v ++ group_subs f m.
Proof. intros Hnone. unfold group_subs. by rewrite map_to_list_insert by done. Qed.
Lemma group_subs_delete {V} (f : V → list ResourceInformer) m name v :
  m !! name = Some v → group_subs f m ≡ₚ f v ++ group_subs f (delete name m).
Proof. intros Hv. rewrite <-(group_subs_insert _ _ name) by apply lookup_delete_eq. by rewrite insert_delete_id. Qed.
Lemma elem_of_group_subs {V} (f : V → list ResourceInformer) m ri :
  ri ∈ group_subs f m ↔ ∃ name v, m !! name = Some v ∧ ri ∈ f v.
Proof.
  unfold group_subs. rewrite list_elem_of_bind. split.
  - intros ([name v] & Hri & H%elem_of_map_to_list). eauto.
  - intros (name & v & H%elem_of_map_to_list & Hri). by exists (name, v).
Qed.

(** The running controllers are the ones their objects describe, and hold the
    factory's subscriptions and handlers, beside [extra] and [starting], those of
    a controller under construction, and [leaked], which failed constructions
    left behind. *)
Record process_ok (extra starting leaked : list ResourceInformer) (p : Process) : Prop := {
  ok_leaked : namespaces_only leaked;
  ok_holds : host_holds (extra ++ all_subs p ++ leaked) (starting ++ all_heard p) (p_host p);
  ok_composite name pc : p_parentControllers p !! name = Some pc →
    cc_Name (cr_cc pc) = name ∧ composite_wired (cr_cc pc) pc;
  ok_decorator name c : p_decoratorControllers p !! name = Some c →
    dc_Name (dr_dc c) = name ∧ decorator_wired (dr_dc c) c;
}.

Lemma on_cluster_process_ok {A} extra starting leaked φ (m : M World A) :
  preserves (λ p, process_ok extra starting leaked p ∧ φ (p_parentControllers p) (p_decoratorControllers p)) (on_cluster m).
Proof.
  intros p [[H1 H2 H3 H4] Hφ]. unfold on_cluster, on_process, zoom. simpl.
  by destruct (m (h_world (p_host p))) as [[a|e|s] w]; [split; [split|]..|].
Qed.

Lemma stop_composite_ok leaked p name :
  process_ok [] [] leaked p →
  ∃ h, stop_composite name p = (Ok (p_parentControllers p !! name),
    {| p_host := h; p_parentControllers := delete name (p_parentControllers p);
       p_decoratorControllers := p_decoratorControllers p |}) ∧
  process_ok [] [] leaked {| p_host := h; p_parentControllers := delete name (p_parentControllers p);
       p_decoratorControllers := p_decoratorControllers p |}.
Proof.
  intros [H1 H2 H3 H4]. unfold stop_composite, on_composites, on_process, zoom, SyncMap_LoadAndDelete, mbind, M_bind. simpl.
  assert (H3' : ∀ name' pc, delete name (p_parentControllers p) !! name' = Some pc →
    cc_Name (cr_cc pc) = name' ∧ composite_wired (cr_cc pc) pc).
  { intros name' pc [_ Hpc]%lookup_delete_Some. by apply H3. }
  destruct (p_parentControllers p !! name) as [pc|] eqn:Hpc.
  - unfold all_subs, all_heard in H2. rewrite (group_subs_delete _ _ _ _ Hpc), (group_subs_delete _ _ _ _ Hpc), <-!app_assoc in H2.
    destruct (composite_Stop_holds _ _ pc _ H2) as ([] & h' & E & Hh'). simpl. rewrite E. exists h'. split; [done|]. split; [done| |done..].
    unfold all_subs. by rewrite <-app_assoc.
  - exists (p_host p). split; [done|]. split; [done| |done..]. unfold all_subs, all_heard in *. simpl. by rewrite delete_id.
Qed.

Lemma stop_decorator_ok leaked p name :
  process_ok [] [] leaked p →
  ∃ h, stop_decorator name p = (Ok (p_decoratorControllers p !! name),
    {| p_host := h; p_parentControllers := p_parentControllers p;
       p_decoratorControllers := delete name (p_decoratorControllers p) |}) ∧
  process_ok [] [] leaked {| p_host := h; p_parentControllers := p_parentControllers p;
       p_decoratorControllers := delete name (p_decoratorControllers p) |}.
Proof.
  intros [H1 H2 H3 H4]. unfold stop_decorator, on_decorators, on_process, zoom, SyncMap_LoadAndDelete, mbind, M_bind. simpl.
  assert (H4' : ∀ name' c, delete name (p_decoratorControllers p) !! name' = Some c →
    dc_Name (dr_dc c) = name' ∧ decorator_wired (dr_dc c) c).
  { intros name' c [_ Hc]%lookup_delete_Some. by apply H4. }
  destruct (p_decoratorControllers p !! name) as [c|] eqn:Hc.
  - assert (H2' : host_holds (decorator_subs c ++ group_subs composite_subs (p_parentControllers p) ++
        group_subs decorator_subs (delete name (p_decoratorControllers p)) ++ leaked)
        (decorator_heard c ++ group_subs composite_heard (p_parentControllers p) ++
        group_subs decorator_heard (delete name (p_decoratorControllers p))) (p_host p)).
    { eapply host_holds_proper; [| |done|exact H2].
      - unfold all_subs. rewrite (group_subs_delete decorator_subs _ _ _ Hc). solve_Permutation.
      - unfold all_heard. rewrite (group_subs_delete decorator_heard _ _ _ Hc). solve_Permutation. }
    destruct (decorator_Stop_holds _ _ c _ H2') as ([] & h' & E & Hh'). simpl. rewrite E. exists h'. split; [done|]. split; [done| |done..].
    unfold all_subs. by rewrite <-app_assoc.
  - exists (p_host p). split; [done|]. split; [done| |done..]. unfold all_subs, all_heard in *. simpl. by rewrite delete_id.
Qed.

Lemma construct_composite_ok leaked φ cc :
  distinct_rules (child_rule <$> cc_ChildResources cc) →
  hoare (λ p, process_ok [] [] leaked p ∧ φ (p_parentControllers p) (p_decoratorControllers p)) (on_process (newParentController cc))
    (λ pc p, process_ok (composite_subs pc) [] leaked p ∧
       ((composite_wired cc pc ∧ cr_relatedInformers pc = ∅) ∧ φ (p_parentControllers p) (p_decoratorControllers p)))
    (λ p, process_ok [] [] leaked p ∧ φ (p_parentControllers p) (p_decoratorControllers p)).
Proof.
  intros Hcc p [[H1 H2 H3 H4] Hφ]. pose proof (newParentController_holds _ _ cc Hcc (p_host p) H2) as H.
  unfold on_process, zoom. simpl. destruct (newParentController cc (p_host p)) as [[pc|e|s] h]; [|by split|done].
  destruct H as [Hw Hh]. by split.
Qed.

Lemma start_composite_ok leaked φ pc :
  cr_relatedInformers pc = ∅ →
  total (λ p, process_ok (composite_subs pc) [] leaked p ∧ φ (p_parentControllers p) (p_decoratorControllers p))
    (on_process (composite_Start pc))
    (λ _ p, process_ok (composite_subs pc) (composite_heard pc) leaked p ∧ φ (p_parentControllers p) (p_decoratorControllers p)).
Proof.
  intros Hrel p [[H1 H2 H3 H4] Hφ].
  destruct (composite_Start_holds (composite_subs pc ++ all_subs p ++ leaked) ([] ++ all_heard p) pc Hrel) with (w := p_host p)
    as (sent & h & E & _ & Hh); [intros ri Hri; apply elem_of_app; by left|done|].
  eexists _, _. unfold on_process, zoom. simpl. rewrite E. by split; [done|].
Qed.

Lemma store_composite_ok leaked (φ : gmap string compositeRuntime → gmap string decoratorRuntime → Prop) cc pc :
  composite_wired cc pc →
  hoare (λ p, process_ok (composite_subs pc) (composite_heard pc) leaked p ∧
      (p_parentControllers p !! cc_Name cc = None ∧ φ (<[cc_Name cc := pc]> (p_parentControllers p)) (p_decoratorControllers p)))
    (on_composites (SyncMap_Store (cc_Name cc) pc))
    (λ _ p, process_ok [] [] leaked p ∧ φ (p_parentControllers p) (p_decoratorControllers p)) (λ _, False).
Proof.
  intros Hw p [[H1 H2 H3 H4] [Hnone Hφ]]. unfold on_composites, zoom, SyncMap_Store, modify. simpl.
  split; [|done]. split; [done| | |done].
  - eapply host_holds_proper; [| |done|exact H2]; simpl.
    + unfold all_subs. simpl. rewrite group_subs_insert by done. by rewrite <-!app_assoc.
    + unfold all_heard. simpl. rewrite group_subs_insert by done. by rewrite <-!app_assoc.
  - simpl. intros name' pc' [[<- <-]|[_ Hpc]]%lookup_insert_Some; [|by apply H3].
    assert (cr_cc pc = cc) as -> by apply Hw. done.
Qed.

Lemma Eventf_process_ok extra starting leaked φ reason message :
  total (λ p, process_ok extra starting leaked p ∧ φ (p_parentControllers p) (p_decoratorControllers p)) (Eventf reason message)
    (λ _ p, process_ok extra starting leaked p ∧ φ (p_parentControllers p) (p_decoratorControllers p)).
Proof.
  intros p Hp. pose proof (on_cluster_process_ok extra starting leaked φ (record_event (EvEventf reason message)) p Hp) as H.
  unfold Eventf in *. destruct (on_cluster _ p) as [[[]|e|s] p'] eqn:E; [by exists (), p'|done..].
Qed.

(** The process is as before, but for the running controllers [m] and [d]. *)
Definition process_with (leaked : list ResourceInformer) (m : gmap string compositeRuntime)
    (d : gmap string decoratorRuntime) (p : Process) : Prop :=
  process_ok [] [] leaked p ∧ (p_parentControllers p = m ∧ p_decoratorControllers p = d).

Lemma on_cluster_process_with {A} leaked m d (c : M World A) : preserves (process_with leaked m d) (on_cluster c).
Proof. exact (on_cluster_process_ok [] [] leaked (λ m' d', m' = m ∧ d' = d) c). Qed.

Lemma stop_composite_with leaked m d name :
  total (process_with leaked m d) (stop_composite name) (λ r p, r = m !! name ∧ process_with leaked (delete name m) d p).
Proof.
  intros p (Hok & <- & <-). destruct (stop_composite_ok leaked p name Hok) as (h & E & Hok').
  eexists _, _. split; [exact E|]. by split.
Qed.

Lemma restart_composite_ok leaked m d cc :
  distinct_rules (child_rule <$> cc_ChildResources cc) →
  hoare (process_with leaked m d) (restart_composite cc)
    (λ _ p, ∃ pc, cr_cc pc = cc ∧ process_with leaked (<[cc_Name cc := pc]> m) d p)
    (process_with leaked (delete (cc_Name cc) m) d).
Proof.
  intros Hcc. unfold restart_composite. set (m' := delete (cc_Name cc) m).
  eapply hoare_bind; [apply total_hoare, stop_composite_with|]. intros stopped. apply hoare_pure. intros _. fold m'.
  eapply hoare_bind with (Q := λ _, process_with leaked m' d).
  { destruct stopped; [apply on_cluster_process_with|apply hoare_ret]. }
  intros []. eapply hoare_bind; [apply hoare_try, (construct_composite_ok leaked (λ m1 d1, m1 = m' ∧ d1 = d) cc Hcc)|].
  intros [pc|err]; simpl.
  - apply hoare_conseq_pre with (P' := λ p, (composite_wired cc pc ∧ cr_relatedInformers pc = ∅) ∧
      (process_ok (composite_subs pc) [] leaked p ∧ (p_parentControllers p = m' ∧ p_decoratorControllers p = d))).
    { by intros p (H1 & H2 & H3). }
    apply hoare_pure. intros [Hw Hrel]. eapply hoare_bind.
    { by apply total_hoare, (start_composite_ok leaked (λ m1 d1, m1 = m' ∧ d1 = d)). }
    intros sent. eapply hoare_bind.
    { apply total_hoare, (Eventf_process_ok (composite_subs pc) (composite_heard pc) leaked (λ m1 d1, m1 = m' ∧ d1 = d)). }
    intros []. eapply hoare_weaken.
    + apply (store_composite_ok leaked (λ m1 d1, m1 = <[cc_Name cc := pc]> m ∧ d1 = d) cc pc Hw).
    + intros p (H1 & H2 & ->). split; [done|]. rewrite H2. unfold m'. rewrite lookup_delete_eq. split; [done|].
      by rewrite insert_delete_eq.
    + intros [] p H. exists pc. split; [apply Hw|exact H].
    + done.
  - eapply hoare_bind; [apply on_cluster_process_with|]. intros []. by apply hoare_throw.
Qed.

(** What a reconcile of an object does to the running controllers of its kind:
    afterwards one runs that is of this object, or was already and has an equal
    specification; or an error, and at most the old one was stopped. *)
Definition composite_converged (cc : CompositeController) (m m' : gmap string compositeRuntime) : Prop :=
  ∃ pc, m' = <[cc_Name cc := pc]> m ∧
    (cr_cc pc = cc ∨ m !! cc_Name cc = Some pc ∧ env_composite_DeepEqual env cc (cr_cc pc) = true).
Definition decorator_converged (dc : DecoratorController) (d d' : gmap string decoratorRuntime) : Prop :=
  ∃ c, d' = <[dc_Name dc := c]> d ∧
    (dr_dc c = dc ∨ d !! dc_Name dc = Some c ∧ env_decorator_DeepEqual env dc (dr_dc c) = true).
Definition at_most_stopped {V} (name : string) (m m' : gmap string V) : Prop := m' = m ∨ m' = delete name m.

Lemma reconcileComposite_ok leaked m d cc :
  distinct_rules (child_rule <$> cc_ChildResources cc) →
  hoare (process_with leaked m d) (reconcileCompositeController cc)
    (λ _ p, ∃ m', composite_converged cc m m' ∧ process_with leaked m' d p)
    (λ p, ∃ m', at_most_stopped (cc_Name cc) m m' ∧ process_with leaked m' d p).
Proof.
  intros Hcc. unfold reconcileCompositeController.
  eapply hoare_bind; [eapply hoare_weaken_err; [apply on_cluster_process_with|]|intros []].
  { intros p Hp. exists m. split; [by left|done]. }
  intros p Hp. pose proof Hp as (_ & Hm & _). unfold get_state, mbind, M_bind. cbv beta iota. unfold SyncMap_Load. rewrite Hm.
  assert (Hrestart : match restart_composite cc p with
    | (Ok _, p') => ∃ m', composite_converged cc m m' ∧ process_with leaked m' d p'
    | (Err _, p') => ∃ m', at_most_stopped (cc_Name cc) m m' ∧ process_with leaked m' d p'
    | _ => True end).
  { pose proof (restart_composite_ok leaked m d cc Hcc p Hp) as H. destruct (restart_composite cc p) as [[u|e|s] p']; [| |done].
    - destruct H as (pc & Hpc & H). exists (<[cc_Name cc := pc]> m). split; [|done]. exists pc. by split; [|left].
    - exists (delete (cc_Name cc) m). by split; [right|]. }
  destruct (m !! cc_Name cc) as [pc|] eqn:Hl; [|exact Hrestart].
  destruct (env_composite_DeepEqual env cc (cr_cc pc)) eqn:Heq; [|exact Hrestart]. simpl.
  exists m. split; [|done]. exists pc. split; [by rewrite insert_id|by right].
Qed.

(** *** The same of the decorator controllers, which may leak *)
Lemma stop_decorator_with leaked m d name :
  total (process_with leaked m d) (stop_decorator name) (λ r p, r = d !! name ∧ process_with leaked m (delete name d) p).
Proof.
  intros p (Hok & <- & <-). destruct (stop_decorator_ok leaked p name Hok) as (h & E & Hok').
  eexists _, _. split; [exact E|]. by split.
Qed.

Definition process_leaking (leaked : list ResourceInformer) m d (p : Process) : Prop :=
  ∃ more, process_with (more ++ leaked) m d p.
Lemma process_not_leaking leaked m d p : process_with leaked m d p → process_leaking leaked m d p.
Proof. intros H. by exists []. Qed.

Lemma construct_decorator_ok leaked φ dc :
  distinct_dc dc →
  hoare (λ p, process_ok [] [] leaked p ∧ φ (p_parentControllers p) (p_decoratorControllers p)) (on_process (newDecoratorController dc))
    (λ c p, process_ok (decorator_subs c) [] leaked p ∧
       ((decorator_wired dc c ∧ dr_relatedInformers c = ∅) ∧ φ (p_parentControllers p) (p_decoratorControllers p)))
    (λ p, ∃ more, process_ok [] [] (more ++ leaked) p ∧ φ (p_parentControllers p) (p_decoratorControllers p)).
Proof.
  intros Hdc p [[H1 H2 H3 H4] Hφ]. pose proof (newDecoratorController_holds _ _ dc Hdc (p_host p) H2) as H.
  unfold on_process, zoom. simpl. destruct (newDecoratorController dc (p_host p)) as [[c|e|s] h]; [| |done].
  - destruct H as [Hw Hh]. by split.
  - destruct H as (more & Hmore & Hh). exists more. split; [|done]. split; [by apply Forall_app| |done..].
    eapply host_holds_proper; [|done|done|exact Hh]. unfold all_subs. simpl. solve_Permutation.
Qed.

Lemma start_decorator_ok leaked φ c :
  dr_relatedInformers c = ∅ →
  total (λ p, process_ok (decorator_subs c) [] leaked p ∧ φ (p_parentControllers p) (p_decoratorControllers p))
    (on_process (decorator_Start c))
    (λ _ p, process_ok (decorator_subs c) (decorator_heard c) leaked p ∧ φ (p_parentControllers p) (p_decoratorControllers p)).
Proof.
  intros Hrel p [[H1 H2 H3 H4] Hφ].
  destruct (decorator_Start_holds (decorator_subs c ++ all_subs p ++ leaked) ([] ++ all_heard p) c Hrel) with (w := p_host p)
    as (sent & h & E & _ & Hh); [intros ri Hri; apply elem_of_app; by left|done|].
  eexists _, _. unfold on_process, zoom. simpl. rewrite E. by split; [done|].
Qed.

Lemma store_decorator_ok leaked (φ : gmap string compositeRuntime → gmap string decoratorRuntime → Prop) dc c :
  decorator_wired dc c →
  hoare (λ p, process_ok (decorator_subs c) (decorator_heard c) leaked p ∧
      (p_decoratorControllers p !! dc_Name dc = None ∧ φ (p_parentControllers p) (<[dc_Name dc := c]> (p_decoratorControllers p))))
    (on_decorators (SyncMap_Store (dc_Name dc) c))
    (λ _ p, process_ok [] [] leaked p ∧ φ (p_parentControllers p) (p_decoratorControllers p)) (λ _, False).
Proof.
  intros Hw p [[H1 H2 H3 H4] [Hnone Hφ]]. unfold on_decorators, zoom, SyncMap_Store, modify. simpl.
  split; [|done]. split; [done| |done|].
  - eapply host_holds_proper; [| |done|exact H2]; simpl.
    + unfold all_subs. simpl. rewrite group_subs_insert by done. solve_Permutation.
    + unfold all_heard. simpl. rewrite group_subs_insert by done. solve_Permutation.
  - simpl. intros name' c' [[<- <-]|[_ Hc]]%lookup_insert_Some; [|by apply H4].
    assert (dr_dc c = dc) as -> by apply Hw. done.
Qed.

Lemma restart_decorator_ok leaked m d dc :
  distinct_dc dc →
  hoare (process_with leaked m d) (restart_decorator dc)
    (λ _ p, ∃ c, dr_dc c = dc ∧ process_with leaked m (<[dc_Name dc := c]> d) p)
    (process_leaking leaked m (delete (dc_Name dc) d)).
Proof.
  intros Hdc. unfold restart_decorator. set (d' := delete (dc_Name dc) d).
  eapply hoare_bind; [apply total_hoare, stop_decorator_with|]. intros stopped. apply hoare_pure. intros _. fold d'.
  eapply hoare_bind with (Q := λ _, process_with leaked m d').
  { destruct stopped; [|apply hoare_ret]. eapply hoare_weaken_err; [apply on_cluster_process_with|apply process_not_leaking]. }
  intros []. eapply hoare_bind; [apply hoare_try, (construct_decorator_ok leaked (λ m1 d1, m1 = m ∧ d1 = d') dc Hdc)|].
  intros [c|err]; simpl.
  - apply hoare_conseq_pre with (P' := λ p, (decorator_wired dc c ∧ dr_relatedInformers c = ∅) ∧
      (process_ok (decorator_subs c) [] leaked p ∧ (p_parentControllers p = m ∧ p_decoratorControllers p = d'))).
    { by intros p (H1 & H2 & H3). }
    apply hoare_pure. intros [Hw Hrel]. eapply hoare_bind.
    { by apply total_hoare, (start_decorator_ok leaked (λ m1 d1, m1 = m ∧ d1 = d')). }
    intros sent. eapply hoare_bind.
    { apply total_hoare, (Eventf_process_ok (decorator_subs c) (decorator_heard c) leaked (λ m1 d1, m1 = m ∧ d1 = d')). }
    intros []. eapply hoare_weaken.
    + apply (store_decorator_ok leaked (λ m1 d1, m1 = m ∧ d1 = <[dc_Name dc := c]> d) dc c Hw).
    + intros p (H1 & -> & H2). split; [done|]. rewrite H2. unfold d'. rewrite lookup_delete_eq. split; [done|].
      by rewrite insert_delete_eq.
    + intros [] p H. exists c. split; [apply Hw|exact H].
    + done.
  - apply hoare_exists. intros more. eapply hoare_bind.
    + eapply hoare_weaken_err; [apply on_cluster_process_with|]. intros p H. by exists more.
    + intros []. apply hoare_throw. intros p H. by exists more.
Qed.

Lemma reconcileDecorator_ok leaked m d dc :
  distinct_dc dc →
  hoare (process_with leaked m d) (reconcileDecoratorController dc)
    (λ _ p, ∃ d', decorator_converged dc d d' ∧ process_leaking leaked m d' p)
    (λ p, ∃ d', at_most_stopped (dc_Name dc) d d' ∧ process_leaking leaked m d' p).
Proof.
  intros Hdc. unfold reconcileDecoratorController.
  eapply hoare_bind; [eapply hoare_weaken_err; [apply on_cluster_process_with|]|intros []].
  { intros p Hp. exists d. split; [by left|by apply process_not_leaking]. }
  intros p Hp. pose proof Hp as (_ & _ & Hd). unfold get_state, mbind, M_bind. cbv beta iota. unfold SyncMap_Load. rewrite Hd.
  assert (Hrestart : match restart_decorator dc p with
    | (Ok _, p') => ∃ d', decorator_converged dc d d' ∧ process_leaking leaked m d' p'
    | (Err _, p') => ∃ d', at_most_stopped (dc_Name dc) d d' ∧ process_leaking leaked m d' p'
    | _ => True end).
  { pose proof (restart_decorator_ok leaked m d dc Hdc p Hp) as H. destruct (restart_decorator dc p) as [[u|e|s] p']; [| |done].
    - destruct H as (c & Hc & H). exists (<[dc_Name dc := c]> d). split; [|by apply process_not_leaking].
      exists c. by split; [|left].
    - exists (delete (dc_Name dc) d). by split; [right|]. }
  destruct (d !! dc_Name dc) as [c|] eqn:Hl; [|exact Hrestart].
  destruct (env_decorator_DeepEqual env dc (dr_dc c)) eqn:Heq; [|exact Hrestart]. simpl.
  exists d. split; [|by apply process_not_leaking]. exists c. split; [by rewrite insert_id|by right].
Qed.

(** ** Reconciles of any history *)

(** The API server returns the object of the name asked for, and the objects
    name no resource twice. *)
Record ObjectLaws : Prop := {
  composite_law name w cc w' : env_Get_CompositeController env name w = (Ok cc, w') →
    cc_Name cc = name ∧ distinct_rules (child_rule <$> cc_ChildResources cc);
  decorator_law name w dc w' : env_Get_DecoratorController env name w = (Ok dc, w') →
    dc_Name dc = name ∧ distinct_dc dc;
}.

Definition set_world (w : World) (p : Process) : Process :=
  {| p_host := {| h_world := w; h_factory := h_factory (p_host p) |}; p_parentControllers := p_parentControllers p;
     p_decoratorControllers := p_decoratorControllers p |}.
Lemma process_with_set_world leaked m d w p : process_with leaked m d p → process_with leaked m d (set_world w p).
Proof. by intros [[H1 H2 H3 H4] H]. Qed.

(** The parent's CRD has no status subresource for the version. *)
Definition without_status (cc : CompositeController) : Prop :=
  ∃ groupVersion crd w w', ParseGroupVersion (rr_APIVersion (parent_rule (cc_ParentResource cc))) = Ok groupVersion ∧
    env_Get_CRD env (rr_Resource (parent_rule (cc_ParentResource cc)) +:+ "." +:+ gv_Group groupVersion) w = (Ok crd, w') ∧
    HasStatusSubresource crd (gv_Version groupVersion) = false.

Definition composite_reconciled (name : string) (p : Process) (r : res unit) (m' : gmap string compositeRuntime) : Prop :=
  let m := p_parentControllers p in
  match (env_Get_CompositeController env name (h_world (p_host p))).1, r with
  | Ok cc, Ok _ => composite_converged cc m m' ∨ without_status cc ∧ m' = m
  | Ok cc, Err _ => at_most_stopped name m m'
  | Err e, Ok _ => IsNotFound e = true ∧ m' = delete name m
  | Err e, Err e' => IsNotFound e = false ∧ e' = e ∧ m' = m
  | _, _ => True
  end.
Definition decorator_reconciled (name : string) (p : Process) (r : res unit) (d' : gmap string decoratorRuntime) : Prop :=
  let d := p_decoratorControllers p in
  match (env_Get_DecoratorController env name (h_world (p_host p))).1, r with
  | Ok dc, Ok _ => decorator_converged dc d d'
  | Ok dc, Err _ => at_most_stopped name d d'
  | Err e, Ok _ => IsNotFound e = true ∧ d' = delete name d
  | Err e, Err e' => IsNotFound e = false ∧ e' = e ∧ d' = d
  | _, _ => True
  end.

Lemma Eventf_with leaked m d reason message :
  total (process_with leaked m d) (Eventf reason message) (λ _, process_with leaked m d).
Proof. exact (Eventf_process_ok [] [] leaked (λ m' d', m' = m ∧ d' = d) reason message). Qed.

Lemma sync_error_ok {A} leaked m d reason message e p :
  process_with leaked m d p →
  ∃ p', (Eventf reason message ;; throw e : M Process A) p = (Err e, p') ∧ process_with leaked m d p'.
Proof.
  intros Hp. destruct (Eventf_with leaked m d reason message p Hp) as ([] & p' & E & Hp').
  exists p'. unfold mbind, M_bind. by rewrite E.
Qed.

Lemma composite_existing_ok leaked m d cc :
  distinct_rules (child_rule <$> cc_ChildResources cc) →
  hoare (process_with leaked m d) (composite_Reconcile_existing cc)
    (λ _ p, ∃ m', (composite_converged cc m m' ∨ without_status cc ∧ m' = m) ∧ process_with leaked m' d p)
    (λ p, ∃ m', at_most_stopped (cc_Name cc) m m' ∧ process_with leaked m' d p).
Proof.
  intros Hcc. unfold composite_Reconcile_existing.
  assert (Hkeep : ∀ p, process_with leaked m d p → ∃ m', at_most_stopped (cc_Name cc) m m' ∧ process_with leaked m' d p)
    by (intros; exists m; by split; [left|]).
  eapply hoare_bind; [apply hoare_lift, Hkeep|]. intros gv. apply hoare_pure. intros Hgv.
  set (get_crd := env_Get_CRD env _).
  eapply hoare_bind with (Q := λ crd p, (∃ w w', get_crd w = (Ok crd, w')) ∧ process_with leaked m d p).
  { intros p Hp. pose proof (on_cluster_process_with leaked m d get_crd p Hp) as H.
    unfold on_cluster, on_process, zoom in *. simpl in *.
    destruct (get_crd (h_world (p_host p))) as [[crd|e|s] w] eqn:E; [|by apply Hkeep|done]. split; [eauto|done]. }
  intros crd. apply hoare_pure. intros (w & w' & Hcrd). destruct (HasStatusSubresource crd (gv_Version gv)) eqn:Hst; simpl.
  - eapply hoare_weaken; [by apply (reconcileComposite_ok leaked m d cc)|done| |done].
    intros [] p (m' & H & Hp). eauto.
  - eapply hoare_weaken; [apply (total_hoare _ _ _ (λ _, False)), Eventf_with|done| |done]. intros [] p Hp. exists m.
    split; [right; split; [|done]|done]. by exists gv, crd, w, w'.
Qed.

(** The two ways in which the object cannot be read. *)
Lemma missing_ok {V} leaked m d m1 d1 (stop : M Process (option V)) (message : V → string) p :
  total (process_with leaked m d) stop (λ _, process_with leaked m1 d1) → process_with leaked m d p →
  ∃ p', (stopped ← stop; match stopped with Some v => Eventf "Stopped" (message v) | None => mret () end) p = (Ok (), p') ∧
    process_with leaked m1 d1 p'.
Proof.
  intros Hstop Hp. assert (H : total (process_with leaked m d)
    (stopped ← stop; match stopped with Some v => Eventf "Stopped" (message v) | None => mret () end)
    (λ _, process_with leaked m1 d1)).
  { eapply total_bind; [exact Hstop|]. intros [v|]; [apply Eventf_with|apply total_ret]. }
  destruct (H p Hp) as ([] & p' & ? & ?). by exists p'.
Qed.

Lemma composite_Reconcile_ok leaked name p r p' :
  ObjectLaws → process_with leaked (p_parentControllers p) (p_decoratorControllers p) p →
  composite_Reconcile name p = (r, p') →
  match r with
  | Panic _ => True
  | _ => ∃ m', composite_reconciled name p r m' ∧ process_with leaked m' (p_decoratorControllers p) p'
  end.
Proof.
  intros Hlaws Hp. set (m := p_parentControllers p) in *. set (d := p_decoratorControllers p) in *.
  unfold composite_Reconcile, composite_reconciled. fold m.
  unfold mbind at 1, M_bind at 1, try. unfold on_cluster at 1, on_process at 1, zoom. simpl.
  destruct (env_Get_CompositeController env name (h_world (p_host p))) as [[cc|e|s] w] eqn:Hget; simpl; [| |by intros [= <- <-]];
    fold (set_world w p); apply (process_with_set_world _ _ _ w) in Hp.
  - destruct (composite_law Hlaws _ _ _ _ Hget) as [<- Hcc]. intros Hrun.
    pose proof (hoare_run _ _ _ _ _ _ _ (composite_existing_ok leaked m d cc Hcc) Hp Hrun). by destruct r.
  - destruct (IsNotFound e) eqn:He; intros Hrun.
    + destruct (missing_ok leaked m d (delete name m) d (stop_composite name)
        (λ pc, "Stopped controller: " +:+ cc_Name (cr_cc pc)) (set_world w p)) as (p2 & E & Hp2); [|done|].
      * eapply total_weaken; [apply stop_composite_with|]. by intros ? ? [_ ?].
      * rewrite E in Hrun. injection Hrun as <- <-. eauto.
    + destruct (sync_error_ok (A:=unit) leaked m d "SyncError" ("[] Sync error - " +:+ error_Error e) e _ Hp) as (p2 & E & Hp2).
      rewrite E in Hrun. injection Hrun as <- <-. eauto.
Qed.

Lemma decorator_Reconcile_ok leaked name p r p' :
  ObjectLaws → process_with leaked (p_parentControllers p) (p_decoratorControllers p) p →
  decorator_Reconcile name p = (r, p') →
  match r with
  | Panic _ => True
  | _ => ∃ d', decorator_reconciled name p r d' ∧ process_leaking leaked (p_parentControllers p) d' p'
  end.
Proof.
  intros Hlaws Hp. set (m := p_parentControllers p) in *. set (d := p_decoratorControllers p) in *.
  unfold decorator_Reconcile, decorator_reconciled. fold d.
  unfold mbind at 1, M_bind at 1, try. unfold on_cluster at 1, on_process at 1, zoom. simpl.
  destruct (env_Get_DecoratorController env name (h_world (p_host p))) as [[dc|e|s] w] eqn:Hget; simpl; [| |by intros [= <- <-]];
    fold (set_world w p); apply (process_with_set_world _ _ _ w) in Hp.
  - destruct (decorator_law Hlaws _ _ _ _ Hget) as [<- Hdc]. intros Hrun.
    pose proof (hoare_run _ _ _ _ _ _ _ (reconcileDecorator_ok leaked m d dc Hdc) Hp Hrun). by destruct r.
  - destruct (IsNotFound e) eqn:He; intros Hrun.
    + destruct (missing_ok leaked m d m (delete name d) (stop_decorator name)
        (λ c, "Stopped controller: " +:+ dc_Name (dr_dc c)) (set_world w p)) as (p2 & E & Hp2); [|done|].
      * eapply total_weaken; [apply stop_decorator_with|]. by intros ? ? [_ ?].
      * rewrite E in Hrun. injection Hrun as <- <-. apply process_not_leaking in Hp2. eauto.
    + destruct (sync_error_ok (A:=unit) leaked m d "SyncError" ("[] sync error - " +:+ error_Error e) e _ Hp) as (p2 & E & Hp2).
      rewrite E in Hrun. injection Hrun as <- <-. apply process_not_leaking in Hp2. eauto.
Qed.

(** ** Histories *)
Definition no_panic {A} (r : res A) : Prop := match r with Panic _ => False | _ => True end.

(** What the customize manager of a controller works on. *)
Definition customize_view {CacheSt} (cache : CacheSt) (related : InformerMap) (p : Process) : CustomizeState := {|
  cz_world := h_world (p_host p); cz_cache := cache; cz_relatedInformers := related; cz_factory := h_factory (p_host p) |}.
Definition customize_host {CacheSt} (s : CustomizeState (CacheSt:=CacheSt)) : Host :=
  {| h_world := cz_world s; h_factory := cz_factory s |}.
Definition set_composite_related (related : InformerMap) (pc : compositeRuntime) : compositeRuntime := {|
  cr_cc := cr_cc pc; cr_parentResource := cr_parentResource pc; cr_parentClient := cr_parentClient pc;
  cr_parentSelector := cr_parentSelector pc; cr_updateStrategy := cr_updateStrategy pc;
  cr_parentInformer := cr_parentInformer pc; cr_childInformers := cr_childInformers pc;
  cr_finalizer := cr_finalizer pc; cr_syncHook := cr_syncHook pc; cr_finalizeHook := cr_finalizeHook pc;
  cr_customize := cr_customize pc; cr_relatedInformers := related |}.
Definition set_decorator_related (related : InformerMap) (c : decoratorRuntime) : decoratorRuntime := {|
  dr_dc := dr_dc c; dr_parentKinds := dr_parentKinds c; dr_parentSelector := dr_parentSelector c;
  dr_updateStrategy := dr_updateStrategy c; dr_parentInformers := dr_parentInformers c;
  dr_childInformers := dr_childInformers c; dr_finalizer := dr_finalizer c; dr_syncHook := dr_syncHook c;
  dr_finalizeHook := dr_finalizeHook c; dr_customize := dr_customize c; dr_relatedInformers := related |}.

(** A reconcile of an object of either kind, the lookup of related objects in a
    sync of a running controller, or whatever else happens in the cluster. *)
Inductive process_step : Process → Process → Prop :=
  | step_composite name p r p' : composite_Reconcile name p = (r, p') → no_panic r → process_step p p'
  | step_decorator name p r p' : decorator_Reconcile name p = (r, p') → no_panic r → process_step p p'
  | step_composite_sync CacheSt Controller (rm : Manager (CacheSt:=CacheSt) (Controller:=Controller)) cache name pc parent p r s :
    p_parentControllers p !! name = Some pc →
    GetRelatedObjects rm parent (customize_view cache (cr_relatedInformers pc) p) = (r, s) → no_panic r →
    process_step p {|
      p_host := customize_host s;
      p_parentControllers := <[name := set_composite_related (cz_relatedInformers s) pc]> (p_parentControllers p);
      p_decoratorControllers := p_decoratorControllers p |}
  | step_decorator_sync CacheSt Controller (rm : Manager (CacheSt:=CacheSt) (Controller:=Controller)) cache name c parent p r s :
    p_decoratorControllers p !! name = Some c →
    GetRelatedObjects rm parent (customize_view cache (dr_relatedInformers c) p) = (r, s) → no_panic r →
    process_step p {|
      p_host := customize_host s;
      p_parentControllers := p_parentControllers p;
      p_decoratorControllers := <[name := set_decorator_related (cz_relatedInformers s) c]> (p_decoratorControllers p) |}
  | step_cluster w p : process_step p (set_world w p).

Definition new_process (clientset : Clientset) (defaultResync : Z) (w : World) : Process := {|
  p_host := {| h_world := w; h_factory := NewSharedInformerFactory clientset defaultResync |};
  p_parentControllers := ∅; p_decoratorControllers := ∅ |}.

Lemma process_ok_new clientset defaultResync w : process_ok [] [] [] (new_process clientset defaultResync w).
Proof.
  split; [constructor| |by intros ??|by intros ??]. unfold all_subs, all_heard, group_subs. simpl. rewrite !map_to_list_empty. simpl.
  apply factory_holds_new.
Qed.

Lemma GetRelatedObjects_run {CacheSt Controller} (rm : Manager (CacheSt:=CacheSt) (Controller:=Controller)) open heard related cache parent p r s :
  host_holds (owned related ++ open) (owned related ++ heard) (p_host p) → GetRelatedObjects rm parent (customize_view cache related p) = (r, s) →
  no_panic r → host_holds (owned (cz_relatedInformers s) ++ open) (owned (cz_relatedInformers s) ++ heard) (customize_host s).
Proof.
  intros Hh Hrun Hr.
  pose proof (hoare_run _ _ _ _ (customize_view cache related p) _ _ (GetRelatedObjects_preserves rm open heard parent) Hh Hrun) as H.
  destruct r; [exact H..|done].
Qed.

Lemma composite_sync_ok {CacheSt Controller} (rm : Manager (CacheSt:=CacheSt) (Controller:=Controller)) leaked cache name pc parent p r s :
  p_parentControllers p !! name = Some pc → process_ok [] [] leaked p →
  GetRelatedObjects rm parent (customize_view cache (cr_relatedInformers pc) p) = (r, s) → no_panic r →
  process_ok [] [] leaked {|
      p_host := customize_host s;
      p_parentControllers := <[name := set_composite_related (cz_relatedInformers s) pc]> (p_parentControllers p);
      p_decoratorControllers := p_decoratorControllers p |}.
Proof.
  intros Hpc [H1 H2 H3 H4] Hrun Hr. split; [done| | |done].
  - set (rest := owned (cr_childInformers pc) ++ cr_parentInformer pc :: ns_open (cr_customize pc) ++
      group_subs composite_subs (delete name (p_parentControllers p)) ++ group_subs decorator_subs (p_decoratorControllers p) ++ leaked).
    set (heard := owned (cr_childInformers pc) ++ cr_parentInformer pc ::
      group_subs composite_heard (delete name (p_parentControllers p)) ++ group_subs decorator_heard (p_decoratorControllers p)).
    assert (Hh : host_holds (owned (cr_relatedInformers pc) ++ rest) (owned (cr_relatedInformers pc) ++ heard) (p_host p)).
    { eapply host_holds_proper; [| |done|exact H2].
      - unfold all_subs, rest. rewrite (group_subs_delete _ _ _ _ Hpc). unfold composite_subs. simpl. solve_Permutation.
      - unfold all_heard, heard. rewrite (group_subs_delete _ _ _ _ Hpc). unfold composite_heard. simpl. solve_Permutation. }
    apply (GetRelatedObjects_run rm rest heard _ cache parent p r s Hh) in Hrun; [|done].
    eapply host_holds_proper; [| |done|exact Hrun].
    + unfold all_subs, rest. simpl. rewrite <-insert_delete_eq, group_subs_insert by apply lookup_delete_eq.
      unfold composite_subs. simpl. solve_Permutation.
    + unfold all_heard, heard. simpl. rewrite <-insert_delete_eq, group_subs_insert by apply lookup_delete_eq.
      unfold composite_heard. simpl. solve_Permutation.
  - simpl. intros name' pc' [[<- <-]|[_ Hl]]%lookup_insert_Some; [|by apply H3]. exact (H3 name pc Hpc).
Qed.

Lemma decorator_sync_ok {CacheSt Controller} (rm : Manager (CacheSt:=CacheSt) (Controller:=Controller)) leaked cache name c parent p r s :
  p_decoratorControllers p !! name = Some c → process_ok [] [] leaked p →
  GetRelatedObjects rm parent (customize_view cache (dr_relatedInformers c) p) = (r, s) → no_panic r →
  process_ok [] [] leaked {|
      p_host := customize_host s;
      p_parentControllers := p_parentControllers p;
      p_decoratorControllers := <[name := set_decorator_related (cz_relatedInformers s) c]> (p_decoratorControllers p) |}.
Proof.
  intros Hc [H1 H2 H3 H4] Hrun Hr. split; [done| |done|].
  - set (rest := owned (dr_childInformers c) ++ owned (dr_parentInformers c) ++ ns_open (dr_customize c) ++
      group_subs composite_subs (p_parentControllers p) ++ group_subs decorator_subs (delete name (p_decoratorControllers p)) ++ leaked).
    set (heard := owned (dr_childInformers c) ++ owned (dr_parentInformers c) ++
      group_subs composite_heard (p_parentControllers p) ++ group_subs decorator_heard (delete name (p_decoratorControllers p))).
    assert (Hh : host_holds (owned (dr_relatedInformers c) ++ rest) (owned (dr_relatedInformers c) ++ heard) (p_host p)).
    { eapply host_holds_proper; [| |done|exact H2].
      - unfold all_subs, rest. rewrite (group_subs_delete decorator_subs _ _ _ Hc). unfold decorator_subs. simpl. solve_Permutation.
      - unfold all_heard, heard. rewrite (group_subs_delete decorator_heard _ _ _ Hc). unfold decorator_heard. simpl. solve_Permutation. }
    apply (GetRelatedObjects_run rm rest heard _ cache parent p r s Hh) in Hrun; [|done].
    eapply host_holds_proper; [| |done|exact Hrun].
    + unfold all_subs, rest. simpl. rewrite <-insert_delete_eq, (group_subs_insert decorator_subs) by apply lookup_delete_eq.
      unfold decorator_subs. simpl. solve_Permutation.
    + unfold all_heard, heard. simpl. rewrite <-insert_delete_eq, (group_subs_insert decorator_heard) by apply lookup_delete_eq.
      unfold decorator_heard. simpl. solve_Permutation.
  - simpl. intros name' c' [[<- <-]|[_ Hl]]%lookup_insert_Some; [|by apply H4]. exact (H4 name c Hc).
Qed.

Lemma process_ok_step leaked p p' :
  ObjectLaws → process_ok [] [] leaked p → process_step p p' → ∃ leaked', process_ok [] [] leaked' p'.
Proof.
  intros Hlaws Hok Hstep.
  destruct Hstep as [name p r p' Hrun Hr|name p r p' Hrun Hr|CacheSt Controller rm cache name pc parent p r s Hl Hrun Hr
    |CacheSt Controller rm cache name c parent p r s Hl Hrun Hr|w p].
  - apply (composite_Reconcile_ok leaked) in Hrun; [|done|done]. destruct r; [destruct Hrun as (? & _ & [H _])..|done]; by exists leaked.
  - apply (decorator_Reconcile_ok leaked) in Hrun; [|done|done].
    destruct r; [destruct Hrun as (? & _ & more & [H _])..|done]; by exists (more ++ leaked).
  - exists leaked. by eapply composite_sync_ok.
  - exists leaked. by eapply decorator_sync_ok.
  - exists leaked. by destruct Hok.
Qed.

Lemma process_ok_reachable clientset defaultResync w p :
  ObjectLaws → rtc process_step (new_process clientset defaultResync w) p → ∃ leaked, process_ok [] [] leaked p.
Proof.
  intros Hlaws H. assert (Hok : ∃ leaked, process_ok [] [] leaked (new_process clientset defaultResync w)) by (exists []; apply process_ok_new).
  induction H as [p|p p1 p2 Hstep _ IH]; [done|]. apply IH. destruct Hok as [leaked Hok]. by eapply process_ok_step.
Qed.

(** ** What holds of the process *)




(** The same of a DecoratorController. *)
Theorem decorator_Reconcile_spec clientset defaultResync w p name r p' :
  ObjectLaws → rtc process_step (new_process clientset defaultResync w) p → decorator_Reconcile name p = (r, p') →
  no_panic r →
  decorator_reconciled name p r (p_decoratorControllers p') ∧ p_parentControllers p' = p_parentControllers p.
Proof.
  intros Hlaws Hreach Hrun Hr. destruct (process_ok_reachable clientset defaultResync w p Hlaws Hreach) as (leaked & Hok).
  apply (decorator_Reconcile_ok leaked) in Hrun; [|done|done].
  destruct r; [destruct Hrun as (m' & H & more & _ & <- & <-)..|done]; by split.
Qed.

(** C38: a DecoratorController whose hooks are fine but which names a resource
    that does not exist, or has a bad selector, is refused with that error, and
    the subscription to the namespaces that its customize manager took stays
    open with nobody to close it: each retry of the reconcile adds one. *)
Theorem decorator_failure_leaks open heard dc hooks sync finalize customize h h1 h2 h3 e :
  host_holds open heard h → dc_Hooks dc = Some hooks →
  resolve_hook "sync" (dch_Sync hooks) (dc_EndpointConfigs dc) (dc_Name dc) "DecoratorController" "sync" h = (Ok sync, h1) →
  resolve_hook "finalize" (dch_Finalize hooks) (dc_EndpointConfigs dc) (dc_Name dc) "DecoratorController" "finalize" h1 =
    (Ok finalize, h2) →
  NewCustomizeManager (dch_Customize hooks) (dc_EndpointConfigs dc) (dc_Name dc) "DecoratorController" h2 = (Ok customize, h3) →
  newDecoratorSelector (env_resources env) dc = Err e →
  newDecoratorController dc h = (Err e, h3) ∧ ∃ ns, ri_key ns = ns_key ∧ host_holds (ns :: open) heard h3.
Proof.
  intros Hh Hhooks Hsync Hfin Hcust Hsel. split.
  - unfold newDecoratorController, DecoratorController_GetCustomizeHook. rewrite Hhooks. simpl.
    unfold mbind, M_bind. rewrite Hsync, Hfin, Hcust, Hsel. done.
  - pose proof (hoare_run _ _ _ _ _ _ _ (resolve_hook_preserves heard open _ _ _ _ _ _) Hh Hsync) as Hh1. simpl in Hh1.
    pose proof (hoare_run _ _ _ _ _ _ _ (resolve_hook_preserves heard open _ _ _ _ _ _) Hh1 Hfin) as Hh2. simpl in Hh2.
    pose proof (hoare_run _ _ _ _ _ _ _ (NewCustomizeManager_holds heard open _ _ _ _) Hh2 Hcust) as (ns & _ & Hk & Hh3).
    by exists ns.
Qed.
End lifecycle.

(** ** A concrete process *)
Section examples.
#[local] Existing Instance treeAPI.
#[local] Existing Instance listRuntime.
#[local] Existing Instance fakeCluster.
#[local] Instance no_net : NetLib :=
  {| url_Parse := λ _, None; Certificate := unit; X509KeyPair := λ _ _, Ok () |}.
#[local] Instance no_http : HttpLib World := {|
  DefaultTransport_MinVersion := 0; AppendCertsFromPEM := λ _, true;
  DefaultTransport := {| RoundTrip := λ _, throw (ErrorString "unreachable") |};
  tls_Transport := λ _, {| RoundTrip := λ _, throw (ErrorString "unreachable") |};
  Client_Do := λ _, {| Do := λ _, throw (ErrorString "unreachable") |};
  time_Parse_RFC1123 := λ _, None; time_Now := mret 0%Z;
  cache_New := λ _ _, {| cache_Get := λ _, mret None; cache_Set := λ _ _, mret () |} |}.

Definition core_group : groupVersionEntry :=
  match refresh_group {| arl_GroupVersion := "v1"; arl_APIResources :=
      [{| ar_Name := "namespaces"; ar_Namespaced := false; ar_Group := ""; ar_Version := "v1"; ar_Kind := "Namespace";
          ar_APIVersion := "v1"; ar_subresourceMap := ∅ |}] |} with
  | Ok e => e
  | _ => things_group
  end.
Definition host_resources : ResourceMap :=
  {| rm_groupVersions := Some (<["v1" := core_group]> {[ "demo.io/v1" := things_group ]}) |}.
Definition host_clientset : Clientset := {| cs_resources := host_resources |}.

Definition running_cc : CompositeController := {|
  cc_Name := "demo"; cc_ParentResource := cc_ParentResource demo_cc;
  cc_ChildResources := [{| child_rule := {| rr_APIVersion := "demo.io/v1"; rr_Resource := "things" |};
                           child_UpdateStrategy := None |}];
  cc_Hooks := Some {| cch_Customize := None; cch_Sync := None; cch_Finalize := None; cch_PreUpdateChild := None;
                      cch_PostUpdateChild := None |};
  cc_EndpointConfigs := []; cc_ResyncPeriodSeconds := None; cc_GenerateSelector := None |}.
(** Its parents do not exist. *)
Definition broken_dc : DecoratorController := {|
  dc_Name := "broken";
  dc_Resources := [{| dc_rule := {| rr_APIVersion := "demo.io/v1"; rr_Resource := "absent" |};
                      dc_LabelSelector := None; dc_AnnotationSelector := None; dc_IgnoreStatusChanges := None |}];
  dc_Attachments := []; dc_Hooks := Some {| dch_Customize := None; dch_Sync := None; dch_Finalize := None |};
  dc_EndpointConfigs := []; dc_ResyncPeriodSeconds := None |}.

Definition demo_env : Environment := {|
  env_resources := host_resources;
  env_dynClient := host_clientset;
  env_k8sClient := {| client_Get_Secret := λ _ name, throw (fake_NotFound name);
                      client_Get_ConfigMap := λ _ name, throw (fake_NotFound name) |};
  env_InstrumentClient := λ _ _ _ client _, mret client;
  env_Get_CompositeController := λ name, if name == "demo" then mret running_cc else throw (fake_NotFound name);
  env_Get_DecoratorController := λ name, if name == "broken" then mret broken_dc else throw (fake_NotFound name);
  env_Get_CRD := λ name, mret {| crd_GroupVersionKind := ""; crd_Versions := [{| crdv_Name := "v1"; crdv_Subresources := Some true |}] |};
  env_cached := λ ri, if ri_key ri == "parents.demo.io/v1" then [live_parent] else [];
  env_composite_DeepEqual := λ _ _, true;
  env_decorator_DeepEqual := λ _ _, true |}.

Definition demo_process : Process := new_process host_clientset 0 things_world.
Definition demo_run (m : M Process unit) : res unit * Process := m demo_process.
Definition ns_count (p : Process) : option Z := f_refCount (h_factory (p_host p)) !! ns_key.

(** The controller runs and watches three resources; asked again nothing
    changes; once it is gone nothing is watched any more. *)
Example composite_runs :
  let '(_, p) := composite_Reconcile demo_env "demo" demo_process in
  size (p_parentControllers p) = 1 ∧ size (f_refCount (h_factory (p_host p))) = 3 ∧
  size (f_running (h_factory (p_host p))) = 3.
Proof. vm_compute. done. Qed.

(** Three retries of a reconcile that fails leave three subscriptions. *)
Example retries_leak :
  ns_count (foldl (λ p _, (decorator_Reconcile demo_env "broken" p).2) demo_process [(); (); ()]) = Some 3%Z.
Proof. vm_compute. done. Qed.

(** The rules are only required to be distinct because the source takes it for
    granted: of a kind named twice the map keeps the second subscription, and
    nobody closes the first. *)
Definition duplicate_cc : CompositeController := {|
  cc_Name := "demo"; cc_ParentResource := cc_ParentResource running_cc;
  cc_ChildResources := cc_ChildResources running_cc ++ cc_ChildResources running_cc;
  cc_Hooks := cc_Hooks running_cc; cc_EndpointConfigs := []; cc_ResyncPeriodSeconds := None; cc_GenerateSelector := None |}.
Example duplicate_rule_leaks :
  let '(_, h) := (pc ← newParentController demo_env duplicate_cc; composite_Stop pc) (p_host demo_process) in
  f_refCount (h_factory h) !! "things.demo.io/v1" = Some 1%Z.
Proof. vm_compute. done. Qed.

Lemma single_rule_distinct rule gvr : rule_gvr rule = Ok gvr → distinct_rules [rule].
Proof. intros H. exists [gvr]. split; [by constructor|apply NoDup_singleton]. Qed.

Lemma demo_laws : ObjectLaws demo_env.
Proof.
  split; intros name w o w'; simpl; (case_bool_decide; [|done]); intros [= <- <-]; (split; [done|]).
  - eapply single_rule_distinct. vm_compute. reflexivity.
  - split; [eapply single_rule_distinct; vm_compute; reflexivity|]. exists []. split; [constructor|apply NoDup_nil_2].
Qed.




Lemma no_hook_resolves what name controllerType hookType h :
  resolve_hook demo_env what None [] name controllerType hookType h = (Ok {| hei_webhookExecutor := None |}, h).
Proof. by destruct h. Qed.

Lemma decorator_failure_leaks_witness :
  ∃ h3 ns, newDecoratorController demo_env broken_dc (p_host demo_process) =
      (Err (resource_not_found {| rr_APIVersion := "demo.io/v1"; rr_Resource := "absent" |}), h3) ∧
    ri_key ns = "namespaces.v1" ∧ host_holds [ns] [] h3.
Proof.
  set (h := p_host demo_process).
  assert (Hrun : is_Ok (NewCustomizeManager demo_env None [] "broken" "DecoratorController" h).1 = true) by (vm_compute; reflexivity).
  destruct (NewCustomizeManager demo_env None [] "broken" "DecoratorController" h) as [[customize|e|s] h3] eqn:E; [|discriminate..].
  assert (Hh : host_holds [] [] h) by apply factory_holds_new.
  pose proof (no_hook_resolves "sync" "broken" "DecoratorController" "sync" h) as Hsync.
  pose proof (no_hook_resolves "finalize" "broken" "DecoratorController" "finalize" h) as Hfinalize.
  assert (Hsel : newDecoratorSelector host_resources broken_dc =
    Err (resource_not_found {| rr_APIVersion := "demo.io/v1"; rr_Resource := "absent" |})).
  { assert (Hget : ResourceMap_Get host_resources "demo.io/v1" "absent" = None) by (vm_compute; reflexivity).
    unfold newDecoratorSelector. simpl. by rewrite Hget. }
  clearbody h.
  destruct (decorator_failure_leaks demo_env [] [] broken_dc {| dch_Customize := None; dch_Sync := None; dch_Finalize := None |}
    _ _ customize h h h h3 _ Hh eq_refl Hsync Hfinalize E Hsel) as (H1 & ns & Hk & H2).
  exists h3, ns. done.
Defined.
End examples.
