(* ===== verification/Goroutines.v ===== *)
(** * The goroutines of a controller: [Start], [Stop] and [worker] of
      [pkg/controller/composite/controller.go] and
      [pkg/controller/decorator/controller.go]

    [Start] launches a goroutine that waits for the caches to sync, runs the
    workers and waits for them; [Stop] cancels the context, shuts the queue down
    and waits for that goroutine.  They run interleaved with each other, with
    the event handlers that add keys, and with the informers: the model is a
    step relation, a step of the system or of its environment.  The work queue is
    client-go's, an interface with the laws of its documentation. *)
From S2P Require Import Prelude Value K8s K8sInst Types World ClientSet FakeCluster Informer Endpoint ParentController Webhook Customize Lifecycle.
From stdpp Require Import options.

(** ** The work queue *)

(** [workqueue.TypedRateLimitingInterface]: [Get] hands out a key, tells the
    caller to quit, or blocks ([None]). *)
Class WorkQueue := {
  Queue : Type;
  queue_Add : string → Queue → Queue;
  queue_Get : Queue → option (option string * Queue);
  queue_Done : string → Queue → Queue;
  queue_ShutDown : Queue → Queue;
  (** the keys added and not handed out since, those handed out and not done *)
  queue_waiting : Queue → gset string;
  queue_processing : Queue → gset string;
  queue_shuttingDown : Queue → bool;
}.

(** "A single item will not be processed multiple times concurrently, and if an
    item is added multiple times before it can be processed, it will only be
    processed once"; an item may be added again while it is processed.
    "ShutDown will cause q to ignore all new items added to it. As soon as the
    worker goroutines have drained the existing items in the queue, they will
    be instructed to exit." *)
Class WorkQueueLaws `{WorkQueue} : Prop := {
  queue_Add_spec k q :
    queue_waiting (queue_Add k q) = (if queue_shuttingDown q then queue_waiting q else {[k]} ∪ queue_waiting q) ∧
    queue_processing (queue_Add k q) = queue_processing q ∧
    queue_shuttingDown (queue_Add k q) = queue_shuttingDown q;
  queue_Get_spec q :
    match queue_Get q with
    | Some (Some k, q') =>
      k ∈ queue_waiting q ∧ k ∉ queue_processing q ∧ queue_waiting q' = queue_waiting q ∖ {[k]} ∧
      queue_processing q' = {[k]} ∪ queue_processing q ∧ queue_shuttingDown q' = queue_shuttingDown q
    | Some (None, q') => queue_waiting q ⊆ queue_processing q ∧ queue_shuttingDown q = true ∧ q' = q
    | None => queue_waiting q ⊆ queue_processing q ∧ queue_shuttingDown q = false
    end;
  queue_Done_spec k q :
    queue_waiting (queue_Done k q) = queue_waiting q ∧
    queue_processing (queue_Done k q) = queue_processing q ∖ {[k]} ∧
    queue_shuttingDown (queue_Done k q) = queue_shuttingDown q;
  queue_ShutDown_spec q :
    queue_waiting (queue_ShutDown q) = queue_waiting q ∧
    queue_processing (queue_ShutDown q) = queue_processing q ∧
    queue_shuttingDown (queue_ShutDown q) = true;
}.

(** ** The goroutines *)

(** Something whose [HasSynced] can be asked. *)
Inductive cache :=
  | DynClient
  | InformerCache (informer : nat)
  | RevisionCache.
#[global] Instance cache_eq_dec : EqDecision cache.
Proof. solve_decision. Defined.

(** A worker between two calls of [worker] by [wait.Until], blocked in
    [queue.Get], in a sync, or gone. *)
Inductive worker_state := Resting | Polling | Syncing (key : string) | Exited.
(** The goroutine of [Start]. *)
Inductive start_state := WaitingForCaches | WaitingForWorkers | Closed.
(** [Stop]: after [cancel()], after [queue.ShutDown()], after [<-doneCh]. *)
Inductive stop_state := NotStopped | Cancelled | Draining | Returned.
#[global] Instance worker_state_eq_dec : EqDecision worker_state.
Proof. solve_decision. Defined.
#[global] Instance start_state_eq_dec : EqDecision start_state.
Proof. solve_decision. Defined.
#[global] Instance stop_state_eq_dec : EqDecision stop_state.
Proof. solve_decision. Defined.

Section goroutines.
Context {WQ : WorkQueue}.
(** [numWorkers], and the caches that the controller waits for. *)
Variables (numWorkers : nat) (syncFuncs : list cache).

Record goroutines := {
  g_cancelled : bool;
  g_queue : Queue;
  g_synced : list cache;
  g_start : start_state;
  g_workers : list worker_state;
  g_stop : stop_state;
}.
Definition set_queue (q : Queue) (s : goroutines) : goroutines :=
  {| g_cancelled := g_cancelled s; g_queue := q; g_synced := g_synced s; g_start := g_start s; g_workers := g_workers s; g_stop := g_stop s |}.
Definition set_start (m : start_state) (ws : list worker_state) (s : goroutines) : goroutines :=
  {| g_cancelled := g_cancelled s; g_queue := g_queue s; g_synced := g_synced s; g_start := m; g_workers := ws; g_stop := g_stop s |}.
Definition set_stop (cancelled : bool) (q : Queue) (st : stop_state) (s : goroutines) : goroutines :=
  {| g_cancelled := cancelled; g_queue := q; g_synced := g_synced s; g_start := g_start s; g_workers := g_workers s; g_stop := st |}.

(** [wait.Until(worker, time.Second, ctx.Done())], with the loop of [worker] around
    [processNextWorkItem]: the context is looked at between two calls of
    [worker], which ends when the queue says so.  A sync ends with [Done]; what
    it puts back comes later, like all that is added after a delay. *)
Inductive worker_step (cancelled : bool) : worker_state → Queue → worker_state → Queue → Prop :=
  | worker_called q : cancelled = false → worker_step cancelled Resting q Polling q
  | worker_leaves q : cancelled = true → worker_step cancelled Resting q Exited q
  | worker_gets q k q' : queue_Get q = Some (Some k, q') → worker_step cancelled Polling q (Syncing k) q'
  | worker_quits q q' : queue_Get q = Some (None, q') → worker_step cancelled Polling q Resting q'
  | worker_done k q : worker_step cancelled (Syncing k) q Polling (queue_Done k q).

(** The steps of [Start]'s goroutine, of the workers and of [Stop]. *)
Inductive own_step : goroutines → goroutines → Prop :=
  | caches_synced s :
    g_start s = WaitingForCaches → (∀ c, c ∈ syncFuncs → c ∈ g_synced s) →
    own_step s (set_start WaitingForWorkers (replicate numWorkers Resting) s)
  | caches_given_up s :
    g_start s = WaitingForCaches → g_cancelled s = true → own_step s (set_start Closed [] s)
  | workers_joined s :
    g_start s = WaitingForWorkers → Forall (λ w, w = Exited) (g_workers s) →
    own_step s (set_start Closed (g_workers s) s)
  | worker_steps s l1 w l2 w' q' :
    g_workers s = l1 ++ w :: l2 → worker_step (g_cancelled s) w (g_queue s) w' q' →
    own_step s (set_queue q' (set_start (g_start s) (l1 ++ w' :: l2) s))
  | stop_shuts_down s :
    g_stop s = Cancelled → own_step s (set_stop (g_cancelled s) (queue_ShutDown (g_queue s)) Draining s)
  | stop_returns s :
    g_stop s = Draining → g_start s = Closed → own_step s (set_stop (g_cancelled s) (g_queue s) Returned s).

(** The handlers and the timers of the queue add keys, caches sync, somebody
    calls [Stop], and the process may be told to end. *)
Inductive env_step : goroutines → goroutines → Prop :=
  | env_adds k s : env_step s (set_queue (queue_Add k (g_queue s)) s)
  | env_syncs c s : env_step s
      {| g_cancelled := g_cancelled s; g_queue := g_queue s; g_synced := c :: g_synced s; g_start := g_start s;
         g_workers := g_workers s; g_stop := g_stop s |}
  | env_cancels s : env_step s (set_stop true (g_queue s) (g_stop s) s)
  | env_stops s : g_stop s = NotStopped → env_step s (set_stop true (g_queue s) Cancelled s).

(** [Start] with an empty queue. *)
Record started (s : goroutines) : Prop := {
  started_queue : queue_waiting (g_queue s) = ∅ ∧ queue_processing (g_queue s) = ∅ ∧ queue_shuttingDown (g_queue s) = false;
  started_start : g_start s = WaitingForCaches ∧ g_workers s = [] ∧ g_stop s = NotStopped;
}.
Abbreviation step := (any own_step env_step).
Definition reachable (s : goroutines) : Prop := ∃ s0, started s0 ∧ rtc step s0 s.

(** The keys in a sync. *)
Definition worker_key (w : worker_state) : option string := match w with Syncing k => Some k | _ => None end.
Definition syncing (s : goroutines) : list string := omap worker_key (g_workers s).

(** ** What holds at any time *)
Context {WL : WorkQueueLaws}.

Definition key_of (w : worker_state) : list string := option_list (worker_key w).
Lemma syncing_split s l1 w l2 :
  g_workers s = l1 ++ w :: l2 → syncing s = omap worker_key l1 ++ key_of w ++ omap worker_key l2.
Proof. intros H. unfold syncing. rewrite H, omap_app. f_equal. by destruct w. Qed.

Record invariant (s : goroutines) : Prop := {
  inv_processing : queue_processing (g_queue s) = list_to_set (syncing s);
  inv_exclusive : NoDup (syncing s);
  inv_start :
    match g_start s with
    | WaitingForCaches => g_workers s = []
    | WaitingForWorkers => length (g_workers s) = numWorkers ∧ (∀ c, c ∈ syncFuncs → c ∈ g_synced s)
    | Closed => Forall (λ w, w = Exited) (g_workers s)
    end;
  inv_stop :
    match g_stop s with
    | NotStopped => queue_shuttingDown (g_queue s) = false
    | Cancelled => g_cancelled s = true ∧ queue_shuttingDown (g_queue s) = false
    | Draining => g_cancelled s = true ∧ queue_shuttingDown (g_queue s) = true
    | Returned => g_cancelled s = true ∧ queue_shuttingDown (g_queue s) = true ∧ g_start s = Closed
    end;
  inv_running : g_cancelled s = false → Exited ∉ g_workers s ∧ (g_start s = Closed → numWorkers = 0);
}.

Lemma invariant_started s : started s → invariant s.
Proof.
  intros [(Hw & Hp & Hsh) (Hs & Hl & Hst)]. split.
  - unfold syncing. by rewrite Hp, Hl.
  - unfold syncing. rewrite Hl. apply NoDup_nil_2.
  - by rewrite Hs.
  - by rewrite Hst.
  - rewrite Hs, Hl. intros _. split; [apply not_elem_of_nil|done].
Qed.

Lemma exited_not_syncing l : Forall (λ w, w = Exited) l → omap worker_key l = [].
Proof. induction 1 as [|w l -> _ IH]; done. Qed.

(** What a step of one worker does to the keys in a sync and to the queue. *)
Lemma worker_step_keys cancelled w q w' q' rest :
  worker_step cancelled w q w' q' →
  queue_processing q = list_to_set (key_of w ++ rest) → NoDup (key_of w ++ rest) →
  queue_processing q' = list_to_set (key_of w' ++ rest) ∧ NoDup (key_of w' ++ rest) ∧
  queue_shuttingDown q' = queue_shuttingDown q ∧ (w ≠ Exited).
Proof using All.
  intros Hstep Hp Hnd. destruct Hstep as [q H|q H|q k q' H|q q' H|k q]; simpl in *; [by split_and!..| | |].
  - pose proof (queue_Get_spec q) as Hg. rewrite H in Hg. destruct Hg as (_ & Hk & _ & Hp' & Hsh).
    split_and!; [set_solver| |done|done]. apply NoDup_cons. split; [|done]. rewrite Hp in Hk. set_solver.
  - pose proof (queue_Get_spec q) as Hg. rewrite H in Hg. by destruct Hg as (_ & _ & ->).
  - destruct (queue_Done_spec k q) as (_ & -> & ->). apply NoDup_cons in Hnd as [Hk Hnd].
    split_and!; [|done..]. rewrite Hp. simpl. set_solver.
Qed.

Lemma invariant_own s s' : invariant s → own_step s s' → invariant s'.
Proof using All.
  intros [Hp Hnd Hst Hsp Hr] Hstep. destruct Hstep as [s Hs Hsync|s Hs Hc|s Hs Hex|s l1 w l2 w' q' Hl Hw|s Hs|s Hs Hcl].
  - rewrite Hs in Hst. unfold syncing in *. rewrite Hst in *.
    assert (Hn : omap worker_key (replicate numWorkers Resting) = []) by (generalize numWorkers; intros n; by induction n).
    split; simpl; unfold syncing; simpl; rewrite ?Hn; [done|apply NoDup_nil_2| |by destruct (g_stop s); intuition congruence|].
    + by rewrite length_replicate.
    + intros _. split; [|done]. by intros [? _]%elem_of_replicate.
  - rewrite Hs in Hst. unfold syncing in *. rewrite Hst in *.
    split; simpl; [done..|by constructor|by destruct (g_stop s); intuition|]. by rewrite Hc.
  - rewrite Hs in Hst. split; simpl; [done..|by destruct (g_stop s); intuition|]. intros Hc. destruct (Hr Hc) as [Hne _].
    split; [done|]. intros _. destruct (g_workers s) as [|w l]; [by destruct Hst|].
    apply Forall_cons in Hex as [-> _]. destruct Hne. by left.
  - rewrite (syncing_split _ _ _ _ Hl) in *.
    assert (Hperm : omap worker_key l1 ++ key_of w ++ omap worker_key l2 ≡ₚ key_of w ++ omap worker_key (l1 ++ l2)).
    { rewrite omap_app, !app_assoc. apply Permutation_app_tail, Permutation_app_comm. }
    assert (Hperm' : omap worker_key l1 ++ key_of w' ++ omap worker_key l2 ≡ₚ key_of w' ++ omap worker_key (l1 ++ l2)).
    { rewrite omap_app, !app_assoc. apply Permutation_app_tail, Permutation_app_comm. }
    rewrite Hperm in Hp, Hnd.
    destruct (worker_step_keys _ _ _ _ _ _ Hw Hp Hnd) as (H1 & H2 & H3 & H4).
    split; simpl.
    + erewrite syncing_split by done. by rewrite Hperm'.
    + erewrite syncing_split by done. by rewrite Hperm'.
    + destruct (g_start s); [by rewrite Hl in Hst; destruct l1| |].
      * rewrite Hl, !length_app in Hst. by rewrite !length_app.
      * rewrite Hl, Forall_app, Forall_cons in Hst. naive_solver.
    + rewrite H3. by destruct (g_stop s).
    + intros Hc. destruct (Hr Hc) as [Hne Hcl]. split; [|done]. rewrite Hl in Hne.
      rewrite elem_of_app, elem_of_cons in *. intros [?|[He|?]]; [naive_solver| |naive_solver]. subst w'. inversion Hw; congruence.
  - rewrite Hs in Hsp. destruct (queue_ShutDown_spec (g_queue s)) as (_ & E2 & E3).
    split; simpl; [by rewrite E2|done..|by rewrite E3; intuition|done].
  - rewrite Hs in Hsp. split; simpl; [done..|by intuition|done].
Qed.

Lemma invariant_env s s' : invariant s → env_step s s' → invariant s'.
Proof using All.
  intros [Hp Hnd Hst Hsp Hr] Hstep. destruct Hstep as [k s|c s|s|s Hs].
  - destruct (queue_Add_spec k (g_queue s)) as (_ & E2 & E3). split; simpl; rewrite ?E2, ?E3; done.
  - split; simpl; [done..| |done|done]. destruct (g_start s); [done| |done]. destruct Hst as [? H]. split; [done|].
    intros c' Hc'. apply elem_of_cons. auto.
  - split; simpl; [done..| |done]. destruct (g_stop s); intuition.
  - rewrite Hs in Hsp. by split.
Qed.
Lemma invariant_any s s' : invariant s → step s s' → invariant s'.
Proof using All. intros HI [H|H]; [by eapply invariant_own|by eapply invariant_env]. Qed.
Lemma invariant_reachable s : reachable s → invariant s.
Proof using All.
  intros (s0 & H0 & H). eapply (rtc_invariant own_step env_step); [apply invariant_any|exact H|by apply invariant_started].
Qed.

(** ** What they do on their own *)

(** What is left to do: the keys that wait, and what each goroutine has before it. *)
Definition weight (cancelled : bool) (w : worker_state) : nat :=
  match w with Resting => if cancelled then 1 else 3 | Polling => 2 | Syncing _ => 3 | Exited => 0 end.
Definition work (s : goroutines) : nat :=
  5 * size (queue_waiting (g_queue s)) + sum_list_with (weight (g_cancelled s)) (g_workers s) +
  match g_start s with WaitingForCaches => 3 * numWorkers + 2 | WaitingForWorkers => 1 | Closed => 0 end +
  match g_stop s with Cancelled => 2 | Draining => 1 | _ => 0 end.

Lemma worker_step_weight cancelled w q w' q' :
  (queue_shuttingDown q = true → cancelled = true) → worker_step cancelled w q w' q' →
  5 * size (queue_waiting q') + weight cancelled w' < 5 * size (queue_waiting q) + weight cancelled w.
Proof using All.
  intros Hsh Hstep. destruct Hstep as [q H|q H|q k q' H|q q' H|k q]; simpl.
  - rewrite H. lia.
  - rewrite H. lia.
  - pose proof (queue_Get_spec q) as Hg. rewrite H in Hg. destruct Hg as (Hk & _ & -> & _).
    rewrite size_difference, size_singleton by set_solver.
    assert (size (queue_waiting q) ≠ 0) by (intros ?%size_empty_inv; set_solver). lia.
  - pose proof (queue_Get_spec q) as Hg. rewrite H in Hg. destruct Hg as (_ & Hs & ->). rewrite (Hsh Hs). lia.
  - destruct (queue_Done_spec k q) as (-> & _). lia.
Qed.

Lemma work_own s s' : invariant s → own_step s s' → work s' < work s.
Proof using All.
  intros [_ _ Hst Hsp _] Hstep. unfold work. destruct Hstep as [s Hs Hsync|s Hs Hc|s Hs Hex|s l1 w l2 w' q' Hl Hw|s Hs|s Hs Hcl]; simpl.
  - rewrite Hs in *. rewrite Hst. simpl. assert (Hn : sum_list_with (weight (g_cancelled s)) (replicate numWorkers Resting) ≤ 3 * numWorkers).
    { generalize numWorkers. intros n. induction n as [|n IH]; simpl in *; destruct (g_cancelled s); lia. }
    lia.
  - rewrite Hs in *. rewrite Hst. simpl. lia.
  - rewrite Hs. lia.
  - rewrite Hl, !sum_list_with_app. simpl.
    assert (Hsh : queue_shuttingDown (g_queue s) = true → g_cancelled s = true)
      by (intros E; destruct (g_stop s); intuition congruence).
    pose proof (worker_step_weight _ _ _ _ _ Hsh Hw). lia.
  - rewrite Hs. destruct (queue_ShutDown_spec (g_queue s)) as (-> & _). lia.
  - rewrite Hs. lia.
Qed.

Lemma worker_at_rest s w :
  invariant s → nf own_step s → w ∈ g_workers s →
  w = Exited ∨ w = Polling ∧ queue_Get (g_queue s) = None.
Proof using All.
  intros HI Hnf (l1 & l2 & Hl)%list_elem_of_split. destruct w as [| |k|]; [| | |by left].
  - exfalso. apply Hnf. destruct (g_cancelled s) eqn:Hc; eexists; eapply worker_steps; [exact Hl|by apply worker_leaves|exact Hl|by apply worker_called].
  - right. split; [done|]. destruct (queue_Get (g_queue s)) as [[[k|] q']|] eqn:Hg; [exfalso; apply Hnf..|done];
      eexists; eapply worker_steps; [exact Hl|by apply worker_gets|exact Hl|by apply worker_quits].
  - exfalso. apply Hnf. eexists. eapply worker_steps; [exact Hl|apply worker_done].
Qed.

Lemma joins s : invariant s → nf own_step s → g_start s = WaitingForWorkers → ¬ Forall (λ w, w = Exited) (g_workers s).
Proof using All. intros HI Hnf Hs Hex. apply Hnf. eexists. by apply workers_joined. Qed.

(** Once the queue is shut down only the end of [Stop] is a place to rest. *)
Lemma draining_progress s : invariant s → nf own_step s → g_stop s = Cancelled ∨ g_stop s = Draining → False.
Proof using All.
  intros HI Hnf [Hst|Hst]; [apply Hnf; eexists; by apply stop_shuts_down|].
  pose proof (inv_stop s HI) as Hsp. rewrite Hst in Hsp. destruct Hsp as [Hc Hsh].
  destruct (g_start s) eqn:Hs.
  - apply Hnf. eexists. by apply caches_given_up.
  - apply (joins s HI Hnf Hs), Forall_forall. intros w Hw.
    destruct (worker_at_rest s w HI Hnf Hw) as [?|[_ Hg]]; [done|].
    pose proof (queue_Get_spec (g_queue s)) as Hq. rewrite Hg in Hq. destruct Hq as [_ Hq]. congruence.
  - apply Hnf. eexists. by apply stop_returns.
Qed.

Definition draining (s : goroutines) : Prop := invariant s ∧ (g_stop s = Draining ∨ g_stop s = Returned).
Lemma draining_any s s' : draining s → step s s' → draining s'.
Proof using All.
  intros [HI Hd] Hstep. split; [by eapply invariant_any|].
  destruct Hstep as [Hstep|Hstep]; destruct Hstep; simpl; intuition congruence.
Qed.
Lemma draining_env s s' : draining s → env_step s s' → work s' ≤ work s.
Proof using All.
  intros [[_ _ _ Hsp _] Hd] Hstep. unfold work. destruct Hstep as [k s|c s|s|s Hs]; simpl.
  - destruct (queue_Add_spec k (g_queue s)) as (-> & _).
    assert (queue_shuttingDown (g_queue s) = true) as -> by (destruct Hd as [Hd|Hd]; rewrite Hd in Hsp; intuition). lia.
  - lia.
  - assert (g_cancelled s = true) as -> by (destruct Hd as [Hd|Hd]; rewrite Hd in Hsp; intuition). lia.
  - intuition congruence.
Qed.

Lemma synced_before s : reachable s → syncing s ≠ [] → ∀ c, c ∈ syncFuncs → c ∈ g_synced s.
Proof using All.
  intros HI%invariant_reachable Hk. pose proof (inv_start s HI) as Hst. unfold syncing in Hk.
  destruct (g_start s); [by rewrite Hst in Hk|by destruct Hst|by rewrite exited_not_syncing in Hk].
Qed.

(** ** The theorems *)

(** C20: whatever the interleaving, a key is never in two syncs at a time, there
    are no more syncs than workers, and no sync starts before every cache that
    the controller waits for has synced. *)
Theorem syncs_exclusive s :
  reachable s →
  NoDup (syncing s) ∧ length (syncing s) ≤ numWorkers ∧
  (syncing s ≠ [] → ∀ c, c ∈ syncFuncs → c ∈ g_synced s).
Proof using All.
  intros HR. pose proof (synced_before s HR) as Hsynced.
  apply invariant_reachable in HR as [Hp Hnd Hst _ _]. split; [done|]. split; [|done].
  assert (Hlen : length (syncing s) ≤ length (g_workers s)).
  { unfold syncing. generalize (g_workers s) as l. intros l. induction l as [|w l IH]; [simpl; lia|].
    destruct w; try (etransitivity; [exact IH|simpl; lia]). simpl. by apply le_n_S. }
  destruct (g_start s).
  - unfold syncing. rewrite Hst. simpl. lia.
  - by destruct Hst as [<- ?].
  - assert (syncing s = []) as -> by (by apply exited_not_syncing). simpl. lia.
Qed.

(** C21: a controller never rests while there is something to do: on its own it
    takes finitely many steps, and it stops, unless it was told to end, only
    when some cache it waits for has not synced, or with no sync under way and no
    key waiting. *)
Theorem rests_idle s :
  reachable s →
  sn own_step s ∧
  (nf own_step s → g_cancelled s = false →
   (∃ c, c ∈ syncFuncs ∧ c ∉ g_synced s) ∨
   syncing s = [] ∧ (numWorkers = 0 ∨ queue_waiting (g_queue s) = ∅)).
Proof using All.
  intros HI%invariant_reachable. split.
  { apply (own_sn own_step env_step invariant work); [apply invariant_any|apply work_own|done]. }
  intros Hnf Hc. destruct (inv_running s HI Hc) as [Hne Hcl].
  assert (Hpoll : ∀ w, w ∈ g_workers s → w = Polling ∧ queue_Get (g_queue s) = None).
  { intros w Hw. destruct (worker_at_rest s w HI Hnf Hw) as [->|?]; [by destruct (Hne Hw)|done]. }
  assert (Hsync : syncing s = []).
  { unfold syncing. assert (Hall : Forall (λ w, w = Polling) (g_workers s)) by (apply Forall_forall; naive_solver).
    clear -Hall. induction Hall as [|w l -> _ IH]; [done|exact IH]. }
  pose proof (inv_start s HI) as Hst. destruct (g_start s) eqn:Hs.
  - destruct (decide (Forall (λ c, c ∈ g_synced s) syncFuncs)) as [Hall|Hsome].
    + exfalso. apply Hnf. eexists. apply caches_synced; [done|]. by apply Forall_forall.
    + left. apply not_Forall_Exists, Exists_exists in Hsome; [|solve_decision]. naive_solver.
  - right. split; [done|]. destruct (g_workers s) as [|w l] eqn:Hl; [left; by destruct Hst|]. right.
    destruct (Hpoll w) as [_ Hg]; [by left|]. pose proof (queue_Get_spec (g_queue s)) as Hq. rewrite Hg in Hq.
    destruct Hq as [Hq _]. rewrite (inv_processing s HI), Hsync in Hq. set_solver.
  - right. split; [done|]. left. by apply Hcl.
Qed.

(** C19: [Stop] returns: once it has shut the queue down, what the goroutines do
    until then is bounded, whoever adds keys meanwhile, and nothing but its return
    can bring them to rest. *)
Theorem Stop_returns s :
  reachable s → g_stop s = Draining →
  (∀ n s', run own_step env_step n s s' → n ≤ work s) ∧
  (∀ s', rtc step s s' → nf own_step s' → g_stop s' = Returned).
Proof using All.
  intros HI%invariant_reachable Hst. assert (Hd : draining s) by (split; [done|by left]). split.
  - intros n s' Hrun. eapply (run_bound own_step env_step draining work); [apply draining_any| |apply draining_env|exact Hd|exact Hrun].
    intros ? ? [? _]. by apply work_own.
  - intros s' Hsteps Hnf. assert (Hd' : draining s').
    { eapply (rtc_invariant own_step env_step); [apply draining_any|exact Hsteps|done]. }
    destruct Hd' as [HI' [Hst'|?]]; [|done]. exfalso. eapply draining_progress; eauto.
Qed.

(** And it is final: after [Stop] has returned no sync runs, and none will. *)
Theorem Stop_is_final s s' :
  reachable s → g_stop s = Returned → rtc step s s' →
  g_stop s' = Returned ∧ syncing s' = [] ∧ Forall (λ w, w = Exited) (g_workers s').
Proof using All.
  intros HI%invariant_reachable Hst Hsteps.
  assert (invariant s' ∧ g_stop s' = Returned) as [HI' Hst'].
  { eapply (rtc_invariant own_step env_step (λ s, invariant s ∧ g_stop s = Returned)); [|exact Hsteps|done].
    intros t t' [H Ht] Hstep. split; [by eapply invariant_any|].
    destruct Hstep as [Hstep|Hstep]; destruct Hstep; simpl in *; congruence. }
  pose proof (inv_stop s' HI') as Hsp. rewrite Hst' in Hsp. destruct Hsp as (_ & _ & Hcl).
  pose proof (inv_start s' HI') as Hex. rewrite Hcl in Hex. split_and!; [done| |done].
  by apply exited_not_syncing.
Qed.
End goroutines.

(** ** What each kind of controller waits for *)

Section controllers.
Context {RT : GoRuntime} {API : Apimachinery} {CL : Cluster} {NL : NetLib} {HL : HttpLib World}.
Context {WQ : WorkQueue} {WL : WorkQueueLaws}.

Definition informers_synced (informers : InformerMap) : list cache :=
  (λ '(_, informer), InformerCache (ri_informer informer)) <$> SyncMap_Range informers.
Definition composite_syncFuncs (pc : compositeRuntime) : list cache :=
  [DynClient; InformerCache (ri_informer (cr_parentInformer pc))] ++ informers_synced (cr_childInformers pc).
Definition decorator_syncFuncs (c : decoratorRuntime) : list cache :=
  informers_synced (dr_parentInformers c) ++ informers_synced (dr_childInformers c).

Lemma informers_synced_spec informers c :
  c ∈ informers_synced informers ↔ ∃ ri, ri ∈ owned informers ∧ c = InformerCache (ri_informer ri).
Proof.
  assert (Hperm : SyncMap_Range informers ≡ₚ map_to_list informers) by apply range_perm.
  unfold informers_synced, owned. rewrite Hperm. setoid_rewrite list_elem_of_fmap. split.
  - intros ([key ri] & -> & Hri). exists ri. split; [by exists (key, ri)|done].
  - intros (ri & ([key r] & -> & Hri) & ->). exists (key, r). done.
Qed.

(** A sync of a composite controller runs only when the dynamic client has
    discovered the server's resources and the caches of the parent and of all of
    the children have synced. *)
Theorem composite_sync_caches numWorkers (pc : compositeRuntime) s :
  reachable numWorkers (composite_syncFuncs pc) s → syncing s ≠ [] →
  DynClient ∈ g_synced s ∧
  (∀ ri, ri ∈ cr_parentInformer pc :: owned (cr_childInformers pc) → InformerCache (ri_informer ri) ∈ g_synced s).
Proof using All.
  intros HI Hk. pose proof (synced_before _ _ _ HI Hk) as Hc.
  split; [apply Hc; by left|]. intros ri [->|Hri]%elem_of_cons; apply Hc; [right; by left|].
  do 2 right. apply informers_synced_spec. by exists ri.
Qed.

(** One cache syncs after the other. *)
Lemma sync_all own s (cs : list cache) :
  ∃ s', rtc (any own env_step) s s' ∧ (∀ c, c ∈ g_synced s' ↔ c ∈ cs ∨ c ∈ g_synced s) ∧
        g_cancelled s' = g_cancelled s ∧ g_queue s' = g_queue s ∧ g_start s' = g_start s.
Proof.
  clear WL. induction cs as [|c cs (s' & Hsteps & Hin & Hc & Hq & Hs)].
  - exists s. split_and!; [constructor|set_solver|done..].
  - eexists. split; [eapply rtc_r; [exact Hsteps|right; by apply (env_syncs c)]|]. simpl. set_solver.
Qed.

(** A key added to the queue of a controller that just started can be in a sync
    as soon as the caches it waits for have synced. *)
Lemma first_sync numWorkers syncFuncs s k :
  started s → g_cancelled s = false →
  ∃ s', rtc (any (own_step (S numWorkers) syncFuncs) env_step) s s' ∧ k ∈ syncing s' ∧
        ∀ c, c ∈ g_synced s' ↔ c ∈ syncFuncs ∨ c ∈ g_synced s.
Proof using WL.
  intros [(Hw & Hp & Hsh) (Hs & _)] Hc.
  destruct (queue_Add_spec k (g_queue s)) as (Ew & Ep & Esh). rewrite Hsh, Hw in Ew. rewrite Hp in Ep.
  destruct (sync_all (own_step (S numWorkers) syncFuncs) (set_queue (queue_Add k (g_queue s)) s) syncFuncs)
    as (s1 & Hsteps & Hin & Hc1 & Hq1 & Hs1). simpl in *.
  destruct (queue_Get (queue_Add k (g_queue s))) as [[[k'|] q']|] eqn:Hget;
    pose proof (queue_Get_spec (queue_Add k (g_queue s))) as Hspec; rewrite Hget, ?Ew, ?Ep in Hspec; [|set_solver..].
  assert (k' = k) as -> by set_solver.
  eexists. split.
  { eapply rtc_l; [right; apply (env_adds k)|]. etransitivity; [exact Hsteps|].
    eapply rtc_l; [left; apply caches_synced; [congruence|]; intros c Hcs; apply Hin; by left|].
    eapply rtc_l; [left; apply (worker_steps _ _ _ [] Resting (replicate numWorkers Resting)); [done|]; simpl; apply worker_called; congruence|].
    eapply rtc_l; [left; apply (worker_steps _ _ _ [] Polling (replicate numWorkers Resting)); [done|]; simpl;
      apply worker_gets; rewrite Hq1; exact Hget|]. apply rtc_refl. }
  simpl. split; [unfold syncing; simpl; by left|exact Hin].
Qed.

(** C40: but it may run before the cache of the ControllerRevisions has synced:
    the controller does not wait for it, so its lister may not know the
    revisions of the parent. *)
Theorem composite_sync_before_revisions numWorkers (pc : compositeRuntime) s k :
  started s → g_cancelled s = false → RevisionCache ∉ g_synced s →
  ∃ s', rtc (any (own_step (S numWorkers) (composite_syncFuncs pc)) env_step) s s' ∧
        k ∈ syncing s' ∧ RevisionCache ∉ g_synced s'.
Proof using All.
  intros Hs Hc Hrev. destruct (first_sync numWorkers (composite_syncFuncs pc) s k Hs Hc) as (s' & Hsteps & Hk & Hin).
  exists s'. split_and!; [done..|]. rewrite Hin. intros [H|H]; [|done].
  apply elem_of_cons in H as [H|[H|H]%elem_of_cons]; [done..|].
  by apply informers_synced_spec in H as (ri & _ & H).
Qed.

(** A decorator controller does not wait for the discovery: its syncs may run
    before a discovery has succeeded, and then fail for every kind they look up. *)
Theorem decorator_sync_before_discovery numWorkers (c : decoratorRuntime) s k :
  started s → g_cancelled s = false → DynClient ∉ g_synced s →
  ∃ s', rtc (any (own_step (S numWorkers) (decorator_syncFuncs c)) env_step) s s' ∧
        k ∈ syncing s' ∧ DynClient ∉ g_synced s'.
Proof using All.
  intros Hs Hc Hdyn. destruct (first_sync numWorkers (decorator_syncFuncs c) s k Hs Hc) as (s' & Hsteps & Hk & Hin).
  exists s'. split_and!; [done..|]. rewrite Hin. intros [[H|H]%elem_of_app|H]; [..|done];
    by apply informers_synced_spec in H as (ri & _ & H).
Qed.
End controllers.

(** ** A concrete queue and a run *)

(** Its [Get] takes any key that waits and is not processed. *)
Record setQueue := { sq_waiting : gset string; sq_processing : gset string; sq_shuttingDown : bool }.
Definition sq_new : setQueue := {| sq_waiting := ∅; sq_processing := ∅; sq_shuttingDown := false |}.

Section examples.
#[local] Instance setWorkQueue : WorkQueue := {|
  Queue := setQueue;
  queue_Add k q := if sq_shuttingDown q then q else
    {| sq_waiting := {[k]} ∪ sq_waiting q; sq_processing := sq_processing q; sq_shuttingDown := false |};
  queue_Get q :=
    match elements (sq_waiting q ∖ sq_processing q) with
    | k :: _ => Some (Some k, {| sq_waiting := sq_waiting q ∖ {[k]}; sq_processing := {[k]} ∪ sq_processing q;
                                 sq_shuttingDown := sq_shuttingDown q |})
    | [] => if sq_shuttingDown q then Some (None, q) else None
    end;
  queue_Done k q := {| sq_waiting := sq_waiting q; sq_processing := sq_processing q ∖ {[k]}; sq_shuttingDown := sq_shuttingDown q |};
  queue_ShutDown q := {| sq_waiting := sq_waiting q; sq_processing := sq_processing q; sq_shuttingDown := true |};
  queue_waiting := sq_waiting;
  queue_processing := sq_processing;
  queue_shuttingDown := sq_shuttingDown;
|}.
#[local] Instance setWorkQueue_laws : WorkQueueLaws.
Proof.
  split; simpl.
  - intros k q. by destruct (sq_shuttingDown q) eqn:?.
  - intros q. destruct (elements (sq_waiting q ∖ sq_processing q)) as [|k l] eqn:E.
    + apply elements_empty_iff in E. destruct (sq_shuttingDown q) eqn:?; [split_and!|split]; set_solver.
    + assert (Hk : k ∈ sq_waiting q ∖ sq_processing q) by (apply elem_of_elements; rewrite E; by left).
      split_and!; set_solver.
  - done.
  - done.
Qed.

Definition just_started : goroutines := {|
  g_cancelled := false; g_queue := sq_new; g_synced := []; g_start := WaitingForCaches; g_workers := []; g_stop := NotStopped |}.
Lemma just_started_ok : started just_started.
Proof. by split. Qed.
Definition stopping : goroutines :=
  set_stop true (queue_ShutDown sq_new) Draining (set_stop true sq_new Cancelled just_started).
Lemma stopping_reachable n syncFuncs : reachable n syncFuncs stopping.
Proof.
  exists just_started. split; [apply just_started_ok|].
  eapply rtc_l; [right; by apply env_stops|]. eapply rtc_l; [left; by apply stop_shuts_down|]. apply rtc_refl.
Qed.
Definition stopped : goroutines := set_stop true (g_queue stopping) Returned (set_start Closed [] stopping).
Lemma stopped_reachable n syncFuncs : reachable n syncFuncs stopped.
Proof.
  destruct (stopping_reachable n syncFuncs) as (s0 & H0 & Hsteps). exists s0. split; [done|].
  etransitivity; [exact Hsteps|].
  eapply rtc_l; [left; by apply caches_given_up|]. eapply rtc_l; [left; by apply stop_returns|]. apply rtc_refl.
Qed.

Lemma syncs_exclusive_witness :
  ∃ s, reachable 2 [DynClient] s ∧ "ns/a" ∈ syncing s ∧ length (syncing s) ≤ 2 ∧ DynClient ∈ g_synced s.
Proof.
  destruct (first_sync 1 [DynClient] just_started "ns/a" just_started_ok eq_refl) as (s & Hsteps & Hk & _).
  assert (HR : reachable 2 [DynClient] s) by (exists just_started; split; [apply just_started_ok|done]).
  destruct (syncs_exclusive 2 [DynClient] s HR) as (_ & Hlen & Hc).
  exists s. split_and!; [done..|]. apply Hc; [|by left]. intros E. rewrite E in Hk. by apply not_elem_of_nil in Hk.
Defined.

Lemma rests_idle_witness :
  sn (own_step 2 [DynClient]) just_started ∧ DynClient ∉ g_synced just_started ∧
  (nf (own_step 2 [DynClient]) just_started → g_cancelled just_started = false →
   (∃ c, c ∈ [DynClient] ∧ c ∉ g_synced just_started) ∨
   syncing just_started = [] ∧ (2 = 0 ∨ queue_waiting (g_queue just_started) = ∅)).
Proof.
  assert (HR : reachable 2 [DynClient] just_started) by (exists just_started; split; [apply just_started_ok|apply rtc_refl]).
  destruct (rests_idle 2 [DynClient] just_started HR) as [Hsn Hnf].
  split; [exact Hsn|]. split; [apply not_elem_of_nil|exact Hnf].
Defined.

Lemma Stop_returns_witness :
  g_stop stopping = Draining ∧
  (∀ n s', run (own_step 2 [DynClient]) env_step n stopping s' → n ≤ 9) ∧
  (∀ s', rtc (any (own_step 2 [DynClient]) env_step) stopping s' → nf (own_step 2 [DynClient]) s' → g_stop s' = Returned).
Proof.
  split; [done|]. exact (Stop_returns 2 [DynClient] stopping (stopping_reachable 2 [DynClient]) eq_refl).
Defined.

Lemma Stop_is_final_witness :
  let late := set_queue (queue_Add "ns/a" (g_queue stopped)) stopped in
  g_stop late = Returned ∧ syncing late = [] ∧ Forall (λ w, w = Exited) (g_workers late).
Proof.
  intros late. apply (Stop_is_final 2 [DynClient] stopped late (stopped_reachable 2 [DynClient]) eq_refl).
  eapply rtc_l; [right; apply (env_adds "ns/a")|]. apply rtc_refl.
Defined.

#[local] Existing Instance treeAPI.
#[local] Existing Instance listRuntime.
#[local] Existing Instance fakeCluster.
#[local] Existing Instance no_net.
#[local] Existing Instance no_http.

Lemma demo_controller_runs : ∃ pc h, newParentController demo_env running_cc (p_host demo_process) = (Ok pc, h).
Proof.
  assert (Hrun : is_Ok (newParentController demo_env running_cc (p_host demo_process)).1 = true) by (vm_compute; reflexivity).
  destruct (newParentController demo_env running_cc (p_host demo_process)) as [[pc|e|p] h]; [by exists pc, h|discriminate..].
Qed.

Lemma composite_sync_caches_witness :
  ∃ pc h s, newParentController demo_env running_cc (p_host demo_process) = (Ok pc, h) ∧
    "demo/a" ∈ syncing s ∧ InformerCache (ri_informer (cr_parentInformer pc)) ∈ g_synced s.
Proof.
  destruct demo_controller_runs as (pc & h & Hpc).
  destruct (first_sync 1 (composite_syncFuncs pc) just_started "demo/a" just_started_ok eq_refl) as (s & Hsteps & Hk & _).
  assert (HR : reachable 2 (composite_syncFuncs pc) s) by (exists just_started; split; [apply just_started_ok|done]).
  assert (Hne : syncing s ≠ []) by (intros E; rewrite E in Hk; by apply not_elem_of_nil in Hk).
  exists pc, h, s. split_and!; [done..|]. apply (composite_sync_caches 2 pc s HR Hne). by left.
Defined.

Lemma composite_sync_before_revisions_witness :
  ∃ pc h s, newParentController demo_env running_cc (p_host demo_process) = (Ok pc, h) ∧
    "demo/a" ∈ syncing s ∧ RevisionCache ∉ g_synced s.
Proof.
  destruct demo_controller_runs as (pc & h & Hpc).
  destruct (composite_sync_before_revisions 1 pc just_started "demo/a" just_started_ok eq_refl
    ltac:(apply not_elem_of_nil)) as (s & _ & Hk & Hrev).
  by exists pc, h, s.
Defined.
End examples.
