(* ===== verification/GeneratedClients.v ===== *)
(** * The generated clients: [pkg/client/generated]

    The clientset of the metacontroller types with its rate limiter
    ([clientset.go], [metacontroller_client.go]), and the factory that shares one
    informer of each type ([factory.go], [generic.go]); what it serves is the
    informer of the ControllerRevisions.  Informers, HTTP clients and rate
    limiters are client-go's. *)
From S2P Require Import Prelude K8s.
From stdpp Require Import options.

(** ** The clientset *)

(** [rest.Config], as far as it is looked at; QPS is a 32-bit float, of which only
    the sign matters here. *)
Class RestLib := {
  float32 : Type;
  positive32 : float32 → bool;
  RateLimiter : Type;
  NegotiatedSerializer : Type;
  rest_Extra : Type;
  http_ClientOf : Type;
  RESTClient : Type;
  DefaultKubernetesUserAgent : string;
  (** [rest.CodecFactoryForGeneratedClient(scheme.Scheme, scheme.Codecs).WithoutConversion()] *)
  generated_serializer : NegotiatedSerializer;
  NewTokenBucketRateLimiter : float32 → Z → RateLimiter;
}.

Section clientset.
Context {RL : RestLib}.

Record rest_Config := {
  rest_QPS : float32;
  rest_Burst : Z;
  rest_RateLimiter : option RateLimiter;
  rest_UserAgent : string;
  rest_GroupVersion : option (string * string);
  rest_APIPath : string;
  rest_NegotiatedSerializer : option NegotiatedSerializer;
  rest_extra : rest_Extra;
}.
Definition set_UserAgent (agent : string) (c : rest_Config) : rest_Config := {|
  rest_QPS := rest_QPS c; rest_Burst := rest_Burst c; rest_RateLimiter := rest_RateLimiter c; rest_UserAgent := agent;
  rest_GroupVersion := rest_GroupVersion c; rest_APIPath := rest_APIPath c;
  rest_NegotiatedSerializer := rest_NegotiatedSerializer c; rest_extra := rest_extra c |}.
Definition set_RateLimiter (limiter : RateLimiter) (c : rest_Config) : rest_Config := {|
  rest_QPS := rest_QPS c; rest_Burst := rest_Burst c; rest_RateLimiter := Some limiter; rest_UserAgent := rest_UserAgent c;
  rest_GroupVersion := rest_GroupVersion c; rest_APIPath := rest_APIPath c;
  rest_NegotiatedSerializer := rest_NegotiatedSerializer c; rest_extra := rest_extra c |}.

(** What makes clients of a configuration. *)
Class RestClients := {
  rest_HTTPClientFor : rest_Config → res http_ClientOf;
  RESTClientForConfigAndClient : rest_Config → http_ClientOf → res RESTClient;
  NewDiscoveryClientForConfigAndClient : rest_Config → http_ClientOf → res RESTClient;
}.
Context {RC : RestClients}.

Definition SchemeGroupVersion : string * string := ("metacontroller.k8s.io", "v1alpha1").

Definition setConfigDefaults (config : rest_Config) : rest_Config :=
  let config := {|
    rest_QPS := rest_QPS config; rest_Burst := rest_Burst config; rest_RateLimiter := rest_RateLimiter config;
    rest_UserAgent := rest_UserAgent config; rest_GroupVersion := Some SchemeGroupVersion; rest_APIPath := "/apis";
    rest_NegotiatedSerializer := Some generated_serializer; rest_extra := rest_extra config |} in
  if rest_UserAgent config == "" then set_UserAgent DefaultKubernetesUserAgent config else config.

(** [NewForConfigAndClient] of [metacontroller_client.go] *)
Definition typed_NewForConfigAndClient (c : rest_Config) (h : http_ClientOf) : res RESTClient :=
  RESTClientForConfigAndClient (setConfigDefaults c) h.

Record mcClientset := { mc_DiscoveryClient : RESTClient; mc_metacontrollerV1alpha1 : RESTClient }.

Definition burst_required : error :=
  ErrorString "burst is required to be greater than 0 when RateLimiter is not set and QPS is set to greater than 0".

(** The configuration is copied: the limiter is not seen by the caller. *)
Definition NewForConfigAndClient (c : rest_Config) (httpClient : http_ClientOf) : res mcClientset :=
  c ← (match rest_RateLimiter c with
       | None =>
         if positive32 (rest_QPS c) then
           if (rest_Burst c <=? 0)%Z then Err burst_required
           else Ok (set_RateLimiter (NewTokenBucketRateLimiter (rest_QPS c) (rest_Burst c)) c)
         else Ok c
       | Some _ => Ok c
       end);
  metacontrollerV1alpha1 ← typed_NewForConfigAndClient c httpClient;
  discoveryClient ← NewDiscoveryClientForConfigAndClient c httpClient;
  mret {| mc_DiscoveryClient := discoveryClient; mc_metacontrollerV1alpha1 := metacontrollerV1alpha1 |}.

Definition NewForConfig (c : rest_Config) : res mcClientset :=
  let c := if rest_UserAgent c == "" then set_UserAgent DefaultKubernetesUserAgent c else c in
  httpClient ← rest_HTTPClientFor c;
  NewForConfigAndClient c httpClient.

(** The clients of one clientset share what limits their rate; a configuration
    that asks for a rate without a burst is refused, whatever else it says. *)
Lemma NewForConfig_burst c httpClient :
  rest_HTTPClientFor (if rest_UserAgent c == "" then set_UserAgent DefaultKubernetesUserAgent c else c) = Ok httpClient →
  rest_RateLimiter c = None → positive32 (rest_QPS c) = true → (rest_Burst c ≤ 0)%Z →
  NewForConfig c = Err burst_required.
Proof.
  intros Hh Hl Hq Hb. unfold NewForConfig. rewrite Hh. simpl. unfold NewForConfigAndClient.
  assert (E : ∀ c', c' = (if rest_UserAgent c == "" then set_UserAgent DefaultKubernetesUserAgent c else c) →
    rest_RateLimiter c' = None ∧ rest_QPS c' = rest_QPS c ∧ rest_Burst c' = rest_Burst c)
    by (intros c' ->; by destruct (rest_UserAgent c == "")).
  destruct (E _ eq_refl) as (-> & -> & ->). rewrite Hq, (proj2 (Z.leb_le _ _) Hb). done.
Qed.
End clientset.

(** ** The informer factory *)

(** [cache.NewSharedIndexInformerWithOptions] for the ControllerRevisions of a
    namespace, and what else the factory asks of an informer. *)
Class InformerLib (Client : Type) := {
  SharedIndexInformer : Type;
  InformerName : Type;
  TransformFunc : Type;
  TweakListOptionsFunc : Type;
  NewRevisionInformer : Client → string → option TweakListOptionsFunc → Z → option InformerName → SharedIndexInformer;
  SetTransform : TransformFunc → SharedIndexInformer → SharedIndexInformer;
}.

Section factory.
Context {RT : GoRuntime} {Client : Type} {IL : InformerLib Client}.

(** Informers by their type; [sf_running] are the goroutines of [wg], by the type
    of the informer that each runs. *)
Record sharedInformerFactory := {
  sf_client : Client;
  sf_namespace : string;
  sf_tweakListOptions : option TweakListOptionsFunc;
  sf_defaultResync : Z;
  sf_customResync : gmap string Z;
  sf_transform : option TransformFunc;
  sf_informerName : option InformerName;
  sf_informers : gmap string SharedIndexInformer;
  sf_startedInformers : gmap string bool;
  sf_running : list string;
  sf_shuttingDown : bool;
}.
Definition SharedInformerOption : Type := sharedInformerFactory → sharedInformerFactory.

Definition set_options (namespace : string) (tweak : option TweakListOptionsFunc) (custom : gmap string Z)
    (transform : option TransformFunc) (name : option InformerName) (f : sharedInformerFactory) : sharedInformerFactory := {|
  sf_client := sf_client f; sf_namespace := namespace; sf_tweakListOptions := tweak; sf_defaultResync := sf_defaultResync f;
  sf_customResync := custom; sf_transform := transform; sf_informerName := name; sf_informers := sf_informers f;
  sf_startedInformers := sf_startedInformers f; sf_running := sf_running f; sf_shuttingDown := sf_shuttingDown f |}.
Definition set_informers (informers : gmap string SharedIndexInformer) (started : gmap string bool) (running : list string)
    (shuttingDown : bool) (f : sharedInformerFactory) : sharedInformerFactory := {|
  sf_client := sf_client f; sf_namespace := sf_namespace f; sf_tweakListOptions := sf_tweakListOptions f;
  sf_defaultResync := sf_defaultResync f; sf_customResync := sf_customResync f; sf_transform := sf_transform f;
  sf_informerName := sf_informerName f; sf_informers := informers; sf_startedInformers := started; sf_running := running;
  sf_shuttingDown := shuttingDown |}.

(** The objects that stand for types are given by their types. *)
Definition WithCustomResyncConfig (resyncConfig : gmap string Z) : SharedInformerOption := λ f,
  set_options (sf_namespace f) (sf_tweakListOptions f)
    (foldl (λ custom '(k, v), <[k := v]> custom) (sf_customResync f) (range resyncConfig)) (sf_transform f) (sf_informerName f) f.
Definition WithTweakListOptions (tweak : TweakListOptionsFunc) : SharedInformerOption := λ f,
  set_options (sf_namespace f) (Some tweak) (sf_customResync f) (sf_transform f) (sf_informerName f) f.
Definition WithNamespace (namespace : string) : SharedInformerOption := λ f,
  set_options namespace (sf_tweakListOptions f) (sf_customResync f) (sf_transform f) (sf_informerName f) f.
Definition WithTransform (transform : TransformFunc) : SharedInformerOption := λ f,
  set_options (sf_namespace f) (sf_tweakListOptions f) (sf_customResync f) (Some transform) (sf_informerName f) f.
Definition WithInformerName (name : InformerName) : SharedInformerOption := λ f,
  set_options (sf_namespace f) (sf_tweakListOptions f) (sf_customResync f) (sf_transform f) (Some name) f.

Definition NewSharedInformerFactoryWithOptions (client : Client) (defaultResync : Z) (options : list SharedInformerOption)
    : sharedInformerFactory :=
  foldl (λ factory opt, opt factory) {|
    sf_client := client; sf_namespace := ""; sf_tweakListOptions := None; sf_defaultResync := defaultResync; sf_customResync := ∅;
    sf_transform := None; sf_informerName := None; sf_informers := ∅; sf_startedInformers := ∅; sf_running := [];
    sf_shuttingDown := false |} options.
Definition mc_NewSharedInformerFactory (client : Client) (defaultResync : Z) : sharedInformerFactory :=
  NewSharedInformerFactoryWithOptions client defaultResync [].
Definition NewFilteredSharedInformerFactory (client : Client) (defaultResync : Z) (namespace : string)
    (tweak : TweakListOptionsFunc) : sharedInformerFactory :=
  NewSharedInformerFactoryWithOptions client defaultResync [WithNamespace namespace; WithTweakListOptions tweak].

(** One turn of the loop of [Start]. *)
Definition start_informer (f : sharedInformerFactory) (informerType : string) : sharedInformerFactory :=
  if default false (sf_startedInformers f !! informerType) then f
  else set_informers (sf_informers f) (<[informerType := true]> (sf_startedInformers f)) (informerType :: sf_running f)
         (sf_shuttingDown f) f.
Definition StartWithContext (f : sharedInformerFactory) : sharedInformerFactory :=
  if sf_shuttingDown f then f
  else foldl (λ f '(informerType, _), start_informer f informerType) f (range (sf_informers f)).

(** [Shutdown] marks the factory; then it waits until no goroutine is left and
    releases the name of the informers. *)
Definition Shutdown_marks (f : sharedInformerFactory) : sharedInformerFactory :=
  set_informers (sf_informers f) (sf_startedInformers f) (sf_running f) true f.

Definition InformerFor (informerType : string) (newFunc : Client → Z → SharedIndexInformer) (f : sharedInformerFactory)
    : SharedIndexInformer * sharedInformerFactory :=
  match sf_informers f !! informerType with
  | Some informer => (informer, f)
  | None =>
    let resyncPeriod := default (sf_defaultResync f) (sf_customResync f !! informerType) in
    let informer := newFunc (sf_client f) resyncPeriod in
    let informer := match sf_transform f with Some transform => SetTransform transform informer | None => informer end in
    (informer, set_informers (<[informerType := informer]> (sf_informers f)) (sf_startedInformers f) (sf_running f)
                 (sf_shuttingDown f) f)
  end.

(** The informers that were started, whether each has synced, and the error of
    the context when one has not. *)
Definition WaitForCacheSyncWithContext (HasSynced : SharedIndexInformer → bool) (ctx_Cause : error) (f : sharedInformerFactory)
    : gmap string bool * option error :=
  let informers := filter (λ p, default false (sf_startedInformers f !! p.1) = true) (range (sf_informers f)) in
  (foldl (λ synced '(informerType, informer), <[informerType := HasSynced informer]> synced) ∅ informers,
   if existsb (λ '(_, informer), negb (HasSynced informer)) informers then Some ctx_Cause else None).

(** [Metacontroller().V1alpha1().ControllerRevisions().Informer()] *)
Definition revision_type : string := "*v1alpha1.ControllerRevision".
Definition controllerRevision_Informer (f : sharedInformerFactory) : SharedIndexInformer * sharedInformerFactory :=
  InformerFor revision_type (λ client resyncPeriod,
    NewRevisionInformer client (sf_namespace f) (sf_tweakListOptions f) resyncPeriod (sf_informerName f)) f.
Definition ForResource (resource : GroupVersionResource) (f : sharedInformerFactory)
    : res SharedIndexInformer * sharedInformerFactory :=
  if decide (resource = gv_WithResource {| gv_Group := SchemeGroupVersion.1; gv_Version := SchemeGroupVersion.2 |} "controllerrevisions")
  then let '(informer, f) := controllerRevision_Informer f in (Ok informer, f)
  else (Err (ErrorString ("no informer found for " +:+ gvr_Group resource +:+ "/" +:+ gvr_Version resource +:+
                          ", Resource=" +:+ gvr_Resource resource)), f).

(** ** What a factory goes through *)
Inductive factory_step : sharedInformerFactory → sharedInformerFactory → Prop :=
  | step_requests informerType newFunc f : factory_step f (InformerFor informerType newFunc f).2
  | step_starts f : factory_step f (StartWithContext f)
  | step_shuts_down f : factory_step f (Shutdown_marks f)
  | step_ends f l1 informerType l2 :
    sf_running f = l1 ++ informerType :: l2 →
    factory_step f (set_informers (sf_informers f) (sf_startedInformers f) (l1 ++ l2) (sf_shuttingDown f) f).

(** What is running was started, once, and exists. *)
Record factory_invariant (f : sharedInformerFactory) : Prop := {
  fi_once : NoDup (sf_running f);
  fi_running t : t ∈ sf_running f → sf_startedInformers f !! t = Some true;
  fi_started t : sf_startedInformers f !! t = Some true → is_Some (sf_informers f !! t);
}.

Lemma start_informer_spec f t :
  factory_invariant f → is_Some (sf_informers f !! t) →
  factory_invariant (start_informer f t) ∧ sf_informers (start_informer f t) = sf_informers f ∧
  sf_startedInformers (start_informer f t) !! t = Some true ∧
  (∀ t', sf_startedInformers f !! t' = Some true → sf_startedInformers (start_informer f t) !! t' = Some true) ∧
  (sf_startedInformers f !! t = Some true → start_informer f t = f).
Proof.
  intros [Hnd Hrun Hst] Ht. unfold start_informer.
  destruct (default false (sf_startedInformers f !! t)) eqn:E.
  - assert (sf_startedInformers f !! t = Some true) by (destruct (sf_startedInformers f !! t) as [[]|]; done). by split_and!.
  - split_and!; [|done|by simpl; rewrite lookup_insert_eq| |intros E'; by rewrite E' in E].
    + split; simpl.
      * apply NoDup_cons. split; [|done]. intros H. by rewrite (Hrun t H) in E.
      * intros t' [->|H]%elem_of_cons; [by rewrite lookup_insert_eq|].
        destruct (decide (t = t')) as [->|Hne]; [by rewrite lookup_insert_eq|]. rewrite lookup_insert_ne by done. auto.
      * intros t' [[<- _]|[_ H]]%lookup_insert_Some; auto.
    + intros t' H. simpl. destruct (decide (t = t')) as [->|Hne]; [by rewrite lookup_insert_eq|]. by rewrite lookup_insert_ne.
Qed.

Lemma start_loop l f :
  factory_invariant f → (∀ p, p ∈ l → is_Some (sf_informers f !! p.1)) →
  let f' := foldl (λ f '(informerType, _), start_informer f informerType) f (l : list (string * SharedIndexInformer)) in
  factory_invariant f' ∧ sf_informers f' = sf_informers f ∧
  (∀ p, p ∈ l → sf_startedInformers f' !! p.1 = Some true) ∧
  (∀ t, sf_startedInformers f !! t = Some true → sf_startedInformers f' !! t = Some true) ∧
  ((∀ p, p ∈ l → sf_startedInformers f !! p.1 = Some true) → f' = f).
Proof.
  revert f. induction l as [|[t i] l IH]; intros f HI Hl; simpl.
  { split_and!; [done|done|set_solver|done|done]. }
  destruct (start_informer_spec f t HI (Hl (t, i) ltac:(by left))) as (HI1 & E1 & Hst & Hk & Hid).
  destruct (IH (start_informer f t) HI1) as (HI2 & E2 & Hst2 & Hk2 & Hid2).
  { intros p Hp. rewrite E1. apply Hl. by right. }
  split_and!; [done|by rewrite E2| |auto|].
  - intros p [->|Hp]%elem_of_cons; [by apply Hk2|by apply Hst2].
  - intros Hall. assert (E : start_informer f t = f) by (apply Hid, (Hall (t, i)); by left).
    rewrite E in *. apply Hid2. intros p Hp. apply Hall. by right.
Qed.

Lemma start_loop_keeps l f :
  let f' := foldl (λ f '(informerType, _), start_informer f informerType) f (l : list (string * SharedIndexInformer)) in
  sf_informers f' = sf_informers f ∧ sf_shuttingDown f' = sf_shuttingDown f.
Proof.
  revert f. induction l as [|[t i] l IH]; intros f; simpl; [done|]. destruct (IH (start_informer f t)) as [-> ->].
  unfold start_informer. by destruct (default false (sf_startedInformers f !! t)).
Qed.

Lemma range_informers f p : p ∈ range (sf_informers f) ↔ sf_informers f !! p.1 = Some p.2.
Proof. destruct p. apply elem_of_range. Qed.

Lemma factory_invariant_step f f' : factory_invariant f → factory_step f f' → factory_invariant f'.
Proof.
  intros HI Hstep. destruct Hstep as [t newFunc f|f|f|f l1 t l2 Hl].
  - unfold InformerFor. destruct (sf_informers f !! t); [done|]. destruct HI as [Hnd Hrun Hst]. split; simpl; [done..|].
    intros t' Ht'. destruct (decide (t = t')) as [->|Hne]; [by rewrite lookup_insert_eq|].
    rewrite lookup_insert_ne by done. auto.
  - unfold StartWithContext. destruct (sf_shuttingDown f); [done|]. apply start_loop; [done|].
    intros p Hp%range_informers. by eexists.
  - by destruct HI.
  - destruct HI as [Hnd Hrun Hst]. rewrite Hl in Hnd, Hrun. split; simpl; [|set_solver|done].
    apply NoDup_app in Hnd as (H1 & H2 & [H3 H4]%NoDup_cons). apply NoDup_app. set_solver.
Qed.
Lemma factory_invariant_new client defaultResync : factory_invariant (mc_NewSharedInformerFactory client defaultResync).
Proof. split; simpl; [apply NoDup_nil_2|set_solver|done]. Qed.

(** An informer that is once started stays so, and one whose goroutine has ended is
    not run again. *)
Lemma started_step f f' t :
  factory_invariant f → factory_step f f' → sf_startedInformers f !! t = Some true →
  sf_startedInformers f' !! t = Some true ∧ (t ∉ sf_running f → t ∉ sf_running f').
Proof.
  intros HI Hstep Ht. destruct Hstep as [t' newFunc f|f|f|f l1 t' l2 Hl].
  - unfold InformerFor. by destruct (sf_informers f !! t').
  - unfold StartWithContext. destruct (sf_shuttingDown f); [done|].
    assert (Hgen : ∀ l f, sf_startedInformers f !! t = Some true →
      let f' := foldl (λ f '(informerType, _), start_informer f informerType) f (l : list (string * SharedIndexInformer)) in
      sf_startedInformers f' !! t = Some true ∧ (t ∉ sf_running f → t ∉ sf_running f')).
    { clear. intros l. induction l as [|[t' i] l IH]; intros f Ht; simpl; [done|].
      assert (H : sf_startedInformers (start_informer f t') !! t = Some true ∧
                  (t ∉ sf_running f → t ∉ sf_running (start_informer f t'))).
      { unfold start_informer. destruct (default false (sf_startedInformers f !! t')) eqn:E; [done|].
        assert (t ≠ t') by (intros ->; by rewrite Ht in E). simpl. rewrite lookup_insert_ne by done. set_solver. }
      destruct (IH (start_informer f t')) as [H1 H2]; [apply H|]. split; [done|]. intros Hn. by apply H2, H. }
    by apply Hgen.
  - done.
  - rewrite Hl. simpl. set_solver.
Qed.

(** Whatever is requested, started and shut down: no informer is run twice, at a
    time or one after the other, and only informers of the factory are run. *)
Theorem informers_run_once f f' :
  factory_invariant f → rtc factory_step f f' →
  NoDup (sf_running f') ∧
  (∀ t, t ∈ sf_running f' → is_Some (sf_informers f' !! t)) ∧
  (∀ t, sf_startedInformers f !! t = Some true → t ∉ sf_running f → t ∉ sf_running f').
Proof.
  intros HI Hsteps. assert (HI' : factory_invariant f').
  { clear -HI Hsteps. induction Hsteps; [done|]. eauto using factory_invariant_step. }
  split; [apply HI'|]. split; [intros t Ht; by apply HI', HI'|].
  clear HI'. intros t Ht Hn. induction Hsteps as [f|f f1 f2 Hstep _ IH]; [done|].
  destruct (started_step f f1 t HI Hstep Ht) as [Ht1 Hn1].
  apply IH; [by eapply factory_invariant_step|done|auto].
Qed.

(** [Start] starts every informer that was requested, unless the factory shuts
    down, and starting again changes nothing. *)
Theorem StartWithContext_spec f :
  factory_invariant f →
  (sf_shuttingDown f = false → ∀ t, is_Some (sf_informers f !! t) → sf_startedInformers (StartWithContext f) !! t = Some true) ∧
  StartWithContext (StartWithContext f) = StartWithContext f.
Proof.
  intros HI. unfold StartWithContext at 1 3. destruct (sf_shuttingDown f) eqn:Hsh.
  { split; [done|]. unfold StartWithContext. by rewrite Hsh. }
  destruct (start_loop (range (sf_informers f)) f HI) as (HI1 & E1 & Hst & _ & _).
  { intros p Hp%range_informers. by eexists. }
  split; [intros _ t [i Hi]; by apply (Hst (t, i)), range_informers|].
  unfold StartWithContext. rewrite Hsh. set (f1 := foldl _ f _) in *.
  assert (Hsh1 : sf_shuttingDown f1 = false) by (subst f1; by rewrite (proj2 (start_loop_keeps _ f))).
  rewrite Hsh1. apply start_loop; [done|by intros p Hp%range_informers; eexists|].
  intros p Hp. apply Hst. by rewrite E1 in Hp.
Qed.

(** After [Shutdown] nothing is started: its wait can only get shorter. *)
Theorem Shutdown_final f f' :
  sf_shuttingDown f = true → rtc factory_step f f' →
  sf_shuttingDown f' = true ∧ sf_startedInformers f' = sf_startedInformers f ∧ sublist (sf_running f') (sf_running f).
Proof.
  intros Hsh Hsteps. induction Hsteps as [f|f f1 f2 Hstep _ IH]; [done|].
  assert (sf_shuttingDown f1 = true ∧ sf_startedInformers f1 = sf_startedInformers f ∧ sublist (sf_running f1) (sf_running f))
    as (H1 & H2 & H3).
  { destruct Hstep as [t newFunc f|f|f|f l1 t l2 Hl].
    - unfold InformerFor. by destruct (sf_informers f !! t).
    - unfold StartWithContext. by rewrite Hsh.
    - done.
    - rewrite Hl. split_and!; [done..|]. apply sublist_app; [done|]. by apply sublist_cons. }
  destruct (IH H1) as (E1 & E2 & E3). split_and!; [done|congruence|by etransitivity].
Qed.

(** There is one informer of each type: whoever asks again gets the same, and
    changes nothing. *)
Theorem InformerFor_shared f f' t newFunc newFunc' :
  rtc factory_step (InformerFor t newFunc f).2 f' → InformerFor t newFunc' f' = ((InformerFor t newFunc f).1, f').
Proof.
  intros Hsteps.
  assert (H0 : sf_informers (InformerFor t newFunc f).2 !! t = Some (InformerFor t newFunc f).1).
  { unfold InformerFor. destruct (sf_informers f !! t) eqn:E; [done|]. simpl. by rewrite lookup_insert_eq. }
  set (i := (InformerFor t newFunc f).1) in *. clearbody i.
  assert (H : sf_informers f' !! t = Some i); [|by unfold InformerFor; rewrite H].
  induction Hsteps as [f1|f1 f2 f3 Hstep _ IH]; [done|]. apply IH.
  destruct Hstep as [t' newFunc1 f1|f1|f1|f1 l1 t' l2 Hl]; [| |done..].
  - unfold InformerFor. destruct (sf_informers f1 !! t') eqn:E; [done|]. simpl.
    destruct (decide (t' = t)) as [->|Hne]; [congruence|by rewrite lookup_insert_ne].
  - unfold StartWithContext. destruct (sf_shuttingDown f1); [done|].
    by rewrite (proj1 (start_loop_keeps _ f1)).
Qed.

(** The result of a wait has an error exactly when it shows a started informer that has not synced. *)
Theorem WaitForCacheSync_error HasSynced cause f :
  let '(synced, err) := WaitForCacheSyncWithContext HasSynced cause f in
  (err = None ∨ err = Some cause) ∧
  (err = None ↔ ∀ t i, sf_informers f !! t = Some i → default false (sf_startedInformers f !! t) = true → HasSynced i = true).
Proof.
  unfold WaitForCacheSyncWithContext. set (l := filter _ _).
  assert (Hl : ∀ t i, (t, i) ∈ l ↔ default false (sf_startedInformers f !! t) = true ∧ sf_informers f !! t = Some i).
  { intros t i. subst l. by rewrite list_elem_of_filter, range_informers. }
  destruct (existsb _ l) eqn:E.
  - split; [by right|]. split; [done|]. intros Hall. apply existsb_exists in E as ([t i] & Hin & Hs).
    apply list_elem_of_In, Hl in Hin as [H1 H2]. by rewrite (Hall t i H2 H1) in Hs.
  - split; [by left|]. split; [|done]. intros _ t i Hi Hst. apply not_true_iff_false in E.
    destruct (HasSynced i) eqn:Hs; [done|]. destruct E. apply existsb_exists. exists (t, i).
    split; [apply list_elem_of_In, Hl; done|by rewrite Hs].
Qed.
End factory.
