(* ===== verification/Server.v ===== *)
(** * The server: [pkg/server/server.go], [NewControllerContext] and [Start] of
      [pkg/controller/common/common.go], and both [NewMetacontroller]s

    What happens when the process starts: the check that the API server can be
    reached, the shared state of the controllers, the two metacontrollers and
    what they watch.  Clients, managers and watches are controller-runtime's and
    client-go's.  The theorems say when the server starts and with which
    options, and what becomes of a controller whose object is relabelled. *)
From S2P Require Import Prelude Value K8s K8sInst Discovery Types World ClientSet FakeCluster ManageChildren Informer Endpoint ParentController Webhook Lifecycle GeneratedClients.
From stdpp Require Import options.

(** ** Configuration *)

(** [options.Configuration]: the options that only go to libraries are one field. *)
Record Configuration (Rest LibOptions : Type) := {
  RestConfig : Rest;
  DiscoveryInterval : Z;
  InformerRelist : Z;
  Workers : Z;
  LibraryOptions : LibOptions;
  TargetLabelSelector : string;
  conf_ApplyStrategy : string;
  SsaFieldManager : string;
}.
#[global] Arguments RestConfig {Rest LibOptions}.
#[global] Arguments DiscoveryInterval {Rest LibOptions}.
#[global] Arguments InformerRelist {Rest LibOptions}.
#[global] Arguments Workers {Rest LibOptions}.
#[global] Arguments LibraryOptions {Rest LibOptions}.
#[global] Arguments TargetLabelSelector {Rest LibOptions}.
#[global] Arguments conf_ApplyStrategy {Rest LibOptions}.
#[global] Arguments SsaFieldManager {Rest LibOptions}.

Section server.
Context {RT : GoRuntime} {API : Apimachinery} {CL : Cluster} {NL : NetLib} {HL : HttpLib World} {XX : Xxhash}.
Context {Rest LibOptions McClient Manager Broadcaster Recorder : Type} {IL : InformerLib McClient}.

(** The part of a [client.Object] that a watch looks at, and controller-runtime's
    events about objects. *)
Record client_Object := { co_Name : string; co_Labels : gmap string string }.
Inductive TypedEvent :=
  | CreateEvent (obj : client_Object)
  | UpdateEvent (ObjectOld ObjectNew : client_Object)
  | DeleteEvent (obj : client_Object).

(** What the start of the server takes from libraries. *)
Record ServerLib := {
  mcclientset_NewForConfig : Rest → res McClient;
  (** the generated client's [RESTClient().Get().AbsPath("/api").DoRaw], with a timeout *)
  DoRaw : McClient → M World unit;
  (** [select] on five seconds, or the context with its error *)
  wait : M World (option error);
  (** [discovery.NewDiscoveryClientForConfig], which [OrDie] makes a panic of;
      [dynamic.NewForConfig], whose client is the cluster of the models;
      [events.NewBroadcaster], which passes its arguments on, and its recorder *)
  NewDiscoveryClientForConfig : Rest → res unit;
  dynamic_NewForConfig : Rest → res unit;
  NewBroadcaster : Rest → LibOptions → res Broadcaster;
  NewRecorder : Broadcaster → Recorder;
  (** controller-runtime: the manager with the types of its scheme, a controller
      of a name, a watch of a kind *)
  NewManager : Rest → LibOptions → Broadcaster → res Manager;
  AddToScheme : Manager → string → res unit;
  controller_New : Manager → string → res unit;
  controller_Watch : Manager → string → res unit;
  (** [labels.Parse] *)
  labels_Parse : string → res Selector;
  (** [predicate.NewTypedPredicateFuncs], and the request that
      [TypedEnqueueRequestForObject] makes of an event *)
  NewTypedPredicateFuncs : (client_Object → bool) → TypedEvent → bool;
  EnqueueRequestForObject : TypedEvent → string;
}.
Variable lib : ServerLib.

(** ** The check of the communication *)

(** [range [6]int{}]: the error of the last attempt is returned. *)
Fixpoint attempts_left (client : McClient) (n : nat) (err : option error) : M World unit :=
  match n with
  | O => match err with None => mret () | Some e => throw e end
  | S n =>
    r ← try (DoRaw lib client);
    match r with
    | inl _ => mret ()
    | inr e =>
      done ← wait lib;
      match done with
      | Some ctxErr => throw ctxErr
      | None => attempts_left client n (Some e)
      end
    end
  end.
Definition k8sCommunicationCheck (client : McClient) : M World unit := attempts_left client 6 None.

(** ** What the controllers share *)
Record ControllerContext := {
  ctx_Resources : ResourceMap;
  ctx_DynClient : Clientset;
  ctx_DynInformers : SharedInformerFactory;
  ctx_McInformerFactory : sharedInformerFactory;
  ctx_McClient : option McClient;
  ctx_EventRecorder : Recorder;
  ctx_Broadcaster : Broadcaster;
  ctx_configuration : Configuration Rest LibOptions;
}.

(** [dynamicclientset.New] *)
Definition Clientset_New (config : Rest) (resources : ResourceMap) : res Clientset :=
  _ ← wrap_err "can't create dynamic client when creating clientset" (dynamic_NewForConfig lib config);
  mret {| cs_resources := resources |}.

Definition NewDiscoveryClientForConfigOrDie (config : Rest) : res unit :=
  match NewDiscoveryClientForConfig lib config with Err _ => Panic "panic(err)" | r => r end.

(** Nothing sets the client of the context: the metacontroller that needs it is
    given it apart. *)
Definition NewControllerContext (configuration : Configuration Rest LibOptions) (mcClient : McClient) : res ControllerContext :=
  _ ← NewDiscoveryClientForConfigOrDie (RestConfig configuration);
  let resources := NewResourceMap in
  let mcInformerFactory := mc_NewSharedInformerFactory mcClient (InformerRelist configuration) in
  dynClient ← Clientset_New (RestConfig configuration) resources;
  let dynInformers := NewSharedInformerFactory dynClient (InformerRelist configuration) in
  broadcaster ← NewBroadcaster lib (RestConfig configuration) (LibraryOptions configuration);
  mret {| ctx_Resources := resources; ctx_DynClient := dynClient; ctx_DynInformers := dynInformers;
          ctx_McInformerFactory := mcInformerFactory; ctx_McClient := None; ctx_EventRecorder := NewRecorder lib broadcaster;
          ctx_Broadcaster := broadcaster; ctx_configuration := configuration |}.

(** What [NewMetacontroller] of the composite controllers does to the factory:
    the lister, then the informer of the revisions.  And [Start], whose other
    goroutine is [ResourceMap_Start]. *)
Definition request_revisions (f : sharedInformerFactory) : sharedInformerFactory :=
  (controllerRevision_Informer (controllerRevision_Informer f).2).2.
Definition set_McInformerFactory (f : sharedInformerFactory) (c : ControllerContext) : ControllerContext := {|
  ctx_Resources := ctx_Resources c; ctx_DynClient := ctx_DynClient c; ctx_DynInformers := ctx_DynInformers c;
  ctx_McInformerFactory := f; ctx_McClient := ctx_McClient c; ctx_EventRecorder := ctx_EventRecorder c;
  ctx_Broadcaster := ctx_Broadcaster c; ctx_configuration := ctx_configuration c |}.
Definition ControllerContext_Start (c : ControllerContext) : ControllerContext :=
  set_McInformerFactory (StartWithContext (ctx_McInformerFactory c)) c.

(** ** Options *)
Definition target_selector (targetLabelSelector : string) : res Selector :=
  if targetLabelSelector != "" then labels_Parse lib targetLabelSelector else mret Everything.

Definition apply_strategy (strategy : string) : res string :=
  if (strategy == "") || (strategy == "dynamic-apply") then mret ApplyStrategyDynamicApply
  else if strategy == "server-side-apply" then mret ApplyStrategyServerSideApply
  else Err (ErrorString ("unknown apply strategy: " +:+ strategy)).

(** ** Watches *)

Definition byLabelSelectorFilter (labelSelector : Selector) (obj : client_Object) : bool :=
  Matches labelSelector (co_Labels obj).

(** The requests for which a metacontroller's [Reconcile] is called. *)
Definition requests (selector : Selector) (events : list TypedEvent) : list string :=
  EnqueueRequestForObject lib <$> filter (λ e, NewTypedPredicateFuncs lib (byLabelSelectorFilter selector) e) events.

(** ** The server *)

(** The two metacontrollers with what they were given, and the state they share. *)
Record Server := {
  sv_manager : Manager;
  sv_context : ControllerContext;
  sv_selector : Selector;
  sv_workers : Z;
  sv_applyOptions : ApplyOptions;
}.

Definition New (configuration : Configuration Rest LibOptions) : M World Server :=
  mcClient ← lift (wrap_err "can't create client for api metacontroller.k8s.io/v1alpha1"
                     (mcclientset_NewForConfig lib (RestConfig configuration)));
  k8sCommunicationCheck mcClient ;;
  controllerContext ← lift (NewControllerContext configuration mcClient);
  mgr ← lift (NewManager lib (RestConfig configuration) (LibraryOptions configuration) (ctx_Broadcaster controllerContext));
  lift (AddToScheme lib mgr "metacontroller.k8s.io/v1alpha1") ;;
  lift (AddToScheme lib mgr "apiextensions.k8s.io/v1") ;;
  targetLabelSelector ← lift (target_selector (TargetLabelSelector configuration));
  strategy ← lift (apply_strategy (conf_ApplyStrategy configuration));
  let applyOptions := {| ao_FieldManager := SsaFieldManager configuration; ao_Strategy := strategy |} in
  let controllerContext := set_McInformerFactory (request_revisions (ctx_McInformerFactory controllerContext)) controllerContext in
  lift (controller_New lib mgr "composite-metacontroller") ;;
  lift (controller_Watch lib mgr "CompositeController") ;;
  lift (controller_New lib mgr "decorator-metacontroller") ;;
  lift (controller_Watch lib mgr "DecoratorController") ;;
  mret {| sv_manager := mgr; sv_context := ControllerContext_Start controllerContext; sv_selector := targetLabelSelector;
          sv_workers := Workers configuration; sv_applyOptions := applyOptions |}.

(** The process of a server: nothing runs yet. *)
Definition server_process (s : Server) (w : World) : Process := {|
  p_host := {| h_world := w; h_factory := ctx_DynInformers (sv_context s) |};
  p_parentControllers := ∅; p_decoratorControllers := ∅ |}.

(** ** When the server starts *)

(** The outcomes of [k] attempts that fail, each with the wait after it. *)
Inductive failing (client : McClient) : nat → World → World → option error → Prop :=
  | failing_none w : failing client 0 w w None
  | failing_next k w w1 e w2 w3 last : DoRaw lib client w = (Err e, w1) → wait lib w1 = (Ok None, w2) →
      failing client k w2 w3 last → failing client (S k) w w3 (Some (default e last)).

Lemma attempts_left_failing client k n w w' last err :
  failing client k w w' last → (k ≤ n)%nat →
  attempts_left client n err w = attempts_left client (n - k) (match last with Some e => Some e | None => err end) w'.
Proof.
  intros Hf. revert n err. induction Hf as [w|k w w1 e w2 w3 last Hdo Hwait Hf IH]; intros n err Hn.
  { by rewrite Nat.sub_0_r. }
  destruct n as [|n]; [lia|]. simpl. unfold mbind, M_bind, try. rewrite Hdo, Hwait.
  rewrite IH by lia. by destruct last.
Qed.

(** The check succeeds exactly when one of at most six attempts does, after
    failing ones; and the error it returns is that of the sixth attempt, or the
    context's. *)
Theorem k8sCommunicationCheck_spec client w w' :
  k8sCommunicationCheck client w = (Ok (), w') ↔
  ∃ k w1 last, (k < 6)%nat ∧ failing client k w w1 last ∧ DoRaw lib client w1 = (Ok (), w').
Proof.
  unfold k8sCommunicationCheck. split.
  - assert (Hgen : ∀ n err, (n = 0 → err ≠ None) → ∀ w, attempts_left client n err w = (Ok (), w') →
      ∃ k w1 last, (k < n)%nat ∧ failing client k w w1 last ∧ DoRaw lib client w1 = (Ok (), w')).
    { induction n as [|n IH]; intros err Herr w0; simpl; [destruct err; [done|by destruct (Herr eq_refl)]|].
      unfold mbind, M_bind, try. destruct (DoRaw lib client w0) as [[[]|e|s] w1] eqn:Hdo.
      - intros [= <-]. exists 0, w0, None. split_and!; [lia|constructor|done].
      - destruct (wait lib w1) as [[[ctxErr|]|e'|s] w2] eqn:Hwait; try done.
        intros H. apply IH in H as (k & w3 & last & ? & Hf & Hdo'); [|done].
        exists (S k), w3, (Some (default e last)). split_and!; [lia| |done]. by econstructor.
      - done. }
    by apply Hgen.
  - intros (k & w1 & last & Hk & Hf & Hdo). rewrite (attempts_left_failing _ _ _ _ _ _ _ Hf) by lia.
    destruct (6 - k)%nat as [|n] eqn:En; [lia|]. simpl. unfold mbind, M_bind, try. by rewrite Hdo.
Qed.

Lemma apply_strategy_cases strategy s :
  apply_strategy strategy = Ok s ↔
  (strategy = "" ∨ strategy = "dynamic-apply") ∧ s = ApplyStrategyDynamicApply ∨
  strategy = "server-side-apply" ∧ s = ApplyStrategyServerSideApply.
Proof.
  split; [|by intros [[[-> | ->] ->]|[-> ->]]]. unfold apply_strategy.
  repeat case_bool_decide; simpl; (intros [= <-] || done); auto.
Qed.

(** What a server was made of. *)
Lemma New_Ok configuration w s w' :
  New configuration w = (Ok s, w') →
  ∃ client w1 w2 ctx mgr strategy,
    mcclientset_NewForConfig lib (RestConfig configuration) = Ok client ∧
    k8sCommunicationCheck client w1 = (Ok (), w2) ∧
    NewControllerContext configuration client = Ok ctx ∧
    target_selector (TargetLabelSelector configuration) = Ok (sv_selector s) ∧
    apply_strategy (conf_ApplyStrategy configuration) = Ok strategy ∧
    s = {| sv_manager := mgr;
           sv_context := ControllerContext_Start
             (set_McInformerFactory (request_revisions (ctx_McInformerFactory ctx)) ctx);
           sv_selector := sv_selector s; sv_workers := Workers configuration;
           sv_applyOptions := {| ao_FieldManager := SsaFieldManager configuration; ao_Strategy := strategy |} |}.
Proof.
  unfold New. intros H.
  apply bind_Ok in H as (mc & w1 & Hmc & H). apply bind_Ok in H as ([] & w2 & Hcheck & H).
  apply bind_Ok in H as (ctx & w3 & Hctx & H). apply bind_Ok in H as (mgr & w4 & _ & H).
  apply bind_Ok in H as (u1 & w5 & _ & H). apply bind_Ok in H as (u2 & w6 & _ & H).
  apply bind_Ok in H as (sel & w7 & Hsel & H). apply bind_Ok in H as (strategy & w8 & Hstr & H).
  apply bind_Ok in H as (u3 & w9 & _ & H). apply bind_Ok in H as (u4 & w10 & _ & H).
  apply bind_Ok in H as (u5 & w11 & _ & H). apply bind_Ok in H as (u6 & w12 & _ & H).
  injection H as <- <-. injection Hctx as Hctx _. injection Hsel as Hsel _. injection Hstr as Hstr _. injection Hmc as Hmc _.
  exists mc, w1, w2, ctx, mgr, strategy. split_and!; [|done..].
  unfold wrap_err in Hmc. by destruct (mcclientset_NewForConfig lib (RestConfig configuration)); simplify_eq/=.
Qed.
Lemma NewControllerContext_Ok configuration client ctx :
  NewControllerContext configuration client = Ok ctx →
  ctx_McInformerFactory ctx = mc_NewSharedInformerFactory client (InformerRelist configuration) ∧
  ctx_DynInformers ctx = NewSharedInformerFactory {| cs_resources := NewResourceMap |} (InformerRelist configuration).
Proof.
  unfold NewControllerContext. intros H. apply bind_res_Ok in H as (? & _ & H). apply bind_res_Ok in H as (? & Hcs & H).
  apply bind_res_Ok in Hcs as (? & _ & Hcs). injection Hcs as <-. apply bind_res_Ok in H as (? & _ & H). by injection H as <-.
Qed.

(** A server starts only when the API server was reached and the options make
    sense; then nothing runs yet, the informers are empty, both kinds of
    objects are selected by the configured labels, and every sync finds an
    applier for the configured strategy: the switch of the start accepts no
    strategy that the appliers would refuse. *)
Theorem New_started configuration w s w' :
  New configuration w = (Ok s, w') →
  (∃ client w1 w2, k8sCommunicationCheck client w1 = (Ok (), w2)) ∧
  target_selector (TargetLabelSelector configuration) = Ok (sv_selector s) ∧
  (∀ client, match NewApplier client (sv_applyOptions s) with
             | Ok (ServerSideApply c o) => conf_ApplyStrategy configuration = "server-side-apply" ∧ c = client ∧
                                           ao_FieldManager o = SsaFieldManager configuration
             | Ok (DynamicApply c) => conf_ApplyStrategy configuration ∈ [""; "dynamic-apply"] ∧ c = client
             | _ => False
             end) ∧
  server_process s w' = new_process {| cs_resources := NewResourceMap |} (InformerRelist configuration) w'.
Proof.
  intros (client & w1 & w2 & ctx & mgr & strategy & _ & Hcheck & Hctx & Hsel & Hstr & ->)%New_Ok. split_and!.
  - eauto.
  - done.
  - apply apply_strategy_cases in Hstr. intros c. unfold NewApplier. simpl.
    destruct Hstr as [[? ->]|[? ->]]; simpl; [set_solver|done].
  - apply NewControllerContext_Ok in Hctx as [_ Hd]. unfold server_process, new_process. simpl. by rewrite Hd.
Qed.

(** The lister of the revisions, which the composite controllers read, is that of
    an informer of all namespaces, and it runs when the server returns: it is
    the only informer of its factory, requested before [Start]. *)
Lemma revisions_started (client : McClient) defaultResync :
  let f := StartWithContext (request_revisions (mc_NewSharedInformerFactory client defaultResync)) in
  sf_informers f = {[ revision_type := NewRevisionInformer client "" None defaultResync None ]} ∧
  sf_running f = [revision_type] ∧ sf_shuttingDown f = false.
Proof.
  set (i := NewRevisionInformer client "" None defaultResync None).
  set (f := set_informers {[ revision_type := i ]} ∅ [] false (mc_NewSharedInformerFactory client defaultResync)).
  assert (E : request_revisions (mc_NewSharedInformerFactory client defaultResync) = f).
  { unfold request_revisions, controllerRevision_Informer, InformerFor. simpl. rewrite lookup_empty. simpl.
    by rewrite lookup_insert_eq. }
  assert (Hr : range (sf_informers f) = [(revision_type, i)]).
  { apply Permutation_singleton_r. rewrite range_perm. simpl. by rewrite map_to_list_singleton. }
  rewrite E. unfold StartWithContext. change (sf_shuttingDown f) with false. cbv iota. rewrite Hr. done.
Qed.
Theorem New_revision_informer configuration w s w' :
  New configuration w = (Ok s, w') →
  let f := ctx_McInformerFactory (sv_context s) in
  (∃ client, mcclientset_NewForConfig lib (RestConfig configuration) = Ok client ∧
     sf_informers f = {[ revision_type := NewRevisionInformer client "" None (InformerRelist configuration) None ]}) ∧
  sf_running f = [revision_type] ∧ sf_shuttingDown f = false.
Proof.
  intros (client & w1 & w2 & ctx & mgr & strategy & Hmc & _ & Hctx & _ & _ & ->)%New_Ok.
  apply NewControllerContext_Ok in Hctx as [Hf _]. simpl. rewrite Hf.
  destruct (revisions_started client (InformerRelist configuration)) as (H1 & H2 & H3). split; [by exists client|done].
Qed.

(** ** Which controllers are looked after *)
Variable env : Environment.

(** The reconciles of a server for the requests of its two watches, in any order
    and as often as the queues retry them, and what else happens in the cluster. *)
Inductive server_step (composites decorators : list string) : Process → Process → Prop :=
  | server_composite name p r p' :
    name ∈ composites → composite_Reconcile env name p = (r, p') → no_panic r → server_step composites decorators p p'
  | server_decorator name p r p' :
    name ∈ decorators → decorator_Reconcile env name p = (r, p') → no_panic r → server_step composites decorators p p'
  | server_cluster w p : server_step composites decorators p (set_world w p).

Lemma server_step_process composites decorators p p' : server_step composites decorators p p' → process_step env p p'.
Proof. intros [? ? ? ? _ H1 H2|? ? ? ? _ H1 H2|w q]; [by eapply step_composite|by eapply step_decorator|constructor]. Qed.

Lemma composite_reconciled_other name other p r p' m' :
  ObjectLaws env → composite_Reconcile env name p = (r, p') → composite_reconciled env name p r m' → no_panic r → name ≠ other →
  m' !! other = p_parentControllers p !! other.
Proof.
  intros Hlaws Hrun H Hr Hne. unfold composite_reconciled, at_most_stopped, composite_converged in H.
  destruct (env_Get_CompositeController env name _) as [[cc|e|s] w] eqn:Hget; simpl in H.
  - destruct (composite_law env Hlaws _ _ _ _ Hget) as [<- _].
    destruct r; [destruct H as [(pc & -> & _)|[_ ->]]|destruct H as [->| ->]|done];
      rewrite ?lookup_insert_ne, ?lookup_delete_ne by done; done.
  - destruct r; [destruct H as [_ ->]; by apply lookup_delete_ne|by destruct H as (_ & _ & ->)|done].
  - unfold composite_Reconcile, mbind at 1, M_bind at 1, try, on_cluster at 1, on_process at 1, zoom in Hrun. simpl in Hrun.
    rewrite Hget in Hrun. by injection Hrun as <- <-.
Qed.
Lemma decorator_reconciled_other name other p r p' d' :
  ObjectLaws env → decorator_Reconcile env name p = (r, p') → decorator_reconciled env name p r d' → no_panic r → name ≠ other →
  d' !! other = p_decoratorControllers p !! other.
Proof.
  intros Hlaws Hrun H Hr Hne. unfold decorator_reconciled, at_most_stopped, decorator_converged in H.
  destruct (env_Get_DecoratorController env name _) as [[dc|e|s] w] eqn:Hget; simpl in H.
  - destruct (decorator_law env Hlaws _ _ _ _ Hget) as [<- _].
    destruct r; [destruct H as (c & -> & _)|destruct H as [->| ->]|done];
      rewrite ?lookup_insert_ne, ?lookup_delete_ne by done; done.
  - destruct r; [destruct H as [_ ->]; by apply lookup_delete_ne|by destruct H as (_ & _ & ->)|done].
  - unfold decorator_Reconcile, mbind at 1, M_bind at 1, try, on_cluster at 1, on_process at 1, zoom in Hrun. simpl in Hrun.
    rewrite Hget in Hrun. by injection Hrun as <- <-.
Qed.
Lemma server_step_keeps composites decorators leaked p p' :
  ObjectLaws env → process_ok [] [] leaked p → server_step composites decorators p p' →
  (∀ name, name ∉ composites → p_parentControllers p' !! name = p_parentControllers p !! name) ∧
  (∀ name, name ∉ decorators → p_decoratorControllers p' !! name = p_decoratorControllers p !! name).
Proof.
  intros Hlaws Hok Hstep. destruct Hstep as [n p r p' Hn Hrun Hr|n p r p' Hn Hrun Hr|w p]; [| |done].
  - pose proof (composite_Reconcile_ok env leaked n p r p' Hlaws (conj Hok (conj eq_refl eq_refl)) Hrun) as H.
    assert (∃ m', composite_reconciled env n p r m' ∧ process_with leaked m' (p_decoratorControllers p) p')
      as (m' & Hrec & _ & <- & ->) by by destruct r.
    split; [|done]. intros name Hname. eapply composite_reconciled_other; [done..|]. set_solver.
  - pose proof (decorator_Reconcile_ok env leaked n p r p' Hlaws (conj Hok (conj eq_refl eq_refl)) Hrun) as H.
    assert (∃ d', decorator_reconciled env n p r d' ∧ process_leaking leaked (p_parentControllers p) d' p')
      as (d' & Hrec & more & _ & -> & <-) by by destruct r.
    split; [done|]. intros name Hname. eapply decorator_reconciled_other; [done..|]. set_solver.
Qed.

(** Documented behaviour: of an update both look at the new object. *)
Definition event_object (e : TypedEvent) : client_Object :=
  match e with CreateEvent obj => obj | UpdateEvent _ obj => obj | DeleteEvent obj => obj end.
Record WatchLaws : Prop := {
  predicate_law filter e : NewTypedPredicateFuncs lib filter e = filter (event_object e);
  handler_law e : EnqueueRequestForObject lib e = co_Name (event_object e);
}.

(** The events about an object all show labels that the selector does not match. *)
Definition deselected (selector : Selector) (events : list TypedEvent) (name : string) : Prop :=
  ∀ e, e ∈ events → co_Name (event_object e) = name → Matches selector (co_Labels (event_object e)) = false.

Lemma deselected_check selector events name :
  forallb (λ e, (co_Name (event_object e) != name) || negb (Matches selector (co_Labels (event_object e)))) events = true →
  deselected selector events name.
Proof.
  intros H e He Hname. rewrite forallb_forall in H. specialize (H e (proj1 (list_elem_of_In _ _) He)). simpl in H.
  rewrite Hname, bool_decide_true in H by done. by destruct (Matches _ _).
Qed.

Lemma deselected_no_request selector events name :
  WatchLaws → deselected selector events name → name ∉ requests selector events.
Proof.
  intros Hlaws Hd (e & -> & He)%list_elem_of_fmap. apply list_elem_of_filter in He as [Hp He].
  rewrite (predicate_law Hlaws) in Hp. unfold byLabelSelectorFilter in Hp.
  by rewrite (Hd e He (eq_sym (handler_law Hlaws e))) in Hp.
Qed.

(** C34: The label selector of a server decides which objects it notices, not which
    controllers it runs: whatever happens to an object once its labels are
    others, its deletion included, the controller that was started for it keeps
    running as it is. *)
Theorem deselected_keeps_running clientset defaultResync w p p' selector composite_events decorator_events :
  WatchLaws → ObjectLaws env → rtc (process_step env) (new_process clientset defaultResync w) p →
  rtc (server_step (requests selector composite_events) (requests selector decorator_events)) p p' →
  (∀ name, deselected selector composite_events name → p_parentControllers p' !! name = p_parentControllers p !! name) ∧
  (∀ name, deselected selector decorator_events name →
     p_decoratorControllers p' !! name = p_decoratorControllers p !! name).
Proof.
  intros Hwatch Hlaws Hreach Hsteps. induction Hsteps as [p|p p1 p' Hstep Hsteps IH]; [done|].
  destruct (process_ok_reachable env clientset defaultResync w p Hlaws Hreach) as (leaked & Hok).
  destruct (server_step_keeps _ _ _ _ _ Hlaws Hok Hstep) as [Hc Hd].
  destruct IH as [IHc IHd]; [eapply rtc_r; [exact Hreach|by eapply server_step_process]|].
  split; intros name Hname; [rewrite IHc by done; apply Hc|rewrite IHd by done; apply Hd]; by apply deselected_no_request.
Qed.
End server.

(** ** A concrete server *)
Section examples.
#[local] Existing Instance treeAPI.
#[local] Existing Instance listRuntime.
#[local] Existing Instance fakeCluster.
#[local] Existing Instance no_net.
#[local] Existing Instance no_http.
#[local] Instance lengthHash : Xxhash := {| xxhash_Sum64 := λ s, Z.of_nat (String.length s) |}.

(** An informer is what it was made with. *)
#[local] Instance demo_informers : InformerLib unit := {|
  SharedIndexInformer := string * Z; InformerName := unit; TransformFunc := unit; TweakListOptionsFunc := unit;
  NewRevisionInformer := λ _ namespace _ resync _, (namespace, resync); SetTransform := λ _ i, i |}.

(** Every call succeeds, but the API server answers only once two events were
    recorded, and each wait records one. *)
Definition demo_lib : ServerLib (Rest:=unit) (LibOptions:=unit) (McClient:=unit) (Manager:=unit) (Broadcaster:=unit) (Recorder:=unit) := {|
  mcclientset_NewForConfig := mret;
  DoRaw := λ _ w, if (length (w_log w) <? 2)%nat then (Err (ErrorString "connection refused"), w) else (Ok (), w);
  wait := record_event (EvEventf "Waiting" "") ;; mret None;
  NewDiscoveryClientForConfig := mret;
  dynamic_NewForConfig := mret;
  NewBroadcaster := λ _ _, mret ();
  NewRecorder := λ _, ();
  NewManager := λ _ _ _, mret ();
  AddToScheme := λ _ _, mret ();
  controller_New := λ _ _, mret ();
  controller_Watch := λ _ _, mret ();
  labels_Parse := λ s, if s == "team=a" then Ok [{| lsr_Key := "team"; lsr_Operator := "In"; lsr_Values := ["a"] |}]
                       else Err (ErrorString "unable to parse requirement");
  NewTypedPredicateFuncs := λ filter e, filter (event_object e);
  EnqueueRequestForObject := λ e, co_Name (event_object e);
|}.
Definition demo_configuration (selector strategy : string) : Configuration unit unit := {|
  RestConfig := (); DiscoveryInterval := 30; InformerRelist := 1800; Workers := 5; LibraryOptions := ();
  TargetLabelSelector := selector; conf_ApplyStrategy := strategy; SsaFieldManager := "metacontroller" |}.
Definition demo_New (selector strategy : string) : res Server := (New demo_lib (demo_configuration selector strategy) things_world).1.

(** Two attempts fail and the third succeeds; an unknown strategy and a bad
    selector are refused. *)
Definition outcome (r : res (Server (Rest:=unit) (LibOptions:=unit) (McClient:=unit) (Manager:=unit) (Broadcaster:=unit) (Recorder:=unit))) : string :=
  match r with Ok s => ao_Strategy (sv_applyOptions s) | Err (ErrorString msg) => msg | _ => "" end.
Example server_starts :
  outcome (demo_New "team=a" "") = "dynamic-apply" ∧
  outcome (demo_New "" "apply") = "unknown apply strategy: apply" ∧
  outcome (demo_New "team==" "") = "unable to parse requirement".
Proof. split_and!; vm_compute; reflexivity. Qed.

Lemma New_started_witness :
  match New demo_lib (demo_configuration "team=a" "server-side-apply") things_world with
  | (Ok s, w) => server_process s w = new_process {| cs_resources := NewResourceMap |} 1800 w
  | _ => False
  end.
Proof.
  assert (H : is_Ok (New demo_lib (demo_configuration "team=a" "server-side-apply") things_world).1 = true)
    by (vm_compute; reflexivity).
  destruct (New demo_lib (demo_configuration "team=a" "server-side-apply") things_world) as [[s|e|e] w] eqn:E; [|discriminate..].
  exact (proj2 (proj2 (proj2 (New_started demo_lib (demo_configuration "team=a" "server-side-apply") things_world s w E)))).
Defined.

Lemma New_revision_informer_witness :
  match New demo_lib (demo_configuration "team=a" "server-side-apply") things_world with
  | (Ok s, _) => sf_running (ctx_McInformerFactory (sv_context s)) = ["*v1alpha1.ControllerRevision"]
  | _ => False
  end.
Proof.
  assert (H : is_Ok (New demo_lib (demo_configuration "team=a" "server-side-apply") things_world).1 = true)
    by (vm_compute; reflexivity).
  destruct (New demo_lib (demo_configuration "team=a" "server-side-apply") things_world) as [[s|e|e] w] eqn:E; [|discriminate..].
  apply (New_revision_informer demo_lib (demo_configuration "team=a" "server-side-apply") things_world s w E).
Defined.

(** The object of the running controller moves to another team and is deleted. *)
Definition team_a : Selector := [{| lsr_Key := "team"; lsr_Operator := "In"; lsr_Values := ["a"] |}].
Definition of_team (name team : string) : client_Object := {| co_Name := name; co_Labels := {[ "team" := team ]} |}.
Definition move_and_delete : list TypedEvent :=
  [CreateEvent (of_team "other" "a"); UpdateEvent (of_team "demo" "a") (of_team "demo" "b"); DeleteEvent (of_team "demo" "b")].

Lemma deselected_keeps_running_witness :
  let p := (composite_Reconcile demo_env "demo" demo_process).2 in
  let p' := (composite_Reconcile demo_env "other" p).2 in
  requests demo_lib team_a move_and_delete = ["other"] ∧
  is_Some (p_parentControllers p' !! "demo") ∧ p_parentControllers p' !! "demo" = p_parentControllers p !! "demo".
Proof.
  assert (Hreq : requests demo_lib team_a move_and_delete = ["other"]) by (vm_compute; reflexivity).
  set (run := composite_Reconcile demo_env "demo" demo_process).
  assert (Hrun : is_Ok run.1 && bool_decide (is_Some (p_parentControllers run.2 !! "demo")) &&
    is_Ok (composite_Reconcile demo_env "other" run.2).1 = true) by (vm_compute; reflexivity).
  destruct run as [r p] eqn:E. simpl in *. apply andb_prop in Hrun as [Hrun Hok]. apply andb_prop in Hrun as [Hr Hsome%bool_decide_eq_true].
  destruct (composite_Reconcile demo_env "other" p) as [r' p'] eqn:E'. simpl in *.
  assert (Hstep : process_step demo_env demo_process p) by (eapply step_composite; [exact E|by destruct r]).
  destruct (deselected_keeps_running demo_lib demo_env host_clientset 0 things_world p p' team_a move_and_delete [] ltac:(by split) demo_laws (rtc_once _ _ Hstep))
    as [H _].
  - apply rtc_once. eapply server_composite; [|exact E'|by destruct r']. rewrite Hreq. by left.
  - assert (Heq : p_parentControllers p' !! "demo" = p_parentControllers p !! "demo").
    { apply H, deselected_check. vm_compute. reflexivity. }
    split_and!; [done|by rewrite Heq|done].
Defined.
End examples.
