(* ===== verification/Main.v ===== *)
(** * The process: [pkg/cmd/metacontroller/main.go], [pkg/profile] and [pkg/events]

    Flags become a configuration, the configuration a server, and the server
    runs until the process is told to stop; a profiler may run beside it.  The
    first part is a function of what the libraries answer, the second a step
    relation of the goroutines.  Parsing the command line, signals, health
    checks, HTTP servers and event sinks are libraries'. *)
From S2P Require Import Prelude Value K8s K8sInst Discovery Types World ClientSet FakeCluster ManageChildren Informer Endpoint ParentController Webhook Lifecycle.
From S2P Require Import GeneratedClients Server.
From stdpp Require Import options.

(** ** Flags

    A duration is its nanoseconds, a float64 its IEEE-754 bits. *)
Record flags := {
  discoveryInterval : Z;
  informerRelist : Z;
  metricsAddr : string;
  clientGoQPS : Z;
  clientGoBurst : Z;
  workers : Z;
  eventsQPS : Z;
  eventsBurst : Z;
  pprofAddr : string;
  leaderElection : bool;
  leaderElectionResourceLock : string;
  leaderElectionNamespace : string;
  leaderElectionID : string;
  healthProbeBindAddress : string;
  targetLabelSelector : string;
  applyStrategy : string;
  ssaFieldManager : string;
}.
Definition float64_5 : Z := 4617315517961601024.
Definition float64_1_300 : Z := 4569832565890358095.
Definition default_flags : flags := {|
  discoveryInterval := 30 * time_Second; informerRelist := 30 * 60 * time_Second; metricsAddr := ":9999";
  clientGoQPS := float64_5; clientGoBurst := 10; workers := 5; eventsQPS := float64_1_300; eventsBurst := 25;
  pprofAddr := "0"; leaderElection := false; leaderElectionResourceLock := "leases"; leaderElectionNamespace := "";
  leaderElectionID := "metacontroller"; healthProbeBindAddress := ":8081"; targetLabelSelector := "";
  applyStrategy := "dynamic-apply"; ssaFieldManager := "metacontroller" |}.

Section main.
Context {RT : GoRuntime} {API : Apimachinery} {CL : Cluster} {NL : NetLib} {HL : HttpLib World} {XX : Xxhash}.
Context {RL : RestLib} {RC : RestClients} {IL : InformerLib mcClientset}.
Context {Manager EventBroadcaster Recorder CoreClient : Type}.

(** [record.CorrelatorOptions], and what else of the configuration only goes to
    libraries. *)
Record CorrelatorOptions := { co_BurstSize : Z; co_QPS : float32 }.
Record library_options := {
  lo_CorrelatorOptions : CorrelatorOptions;
  lo_MetricsEndpoint : string;
  lo_HealthProbeBindAddress : string;
  lo_LeaderElection : bool;
  lo_LeaderElectionResourceLock : string;
  lo_LeaderElectionNamespace : string;
  lo_LeaderElectionID : string;
}.

(** What [main] takes from libraries; the client and the broadcaster of
    [main_server] are not used, they are the repository's own. *)
Record MainLib := {
  main_server : ServerLib (Rest:=rest_Config) (LibOptions:=library_options) (McClient:=mcClientset) (Manager:=Manager)
                  (Broadcaster:=EventBroadcaster) (Recorder:=Recorder);
  discovery_DoRaw : RESTClient → M World unit;
  to_float32 : Z → float32;
  GetConfig : res rest_Config;
  kubernetes_NewForConfig : rest_Config → res CoreClient;
  NewBroadcasterWithCorrelatorOptions : CorrelatorOptions → EventBroadcaster;
  StartRecordingToSink : CoreClient → EventBroadcaster → EventBroadcaster;
  AddHealthzCheck : Manager → string → res unit;
  AddReadyzCheck : Manager → string → res unit;
}.
Variable lib : MainLib.

(** [events.NewBroadcaster] *)
Definition events_NewBroadcaster (config : rest_Config) (options : CorrelatorOptions) : res EventBroadcaster :=
  let broadcaster := NewBroadcasterWithCorrelatorOptions lib options in
  clientSet ← kubernetes_NewForConfig lib config;
  mret (StartRecordingToSink lib clientSet broadcaster).

(** The server with the repository's clients. *)
Definition main_lib : ServerLib := {|
  mcclientset_NewForConfig := NewForConfig;
  DoRaw := λ client, discovery_DoRaw lib (mc_DiscoveryClient client);
  wait := wait (main_server lib);
  NewDiscoveryClientForConfig := NewDiscoveryClientForConfig (main_server lib);
  dynamic_NewForConfig := dynamic_NewForConfig (main_server lib);
  NewBroadcaster := λ config options, events_NewBroadcaster config (lo_CorrelatorOptions options);
  NewRecorder := NewRecorder (main_server lib);
  NewManager := NewManager (main_server lib);
  AddToScheme := AddToScheme (main_server lib);
  controller_New := controller_New (main_server lib);
  controller_Watch := controller_Watch (main_server lib);
  labels_Parse := labels_Parse (main_server lib);
  NewTypedPredicateFuncs := NewTypedPredicateFuncs (main_server lib);
  EnqueueRequestForObject := EnqueueRequestForObject (main_server lib);
|}.

(** [config.QPS = ...; config.Burst = ...] *)
Definition set_rate (qps : float32) (burst : Z) (c : rest_Config) : rest_Config := {|
  rest_QPS := qps; rest_Burst := burst; rest_RateLimiter := rest_RateLimiter c; rest_UserAgent := rest_UserAgent c;
  rest_GroupVersion := rest_GroupVersion c; rest_APIPath := rest_APIPath c;
  rest_NegotiatedSerializer := rest_NegotiatedSerializer c; rest_extra := rest_extra c |}.

Definition configuration_of (f : flags) (config : rest_Config) : Configuration rest_Config library_options := {|
  RestConfig := set_rate (to_float32 lib (clientGoQPS f)) (clientGoBurst f) config;
  DiscoveryInterval := discoveryInterval f;
  InformerRelist := informerRelist f;
  Workers := workers f;
  LibraryOptions := {|
    lo_CorrelatorOptions := {| co_BurstSize := eventsBurst f; co_QPS := to_float32 lib (eventsQPS f) |};
    lo_MetricsEndpoint := metricsAddr f; lo_HealthProbeBindAddress := healthProbeBindAddress f;
    lo_LeaderElection := leaderElection f; lo_LeaderElectionResourceLock := leaderElectionResourceLock f;
    lo_LeaderElectionNamespace := leaderElectionNamespace f; lo_LeaderElectionID := leaderElectionID f |};
  TargetLabelSelector := targetLabelSelector f;
  conf_ApplyStrategy := applyStrategy f;
  SsaFieldManager := ssaFieldManager f |}.

(** [main] up to the start of the manager: an error is logged, and the process
    exits with 1. *)
Definition main_setup (f : flags) : M World Server :=
  config ← lift (GetConfig lib);
  mgr ← New main_lib (configuration_of f config);
  lift (AddHealthzCheck lib (sv_manager mgr) "healthz") ;;
  lift (AddReadyzCheck lib (sv_manager mgr) "readyz") ;;
  mret mgr.
Definition exit_code {A} (r : res A) : option Z :=
  match r with Ok _ => None | Err _ => Some 1%Z | Panic _ => Some 2%Z end.

(** The flags of the rate are checked by the client, before anything is asked
    of the API server: a burst that is not positive ends the process. *)
Theorem bad_burst_exits f config httpClient w :
  GetConfig lib = Ok config → rest_RateLimiter config = None →
  rest_HTTPClientFor (let c := set_rate (to_float32 lib (clientGoQPS f)) (clientGoBurst f) config in
                      if rest_UserAgent c == "" then set_UserAgent DefaultKubernetesUserAgent c else c) = Ok httpClient →
  positive32 (to_float32 lib (clientGoQPS f)) = true → (clientGoBurst f ≤ 0)%Z →
  main_setup f w = (Err (WrapError "can't create client for api metacontroller.k8s.io/v1alpha1" burst_required), w) ∧
  exit_code (main_setup f w).1 = Some 1%Z.
Proof.
  intros Hc Hl Hh Hq Hb.
  assert (E : main_setup f w = (Err (WrapError "can't create client for api metacontroller.k8s.io/v1alpha1" burst_required), w)).
  { unfold main_setup. rewrite Hc. unfold New, main_lib, mbind, M_bind, lift. simpl.
    by rewrite (NewForConfig_burst _ httpClient Hh Hl Hq Hb). }
  by rewrite E.
Qed.

(** A process that sets up with the flags as they are by default manages every
    controller object, applies its changes itself, runs five workers of each
    controller, and reads the revisions of all namespaces through a client of
    five queries a second, relisted every half an hour. *)
Theorem default_setup config w s w' :
  GetConfig lib = Ok config → main_setup default_flags w = (Ok s, w') →
  sv_selector s = Everything ∧ sv_workers s = 5%Z ∧ (∀ client, NewApplier client (sv_applyOptions s) = Ok (DynamicApply client)) ∧
  ∃ client, NewForConfig (set_rate (to_float32 lib float64_5) 10 config) = Ok client ∧
    sf_informers (ctx_McInformerFactory (sv_context s)) =
      {[ revision_type := NewRevisionInformer client "" None (30 * 60 * time_Second)%Z None ]}.
Proof.
  intros Hc H. unfold main_setup in H. rewrite Hc in H. apply bind_Ok in H as (? & w1 & [= <- <-] & H).
  apply bind_Ok in H as (s' & w2 & Hnew & H). apply bind_Ok in H as (? & w3 & _ & H). apply bind_Ok in H as (? & w4 & _ & H).
  injection H as -> _. apply New_Ok in Hnew as (client & w5 & w6 & ctx & mgr & strategy & Hclient & _ & Hctx & Hsel & Hstr & ->).
  apply NewControllerContext_Ok in Hctx as [Hf _]. apply apply_strategy_cases in Hstr as [[_ ->]|[? _]]; [|done].
  split_and!; [by injection Hsel|done..|]. exists client. split; [done|]. simpl. rewrite Hf. apply revisions_started.
Qed.
End main.

(** ** The running process *)

(** The goroutines of [EnablePprof]: the one that waits for the context and shuts
    the server down, and the one that serves; [closes] counts how often the
    channel was closed, [once] is whether [closeOnce] was used. *)
Inductive shutdown_state := ShutdownWaiting | ShuttingDown | ShutdownDone.
Record profiler := { pp_shutdown : shutdown_state; pp_serving : bool; pp_once : bool; pp_closes : nat }.
Definition new_profiler : profiler :=
  {| pp_shutdown := ShutdownWaiting; pp_serving := true; pp_once := false; pp_closes := 0 |}.
(** [closeOnce.Do(func() { close(pprofStopChan) })] *)
Definition close_stop_chan (p : profiler) : profiler :=
  {| pp_shutdown := pp_shutdown p; pp_serving := pp_serving p; pp_once := true;
     pp_closes := if pp_once p then pp_closes p else S (pp_closes p) |}.
Definition set_shutdown (st : shutdown_state) (p : profiler) : profiler :=
  {| pp_shutdown := st; pp_serving := pp_serving p; pp_once := pp_once p; pp_closes := pp_closes p |}.
Definition stop_serving (p : profiler) : profiler :=
  {| pp_shutdown := pp_shutdown p; pp_serving := false; pp_once := pp_once p; pp_closes := pp_closes p |}.
(** What is served, and how, does not matter here. *)
Definition EnablePprof (address : string) : option profiler := if address == "0" then None else Some new_profiler.

(** [main] after it started the manager: in front of the channel of the profiler,
    of the context, of the wait group. *)
Inductive main_state := AtPprof | AtContext | AtWaitGroup.
Record process := {
  pr_signalled : bool;
  pr_profiler : option profiler;
  pr_manager_done : bool;
  pr_main : main_state;
  pr_exit : option Z;
}.
Definition set_profiler (p : profiler) (s : process) : process :=
  {| pr_signalled := pr_signalled s; pr_profiler := Some p; pr_manager_done := pr_manager_done s; pr_main := pr_main s; pr_exit := pr_exit s |}.
Definition set_main (m : main_state) (s : process) : process :=
  {| pr_signalled := pr_signalled s; pr_profiler := pr_profiler s; pr_manager_done := pr_manager_done s; pr_main := m; pr_exit := pr_exit s |}.
Definition set_exit (code : Z) (s : process) : process :=
  {| pr_signalled := pr_signalled s; pr_profiler := pr_profiler s; pr_manager_done := pr_manager_done s; pr_main := pr_main s;
     pr_exit := Some code |}.
Definition new_main (f : flags) : process :=
  {| pr_signalled := false; pr_profiler := EnablePprof (pprofAddr f); pr_manager_done := false; pr_main := AtPprof; pr_exit := None |}.

(** Documented behaviour that is built in: the manager's [Start] returns once the
    context is cancelled, [Shutdown] returns by its deadline, and
    [ListenAndServe] returns [ErrServerClosed] after it. *)
Inductive main_step : process → process → Prop :=
  | manager_returns s : pr_exit s = None → pr_signalled s = true → pr_manager_done s = false →
    main_step s {| pr_signalled := true; pr_profiler := pr_profiler s; pr_manager_done := true; pr_main := pr_main s; pr_exit := None |}
  | pprof_shuts_down s p : pr_exit s = None → pr_profiler s = Some p → pr_signalled s = true → pp_shutdown p = ShutdownWaiting →
    main_step s (set_profiler (set_shutdown ShuttingDown p) s)
  | pprof_shut_down s p : pr_exit s = None → pr_profiler s = Some p → pp_shutdown p = ShuttingDown →
    main_step s (set_profiler (close_stop_chan (set_shutdown ShutdownDone p)) s)
  | pprof_closed s p : pr_exit s = None → pr_profiler s = Some p → pp_serving p = true → pp_shutdown p ≠ ShutdownWaiting →
    main_step s (set_profiler (stop_serving p) s)
  | main_past_pprof s : pr_exit s = None → pr_main s = AtPprof → (∀ p, pr_profiler s = Some p → pp_closes p ≠ 0) →
    main_step s (set_main AtContext s)
  | main_past_context s : pr_exit s = None → pr_main s = AtContext → pr_signalled s = true → main_step s (set_main AtWaitGroup s)
  | main_returns s : pr_exit s = None → pr_main s = AtWaitGroup → pr_manager_done s = true → main_step s (set_exit 0 s).

(** A first signal, and a second; the manager fails; the profiler cannot serve. *)
Inductive outer_step : process → process → Prop :=
  | signal s : pr_exit s = None → pr_signalled s = false →
    outer_step s {| pr_signalled := true; pr_profiler := pr_profiler s; pr_manager_done := pr_manager_done s; pr_main := pr_main s; pr_exit := None |}
  | second_signal s : pr_exit s = None → pr_signalled s = true → outer_step s (set_exit 1 s)
  | manager_fails s : pr_exit s = None → pr_manager_done s = false → outer_step s (set_exit 1 s)
  | pprof_fails s p : pr_exit s = None → pr_profiler s = Some p → pp_serving p = true →
    outer_step s (set_profiler (close_stop_chan (stop_serving p)) s).
Abbreviation step := (any main_step outer_step).
Definition main_reachable (s : process) : Prop := ∃ f, rtc step (new_main f) s.

Record main_invariant (s : process) : Prop := {
  mi_profiler p : pr_profiler s = Some p →
    (pp_closes p = if pp_once p then 1 else 0) ∧
    (pp_shutdown p ≠ ShutdownWaiting → pr_signalled s = true) ∧
    (pp_shutdown p = ShutdownDone → pp_once p = true) ∧
    (pr_main s ≠ AtPprof → pp_once p = true);
  mi_main : pr_main s = AtWaitGroup → pr_signalled s = true;
  mi_manager : pr_manager_done s = true → pr_signalled s = true;
  mi_exit : pr_exit s = None ∨ pr_exit s = Some 1%Z ∨ pr_exit s = Some 0%Z ∧ pr_main s = AtWaitGroup ∧ pr_manager_done s = true;
}.
Lemma main_invariant_new f : main_invariant (new_main f).
Proof.
  split; simpl; [|done|done|by left]. unfold EnablePprof. intros p. case_bool_decide; [done|]. by intros [= <-].
Qed.

(** The profiler takes a step. *)
Lemma main_invariant_profiler s p p' :
  main_invariant s → pr_exit s = None → pr_profiler s = Some p →
  ((pp_closes p' = if pp_once p' then 1 else 0) ∧ (pp_shutdown p' ≠ ShutdownWaiting → pr_signalled s = true) ∧
   (pp_shutdown p' = ShutdownDone → pp_once p' = true) ∧ (pp_once p = true → pp_once p' = true)) →
  main_invariant (set_profiler p' s).
Proof.
  intros [Hp Hm Hmg He] Hex Hs (H1 & H2 & H3 & H4). destruct (Hp p Hs) as (_ & _ & _ & H5).
  split; simpl; [|done|done|by left]. intros p1 [= <-]. split_and!; auto.
Qed.
Lemma close_once p : (pp_closes p = if pp_once p then 1 else 0) → pp_closes (close_stop_chan p) = 1.
Proof. unfold close_stop_chan. simpl. intros ->. by destruct (pp_once p). Qed.

Lemma main_invariant_step s s' : main_invariant s → step s s' → main_invariant s'.
Proof.
  intros HI [Hstep|Hstep]; destruct Hstep as [s Hex Hsig Hmg|s p Hex Hp Hsig Hsh|s p Hex Hp Hsh|s p Hex Hp Hsv Hsh|s Hex Hm Hc|
    s Hex Hm Hsig|s Hex Hm Hmg] || destruct Hstep as [s Hex Hsig|s Hex Hsig|s Hex Hmg|s p Hex Hp Hsv].
  - destruct HI as [Hp Hm Hmg' He]. split; simpl; [|done|done|by left]. intros p H. destruct (Hp p H) as (? & ? & ? & ?). auto.
  - destruct (mi_profiler s HI p Hp) as (H1 & H2 & H3 & H4). eapply main_invariant_profiler; [done..|]. simpl. auto.
  - destruct (mi_profiler s HI p Hp) as (H1 & H2 & H3 & H4). eapply main_invariant_profiler; [done..|].
    rewrite close_once by done. simpl. rewrite Hsh in H2. auto.
  - destruct (mi_profiler s HI p Hp) as (H1 & H2 & H3 & H4). eapply main_invariant_profiler; [done..|]. simpl. auto.
  - destruct HI as [Hp Hm' Hmg' He]. split; simpl; [|done|done|by left]. intros p H. destruct (Hp p H) as (H1 & H2 & H3 & H4).
    split_and!; [done..|]. intros _. specialize (Hc p H). rewrite H1 in Hc. by destruct (pp_once p).
  - destruct HI as [Hp Hm' Hmg' He]. split; simpl; [|done|done|by left]. intros p H. destruct (Hp p H) as (H1 & H2 & H3 & H4).
    split_and!; [done..|]. intros _. apply H4. by rewrite Hm.
  - destruct HI as [Hp Hm' Hmg' He]. split; simpl; [done..|]. by right; right.
  - destruct HI as [Hp Hm' Hmg' He]. split; simpl; [|done|done|by left]. intros p H. destruct (Hp p H) as (? & ? & ? & ?). auto.
  - destruct HI as [Hp Hm' Hmg' He]. split; simpl; [done..|]. by right; left.
  - destruct HI as [Hp Hm' Hmg' He]. split; simpl; [done..|]. by right; left.
  - destruct (mi_profiler s HI p Hp) as (H1 & H2 & H3 & H4). eapply main_invariant_profiler; [done..|].
    rewrite close_once by done. simpl. auto.
Qed.
Lemma main_invariant_reachable s : main_reachable s → main_invariant s.
Proof.
  intros (f & H). eapply (rtc_invariant main_step outer_step); [apply main_invariant_step|exact H|apply main_invariant_new].
Qed.

Definition main_work (s : process) : nat :=
  match pr_exit s with
  | Some _ => 0
  | None =>
    1 + (if pr_manager_done s then 0 else 1) +
    match pr_main s with AtPprof => 2 | AtContext => 1 | AtWaitGroup => 0 end +
    match pr_profiler s with
    | None => 0
    | Some p => (match pp_shutdown p with ShutdownWaiting => 2 | ShuttingDown => 1 | ShutdownDone => 0 end) +
                if pp_serving p then 1 else 0
    end
  end.
Lemma main_work_step s s' : main_step s s' → main_work s' < main_work s.
Proof.
  intros Hstep. unfold main_work. destruct Hstep as [s Hex Hsig Hmg|s p Hex Hp Hsig Hsh|s p Hex Hp Hsh|s p Hex Hp Hsv Hsh|s Hex Hm Hc|
    s Hex Hm Hsig|s Hex Hm Hmg]; simpl; rewrite Hex, ?Hmg, ?Hm, ?Hp; simpl; rewrite ?Hsh, ?Hsv; simpl; lia.
Qed.

(** The process ends: once it is told to stop, what its goroutines do is finite,
    and they only rest when it has exited, with or without a profiler and
    whether that could serve or not. *)
Theorem process_ends s :
  main_reachable s → pr_signalled s = true → sn main_step s ∧ (nf main_step s → is_Some (pr_exit s)).
Proof.
  intros HI%main_invariant_reachable Hsig. split.
  { apply (own_sn main_step outer_step main_invariant main_work); [apply main_invariant_step|by intros; apply main_work_step|done]. }
  intros Hnf. destruct (pr_exit s) eqn:Hex; [done|exfalso].
  assert (Hmg : pr_manager_done s = true).
  { destruct (pr_manager_done s) eqn:E; [done|]. destruct Hnf. eexists. by apply manager_returns. }
  destruct (pr_main s) eqn:Hm.
  - destruct Hnf. destruct (pr_profiler s) as [p|] eqn:Hp; [|eexists; by apply main_past_pprof; congruence].
    destruct (mi_profiler s HI p Hp) as (H1 & _ & H3 & _).
    destruct (pp_shutdown p) eqn:Hsh; eexists; [by eapply pprof_shuts_down|by eapply pprof_shut_down|].
    apply main_past_pprof; [done..|]. intros p' [= <-]%(eq_trans (eq_sym Hp)). rewrite H1, H3; done.
  - destruct Hnf. eexists. by apply main_past_context.
  - destruct Hnf. eexists. by apply main_returns.
Qed.

(** And it ends in order: with code 0 only after a signal, when the manager is
    done and the profiler, if there is one, has been told so; the channel is
    never closed twice. *)
Theorem process_ends_in_order s :
  main_reachable s →
  (pr_exit s = Some 0%Z → pr_signalled s = true ∧ pr_manager_done s = true ∧ ∀ p, pr_profiler s = Some p → pp_closes p = 1) ∧
  (∀ p, pr_profiler s = Some p → pp_closes p ≤ 1) ∧ (pr_exit s = None ∨ pr_exit s = Some 0%Z ∨ pr_exit s = Some 1%Z).
Proof.
  intros [Hp Hm Hmg He]%main_invariant_reachable. split_and!.
  - intros E. destruct He as [He|[He|(_ & Hw & Hd)]]; [congruence..|]. split_and!; [by apply Hm|done|].
    intros p Hpr. destruct (Hp p Hpr) as (-> & _ & _ & H). rewrite H; [done|]. by rewrite Hw.
  - intros p Hpr. destruct (Hp p Hpr) as (-> & _). destruct (pp_once p); lia.
  - destruct He as [?|[?|[? _]]]; auto.
Qed.

(** ** A concrete process *)
Section examples.
#[local] Existing Instance treeAPI.
#[local] Existing Instance listRuntime.
#[local] Existing Instance fakeCluster.
#[local] Existing Instance no_net.
#[local] Existing Instance no_http.
#[local] Existing Instance lengthHash.
(** A client is the configuration it was made of. *)
#[local] Instance demo_rest : RestLib := {|
  float32 := Z; positive32 := λ bits, (0 <? bits)%Z; RateLimiter := Z * Z; NegotiatedSerializer := unit; rest_Extra := unit;
  http_ClientOf := unit; RESTClient := option (Z * Z); DefaultKubernetesUserAgent := "metacontroller"; generated_serializer := ();
  NewTokenBucketRateLimiter := λ qps burst, (qps, burst) |}.
#[local] Instance demo_clients : RestClients := {|
  rest_HTTPClientFor := λ _, Ok (); RESTClientForConfigAndClient := λ c _, Ok (rest_RateLimiter c);
  NewDiscoveryClientForConfigAndClient := λ c _, Ok (rest_RateLimiter c) |}.
#[local] Instance main_informers : InformerLib mcClientset := {|
  SharedIndexInformer := option (Z * Z) * Z; InformerName := unit; TransformFunc := unit; TweakListOptionsFunc := unit;
  NewRevisionInformer := λ client _ _ resync _, (mc_metacontrollerV1alpha1 client, resync); SetTransform := λ _ i, i |}.

Definition demo_main_server : ServerLib (Rest:=rest_Config) (LibOptions:=library_options) (McClient:=mcClientset) (Manager:=unit)
    (Broadcaster:=unit) (Recorder:=unit) := {|
  mcclientset_NewForConfig := λ _, Err (ErrorString "not used"); DoRaw := λ _, throw (ErrorString "not used"); wait := mret None;
  NewDiscoveryClientForConfig := λ _, mret (); dynamic_NewForConfig := λ _, mret (); NewBroadcaster := λ _ _, mret ();
  NewRecorder := λ _, (); NewManager := λ _ _ _, mret (); AddToScheme := λ _ _, mret (); controller_New := λ _ _, mret ();
  controller_Watch := λ _ _, mret (); labels_Parse := λ _, Err (ErrorString "unable to parse requirement");
  NewTypedPredicateFuncs := λ filter e, filter (event_object e); EnqueueRequestForObject := λ e, co_Name (event_object e) |}.
Definition demo_config : rest_Config := {|
  rest_QPS := 0%Z : float32; rest_Burst := 0; rest_RateLimiter := None; rest_UserAgent := ""; rest_GroupVersion := None; rest_APIPath := "";
  rest_NegotiatedSerializer := None; rest_extra := () : rest_Extra |}.
Definition demo_main : MainLib (Manager:=unit) (EventBroadcaster:=unit) (Recorder:=unit) (CoreClient:=unit) := {|
  main_server := demo_main_server; discovery_DoRaw := λ _, mret (); to_float32 := λ bits, bits; GetConfig := Ok demo_config;
  kubernetes_NewForConfig := λ _, mret (); NewBroadcasterWithCorrelatorOptions := λ _, (); StartRecordingToSink := λ _ _, ();
  AddHealthzCheck := λ _ _, mret (); AddReadyzCheck := λ _ _, mret () |}.
Definition with_burst (burst : Z) : flags := {|
  discoveryInterval := 30; informerRelist := 30; metricsAddr := ":9999"; clientGoQPS := float64_5; clientGoBurst := burst; workers := 5;
  eventsQPS := float64_1_300; eventsBurst := 25; pprofAddr := ":6060"; leaderElection := false; leaderElectionResourceLock := "leases";
  leaderElectionNamespace := ""; leaderElectionID := "metacontroller"; healthProbeBindAddress := ":8081"; targetLabelSelector := "";
  applyStrategy := ""; ssaFieldManager := "metacontroller" |}.

Lemma bad_burst_exits_witness : exit_code (main_setup demo_main (with_burst 0) (fake_world [])).1 = Some 1%Z.
Proof. by eapply (bad_burst_exits demo_main (with_burst 0) demo_config). Defined.

Lemma default_setup_witness :
  exit_code (main_setup demo_main default_flags (fake_world [])).1 = None ∧
  match main_setup demo_main default_flags (fake_world []) with
  | (Ok s, _) => sf_informers (ctx_McInformerFactory (sv_context s)) =
                   {[ revision_type := (Some (float64_5, 10%Z), (30 * 60 * time_Second)%Z) ]}
  | _ => False
  end.
Proof.
  assert (H : is_Ok (main_setup demo_main default_flags (fake_world [])).1 = true) by (vm_compute; reflexivity).
  destruct (main_setup demo_main default_flags (fake_world [])) as [[s|e|e] w] eqn:E; [|discriminate..]. split; [done|].
  destruct (default_setup demo_main demo_config (fake_world []) s w eq_refl E) as (_ & _ & _ & client & Hclient & ->).
  simpl in Hclient. injection Hclient as <-. done.
Defined.

(** The profiler could not listen; then the process is told to stop. *)
Definition demo_stopping : process := {|
  pr_signalled := true;
  pr_profiler := Some {| pp_shutdown := ShutdownWaiting; pp_serving := false; pp_once := true; pp_closes := 1 |};
  pr_manager_done := false; pr_main := AtContext; pr_exit := None |}.
Lemma demo_stopping_reachable : main_reachable demo_stopping.
Proof.
  exists (with_burst 1).
  eapply rtc_l; [right; apply (pprof_fails _ new_profiler); reflexivity|].
  eapply rtc_l; [left; apply main_past_pprof; [reflexivity..|]; by intros p [= <-]|].
  eapply rtc_l; [right; apply signal; reflexivity|]. apply rtc_refl.
Qed.
Lemma process_ends_witness :
  sn main_step demo_stopping ∧ (nf main_step demo_stopping → is_Some (pr_exit demo_stopping)).
Proof. exact (process_ends demo_stopping demo_stopping_reachable eq_refl). Defined.
Lemma process_ends_in_order_witness : ∀ p, pr_profiler demo_stopping = Some p → pp_closes p ≤ 1.
Proof. exact (proj1 (proj2 (process_ends_in_order demo_stopping demo_stopping_reachable))). Defined.
End examples.
